(* ===== verification/_CoqProject ===== *)
-Q . S2P
Prelude.v
Text.v
Serialize.v
SerialHeap.v
BpfMaps.v
BpfSched.v
BpfConcurrency.v
BpfLoader.v
TtShm.v
TimerMaster.v
Segment.v
SchedStat.v
GpdataWriter.v
Floats.v
Workloads.v
RtTask.v
RtMain.v
PeerDbus.v
SchedInfoWire.v
TrpcPeers.v
Tlog.v
NodeConfig.v
Messages.v
NodeClient.v
GlobalScheduler.v
SchedInfoService.v
Faults.v
NodeMain.v
NodeTable.v
NodeRecovery.v
NodeDaemon.v
NodeSystem.v
Orchestrator.v
OrchestratorDaemon.v
StartUp.v
EndToEnd.v
NodeLink.v
Cluster.v
FaultPath.v
