(* ===== verification/Prelude.v ===== *)
(** * TIMPANI: a verification library

    TIMPANI schedules the time-triggered (TT) and constant-bandwidth (CBS)
    tasks of vehicle workloads.  Pullpiri sends workloads to the orchestrator
    timpani-o, which computes one schedule table per node and brings the
    tables to the nodes; on each node timpani-n writes the table into the maps
    of a sched_ext BPF program and wakes the TT tasks at their offsets, through
    a shared memory segment the tasks sleep on.  Deadline misses travel back:
    BPF ring buffer, timpani-n, timpani-o, Pullpiri.  libtrpc is an older
    D-Bus transport with its own pair of programs, sample-apps holds tasks to
    schedule.

    This development translates the C and C++ of these programs and proves
    what makes each part correct, and what the parts promise each other.
    Names of definitions are those of the sources where that is possible.

    ** The files

    Shared: [Prelude] (fixed-width integers, the [outcome] of code with
    undefined behaviour, byte order, memory blocks, ordered traversal of maps,
    the specification of [std::sort], lists of map writes), [Text] (the string
    functions of the C and C++ libraries), [Floats] (IEEE formats),
    [Messages] (proto/node_control.proto).

    timpani-o (src/timpani-o/src):
    - [NodeConfig]: node_config.cpp, the reader of the YAML file;
    - [GlobalScheduler]: global_scheduler.cpp, the five steps from classified
      tasks to a table, with [find_free_slot] and the hyperperiod arithmetic;
    - [SchedInfoService]: schedinfo_service.cpp, workloads and tables;
    - [Orchestrator]: orchestrator_service.cpp (streams, pushes, broadcast),
      recovery_service.cpp, and the replay loop of main.cpp;
    - [OrchestratorDaemon]: options and start-up of main.cpp, the server and
      the dump of the tables, and the daemon as a state machine;
    - [StartUp]: requests that arrive while [main] is still starting;
    - [Faults] (with timpani-n's fault_monitor.cpp): fault_client.cpp;
    - [Tlog]: tlog.h.

    timpani-n (src/timpani-n/src):
    - [BpfMaps], [BpfSched]: bpf/maps.h and every callback of
      bpf/timpani.bpf.c, as functions of the maps, the time and the CPU;
    - [BpfConcurrency]: the helpers of timpani.bpf.c again (TT accounting,
      refilling and charging of a server), as the loads and stores of calls
      that overlap on several CPUs;
    - [BpfLoader]: bpf_loader.cpp, isolated CPUs, loading, map calls;
    - [TimerMaster]: timer_master.cpp, with [TtShm] (sample-apps/src/
      libttsched.c) the two sides of the wake-up segment; [Segment] has them
      again as the stores of the daemon and the loads of the tasks, futex
      calls between them;
    - [SchedStat], [GpdataWriter]: bpf/schedstat.bpf.c, schedstat_monitor.cpp,
      gpdata_writer.cpp, the execution traces;
    - [NodeClient]: grpc/node_client.cpp, the stream and its reconnection;
    - [NodeMain], [NodeTable], [NodeRecovery]: the callbacks of main.cpp, the
      contents a table gives the maps, what a stop signal removes;
    - [NodeDaemon]: options, task_registry.cpp, start and end of main.cpp;
    - [NodeSystem]: kernel callbacks, commands, faults and timer actions as
      the steps of one system.

    Together: [EndToEnd] takes a generated table to the timer threads of a
    node, [NodeLink] says what a node's steps tell its orchestrator and which
    tables it has taken, [Cluster] joins the orchestrator and all the nodes by
    streams that can break at any moment, [FaultPath] follows the faults from
    the ring buffers of the nodes to Pullpiri.

    libtrpc: [Serialize] (serialize.c on buffers as values), [SerialHeap] (the
    same functions on a heap of blocks), [PeerDbus] (peer_dbus.c),
    [SchedInfoWire] and [TrpcPeers] (test/trpc_server.c, trpc_client.c).
    sample-apps: [Workloads], [RtTask], [RtMain] (sample_apps.c, cbstask.c,
    sched.c).

    ** How the code is rendered

    A component's state is a record, an operation a function from state to
    state.  [outcome A] is [Ret a] or [UB], where the C or C++ standard leaves
    the behaviour undefined (an access outside an object, signed overflow) or
    where a search would not end; an exception of the C++ library is [None].
    Unsigned arithmetic is written with its wrap-around ([u8], [u32], [u64],
    [wrap]), signed results are checked ([cint]) or converted ([to_signed]).
    [std::map] is a [gmap] read in key order ([ascending]); [std::sort] is any
    function with the promises of the standard ([StdSort], [StdSortLaws]), so
    that no theorem depends on the order of equal elements.  BPF hash maps are
    finite maps with a capacity, array maps are lists of fixed length.

    What has no code here is an argument: clocks, the process table, files,
    [getopt], libbpf, gRPC (sessions of a stream, results of writes and of
    [BuildAndStart]), libsystemd, the kernel functions of sched_ext.  Calls
    that only have an effect outside are recorded in order: kfuncs, futex
    wakes, scheduling system calls, messages written.

    Locks make the steps: a callback, an RPC, an event of a stream, a turn of
    the replay loop and an iteration of a timer thread are atomic; everything
    else is interleaved at will ([NodeSystem.reaches],
    [OrchestratorDaemon.reach], [TimerMaster.srun], [Orchestrator.reachable]).
    Tasks take no lock of timpani-n: what [TimerMaster] does in one step they
    see store by store ([Segment.seg_step]), under sequential consistency.
    [Segment.publish_code_refines], [fire_code_refines],
    [destroy_code_refines] and [call_alone] say that both renderings agree
    when nothing interferes.  In [Cluster] the messages of a stream queue up
    in order, and a stream that breaks loses what it held.

    ** What the theorems show

    - The kernel side ([BpfSched]): the count of runnable TT tasks of a CPU is
      exact, CBS tasks get no more than their budget in a period, a slice ends
      before the next TT slot, replenishment keeps its phase, funded tasks are
      promoted.  With the helpers load by load and everything overlapping that
      the run-queue locks do not exclude, each CPU's accounts are still those
      of its runnable tasks whenever no call is inside for it, and no server
      exceeds its budget ([BpfConcurrency]); elsewhere a callback is one step.
    - The generator: a table is a feasible schedule - each job of each
      hyperperiod of a CPU within its window, no overlap -, refusals name a
      true reason, the free-slot search is first fit, gaps are the complement
      of the slots, CBS tasks are all budgeted, and the generator terminates.
    - The orchestrator: over all interleavings, nodes are sent only tables
      generated from accepted requests; an accepted request reaches every
      connected node in the next turn; failed pushes are repeated within 8
      seconds, after any history, and bring the current table; a node that was
      not due has what the loop last pushed, which is current unless tables
      changed unannounced; a stop command reaches every stream that takes it.
    - The node: with room in the maps and stable processes, applying a table
      installs its slots, entries, limits and timers, besides what the node did
      not track or evict, and reports the truth; a stopped workload leaves
      nothing; as long as every table finds such room, what the timer announces
      is installed, in every reachable state; for all tables every value keeps
      its C type and no map outgrows its capacity.
    - Wake-ups: a task that waits is woken on the slot it waits on, whatever
      tables came before; a task new to a table gets the lowest free slot; a
      task that stays in the tables, and whose name one byte tells from the
      others', loses no wake-up to any interleaving of its loads with the
      daemon's stores, and nobody else sleeps on its slot ([Segment]); timer
      threads fire in phase with the epoch; from the generator to the targets
      of the threads, reservations of a CPU never overlap when the TT periods
      divide the table's hyperperiod and the node has room ([EndToEnd]).
    - The whole system ([Cluster]): in every state the orchestrator and its
      nodes can reach, whatever streams broke, the reservations a node's
      threads hold on a CPU do not overlap, when the periods of the accepted
      requests share a horizon below 2^31 us; and from every such state a
      request that is accepted is installed on every node whose stream then
      holds, once the node has read it.
    - The way back ([FaultPath]): every report a node makes is accepted by
      Pullpiri, waits, is on a stream or was dropped from a full queue, once;
      and it arrives, in order, when the stream is read and Pullpiri accepts.
    - Transport, traces and samples: round trips of the serializers, and that
      using a buffer on the heap leaks nothing and touches nothing else
      ([SerialHeap]); the wire format and the configuration file; the session protocol of the peers;
      reconnection of the node client; ordered trace records with bounded
      conversion error; the sample task reports what it printed.

    Lemmas without a claim number record behaviour that is worth knowing and
    is not what the code seems to mean, on concrete runs: a reconnecting node
    that is lost or not noticed, a task that sleeps on the slot of another or
    for ever because of an update or the daemon's end at the wrong moment, a table whose hyperperiod was cut to 32 bits,
    a refused update that removes the running version, and others.

    ** Bounds and fuel

    [gcd] has fuel 129, enough for 64-bit operands because two steps halve the
    larger one ([gcd_loop_spec]); [find_free_slot] has one unit for each
    occupied interval, since each step passes one for good
    ([find_free_slot_ends]); [set_range] runs at most 64 times; the sieve gets
    its limit.  Placement theorems ask for times below 2^31 us, because the
    position is returned as [int32_t]; wake-up times for instants below 2^64
    ns; traces for readings below 2^62 ns.  Map capacities are those of
    maps.h: 2048, 1024 and 4096 entries.

    ** Not modelled

    The text of log lines (except the logger itself and the dump of the
    tables) and the jitter statistics of the timer threads; overlaps of BPF
    callbacks other than those of [BpfConcurrency], since elsewhere a callback
    is one step; memory weaker than sequential consistency; the generated
    protobuf code, vmlinux.h (type definitions), the Rust reimplementation
    (timpani_rust), tests, build files and scripts. *)
From stdpp Require Import prelude gmap strings list fin_maps sorting.
From Stdlib Require Import ZArith Lia.

Local Open Scope Z_scope.

(** ** Machine integers *)

(** [wrap w x] is the value of [x] stored in an unsigned [w]-bit object. *)
Definition wrap (w x : Z) : Z := x mod 2 ^ w.
Abbreviation u8 := (wrap 8) (only parsing).
Abbreviation u16 := (wrap 16) (only parsing).
Abbreviation u32 := (wrap 32) (only parsing).
Abbreviation u64 := (wrap 64) (only parsing).

(** [to_signed w x] reinterprets the [w]-bit pattern of [x] in two's
    complement. *)
Definition to_signed (w x : Z) : Z :=
  let y := wrap w x in if y <? 2 ^ (w - 1) then y else y - 2 ^ w.
Abbreviation i32 := (to_signed 32) (only parsing).

Definition uword (w x : Z) : Prop := 0 <= x < 2 ^ w.
Definition sword (w x : Z) : Prop := - 2 ^ (w - 1) <= x < 2 ^ (w - 1).

Lemma wrap_small w x : uword w x -> wrap w x = x.
Proof. intros H. by apply Z.mod_small. Qed.

Lemma wrap_range w x : 0 <= w -> uword w (wrap w x).
Proof. intros H. apply Z.mod_pos_bound, Z.pow_pos_nonneg; lia. Qed.

Lemma wrap_idem w x : 0 <= w -> wrap w (wrap w x) = wrap w x.
Proof. intros. apply wrap_small. by apply wrap_range. Qed.

Lemma wrap_le w x : 0 <= w -> 0 <= x -> wrap w x <= x.
Proof. intros. apply Z.mod_le; [lia|]. apply Z.pow_pos_nonneg; lia. Qed.

Lemma pow2_split w : 0 < w -> 2 ^ w = 2 * 2 ^ (w - 1).
Proof. intros. rewrite <- Z.pow_succ_r by lia. f_equal. lia. Qed.

Lemma to_signed_wrap w x : 0 < w -> sword w x -> to_signed w (wrap w x) = x.
Proof.
  intros Hw [Hl Hu]. unfold to_signed. rewrite wrap_idem by lia. unfold wrap.
  pose proof (pow2_split w Hw) as Hp.
  destruct (decide (0 <= x)).
  - rewrite Z.mod_small by lia.
    destruct (Z.ltb_spec x (2 ^ (w - 1))); lia.
  - rewrite <- (Z.mod_add x 1) by lia. rewrite Z.mul_1_l, Z.mod_small by lia.
    destruct (Z.ltb_spec (x + 2 ^ w) (2 ^ (w - 1))); lia.
Qed.

Lemma to_signed_range w x : 0 < w -> sword w (to_signed w x).
Proof.
  intros Hw. unfold to_signed, sword.
  destruct (wrap_range w x) as [Hl Hu]; [lia|].
  pose proof (pow2_split w Hw).
  destruct (Z.ltb_spec (wrap w x) (2 ^ (w - 1))); lia.
Qed.

Create HintDb words.
#[export] Hint Rewrite wrap_small using (unfold uword; lia) : words.
#[export] Hint Resolve wrap_range : words.

(** Removes every [wrap] whose argument is provably in range. *)
Ltac unwrap := autorewrite with words in *.

(** ** Partial results

    [outcome A] is the result of C code: a value, or [UB] once the code has
    performed an access the language leaves undefined. *)
Inductive outcome (A : Type) : Type :=
  | Ret (a : A)
  | UB.
Arguments Ret {A} _.
Arguments UB {A}.

Definition obind {A B} (m : outcome A) (k : A -> outcome B) : outcome B :=
  match m with Ret a => k a | UB => UB end.

Declare Scope c_scope.
Delimit Scope c_scope with c.
Notation "x <-c m ; k" := (obind m (fun x => k))
  (at level 100, m at next level, right associativity) : c_scope.
Definition defined {A} (m : outcome A) : Prop :=
  match m with Ret _ => True | UB => False end.

(** A run that was evaluated. *)
Lemma evaluated {A} (o : option A) (Q : A -> Prop) :
  match o with Some x => Q x | None => False end -> exists x, o = Some x /\ Q x.
Proof. destruct o as [x|]; [eauto|done]. Qed.

Lemma obind_ret {A B} (m : outcome A) (k : A -> outcome B) b :
  obind m k = Ret b <-> exists a, m = Ret a /\ k a = Ret b.
Proof. destruct m as [a|]; cbn; [|naive_solver]. split; [eauto|by intros (? & [= <-] & ?)]. Qed.

(** ** Objects in memory: a block of bytes, each a value below 256 *)

Definition zlen {A} (l : list A) : Z := Z.of_nat (length l).

(** [mem_write m off src] is [memcpy(m + off, src, length src)]. *)
Definition mem_write (m : list Z) (off : Z) (src : list Z) : outcome (list Z) :=
  if (0 <=? off) && (off + zlen src <=? zlen m)
  then Ret (take (Z.to_nat off) m ++ src ++ drop (Z.to_nat (off + zlen src)) m)
  else UB.

(** [mem_read m off n] is the [n] bytes [memcpy] reads at [m + off]. *)
Definition mem_read (m : list Z) (off n : Z) : outcome (list Z) :=
  if (0 <=? off) && (0 <=? n) && (off + n <=? zlen m)
  then Ret (take (Z.to_nat n) (drop (Z.to_nat off) m))
  else UB.

Lemma zlen_nonneg {A} (l : list A) : 0 <= zlen l.
Proof. unfold zlen; lia. Qed.
Lemma zlen_app {A} (l k : list A) : zlen (l ++ k) = zlen l + zlen k.
Proof. unfold zlen. rewrite length_app. lia. Qed.
Lemma zlen_cons {A} (x : A) l : zlen (x :: l) = 1 + zlen l.
Proof. unfold zlen. cbn [length]. lia. Qed.

Lemma mem_write_ok m off src :
  0 <= off -> off + zlen src <= zlen m ->
  mem_write m off src
  = Ret (take (Z.to_nat off) m ++ src ++ drop (Z.to_nat (off + zlen src)) m).
Proof.
  intros H1 H2. unfold mem_write.
  apply Z.leb_le in H1, H2. by rewrite H1, H2.
Qed.

Lemma mem_write_length m off src m' :
  mem_write m off src = Ret m' -> length m' = length m.
Proof.
  unfold mem_write. destruct (_ && _) eqn:E; [|done].
  apply andb_true_iff in E as [E1 E2]. apply Z.leb_le in E1, E2.
  intros [= <-]. unfold zlen in *.
  rewrite !length_app, length_take, length_drop. lia.
Qed.

Lemma mem_write_prefix m off src m' :
  mem_write m off src = Ret m' ->
  take (Z.to_nat (off + zlen src)) m' = take (Z.to_nat off) m ++ src.
Proof.
  unfold mem_write. destruct (_ && _) eqn:E; [|done].
  apply andb_true_iff in E as [E1 E2]. apply Z.leb_le in E1, E2.
  intros [= <-]. rewrite app_assoc. unfold zlen in *.
  apply take_app_length'. rewrite length_app, length_take. lia.
Qed.

Lemma mem_read_ok m off n :
  0 <= off -> 0 <= n -> off + n <= zlen m ->
  mem_read m off n = Ret (take (Z.to_nat n) (drop (Z.to_nat off) m)).
Proof.
  intros H1 H2 H3. unfold mem_read.
  apply Z.leb_le in H1, H2, H3. by rewrite H1, H2, H3.
Qed.

(** ** Byte strings of integers *)

Fixpoint le_bytes (n : nat) (x : Z) : list Z :=
  match n with
  | O => []
  | S n => x mod 256 :: le_bytes n (x / 256)
  end.

Fixpoint le_value (l : list Z) : Z :=
  match l with
  | [] => 0
  | b :: l => b + 256 * le_value l
  end.

Definition be_bytes (n : nat) (x : Z) : list Z := rev (le_bytes n x).
Definition be_value (l : list Z) : Z := le_value (rev l).

(** The byte-swapping library functions: [bswap_16], [bswap_32], [bswap_64]. *)
Definition bswap (n : nat) (x : Z) : Z := le_value (be_bytes n x).

Definition is_byte (b : Z) : Prop := 0 <= b < 256.

Lemma length_le_bytes n x : length (le_bytes n x) = n.
Proof. revert x; induction n; intros; cbn; auto. Qed.
Lemma length_be_bytes n x : length (be_bytes n x) = n.
Proof. unfold be_bytes. by rewrite length_rev, length_le_bytes. Qed.
Lemma zlen_be_bytes n x : zlen (be_bytes n x) = Z.of_nat n.
Proof. unfold zlen. by rewrite length_be_bytes. Qed.

Lemma le_bytes_are_bytes n x : Forall is_byte (le_bytes n x).
Proof.
  revert x; induction n; intros; cbn; constructor; auto.
  apply Z.mod_pos_bound; lia.
Qed.
Lemma be_bytes_are_bytes n x : Forall is_byte (be_bytes n x).
Proof. apply Forall_rev, le_bytes_are_bytes. Qed.

Lemma le_value_le_bytes n x : le_value (le_bytes n x) = x mod 256 ^ Z.of_nat n.
Proof.
  revert x; induction n as [|n IH]; intros x.
  - cbn. by rewrite Z.mod_1_r.
  - cbn [le_bytes le_value]. rewrite IH.
    rewrite Nat2Z.inj_succ, Z.pow_succ_r by lia.
    rewrite Z.rem_mul_r by lia. lia.
Qed.

Lemma le_bytes_le_value l :
  Forall is_byte l -> le_bytes (length l) (le_value l) = l.
Proof.
  induction 1 as [|b l Hb Hl IH]; [done|].
  cbn [le_bytes le_value length]. unfold is_byte in Hb.
  rewrite (Z.mul_comm 256), Z.mod_add, Z.div_add by lia.
  rewrite Z.mod_small, Z.div_small, Z.add_0_l by lia. by rewrite IH.
Qed.

Lemma pow256 n : 256 ^ Z.of_nat n = 2 ^ (8 * Z.of_nat n).
Proof. rewrite Z.pow_mul_r by lia. done. Qed.

Lemma be_value_be_bytes n x :
  be_value (be_bytes n x) = wrap (8 * Z.of_nat n) x.
Proof.
  unfold be_value, be_bytes, wrap.
  by rewrite rev_involutive, le_value_le_bytes, pow256.
Qed.

Lemma le_bytes_bswap n x : le_bytes n (bswap n x) = be_bytes n x.
Proof.
  unfold bswap. rewrite <- (length_be_bytes n x) at 1.
  apply le_bytes_le_value, be_bytes_are_bytes.
Qed.

Lemma bswap_le_value l :
  Forall is_byte l -> bswap (length l) (le_value l) = be_value l.
Proof.
  intros H. unfold bswap, be_value, be_bytes. by rewrite le_bytes_le_value.
Qed.

(** ** Counting the entries of a map that satisfy a property *)

Section MapCount.
Context {K V : Type} `{Countable K} (P : V -> Prop) `{!forall v, Decision (P v)}.

Definition map_count (m : gmap K V) : Z :=
  Z.of_nat (size (filter (fun kv => P kv.2) m)).

Definition indicator (o : option V) : Z :=
  match o with Some v => if decide (P v) then 1 else 0 | None => 0 end.

Lemma map_count_insert_fresh k v m :
  m !! k = None -> map_count (<[k := v]> m) = map_count m + indicator (Some v).
Proof.
  intros Hk. unfold map_count, indicator. case_decide as HP.
  - rewrite map_filter_insert_True by done.
    rewrite map_size_insert_None; [lia|].
    apply map_lookup_filter_None_2. by left.
  - rewrite map_filter_insert_False by done. by rewrite delete_id, Z.add_0_r.
Qed.

Lemma map_count_delete k m : map_count (delete k m) = map_count m - indicator (m !! k).
Proof.
  destruct (m !! k) as [v|] eqn:E.
  - rewrite <- (insert_delete_id m k v E) at 2.
    rewrite map_count_insert_fresh by apply lookup_delete_eq. lia.
  - rewrite delete_id by done. cbn. lia.
Qed.

Lemma map_count_insert k v m :
  map_count (<[k := v]> m) = map_count m - indicator (m !! k) + indicator (Some v).
Proof.
  rewrite <- insert_delete_eq, map_count_insert_fresh by apply lookup_delete_eq.
  by rewrite map_count_delete.
Qed.

Lemma map_count_nonneg m : 0 <= map_count m.
Proof. unfold map_count. lia. Qed.

Lemma map_count_bound m : map_count m <= Z.of_nat (size m).
Proof.
  unfold map_count. apply inj_le. apply map_subseteq_size, map_filter_subseteq.
Qed.

Lemma map_count_zero m :
  map_count m = 0 <-> forall k v, m !! k = Some v -> ~ P v.
Proof.
  unfold map_count. split.
  - intros Hz k v Hk HP.
    assert (Hf : filter (fun kv => P kv.2) m = ∅) by (apply map_size_empty_inv; lia).
    assert (filter (fun kv => P kv.2) m !! k = Some v) as Hs
      by (by apply map_lookup_filter_Some_2).
    rewrite Hf in Hs. by rewrite lookup_empty in Hs.
  - intros Hall. assert (filter (fun kv => P kv.2) m = ∅) as ->; [|done].
    apply map_empty_filter_2. intros k v Hk. by apply (Hall k).
Qed.
End MapCount.
#[global] Arguments map_count {K V _ _} P {_} m.
#[global] Arguments indicator {V} P {_} o : simpl never.

(** ** The order of an ordered map

    [std::map] is iterated in ascending key order. *)

Section Ascending.
Context {K V : Type} `{Countable K} (R : K -> K -> Prop) `{!RelDecision R}.

Definition key_le (a b : K * V) : Prop := R a.1 b.1.
#[global] Instance key_le_dec : RelDecision key_le.
Proof. intros a b. unfold key_le. apply _. Defined.

Definition ascending (m : gmap K V) : list (K * V) := merge_sort key_le (map_to_list m).

Lemma ascending_perm m : ascending m ≡ₚ map_to_list m.
Proof. apply merge_sort_Permutation. Qed.

Lemma elem_of_ascending m k v : (k, v) ∈ ascending m <-> m !! k = Some v.
Proof. by rewrite ascending_perm, elem_of_map_to_list. Qed.

Lemma NoDup_ascending_keys m : NoDup (ascending m).*1.
Proof. rewrite ascending_perm. apply NoDup_fst_map_to_list. Qed.

Lemma Sorted_ascending `{!Total R} m : Sorted key_le (ascending m).
Proof.
  assert (Total key_le) by (intros a b; apply (total R)).
  apply (Sorted_merge_sort key_le).
Qed.
End Ascending.

(** ** [std::sort]

    The comparison has to be a strict weak ordering; the order of equivalent
    elements is left unspecified. *)
Class StdSort := std_sort_lt : forall {A}, (A -> A -> bool) -> list A -> list A.

Definition strict_weak {A} (lt : A -> A -> bool) : Prop :=
  (forall a b, lt a b = true -> lt b a = false) /\
  (forall a b c, lt b a = false -> lt c b = false -> lt c a = false).

Class StdSortLaws `{!StdSort} := {
  std_sort_lt_perm : forall {A} (lt : A -> A -> bool) l, std_sort_lt lt l ≡ₚ l;
  std_sort_lt_sorted : forall {A} (lt : A -> A -> bool) l,
    strict_weak lt -> StronglySorted (fun a b => lt b a = false) (std_sort_lt lt l);
}.

(** Sorting by an integer key, ascending. *)
Definition std_sort `{!StdSort} {A} (key : A -> Z) : list A -> list A :=
  std_sort_lt (fun a b => key a <? key b).

Lemma std_sort_perm `{!StdSort, !StdSortLaws} {A} (key : A -> Z) l : std_sort key l ≡ₚ l.
Proof. apply std_sort_lt_perm. Qed.

Lemma StronglySorted_impl {A} (R R' : A -> A -> Prop) l :
  (forall a b, R a b -> R' a b) -> StronglySorted R l -> StronglySorted R' l.
Proof. intros HR. induction 1; constructor; auto. eapply Forall_impl; eauto. Qed.

Lemma std_sort_sorted `{!StdSort, !StdSortLaws} {A} (key : A -> Z) l :
  StronglySorted (fun a b => key a <= key b) (std_sort key l).
Proof.
  refine (StronglySorted_impl _ _ _ _ (std_sort_lt_sorted _ l _)).
  - intros a b. apply Z.ltb_ge.
  - split; intros *; rewrite ?Z.ltb_lt, ?Z.ltb_ge; lia.
Qed.

(** A stable instance. *)
Definition not_after {A} (lt : A -> A -> bool) (a b : A) : Prop := lt b a = false.
#[global] Instance not_after_dec {A} (lt : A -> A -> bool) : RelDecision (not_after lt).
Proof. intros a b. unfold not_after. apply _. Defined.
Definition stable_sort : StdSort := fun A lt l => merge_sort (not_after lt) l.

Lemma stable_sort_laws : @StdSortLaws stable_sort.
Proof.
  split; intros A lt l.
  - apply merge_sort_Permutation.
  - intros [Hasym Htrans]. apply Sorted_StronglySorted.
    + intros a b c. apply Htrans.
    + assert (Total (not_after lt)).
      { intros a b. unfold not_after. destruct (lt b a) eqn:E; [right; by apply Hasym|by left]. }
      apply (Sorted_merge_sort (not_after lt)).
Qed.

Lemma StronglySorted_lookup {A} (R : A -> A -> Prop) l i j x y :
  StronglySorted R l -> l !! i = Some x -> l !! j = Some y -> (i < j)%nat -> R x y.
Proof.
  intros Hs. revert i j. induction Hs as [|z l Hs IH Hz]; intros [|i] [|j] Hx Hy Hij;
    cbn in *; try done; try lia.
  - simplify_eq. by apply (Forall_lookup_1 _ _ _ _ Hz Hy).
  - by apply (IH i j); [..|lia].
Qed.

Lemma StronglySorted_perm {A} (R : A -> A -> Prop) `{!Symmetric R} l l' :
  l ≡ₚ l' -> StronglySorted R l -> StronglySorted R l'.
Proof.
  induction 1 as [|x l l' Hp IH|x y l|l1 l2 l3 _ IH1 _ IH2]; intros Hs; [done| | |auto].
  - apply StronglySorted_cons in Hs as [Hx Hs]. apply StronglySorted_cons.
    split; [by rewrite <- Hp|auto].
  - apply StronglySorted_cons in Hs as [[Hyx Hy]%Forall_cons [Hx Hs]%StronglySorted_cons].
    by repeat constructor.
Qed.

Lemma StronglySorted_and {A} (R R' : A -> A -> Prop) l :
  StronglySorted R l -> StronglySorted R' l -> StronglySorted (fun a b => R a b /\ R' a b) l.
Proof.
  induction 1 as [|x l Hs IH Hx]; intros H; constructor; apply StronglySorted_cons in H as [Hx' Hs']; [by apply IH|].
  by apply Forall_and.
Qed.

(** ** Signed arithmetic and arrays of C

    The value of an [int] expression: undefined when it overflows. *)
Definition INT_MIN : Z := -2147483648.
Definition INT_MAX : Z := 2147483647.
Definition cint (x : Z) : outcome Z :=
  if (INT_MIN <=? x) && (x <=? INT_MAX) then Ret x else UB.

Lemma cint_ok x : INT_MIN <= x <= INT_MAX -> cint x = Ret x.
Proof. intros [H1 H2]. unfold cint. by rewrite (proj2 (Z.leb_le _ _) H1), (proj2 (Z.leb_le _ _) H2). Qed.

Lemma cint_overflow x : INT_MAX < x -> cint x = UB.
Proof. intros H. unfold cint. by rewrite (proj2 (Z.leb_gt _ _) H), andb_false_r. Qed.

(** Reading and writing an element of an array. *)
Definition aget {A} (a : list A) (i : Z) : outcome A :=
  if i <? 0 then UB else match a !! Z.to_nat i with Some x => Ret x | None => UB end.
Definition aset {A} (a : list A) (i : Z) (x : A) : outcome (list A) :=
  if (0 <=? i) && (i <? zlen a) then Ret (<[Z.to_nat i := x]> a) else UB.

Lemma aget_ok {A} (a : list A) i x : 0 <= i -> a !! Z.to_nat i = Some x -> aget a i = Ret x.
Proof. intros Hi Hx. unfold aget. by rewrite (proj2 (Z.ltb_ge _ _) Hi), Hx. Qed.

Lemma aset_ok {A} (a : list A) i x : 0 <= i < zlen a -> aset a i x = Ret (<[Z.to_nat i := x]> a).
Proof. intros [H1 H2]. unfold aset. by rewrite (proj2 (Z.leb_le _ _) H1), (proj2 (Z.ltb_lt _ _) H2). Qed.

(** ** Invariants of folds *)

Lemma foldl_inv {A B} (P : A -> Prop) (g : A -> B -> A) l acc :
  P acc -> (forall a b, P a -> P (g a b)) -> P (foldl g acc l).
Proof.
  intros Ha Hg. revert acc Ha. induction l as [|b l IH]; intros acc Ha; [done|].
  cbn [foldl]. auto.
Qed.

(** Replaces the powers of two of the machine widths by their values. *)
Ltac pows :=
  change (2 ^ 64) with 18446744073709551616 in *;
  change (2 ^ 63) with 9223372036854775808 in *;
  change (2 ^ 62) with 4611686018427387904 in *;
  change (2 ^ 61) with 2305843009213693952 in *;
  change (2 ^ 60) with 1152921504606846976 in *;
  change (2 ^ 59) with 576460752303423488 in *;
  change (2 ^ 32) with 4294967296 in *;
  change (2 ^ 31) with 2147483648 in *;
  change (2 ^ 16) with 65536 in *.

(** ** Loops that may be left by an exception *)

Fixpoint fold_opt {A B} (f : A -> B -> option A) (a : A) (l : list B) : option A :=
  match l with
  | [] => Some a
  | b :: l => match f a b with Some a => fold_opt f a l | None => None end
  end.

Lemma fold_opt_app {A B} (f : A -> B -> option A) a l k :
  fold_opt f a (l ++ k) = match fold_opt f a l with Some a => fold_opt f a k | None => None end.
Proof. revert a. induction l as [|b l IH]; intros a; cbn; [done|]. by destruct (f a b). Qed.

Lemma fold_opt_fmap {A B C} (f : A -> B -> option A) (g : C -> B) a l :
  fold_opt f a (g <$> l) = fold_opt (fun a c => f a (g c)) a l.
Proof. revert a. induction l as [|b l IH]; intros a; cbn; [done|]. by destruct (f a (g b)). Qed.

Lemma omap_app {A B} (f : A -> option B) l k : omap f (l ++ k) = omap f l ++ omap f k.
Proof. induction l as [|x l IH]; [done|]. cbn. destruct (f x); cbn; by rewrite IH. Qed.

(** ** Sequences of writes to and deletions from a map *)

Section Writes.
Context {K V : Type} `{Countable K}.

Definition writes (m : gmap K V) (l : list (K * V)) : gmap K V := foldl (fun m kv => <[kv.1 := kv.2]> m) m l.
Definition drop_keys (m : gmap K V) (ks : list K) : gmap K V := foldl (fun m k => delete k m) m ks.

Lemma writes_snoc m l kv : writes m (l ++ [kv]) = <[kv.1 := kv.2]> (writes m l).
Proof. unfold writes. by rewrite foldl_app. Qed.

(** The last write of a key counts. *)
Lemma writes_lookup m l k :
  writes m l !! k = match last (filter (fun kv => kv.1 = k) l) with Some kv => Some kv.2 | None => m !! k end.
Proof.
  induction l as [|kv l IH] using rev_ind; [done|]. rewrite writes_snoc, filter_app, lookup_insert.
  case_decide as E.
  - rewrite filter_cons_True by done. by rewrite filter_nil, last_snoc.
  - rewrite filter_cons_False by done. by rewrite filter_nil, app_nil_r.
Qed.

Lemma writes_size m l : (size (writes m l) <= size m + length l)%nat.
Proof.
  induction l as [|kv l IH] using rev_ind; [cbn; lia|]. rewrite writes_snoc, length_app. cbn [length].
  rewrite map_size_insert. destruct (writes m l !! kv.1); cbn; lia.
Qed.

(** Without repeated keys the order does not matter. *)
Lemma writes_NoDup m l k v : NoDup l.*1 -> (k, v) ∈ l -> writes m l !! k = Some v.
Proof.
  intros Hn Hin. rewrite writes_lookup. destruct (last _) as [[k' v']|] eqn:E.
  - apply last_Some in E as [l' E].
    assert (Hf : (k', v') ∈ filter (fun kv => kv.1 = k) l) by (rewrite E; apply elem_of_app; right; by left).
    apply list_elem_of_filter in Hf as [Hk Hin']. cbn in Hk. subst k'. cbn. f_equal.
    apply list_elem_of_lookup in Hin as [i Hi], Hin' as [j Hj].
    assert (i = j) as ->; [|congruence]. eapply NoDup_lookup; [exact Hn|..]; rewrite list_lookup_fmap.
    + by rewrite Hi.
    + by rewrite Hj.
  - apply last_None in E. assert (Hf : (k, v) ∈ filter (fun kv => kv.1 = k) l) by by apply list_elem_of_filter.
    rewrite E in Hf. by apply not_elem_of_nil in Hf.
Qed.
Lemma writes_not_elem m l k : k ∉ l.*1 -> writes m l !! k = m !! k.
Proof.
  intros Hn. rewrite writes_lookup. destruct (last _) as [kv|] eqn:E; [|done]. exfalso. apply Hn.
  apply last_Some in E as [l' E].
  assert (Hf : kv ∈ filter (fun kv => kv.1 = k) l) by (rewrite E; apply elem_of_app; right; by left).
  apply list_elem_of_filter in Hf as [<- Hin]. by apply list_elem_of_fmap_2.
Qed.

Lemma drop_keys_lookup m ks k : drop_keys m ks !! k = if decide (k ∈ ks) then None else m !! k.
Proof.
  unfold drop_keys. revert m. induction ks as [|x ks IH]; intros m; cbn [foldl]; [done|]. rewrite IH.
  destruct (decide (k ∈ ks)); [by rewrite decide_True by (by right)|].
  destruct (decide (k = x)) as [->|]; [rewrite lookup_delete_eq; by rewrite decide_True by (by left)|].
  rewrite lookup_delete_ne by done. rewrite decide_False; [done|]. intros [?|?]%elem_of_cons; done.
Qed.
Lemma drop_keys_app m ks ks' : drop_keys (drop_keys m ks) ks' = drop_keys m (ks ++ ks').
Proof. unfold drop_keys. by rewrite foldl_app. Qed.
End Writes.

(** Lists grouped by a key: [m[k].push_back(x)] for each pair. *)
Definition push_back {K A} `{Countable K} (k : K) (x : A) (m : gmap K (list A)) : gmap K (list A) :=
  <[k := default [] (m !! k) ++ [x]]> m.
Definition grouped {K A} `{Countable K} (l : list (K * A)) : gmap K (list A) :=
  foldl (fun m ka => push_back ka.1 ka.2 m) ∅ l.

Lemma grouped_snoc {K A} `{Countable K} (l : list (K * A)) ka :
  grouped (l ++ [ka]) = push_back ka.1 ka.2 (grouped l).
Proof. unfold grouped. by rewrite foldl_app. Qed.

Lemma grouped_lookup {K A} `{Countable K} (l : list (K * A)) k :
  default [] (grouped l !! k) = (filter (fun ka => ka.1 = k) l).*2.
Proof.
  induction l as [|ka l IH] using rev_ind; [unfold grouped; cbn [foldl]; by rewrite lookup_empty|].
  rewrite grouped_snoc, filter_app, fmap_app. unfold push_back. rewrite lookup_insert. case_decide as E.
  - rewrite E, filter_cons_True by done. cbn [default]. by rewrite IH.
  - rewrite filter_cons_False by done. by rewrite filter_nil, app_nil_r.
Qed.
