(* ===== verification/Text.v ===== *)
(** * Texts: the string functions of the C and C++ libraries the sources use

    A text is a list of characters: [find], [substr], [erase], [getline], the
    number parsers [stoi] and [stoull], and [to_string] (stdpp's [pretty]). *)
From stdpp Require Import prelude gmap strings list pretty.
From Stdlib Require Import ZArith Lia.
From Stdlib Require String Ascii.
From S2P Require Import Prelude.
Local Open Scope Z_scope.

Abbreviation text := (list Ascii.ascii).
Definition chars (s : string) : text := String.list_ascii_of_string s.
Definition of_chars (t : text) : string := String.string_of_list_ascii t.
Definition code (c : Ascii.ascii) : Z := Z.of_nat (Ascii.nat_of_ascii c).

(** The bytes of a string. *)
Definition bytes_of (s : string) : list Z := code <$> chars s.

(** The order of [std::string]. *)
Definition string_le (a b : string) : Prop := String.leb a b = true.
#[export] Instance string_le_dec : RelDecision string_le.
Proof. intros a b. unfold string_le. apply _. Defined.

Lemma of_chars_chars s : of_chars (chars s) = s.
Proof. apply String.string_of_list_ascii_of_string. Qed.
Lemma chars_of_chars t : chars (of_chars t) = t.
Proof. apply String.list_ascii_of_string_of_list_ascii. Qed.

(** ** Blanks *)

Definition is_blank (c : Ascii.ascii) : bool := (code c =? 32) || (code c =? 9).

(** [s.erase(0, s.find_first_not_of(" \t"))], then
    [s.erase(s.find_last_not_of(" \t") + 1)]. *)
Fixpoint ltrim (t : text) : text :=
  match t with [] => [] | c :: t' => if is_blank c then ltrim t' else t end.
Definition rtrim (t : text) : text := rev (ltrim (rev t)).
Definition trim (t : text) : text := rtrim (ltrim t).

(** No blank at either end. *)
Definition trimmed (t : text) : Prop :=
  match t with [] => True | c :: _ => is_blank c = false end /\
  match rev t with [] => True | c :: _ => is_blank c = false end.

Lemma ltrim_id t : match t with [] => True | c :: _ => is_blank c = false end -> ltrim t = t.
Proof. destruct t as [|c t]; [done|]. cbn. by intros ->. Qed.

Lemma ltrim_blanks b t : Forall (fun c => is_blank c = true) b -> ltrim (b ++ t) = ltrim t.
Proof. induction 1 as [|c b Hc _ IH]; [done|]. cbn. by rewrite Hc. Qed.

Lemma trim_trimmed b t : Forall (fun c => is_blank c = true) b -> trimmed t -> trim (b ++ t) = t.
Proof.
  intros Hb [H1 H2]. unfold trim, rtrim. rewrite ltrim_blanks, (ltrim_id t) by done.
  rewrite ltrim_id by done. apply rev_involutive.
Qed.

(** ** Lines and searches *)

(** All that [getline] reads with delimiter [sep]. *)
Fixpoint getlines (sep : Ascii.ascii) (cur : text) (t : text) : list text :=
  match t with
  | [] => match cur with [] => [] | _ => [rev cur] end
  | c :: t => if decide (c = sep) then rev cur :: getlines sep [] t else getlines sep (c :: cur) t
  end.

Lemma getlines_line sep cur l t :
  sep ∉ l -> getlines sep cur (l ++ sep :: t) = (rev cur ++ l) :: getlines sep [] t.
Proof.
  revert cur. induction l as [|c l IH]; intros cur Hl; cbn [app getlines].
  - rewrite decide_True by done. by rewrite app_nil_r.
  - apply not_elem_of_cons in Hl as [Hc Hl]. rewrite decide_False by done.
    rewrite IH by done. cbn [rev]. by rewrite <- app_assoc.
Qed.

Lemma getlines_last sep cur l :
  sep ∉ l -> getlines sep cur l = (match rev cur ++ l with [] => [] | _ => [rev cur ++ l] end).
Proof.
  revert cur. induction l as [|c l IH]; intros cur Hl; cbn [getlines].
  - rewrite app_nil_r. destruct cur as [|c cur]; [done|]. cbn [rev]. by destruct (rev cur).
  - apply not_elem_of_cons in Hl as [Hc Hl]. rewrite decide_False by done. rewrite IH by done.
    cbn [rev]. by rewrite <- app_assoc.
Qed.

Fixpoint starts_with (p t : text) : bool :=
  match p, t with
  | [], _ => true
  | a :: p, b :: t => bool_decide (a = b) && starts_with p t
  | _ :: _, [] => false
  end.

Lemma starts_with_app p t : starts_with p (p ++ t) = true.
Proof. induction p as [|c p IH]; [done|]. cbn. by rewrite bool_decide_eq_true_2 by done. Qed.

(** The text before and after the first occurrence of a character. *)
Fixpoint find (c : Ascii.ascii) (t : text) : option (text * text) :=
  match t with
  | [] => None
  | x :: t =>
      if decide (x = c) then Some ([], t)
      else match find c t with Some (a, b) => Some (x :: a, b) | None => None end
  end.

Lemma find_app c a b : c ∉ a -> find c (a ++ c :: b) = Some (a, b).
Proof.
  induction a as [|x a IH]; intros Ha; cbn; [by rewrite decide_True|].
  apply not_elem_of_cons in Ha as [Hx Ha]. rewrite decide_False by done. by rewrite IH.
Qed.

(** [front] and [back], undefined on an empty string. *)
Definition front (t : text) : outcome Ascii.ascii := match t with [] => UB | c :: _ => Ret c end.
Definition back (t : text) : outcome Ascii.ascii := front (rev t).

(** [t.substr(1, t.length() - 2)] for a text that is not empty: the length
    wraps for a single character, and [substr] then takes the rest. *)
Definition strip (t : text) : text :=
  match t with [] => [] | _ :: t => match rev t with [] => [] | _ :: r => rev r end end.

(** ** Numbers *)

Definition digit (c : Ascii.ascii) : option Z :=
  if (48 <=? code c) && (code c <=? 57) then Some (code c - 48) else None.
Definition hex_digit (c : Ascii.ascii) : option Z :=
  if (48 <=? code c) && (code c <=? 57) then Some (code c - 48)
  else if (97 <=? code c) && (code c <=? 102) then Some (code c - 87)
  else if (65 <=? code c) && (code c <=? 70) then Some (code c - 55) else None.

(** The value of the longest prefix of digits. *)
Fixpoint digits (base : Z) (dig : Ascii.ascii -> option Z) (acc : Z) (t : text) : Z :=
  match t with
  | [] => acc
  | c :: t => match dig c with Some d => digits base dig (acc * base + d) t | None => acc end
  end.

Definition is_space (c : Ascii.ascii) : bool := (code c =? 32) || ((9 <=? code c) && (code c <=? 13)).
Fixpoint skip_spaces (t : text) : text :=
  match t with [] => [] | c :: t' => if is_space c then skip_spaces t' else t end.

Definition sign_of (t : text) : Z * text :=
  match t with
  | c :: t' => if code c =? 45 then (-1, t') else if code c =? 43 then (1, t') else (1, t)
  | [] => (1, [])
  end.

(** [std::stoi]: [None] when it throws, without digits or out of range. *)
Definition stoi (t : text) : option Z :=
  let '(sign, t) := sign_of (skip_spaces t) in
  match t with
  | [] => None
  | c :: _ =>
      match digit c with
      | None => None
      | Some _ =>
          let v := sign * digits 10 digit 0 t in
          if (INT_MIN <=? v) && (v <=? INT_MAX) then Some v else None
      end
  end.

(** [std::stoull(t, nullptr, 16)] of a text that starts with "0x": the digits
    that follow, and without any the leading 0. *)
Definition stoull_hex (t : text) : option Z :=
  let v := digits 16 hex_digit 0 (drop 2 t) in
  if v <? 2 ^ 64 then Some v else None.

(** [id] names the hash [h]: [std::to_string(h) == id || (id.rfind("0x", 0)
    == 0 && std::stoull(id, nullptr, 16) == h)]; [None] when [stoull] throws. *)
Definition names_hash (id : string) (h : Z) : option bool :=
  if bool_decide (pretty h = id) then Some true
  else if starts_with (chars "0x"%string) (chars id) then
    match stoull_hex (chars id) with Some v => Some (v =? h) | None => None end
  else Some false.

(** *** [to_string] and back *)

Lemma digit_pretty (x : N) : (x < 10)%N -> digit (pretty_N_char x) = Some (Z.of_N x).
Proof.
  intros H. assert (x = 0 \/ x = 1 \/ x = 2 \/ x = 3 \/ x = 4 \/ x = 5 \/ x = 6 \/ x = 7 \/ x = 8 \/ x = 9)%N
    as [->|[->|[->|[->|[->|[->|[->|[->|[->| ->]]]]]]]]] by lia; reflexivity.
Qed.

Lemma digits_pretty_go (x : N) s :
  digits 10 digit 0 (chars (pretty_N_go x s)) = digits 10 digit (Z.of_N x) (chars s).
Proof.
  revert s. induction (N.lt_wf_0 x) as [x _ IH]; intros s.
  assert (x = 0 \/ 0 < x)%N as [->|Hx] by lia; [by rewrite pretty_N_go_0|].
  rewrite pretty_N_go_step by done. rewrite IH by (by apply N.div_lt).
  unfold chars. cbn [String.list_ascii_of_string digits]. rewrite digit_pretty by (apply N.mod_lt; lia).
  f_equal. rewrite N2Z.inj_div, N2Z.inj_mod. pose proof (Z.div_mod (Z.of_N x) (Z.of_N 10) ltac:(lia)). lia.
Qed.

Definition all_digits (t : text) : Prop := Forall (fun c => exists d, digit c = Some d) t.

Lemma pretty_go_digits (x : N) s : all_digits (chars s) -> all_digits (chars (pretty_N_go x s)).
Proof.
  revert s. induction (N.lt_wf_0 x) as [x _ IH]; intros s Hs.
  assert (x = 0 \/ 0 < x)%N as [->|Hx] by lia; [by rewrite pretty_N_go_0|].
  rewrite pretty_N_go_step by done. apply IH; [by apply N.div_lt|]. constructor; [|done].
  eexists. apply digit_pretty, N.mod_lt. lia.
Qed.

Lemma pretty_go_nonempty (x : N) s :
  (0 < x)%N \/ chars s <> [] -> chars (pretty_N_go x s) <> [].
Proof.
  revert s. induction (N.lt_wf_0 x) as [x _ IH]; intros s Hs.
  assert (x = 0 \/ 0 < x)%N as [->|Hx] by lia; [rewrite pretty_N_go_0; destruct Hs; [lia|done]|].
  rewrite pretty_N_go_step by done. apply IH; [by apply N.div_lt|]. by right.
Qed.

Lemma pretty_N_text (x : N) :
  all_digits (chars (pretty x)) /\ chars (pretty x) <> [] /\ digits 10 digit 0 (chars (pretty x)) = Z.of_N x.
Proof.
  unfold pretty, pretty_N. case_decide as E.
  - subst x. split_and!; [|done|done]. repeat constructor. by eexists.
  - split_and!; [apply pretty_go_digits; constructor|apply pretty_go_nonempty; left; lia|].
    rewrite digits_pretty_go. done.
Qed.

Lemma digit_code c d : digit c = Some d -> 48 <= code c <= 57.
Proof. unfold digit. destruct (_ && _) eqn:E; [|done]. apply andb_true_iff in E. rewrite !Z.leb_le in E. lia. Qed.

(** [stoi] reads back what [to_string] writes. *)
Lemma stoi_pretty n : INT_MIN <= n <= INT_MAX -> stoi (chars (pretty n)) = Some n.
Proof.
  intros Hn. unfold stoi.
  assert (Hpos : forall (x : N) (sign : Z), INT_MIN <= sign * Z.of_N x <= INT_MAX -> 
    match chars (pretty x) with
    | [] => None
    | c :: _ => match digit c with
                | None => None
                | Some _ => let v := sign * digits 10 digit 0 (chars (pretty x)) in
                            if (INT_MIN <=? v) && (v <=? INT_MAX) then Some v else None
                end
    end = Some (sign * Z.of_N x)).
  { intros x sign Hx. destruct (pretty_N_text x) as (Hd & Hne & ->). destruct (chars (pretty x)) as [|c t]; [done|].
    apply Forall_cons in Hd as [[d ->] _]. cbv zeta.
    by rewrite (proj2 (Z.leb_le _ _) (proj1 Hx)), (proj2 (Z.leb_le _ _) (proj2 Hx)). }
  assert (Hplain : forall x : N, sign_of (skip_spaces (chars (pretty x))) = (1, chars (pretty x))).
  { intros x. destruct (pretty_N_text x) as (Hd & Hne & _). destruct (chars (pretty x)) as [|c t]; [done|].
    apply Forall_cons in Hd as [[d Hc%digit_code] _]. cbn [skip_spaces]. unfold is_space.
    rewrite (proj2 (Z.eqb_neq (code c) 32)), (proj2 (Z.leb_gt (code c) 13)), andb_false_r by lia. cbn [orb sign_of].
    by rewrite (proj2 (Z.eqb_neq (code c) 45)), (proj2 (Z.eqb_neq (code c) 43)) by lia. }
  destruct n as [|p|p]; [reflexivity| |].
  - change (pretty (Z.pos p)) with (pretty (N.pos p)). rewrite Hplain. cbv iota beta. 
    etrans; [apply (Hpos (N.pos p) 1); lia|by rewrite Z.mul_1_l].
  - change (chars (pretty (Z.neg p))) with (Ascii.ascii_of_nat 45 :: chars (pretty (N.pos p))).
    cbn [skip_spaces]. change (is_space (Ascii.ascii_of_nat 45)) with false. cbn iota.
    change (sign_of (Ascii.ascii_of_nat 45 :: chars (pretty (N.pos p)))) with (-1, chars (pretty (N.pos p))).
    cbv iota beta. etrans; [apply (Hpos (N.pos p) (-1)); lia|done].
Qed.

(** The characters of a printed number: digits and the sign. *)
Lemma pretty_codes (n : Z) : Forall (fun c => 45 <= code c <= 57) (chars (pretty n)) /\ chars (pretty n) <> [].
Proof.
  assert (Hpos : forall x : N, Forall (fun c => 45 <= code c <= 57) (chars (pretty x)) /\ chars (pretty x) <> []).
  { intros x. destruct (pretty_N_text x) as (Hd & Hne & _). split; [|done].
    eapply Forall_impl; [exact Hd|]. intros c [d Hc%digit_code]. lia. }
  destruct n as [|p|p]; [|apply (Hpos (N.pos p))|].
  - split; [|done]. constructor; [by split; vm_compute|constructor].
  - change (chars (pretty (Z.neg p))) with (Ascii.ascii_of_nat 45 :: chars (pretty (N.pos p))).
    split; [|done]. constructor; [by split; vm_compute|]. apply (Hpos (N.pos p)).
Qed.

Lemma pretty_not_elem (n : Z) c : code c < 45 \/ 57 < code c -> c ∉ chars (pretty n).
Proof. intros Hc Hin. destruct (pretty_codes n) as [H _]. rewrite Forall_forall in H. specialize (H c Hin). cbn in H. lia. Qed.

Lemma not_blank c : 45 <= code c <= 57 -> is_blank c = false.
Proof. intros H. unfold is_blank. by rewrite (proj2 (Z.eqb_neq _ _)), (proj2 (Z.eqb_neq _ _)) by lia. Qed.

Lemma pretty_trimmed (n : Z) : trimmed (chars (pretty n)).
Proof.
  destruct (pretty_codes n) as [H _]. split.
  - destruct (chars (pretty n)) as [|c t]; [done|]. apply Forall_cons in H as [Hc _]. by apply not_blank.
  - destruct (rev (chars (pretty n))) as [|c t] eqn:E; [done|].
    apply not_blank. rewrite Forall_forall in H. apply H.
    apply list_elem_of_In, in_rev. rewrite E. by left.
Qed.
