(* ===== verification/Serialize.v ===== *)
(** * libtrpc/src/serialize.c and serialize.h: the serialization buffer

    A [serial_buf_t] is a growing block of bytes with a cursor [pos]; the
    serializers append at the cursor, the deserializers take from it, so the
    live bytes form a stack.  C pointers to a buffer are [option serial_buf]
    ([None] is [NULL]); memory accesses outside a block are [UB]. *)
From stdpp Require Import prelude list.
From Stdlib Require Import ZArith Lia.
From S2P Require Import Prelude.
Local Open Scope Z_scope.
Local Open Scope c_scope.

(** ** The allocator, as the code uses it *)

(** [malloc n] and [realloc old n] return a block ([None] is [NULL]). *)
Class Allocator := {
  malloc : Z -> option (list Z);
  realloc : list Z -> Z -> option (list Z);
}.

(** What the C standard promises of them: blocks have the requested size and
    [realloc] keeps the common prefix. *)
Class AllocatorLaws (A : Allocator) : Prop := {
  malloc_size : forall n l, malloc n = Some l -> zlen l = n;
  realloc_size : forall old n l, realloc old n = Some l -> zlen l = n;
  realloc_prefix : forall old n l, realloc old n = Some l ->
    take (min (length old) (Z.to_nat n)) l = take (min (length old) (Z.to_nat n)) old;
}.

(** The platform: allocator and byte order ([__BYTE_ORDER]). *)
Class Platform := {
  platform_alloc :: Allocator;
  little_endian : bool;
}.

Definition SIZEOF_SERIAL_BUF : Z := 24.
Definition INITIAL_SERIAL_BUF_SIZE : Z := 32.

(** [serial_buf_t] of libtrpc.h; [data] is the block the pointer refers to. *)
Record serial_buf := SerialBuf { data : list Z; pos : Z; size : Z }.

Section Code.
Context `{P : Platform}.

(** ** Byte order *)

(** The bytes of an [n]-byte unsigned object with value [x], and back. *)
Definition object_bytes (n : nat) (x : Z) : list Z :=
  if little_endian then le_bytes n x else be_bytes n x.
Definition object_value (l : list Z) : Z :=
  if little_endian then le_value l else be_value l.

Definition htons (x : Z) : Z := if little_endian then bswap 2 (u16 x) else u16 x.
Definition ntohs (x : Z) : Z := if little_endian then bswap 2 (u16 x) else u16 x.
Definition htonl (x : Z) : Z := if little_endian then bswap 4 (u32 x) else u32 x.
Definition ntohl (x : Z) : Z := if little_endian then bswap 4 (u32 x) else u32 x.

Definition htonll (val : Z) : Z :=
  if little_endian then bswap 8 (u64 val) else u64 val.
Definition ntohll (val : Z) : Z :=
  if little_endian then bswap 8 (u64 val) else u64 val.

(** A [float] or [double] is its bit pattern: the code only reinterprets. *)
Definition htonf (val : Z) : Z :=
  if little_endian then bswap 4 (u32 val) else u32 val.
Definition ntohf (val : Z) : Z :=
  if little_endian then bswap 4 (u32 val) else u32 val.
Definition htond (val : Z) : Z :=
  if little_endian then bswap 8 (u64 val) else u64 val.
Definition ntohd (val : Z) : Z :=
  if little_endian then bswap 8 (u64 val) else u64 val.

(** ** Buffers *)

Definition new_serial_buf (sz : Z) : option serial_buf :=
  match malloc SIZEOF_SERIAL_BUF with
  | None => None
  | Some _ =>
      let sz := if sz <=? 0 then INITIAL_SERIAL_BUF_SIZE else sz in
      match malloc sz with
      | None => None
      | Some d => Some (SerialBuf d 0 sz)
      end
  end.

Definition make_serial_buf (d : list Z) (sz : Z) : option serial_buf :=
  match malloc SIZEOF_SERIAL_BUF with
  | None => None
  | Some _ => Some (SerialBuf d sz sz)
  end.

Definition reset_serial_buf (b : option serial_buf) : option serial_buf :=
  match b with
  | Some b => Some (SerialBuf (data b) 0 (size b))
  | None => None
  end.

Definition reserve_space (b : option serial_buf) (bytes : Z)
  : option serial_buf * Z :=
  match b with
  | None => (None, -1)
  | Some b =>
      if size b <? u64 (pos b + bytes) then
        let new_size := u64 (size b * 2) in
        let new_size :=
          if new_size <? u64 (pos b + bytes) then u64 (new_size + bytes)
          else new_size in
        match realloc (data b) new_size with
        | None => (Some b, -1)
        | Some d => (Some (SerialBuf d (pos b) new_size), 0)
        end
      else (Some b, 0)
  end.

(** ** The types the macros are instantiated at *)

Inductive ctype := Tint8 | Tint16 | Tint32 | Tint64 | Tfloat | Tdouble.

Definition sizeof (T : ctype) : nat :=
  match T with
  | Tint8 => 1 | Tint16 => 2 | Tint32 => 4 | Tint64 => 8
  | Tfloat => 4 | Tdouble => 8
  end%nat.

(** [x = ...] of [DEFINE_SERIALIZE_T]: the value stored in the unsigned [x]. *)
Definition hton (T : ctype) (t : Z) : Z :=
  match T with
  | Tfloat => htonf t
  | Tdouble => htond t
  | Tint8 => u8 t
  | Tint16 => htons t
  | Tint32 => htonl t
  | Tint64 => htonll t
  end.

(** [*t = ...] of [DEFINE_DESERIALIZE_T]: conversion to the type [T]. *)
Definition ntoh (T : ctype) (x : Z) : Z :=
  match T with
  | Tfloat => ntohf x
  | Tdouble => ntohd x
  | Tint8 => to_signed 8 x
  | Tint16 => to_signed 16 (ntohs x)
  | Tint32 => to_signed 32 (ntohl x)
  | Tint64 => to_signed 64 (ntohll x)
  end.

Definition serialize_T (T : ctype) (b : option serial_buf) (t : Z)
  : outcome (option serial_buf * Z) :=
  let x := hton T t in
  let '(b, r) := reserve_space b (Z.of_nat (sizeof T)) in
  if negb (r =? 0) then Ret (b, -1) else
  match b with
  | None => UB
  | Some b =>
      d <-c mem_write (data b) (pos b) (object_bytes (sizeof T) x);
      Ret (Some (SerialBuf d (u64 (pos b + Z.of_nat (sizeof T))) (size b)), 0)
  end.

(** The result is the buffer, [*t] (unchanged on error) and the code. *)
Definition deserialize_T (T : ctype) (b : option serial_buf) (t : Z)
  : outcome (option serial_buf * Z * Z) :=
  match b with
  | None => UB
  | Some b =>
      if pos b <? Z.of_nat (sizeof T) then Ret (Some b, t, -1) else
      let p := pos b - Z.of_nat (sizeof T) in
      x <-c mem_read (data b) p (Z.of_nat (sizeof T));
      Ret (Some (SerialBuf (data b) p (size b)), ntoh T (object_value x), 0)
  end.

(** ** Blobs and strings *)

Definition serialize_blob (b : option serial_buf) (t : list Z) (bytes : Z)
  : outcome (option serial_buf * Z) :=
  let '(b, r) := reserve_space b (u64 (bytes + 4)) in
  if negb (r =? 0) then Ret (b, -1) else
  match b with
  | None => UB
  | Some b =>
      src <-c mem_read t 0 bytes;
      d <-c mem_write (data b) (pos b) src;
      let p := u64 (pos b + bytes) in
      let nbytes := htonl bytes in
      d <-c mem_write d p (object_bytes 4 nbytes);
      Ret (Some (SerialBuf d (u64 (p + 4)) (size b)), 0)
  end.

(** The result is the buffer, the block [t] points to, [*bytes] and the code. *)
Definition deserialize_blob (b : option serial_buf) (t : list Z) (bytes : Z)
  : outcome (option serial_buf * list Z * Z * Z) :=
  match b with
  | None => UB
  | Some b =>
      if pos b <? 4 then Ret (Some b, t, bytes, -1) else
      let p := pos b - 4 in
      x <-c mem_read (data b) p 4;
      let bytes := ntohl (object_value x) in
      if p <? bytes then Ret (Some (SerialBuf (data b) p (size b)), t, bytes, -1)
      else
        let p := p - bytes in
        src <-c mem_read (data b) p bytes;
        t <-c mem_write t 0 src;
        Ret (Some (SerialBuf (data b) p (size b)), t, bytes, 0)
  end.

(** [strlen]: the index of the first NUL, which must exist in the block. *)
Fixpoint strlen (s : list Z) : outcome Z :=
  match s with
  | [] => UB
  | c :: s => if c =? 0 then Ret 0 else n <-c strlen s; Ret (1 + n)
  end.

Definition serialize_str (b : option serial_buf) (t : list Z)
  : outcome (option serial_buf * Z) :=
  n <-c strlen t; serialize_blob b t (u32 n).

Definition deserialize_str (b : option serial_buf) (t : list Z)
  : outcome (option serial_buf * list Z * Z) :=
  r <-c deserialize_blob b t 0;
  let '(b, t, len, code) := r in
  if negb (code =? 0) then Ret (b, t, -1) else
  t <-c mem_write t len [0];
  Ret (b, t, 0).

End Code.

(** ** Well-formed buffers and their abstraction: a stack of bytes *)

Record wf_buf (b : serial_buf) : Prop := {
  wf_block : zlen (data b) = size b;
  wf_pos : 0 <= pos b <= size b;
}.

Definition live (b : serial_buf) : list Z := take (Z.to_nat (pos b)) (data b).

(** Sizes for which the [size_t] arithmetic of [reserve_space] is exact. *)
Definition roomy (n : Z) : Prop := 0 <= n <= 2 ^ 61.

Definition in_type (T : ctype) (t : Z) : Prop :=
  match T with
  | Tint8 => sword 8 t | Tint16 => sword 16 t
  | Tint32 => sword 32 t | Tint64 => sword 64 t
  | Tfloat => uword 32 t | Tdouble => uword 64 t
  end.

Section Facts.
Context `{P : Platform} {L : AllocatorLaws platform_alloc}.

Lemma length_object_bytes n x : length (object_bytes n x) = n.
Proof.
  unfold object_bytes. destruct little_endian;
    [apply length_le_bytes | apply length_be_bytes].
Qed.

Lemma zlen_object_bytes n x : zlen (object_bytes n x) = Z.of_nat n.
Proof. unfold zlen. by rewrite length_object_bytes. Qed.

(** The in-memory image of [hton T x] does not depend on the byte order. *)
Lemma le_bytes_wrap n w x :
  w = 8 * Z.of_nat n -> le_bytes n (wrap w x) = le_bytes n x.
Proof.
  intros ->. revert x. induction n as [|n IH]; intros x; [done|].
  cbn [le_bytes]. unfold wrap in *.
  replace (2 ^ (8 * Z.of_nat (S n))) with (256 * 2 ^ (8 * Z.of_nat n)).
  2: { replace (8 * Z.of_nat (S n)) with (8 + 8 * Z.of_nat n) by lia.
       rewrite Z.pow_add_r by lia. done. }
  rewrite Z.rem_mul_r by lia. f_equal.
  - rewrite Z.mul_comm, Z.mod_add, Z.mod_mod by lia. done.
  - rewrite Z.mul_comm, Z.div_add, (Z.div_small (x mod 256)) by
      (try apply Z.mod_pos_bound; lia).
    rewrite Z.add_0_l. apply IH.
Qed.

Lemma be_bytes_wrap n w x :
  w = 8 * Z.of_nat n -> be_bytes n (wrap w x) = be_bytes n x.
Proof. intros. unfold be_bytes. by rewrite le_bytes_wrap. Qed.

Lemma object_bytes_hton T x :
  object_bytes (sizeof T) (hton T x) = be_bytes (sizeof T) x.
Proof.
  destruct T; cbn [sizeof hton];
    unfold object_bytes, htons, htonl, htonll, htonf, htond;
    destruct little_endian; rewrite ?le_bytes_bswap;
    first [by apply be_bytes_wrap | by apply (be_bytes_wrap 1)].
Qed.

Lemma object_bytes_htonl x : object_bytes 4 (htonl x) = be_bytes 4 x.
Proof. exact (object_bytes_hton Tint32 x). Qed.

Lemma object_value_range l n :
  Forall is_byte l -> length l = n -> uword (8 * Z.of_nat n) (object_value l).
Proof.
  intros H <-.
  assert (Hle : forall k, Forall is_byte k -> uword (8 * Z.of_nat (length k)) (le_value k)).
  { intros k Hk. rewrite <- (le_bytes_le_value k Hk) at 2.
    rewrite le_value_le_bytes, pow256. apply wrap_range. lia. }
  unfold object_value. destruct little_endian; [by apply Hle|].
  unfold be_value. rewrite <- (length_rev l). by apply Hle, Forall_rev.
Qed.

(** Byte-order conversion of a loaded object is the big-endian value. *)
Lemma ntoh_object l n :
  Forall is_byte l -> length l = n ->
  (if little_endian then bswap n (wrap (8 * Z.of_nat n) (object_value l))
   else wrap (8 * Z.of_nat n) (object_value l)) = be_value l.
Proof.
  intros H Hn. rewrite wrap_small by (by apply object_value_range).
  subst n. unfold object_value. destruct little_endian; [|done].
  by apply bswap_le_value.
Qed.

Lemma ntoh_be_bytes T t :
  in_type T t -> ntoh T (object_value (be_bytes (sizeof T) t)) = t.
Proof.
  intros Ht.
  pose proof (ntoh_object (be_bytes (sizeof T) t) (sizeof T)
    (be_bytes_are_bytes _ _) (length_be_bytes _ _)) as E.
  rewrite be_value_be_bytes in E.
  destruct T; cbn [sizeof ntoh in_type] in *;
    unfold ntohs, ntohl, ntohll, ntohf, ntohd;
    change (8 * Z.of_nat 1) with 8 in *; change (8 * Z.of_nat 2) with 16 in *;
    change (8 * Z.of_nat 4) with 32 in *; change (8 * Z.of_nat 8) with 64 in *;
    rewrite ?E; try (by apply to_signed_wrap); try (by apply wrap_small).
  rewrite <- (to_signed_wrap 8 t) at 2 by (done || lia).
  unfold object_value.
  f_equal. destruct little_endian; cbn; unfold be_value; cbn;
    change (wrap 8 t) with (t mod 256); lia.
Qed.

(** Growing a buffer keeps the live bytes and makes room, or leaves it. *)
Lemma reserve_space_spec b n :
  wf_buf b -> roomy (size b) -> roomy n ->
  reserve_space (Some b) n = (Some b, -1) \/
  exists b', reserve_space (Some b) n = (Some b', 0) /\ wf_buf b' /\
    pos b' = pos b /\ pos b + n <= size b' /\ live b' = live b /\
    size b' <= Z.max (size b) (2 * (pos b + n)).
Proof.
  intros [Hb Hp] [Hs Hs'] [Hn Hn']. unfold reserve_space.
  rewrite (wrap_small 64 (pos b + n)) by (unfold uword; lia).
  destruct (Z.ltb_spec (size b) (pos b + n)) as [Hlt|Hge]; cycle 1.
  { right. exists b. split_and!; auto; try lia; by constructor. }
  rewrite (wrap_small 64 (size b * 2)) by (unfold uword; lia).
  rewrite (wrap_small 64 (size b * 2 + n)) by (unfold uword; lia).
  set (ns := if size b * 2 <? pos b + n then _ else _).
  assert (pos b + n <= ns /\ size b <= ns <= 2 * (pos b + n)) as [Hns1 Hns2]
    by (unfold ns; destruct (Z.ltb_spec (size b * 2) (pos b + n)); lia).
  destruct (realloc (data b) ns) as [d|] eqn:E; [|by left].
  pose proof (realloc_size _ _ _ E) as Hd.
  pose proof (realloc_prefix _ _ _ E) as Hpre.
  right. eexists. split; [done|]. split_and!; cbn; auto; try lia.
  - constructor; cbn; lia.
  - unfold live; cbn. unfold zlen in *.
    rewrite Nat.min_l in Hpre by lia.
    apply (f_equal (take (Z.to_nat (pos b)))) in Hpre.
    rewrite !take_take, !Nat.min_l in Hpre by lia. done.
Qed.

(** Writing [src] at the cursor of a buffer with room pushes it. *)
Lemma push_spec b src :
  wf_buf b -> pos b + zlen src <= size b ->
  exists d, mem_write (data b) (pos b) src = Ret d /\
    wf_buf (SerialBuf d (pos b + zlen src) (size b)) /\
    live (SerialBuf d (pos b + zlen src) (size b)) = live b ++ src.
Proof.
  intros [Hb Hp] Hroom. eexists.
  assert (mem_write (data b) (pos b) src = Ret _) as E
    by (apply mem_write_ok; lia).
  split; [exact E|]. pose proof (mem_write_length _ _ _ _ E) as El.
  pose proof (mem_write_prefix _ _ _ _ E) as Ep.
  pose proof (zlen_nonneg src).
  split; [constructor; cbn; unfold zlen in *; lia|exact Ep].
Qed.

(** Reading below the cursor pops. *)
Lemma pop_spec b s l :
  wf_buf b -> live b = s ++ l ->
  0 <= pos b - zlen l /\
  mem_read (data b) (pos b - zlen l) (zlen l) = Ret l /\
  wf_buf (SerialBuf (data b) (pos b - zlen l) (size b)) /\
  live (SerialBuf (data b) (pos b - zlen l) (size b)) = s.
Proof.
  intros [Hb Hp] Hl. unfold live in *. cbn.
  assert (Hlen : pos b = zlen s + zlen l).
  { rewrite <- zlen_app, <- Hl. unfold zlen in *. rewrite length_take. lia. }
  pose proof (zlen_nonneg s). pose proof (zlen_nonneg l).
  assert (Hs : take (Z.to_nat (pos b - zlen l)) (data b) = s).
  { apply (f_equal (take (Z.to_nat (pos b - zlen l)))) in Hl.
    rewrite take_take, Nat.min_l in Hl by lia. rewrite Hl.
    apply take_app_length'. unfold zlen in *. lia. }
  split; [lia|]. split; [|split; [constructor; cbn; lia|done]].
  rewrite mem_read_ok by (unfold zlen in *; lia). f_equal.
  rewrite take_drop_commute.
  replace (Z.to_nat (pos b - zlen l) + Z.to_nat (zlen l))%nat
    with (Z.to_nat (pos b)) by lia.
  rewrite Hl. apply drop_app_length'. unfold zlen in *. lia.
Qed.

Lemma wf_pos_small b n :
  wf_buf b -> roomy (size b) -> roomy n -> u64 (pos b + n) = pos b + n.
Proof.
  intros [_ Hp] [? ?] [? ?]. apply wrap_small. unfold uword. lia.
Qed.

Lemma serialize_T_spec T b t :
  wf_buf b -> roomy (size b) ->
  serialize_T T (Some b) t = Ret (Some b, -1) \/
  exists b', serialize_T T (Some b) t = Ret (Some b', 0) /\ wf_buf b' /\
    live b' = live b ++ be_bytes (sizeof T) t /\
    size b' <= Z.max (size b) (2 * (pos b + Z.of_nat (sizeof T))).
Proof.
  intros Hw Hs. unfold serialize_T.
  assert (Hn : roomy (Z.of_nat (sizeof T))) by (destruct T; done).
  destruct (reserve_space_spec b (Z.of_nat (sizeof T)) Hw Hs Hn)
    as [-> | (b1 & -> & Hw1 & Hp1 & Hr & Hl & Hsz)]; cbn; [by left|right].
  rewrite object_bytes_hton.
  destruct (push_spec b1 (be_bytes (sizeof T) t) Hw1) as (d & -> & Hw2 & Hl2).
  { rewrite zlen_be_bytes. lia. }
  rewrite zlen_be_bytes in *. cbn.
  rewrite Hp1, wf_pos_small in * by done.
  eexists; split; [done|]. split_and!; auto; cbn in *; by rewrite Hl2, Hl.
Qed.

Lemma serialize_blob_spec b t n :
  wf_buf b -> roomy (size b) -> uword 32 n -> n <= zlen t ->
  serialize_blob (Some b) t n = Ret (Some b, -1) \/
  exists b', serialize_blob (Some b) t n = Ret (Some b', 0) /\ wf_buf b' /\
    live b' = live b ++ take (Z.to_nat n) t ++ be_bytes 4 n /\
    size b' <= Z.max (size b) (2 * (pos b + (n + 4))).
Proof.
  intros Hw Hs Hn Ht. unfold serialize_blob.
  assert (Hn' : roomy (n + 4)) by (unfold uword, roomy in *; lia).
  assert (Hn'' : roomy n) by (unfold uword, roomy in *; lia).
  rewrite (wrap_small 64 (n + 4)) by (unfold roomy, uword in *; lia).
  destruct (reserve_space_spec b (n + 4) Hw Hs Hn')
    as [-> | (b1 & -> & Hw1 & Hp1 & Hr & Hl & Hsz)]; cbn; [by left|right].
  rewrite mem_read_ok by (unfold uword in *; lia).
  change (drop (Z.to_nat 0) t) with t. cbn [obind].
  set (src := take (Z.to_nat n) t).
  assert (Hsrc : zlen src = n)
    by (unfold src, zlen, uword in *; rewrite length_take; lia).
  destruct (push_spec b1 src Hw1) as (d & Ed & Hw2 & Hl2); [lia|].
  rewrite Ed. cbn [obind].
  rewrite Hp1, wf_pos_small in * by done. rewrite Hsrc in *.
  rewrite object_bytes_htonl.
  destruct (push_spec _ (be_bytes 4 n) Hw2) as (d2 & Ed2 & Hw3 & Hl3).
  { rewrite zlen_be_bytes. cbn. lia. }
  cbn [data pos size] in *. rewrite Ed2. cbn.
  rewrite zlen_be_bytes in *. change (Z.of_nat 4) with 4 in *.
  assert (E64 : u64 (pos b + n + 4) = pos b + n + 4).
  { rewrite <- Z.add_assoc. by apply wf_pos_small. }
  rewrite E64. eexists; split; [done|]. split_and!; auto.
  by rewrite Hl3, Hl2, Hl, app_assoc.
Qed.

Lemma deserialize_T_spec T b t t0 s :
  wf_buf b -> in_type T t -> live b = s ++ be_bytes (sizeof T) t ->
  exists b', deserialize_T T (Some b) t0 = Ret (Some b', t, 0) /\ wf_buf b' /\
    live b' = s /\ data b' = data b /\ size b' = size b.
Proof.
  intros Hw Ht Hl. unfold deserialize_T.
  destruct (pop_spec b s _ Hw Hl) as (Hp & Hr & Hw' & Hl').
  rewrite zlen_be_bytes in *.
  destruct (Z.ltb_spec (pos b) (Z.of_nat (sizeof T))); [lia|].
  rewrite Hr. cbn. rewrite ntoh_be_bytes by done.
  eexists; split_and!; eauto.
Qed.

(** The length word of a blob is read back as written. *)
Lemma ntohl_be_bytes n : uword 32 n -> ntohl (object_value (be_bytes 4 n)) = n.
Proof. exact (ntoh_be_bytes Tfloat n). Qed.

(** Reading the length word of a blob: the state after the first [memcpy]. *)
Lemma deserialize_blob_length b t n l s :
  wf_buf b -> zlen l < 2 ^ 32 -> live b = s ++ l ++ be_bytes 4 (zlen l) ->
  deserialize_blob (Some b) t n =
    (t' <-c mem_write t 0 l;
     Ret (Some (SerialBuf (data b) (pos b - 4 - zlen l) (size b)), t', zlen l, 0)) /\
  wf_buf (SerialBuf (data b) (pos b - 4 - zlen l) (size b)) /\
  live (SerialBuf (data b) (pos b - 4 - zlen l) (size b)) = s.
Proof.
  intros Hw Hn Hl. rewrite app_assoc in Hl. unfold deserialize_blob.
  destruct (pop_spec b _ _ Hw Hl) as (Hp & Hr & Hw' & Hl').
  rewrite zlen_be_bytes in *. change (Z.of_nat 4) with 4 in *.
  destruct (pop_spec _ _ _ Hw' Hl') as (Hp2 & Hr2 & Hw2 & Hl2).
  cbn [data pos size] in *. pose proof (zlen_nonneg l).
  destruct (Z.ltb_spec (pos b) 4); [lia|].
  rewrite Hr. cbn [obind]. rewrite ntohl_be_bytes by (unfold uword; lia).
  destruct (Z.ltb_spec (pos b - 4) (zlen l)); [lia|].
  rewrite Hr2. auto.
Qed.

Lemma deserialize_blob_spec b t n l s :
  wf_buf b -> zlen l < 2 ^ 32 -> live b = s ++ l ++ be_bytes 4 (zlen l) ->
  zlen l <= zlen t ->
  exists b', deserialize_blob (Some b) t n
      = Ret (Some b', l ++ drop (length l) t, zlen l, 0) /\
    wf_buf b' /\ live b' = s /\ data b' = data b /\ size b' = size b.
Proof.
  intros Hw Hn Hl Ht.
  destruct (deserialize_blob_length b t n l s Hw Hn Hl) as (-> & Hw' & Hl').
  rewrite mem_write_ok by lia. cbn [obind]. rewrite Z.add_0_l.
  unfold zlen. rewrite Nat2Z.id. eexists; split_and!; eauto.
Qed.

(** *** Sequences of calls *)

Lemma zlen_live b : wf_buf b -> zlen (live b) = pos b.
Proof. intros [? ?]. unfold live, zlen in *. rewrite length_take. lia. Qed.

(** A value to send, and where the receiver wants it. *)
Inductive item := INum (T : ctype) (v : Z) | IBlob (l : list Z).
Inductive slot := SNum (T : ctype) | SBlob (dest : list Z).

Definition serialize_item (b : option serial_buf) (it : item)
  : outcome (option serial_buf * Z) :=
  match it with
  | INum T v => serialize_T T b v
  | IBlob l => serialize_blob b l (zlen l)
  end.

(** A caller that stops at the first error. *)
Fixpoint serialize_items (b : option serial_buf) (its : list item)
  : outcome (option serial_buf * Z) :=
  match its with
  | [] => Ret (b, 0)
  | it :: its =>
      r <-c serialize_item b it;
      let '(b, code) := r in
      if code =? 0 then serialize_items b its else Ret (b, code)
  end.

Definition deserialize_item (b : option serial_buf) (s : slot)
  : outcome (option serial_buf * option item) :=
  match s with
  | SNum T =>
      r <-c deserialize_T T b 0;
      let '(b, v, code) := r in
      Ret (b, if code =? 0 then Some (INum T v) else None)
  | SBlob dest =>
      r <-c deserialize_blob b dest 0;
      let '(b, t, n, code) := r in
      Ret (b, if code =? 0 then Some (IBlob (take (Z.to_nat n) t)) else None)
  end.

Fixpoint deserialize_items (b : option serial_buf) (ss : list slot)
  : outcome (option serial_buf * option (list item)) :=
  match ss with
  | [] => Ret (b, Some [])
  | s :: ss =>
      r <-c deserialize_item b s;
      let '(b, it) := r in
      match it with
      | None => Ret (b, None)
      | Some it =>
          r <-c deserialize_items b ss;
          let '(b, its) := r in Ret (b, option_map (cons it) its)
      end
  end.

(** The wire image of an item, and the items the interface can carry. *)
Definition wire (it : item) : list Z :=
  match it with
  | INum T v => be_bytes (sizeof T) v
  | IBlob l => l ++ be_bytes 4 (zlen l)
  end.

Definition wires (its : list item) : list Z := concat (map wire its).

Definition sendable (it : item) : Prop :=
  match it with
  | INum T v => in_type T v
  | IBlob l => zlen l < 2 ^ 32
  end.

Definition fits (s : slot) (it : item) : Prop :=
  match s, it with
  | SNum T, INum T' _ => T = T'
  | SBlob dest, IBlob l => zlen l <= zlen dest
  | _, _ => False
  end.

(** A buffer far from the end of the address space. *)
Definition ample (b : serial_buf) (n : Z) : Prop :=
  wf_buf b /\ size b <= 2 ^ 60 /\ pos b + n <= 2 ^ 59.

Lemma ample_roomy b n : ample b n -> roomy (size b).
Proof. intros ([_ ?] & ? & _). unfold roomy. lia. Qed.

Lemma serialize_item_spec b it :
  ample b (zlen (wire it)) -> sendable it ->
  serialize_item (Some b) it = Ret (Some b, -1) \/
  exists b', serialize_item (Some b) it = Ret (Some b', 0) /\ wf_buf b' /\
    live b' = live b ++ wire it /\ size b' <= 2 ^ 60.
Proof.
  intros Ha Hs. pose proof (ample_roomy _ _ Ha). destruct Ha as (Hw & Hsz & Hn).
  destruct it as [T v|l]; cbn [serialize_item wire sendable] in *.
  - rewrite zlen_be_bytes in Hn.
    destruct (serialize_T_spec T b v) as [?|(b' & -> & Hw' & Hl & Hsz')]; auto.
    right. exists b'. split_and!; auto. lia.
  - rewrite zlen_app, zlen_be_bytes in Hn. pose proof (zlen_nonneg l).
    destruct (serialize_blob_spec b l (zlen l)) as [?|(b' & -> & Hw' & Hl & Hsz')];
      auto; [unfold uword; lia | lia |].
    right. exists b'. split_and!; auto; [|lia].
    rewrite Hl. unfold zlen. by rewrite Nat2Z.id, take_ge.
Qed.

Lemma deserialize_item_spec b s it st :
  wf_buf b -> sendable it -> fits s it -> live b = st ++ wire it ->
  exists b', deserialize_item (Some b) s = Ret (Some b', Some it) /\
    wf_buf b' /\ live b' = st.
Proof.
  intros Hw Hs Hf Hl. destruct s as [T|dest], it as [T' v|l]; cbn in Hf; try done.
  - subst T'. destruct (deserialize_T_spec T b v 0 st) as (b' & E & ? & ? & _); auto.
    exists b'. cbn [deserialize_item]. by rewrite E.
  - destruct (deserialize_blob_spec b dest 0 l st) as (b' & E & ? & ? & _); auto.
    exists b'. cbn [deserialize_item]. rewrite E. cbn [obind Z.eqb].
    unfold zlen. by rewrite Nat2Z.id, take_app_length.
Qed.

Lemma serialize_items_spec b its :
  ample b (zlen (wires its)) -> Forall sendable its ->
  exists b' code, serialize_items (Some b) its = Ret (Some b', code) /\ wf_buf b' /\
    (code = 0 -> live b' = live b ++ wires its).
Proof.
  revert b. induction its as [|it its IH]; intros b Ha Hs.
  { destruct Ha as (Hw & _). exists b, 0. cbn. by rewrite app_nil_r. }
  apply Forall_cons in Hs as [Hs Hs']. unfold wires in *. cbn [map concat] in Ha.
  rewrite zlen_app in Ha. pose proof (zlen_nonneg (concat (map wire its))).
  destruct (serialize_item_spec b it) as [E|(b' & E & Hw' & Hl & Hsz)]; auto.
  { destruct Ha as (? & ? & ?). split_and!; auto. lia. }
  - exists b, (-1). cbn. rewrite E. cbn. split_and!; [done|apply Ha|done].
  - cbn [serialize_items]. rewrite E. cbn [obind Z.eqb].
    destruct (IH b') as (b2 & code & E2 & Hw2 & Hl2); auto.
    { destruct Ha as (Hw & ? & ?). split_and!; auto.
      rewrite <- (zlen_live b' Hw'), Hl, zlen_app, zlen_live by done. lia. }
    exists b2, code. split_and!; auto. intros Hc.
    rewrite (Hl2 Hc), Hl. cbn. by rewrite app_assoc.
Qed.

Lemma deserialize_items_spec b ss its st :
  wf_buf b -> Forall sendable its -> Forall2 fits ss its ->
  live b = st ++ wires (rev its) ->
  exists b', deserialize_items (Some b) ss = Ret (Some b', Some its) /\
    wf_buf b' /\ live b' = st.
Proof.
  intros Hw Hs Hf. revert b Hw Hs.
  induction Hf as [|s it ss its Hf _ IH]; intros b Hw Hs Hl.
  { exists b. split_and!; auto. rewrite Hl. apply app_nil_r. }
  apply Forall_cons in Hs as [Hs Hs']. unfold wires in *.
  cbn [rev] in Hl. rewrite map_app, concat_app, app_assoc in Hl.
  cbn [map concat] in Hl. rewrite app_nil_r in Hl.
  destruct (deserialize_item_spec b s it _ Hw Hs Hf Hl) as (b1 & E1 & Hw1 & Hl1).
  destruct (IH b1 Hw1 Hs' Hl1) as (b2 & E2 & Hw2 & Hl2).
  exists b2. cbn [deserialize_items]. rewrite E1. cbn [obind].
  rewrite E2. auto.
Qed.

(** *** Calls on arbitrary contents *)

(** A well-formed buffer splits at any depth below the cursor. *)
Lemma live_split b n :
  wf_buf b -> 0 <= n <= pos b ->
  exists s l, live b = s ++ l /\ zlen l = n /\ zlen s = pos b - n.
Proof.
  intros Hw Hn. pose proof (zlen_live b Hw) as Hz.
  exists (take (Z.to_nat (pos b - n)) (live b)), (drop (Z.to_nat (pos b - n)) (live b)).
  unfold zlen in *. rewrite length_take, length_drop.
  split_and!; [by rewrite take_drop|lia|lia].
Qed.

(** The number a big-endian length word on top of the buffer announces. *)
Definition announced (b : serial_buf) : Z :=
  be_value (drop (Z.to_nat (pos b - 4)) (live b)).

Lemma deserialize_blob_cases b t n :
  wf_buf b -> Forall is_byte (live b) ->
  deserialize_blob (Some b) t n =
    if pos b <? 4 then Ret (Some b, t, n, -1) else
    let len := announced b in
    if pos b - 4 <? len
    then Ret (Some (SerialBuf (data b) (pos b - 4) (size b)), t, len, -1)
    else if len <=? zlen t then
      Ret (Some (SerialBuf (data b) (pos b - 4 - len) (size b)),
           take (Z.to_nat len) (drop (Z.to_nat (pos b - 4 - len)) (data b))
             ++ drop (Z.to_nat len) t, len, 0)
    else UB.
Proof.
  intros Hw Hb. unfold deserialize_blob.
  destruct (Z.ltb_spec (pos b) 4); [done|].
  destruct (live_split b 4 Hw) as (s & l & Hl & Hzl & Hzs); [lia|].
  destruct (pop_spec b s l Hw Hl) as (_ & Hr & [Hw1 Hw2] & _).
  rewrite Hzl in *. rewrite Hr. cbn [obind pos data size] in *.
  assert (Ha : announced b = be_value l).
  { unfold announced. rewrite Hl. f_equal. apply drop_app_length'.
    unfold zlen in *. lia. }
  assert (Hbl : Forall is_byte l) by (rewrite Hl in Hb; apply Forall_app in Hb as [_ Hb]; exact Hb).
  assert (Hll : length l = 4%nat) by (unfold zlen in *; lia).
  assert (Hn : ntohl (object_value l) = announced b)
    by (rewrite Ha; exact (ntoh_object l 4 Hbl Hll)).
  rewrite Hn. assert (Hpos : 0 <= announced b).
  { rewrite Ha. unfold be_value. rewrite <- (le_bytes_le_value (rev l)) by (by apply Forall_rev).
    rewrite le_value_le_bytes. apply Z.mod_pos_bound. apply Z.pow_pos_nonneg; lia. }
  cbv zeta. destruct (Z.ltb_spec (pos b - 4) (announced b)); [done|].
  rewrite mem_read_ok by lia. cbn [obind].
  set (src := take _ _). assert (Hsrc : zlen src = announced b).
  { unfold src, zlen in *. rewrite length_take, length_drop. lia. }
  unfold mem_write. rewrite Hsrc. cbn [Z.leb andb].
  destruct (Z.leb_spec (0 + announced b) (zlen t)), (Z.leb_spec (announced b) (zlen t));
    try lia; done.
Qed.

Lemma deserialize_T_safe T b t0 :
  wf_buf b ->
  exists b' t code, deserialize_T T (Some b) t0 = Ret (Some b', t, code) /\
    wf_buf b' /\
    (if pos b <? Z.of_nat (sizeof T) then code = -1 /\ b' = b /\ t = t0
     else code = 0 /\ live b' = take (Z.to_nat (pos b - Z.of_nat (sizeof T))) (live b)).
Proof.
  intros Hw. unfold deserialize_T.
  destruct (Z.ltb_spec (pos b) (Z.of_nat (sizeof T))).
  { exists b, t0, (-1). auto. }
  destruct (live_split b (Z.of_nat (sizeof T)) Hw) as (s & l & Hl & Hzl & Hzs); [lia|].
  destruct (pop_spec b s l Hw Hl) as (_ & Hr & Hw' & Hl').
  rewrite Hzl in *. rewrite Hr. cbn [obind].
  do 3 eexists; split_and!; eauto. rewrite Hl', Hl.
  symmetry. apply take_app_length'. unfold zlen in *. lia.
Qed.

End Facts.

(** ** A concrete platform *)

(** An allocator that never runs out and fills fresh memory with 0xA5. *)
Definition arena_allocator : Allocator := {|
  malloc n := if 0 <=? n then Some (replicate (Z.to_nat n) 165) else None;
  realloc old n :=
    if 0 <=? n then
      Some (take (Z.to_nat n) old ++ replicate (Z.to_nat n - length old) 165)
    else None;
|}.

Lemma arena_laws : AllocatorLaws arena_allocator.
Proof.
  split; cbn; intros; destruct (Z.leb_spec 0 n) as [Hn|]; simplify_eq.
  - unfold zlen. rewrite length_replicate. lia.
  - unfold zlen. rewrite length_app, length_take, length_replicate. lia.
  - rewrite take_app_le by (rewrite length_take; lia).
    rewrite take_take. f_equal. lia.
Qed.

Definition x86 : Platform := {| platform_alloc := arena_allocator; little_endian := true |}.
Definition s390 : Platform := {| platform_alloc := arena_allocator; little_endian := false |}.

(** ** Properties *)

(** C34. Messages cross hosts: whatever one platform serializes into a fresh
    buffer, the receiver, on a platform of any byte order, reads back from the
    transmitted bytes as the same values, last written first, to the last
    byte. *)
Theorem wire_roundtrip
    (P1 P2 : Platform) (L1 : AllocatorLaws (@platform_alloc P1))
    (its : list item) (ss : list slot) n b0 b1 r :
  @new_serial_buf P1 n = Some b0 -> n <= 2 ^ 60 -> zlen (wires its) <= 2 ^ 59 ->
  Forall sendable its -> Forall2 fits ss (rev its) ->
  @serialize_items P1 (Some b0) its = Ret (Some b1, 0) ->
  @make_serial_buf P2 (live b1) (pos b1) = Some r ->
  exists r', @deserialize_items P2 (Some r) ss = Ret (Some r', Some (rev its))
    /\ pos r' = 0.
Proof.
  intros Hnew Hn Hwl Hs Hf Hser Hmake.
  unfold new_serial_buf in Hnew. destruct (malloc SIZEOF_SERIAL_BUF); [|done].
  set (sz := if n <=? 0 then _ else n) in *.
  assert (0 < sz <= 2 ^ 60)
    by (unfold sz; destruct (Z.leb_spec n 0); unfold INITIAL_SERIAL_BUF_SIZE; lia).
  destruct (malloc sz) as [d|] eqn:Ed; [|done]. injection Hnew as <-.
  pose proof (malloc_size _ _ Ed) as Hd.
  assert (Ha : ample (SerialBuf d 0 sz) (zlen (wires its)))
    by (split_and!; cbn; try lia; constructor; cbn; lia).
  destruct (serialize_items_spec _ its Ha Hs) as (b' & code & E & Hw & Hl).
  rewrite E in Hser. injection Hser as -> ->. specialize (Hl eq_refl).
  unfold make_serial_buf in Hmake.
  destruct (malloc SIZEOF_SERIAL_BUF); [|done]. injection Hmake as <-.
  pose proof (zlen_live b1 Hw) as Hz. pose proof (zlen_nonneg (live b1)).
  assert (Hwr : wf_buf (SerialBuf (live b1) (pos b1) (pos b1)))
    by (constructor; cbn; lia).
  destruct (deserialize_items_spec _ ss (rev its) [] Hwr) as (r' & Er & Hwr' & Hlr);
    auto; [by apply Forall_rev| |].
  - rewrite rev_involutive. cbn. unfold live at 1; cbn.
    rewrite take_ge by (unfold zlen in *; lia). rewrite Hl. done.
  - exists r'. split; [done|]. rewrite <- (zlen_live r' Hwr'), Hlr. done.
Qed.

Definition wire_example : list item :=
  [INum Tint32 (-7); IBlob [104; 105]; INum Tint16 513; INum Tdouble 4614253070214989087;
   INum Tint64 (- 2 ^ 63); INum Tint8 (-1); INum Tfloat 1078530011].

(** A little-endian sender with a 4-byte buffer and a big-endian receiver. *)
Lemma wire_roundtrip_witness :
  exists r', @deserialize_items s390
    (Some (SerialBuf (wires wire_example) 33 33))
    [SNum Tfloat; SNum Tint8; SNum Tint64; SNum Tdouble; SNum Tint16;
     SBlob [0; 0; 0]; SNum Tint32] = Ret (Some r', Some (rev wire_example))
    /\ pos r' = 0.
Proof.
  eapply (wire_roundtrip x86 s390 arena_laws wire_example _ 4).
  - vm_compute; reflexivity.
  - lia.
  - vm_compute; discriminate.
  - unfold wire_example, sendable, in_type, sword, uword.
    repeat apply Forall_cons_2; try apply Forall_nil_2;
      first [vm_compute; reflexivity | split; [vm_compute; discriminate|vm_compute; reflexivity]].
  - cbn [wire_example rev app]. repeat constructor; vm_compute; discriminate.
  - vm_compute; reflexivity.
  - vm_compute; reflexivity.
Defined.

(** Serializing never leaves the allocation: from any well-formed buffer a
    sequence of serializer calls whose total size stays below the address-space
    bound is defined, ends in a well-formed buffer, and on success has appended
    exactly the network-order image of its values. *)
Theorem serialize_safe
    (P : Platform) (L : AllocatorLaws (@platform_alloc P)) b its :
  ample b (zlen (wires its)) -> Forall sendable its ->
  exists b' code, @serialize_items P (Some b) its = Ret (Some b', code) /\
    wf_buf b' /\ (code = 0 -> live b' = live b ++ wires its).
Proof. apply serialize_items_spec. Qed.

Lemma serialize_safe_witness :
  exists b' code, @serialize_items s390 (Some (SerialBuf [9; 0] 1 2)) wire_example
      = Ret (Some b', code) /\
    wf_buf b' /\ (code = 0 -> live b' = live (SerialBuf [9; 0] 1 2) ++ wires wire_example).
Proof.
  apply (serialize_safe s390 arena_laws).
  - split_and!; [constructor; vm_compute; auto; split; discriminate | vm_compute; discriminate..].
  - unfold wire_example, sendable, in_type, sword, uword.
    repeat apply Forall_cons_2; try apply Forall_nil_2;
      first [vm_compute; reflexivity | split; [vm_compute; discriminate|vm_compute; reflexivity]].
Defined.

(** [deserialize_blob] on every well-formed buffer: too few bytes for the
    length word is an error that changes nothing; an announced length beyond
    the buffer is an error that has consumed the length word; otherwise the
    announced bytes are copied if the destination can hold them, and the copy
    runs past the destination if it cannot, whatever capacity the caller put
    in [*bytes]. *)
Theorem deserialize_blob_branches (P : Platform) b t n :
  wf_buf b -> Forall is_byte (live b) ->
  @deserialize_blob P (Some b) t n =
    if pos b <? 4 then Ret (Some b, t, n, -1) else
    let len := announced b in
    if pos b - 4 <? len
    then Ret (Some (SerialBuf (data b) (pos b - 4) (size b)), t, len, -1)
    else if len <=? zlen t then
      Ret (Some (SerialBuf (data b) (pos b - 4 - len) (size b)),
           take (Z.to_nat len) (drop (Z.to_nat (pos b - 4 - len)) (data b))
             ++ drop (Z.to_nat len) t, len, 0)
    else UB.
Proof. apply deserialize_blob_cases. Qed.

(** A five-byte blob and a caller that announces room for two. *)
Lemma deserialize_blob_branches_witness :
  @deserialize_blob x86 (Some (SerialBuf [1; 2; 3; 4; 5; 0; 0; 0; 5] 9 9)) [0; 0] 2 = UB.
Proof.
  rewrite (deserialize_blob_branches x86).
  - vm_compute. reflexivity.
  - constructor; vm_compute; auto. split; discriminate.
  - vm_compute. repeat constructor; discriminate.
Defined.
