(* ===== verification/SerialHeap.v ===== *)
(** * libtrpc/src/serialize.c on the heap

    The buffers of [Serialize] are values; here they are what the C code has:
    an allocated structure that points to an allocated block, both in a heap
    of live blocks.  An access to a block that is not live, or a second
    [free], is [UB].  The functions carry the names of the C functions with
    [_h]; [Serialize] is their abstraction. *)
From stdpp Require Import prelude gmap list.
From Stdlib Require Import ZArith Lia.
From S2P Require Import Prelude Serialize.
Local Open Scope Z_scope.

(** ** The heap *)

Abbreviation loc := positive.

(** A live block: bytes, or the fields of a [serial_buf_t]. *)
Inductive cell := Bytes (l : list Z) | Fields (d : option loc) (p sz : Z).
Abbreviation heap := (gmap loc cell).
Definition cell_size (c : cell) : Z := match c with Bytes l => zlen l | Fields _ _ _ => SIZEOF_SERIAL_BUF end.

Definition act (A : Type) : Type := heap -> outcome (heap * A).
Definition hret {A} (a : A) : act A := fun h => Ret (h, a).
Definition hbind {A B} (m : act A) (k : A -> act B) : act B :=
  fun h => match m h with Ret (h, a) => k a h | UB => UB end.
Definition undefined {A} : act A := fun _ => UB.

Declare Scope heap_scope.
Delimit Scope heap_scope with heap.
Notation "x <-h m ; k" := (hbind m (fun x => k)) (at level 100, m at next level, right associativity) : heap_scope.
Local Open Scope heap_scope.

Section Heap.
Context `{P : Platform}.

(** Where the allocator puts a block: any address that is not in use. *)
Context (place : heap -> loc).

Definition malloc_h (n : Z) : act (option loc) := fun h =>
  match malloc n with
  | None => Ret (h, None)
  | Some l => Ret (<[place h := Bytes l]> h, Some (place h))
  end.

Definition free_h (p : option loc) : act () := fun h =>
  match p with
  | None => Ret (h, ())
  | Some a => match h !! a with Some _ => Ret (delete a h, ()) | None => UB end
  end.

(** The block moves, or stays where it is. *)
Definition realloc_h (p : option loc) (n : Z) : act (option loc) := fun h =>
  match p with
  | None => malloc_h n h
  | Some a =>
      match h !! a with
      | Some (Bytes old) =>
          match realloc old n with
          | None => Ret (h, None)
          | Some l => let h := delete a h in Ret (<[place h := Bytes l]> h, Some (place h))
          end
      | _ => UB
      end
  end.

(** The fields of a structure, and bytes of a block. *)
Definition load (p : option loc) : act (option loc * Z * Z) := fun h =>
  match p with
  | Some a => match h !! a with Some (Fields d p sz) => Ret (h, (d, p, sz)) | _ => UB end
  | None => UB
  end.
Definition store (p : option loc) (d : option loc) (pos sz : Z) : act () := fun h =>
  match p with
  | Some a =>
      match h !! a with
      | Some c => if cell_size c =? SIZEOF_SERIAL_BUF then Ret (<[a := Fields d pos sz]> h, ()) else UB
      | None => UB
      end
  | None => UB
  end.
Definition read_h (d : option loc) (off n : Z) : act (list Z) := fun h =>
  match d with
  | Some a => match h !! a with Some (Bytes l) => obind (mem_read l off n) (fun x => Ret (h, x)) | _ => UB end
  | None => UB
  end.
Definition write_h (d : option loc) (off : Z) (src : list Z) : act () := fun h =>
  match d with
  | Some a =>
      match h !! a with
      | Some (Bytes l) => obind (mem_write l off src) (fun l => Ret (<[a := Bytes l]> h, ()))
      | _ => UB
      end
  | None => UB
  end.
(** A block of the caller, which is not in this heap. *)
Definition outside {A} (m : outcome A) : act A := fun h => obind m (fun a => Ret (h, a)).

(** ** The functions *)

Definition new_serial_buf_h (sz : Z) : act (option loc) :=
  b <-h malloc_h SIZEOF_SERIAL_BUF;
  match b with
  | None => hret None
  | Some _ =>
      let sz := if sz <=? 0 then INITIAL_SERIAL_BUF_SIZE else sz in
      d <-h malloc_h sz;
      match d with
      | None => _ <-h free_h b; hret None
      | Some _ => _ <-h store b d 0 sz; hret b
      end
  end.

Definition make_serial_buf_h (d : option loc) (sz : Z) : act (option loc) :=
  b <-h malloc_h SIZEOF_SERIAL_BUF;
  match b with
  | None => hret None
  | Some _ => _ <-h store b d sz sz; hret b
  end.

Definition free_serial_buf_h (b : option loc) : act () :=
  match b with
  | None => hret ()
  | Some _ => f <-h load b; let '(d, _, _) := f in _ <-h free_h d; free_h b
  end.

Definition reset_serial_buf_h (b : option loc) : act () :=
  match b with
  | None => hret ()
  | Some _ => f <-h load b; let '(d, _, sz) := f in store b d 0 sz
  end.

Definition reserve_space_h (b : option loc) (bytes : Z) : act Z :=
  match b with
  | None => hret (-1)
  | Some _ =>
      f <-h load b;
      let '(d, pos, sz) := f in
      if sz <? u64 (pos + bytes) then
        let new_size := u64 (sz * 2) in
        let new_size := if new_size <? u64 (pos + bytes) then u64 (new_size + bytes) else new_size in
        d <-h realloc_h d new_size;
        match d with
        | None => hret (-1)
        | Some _ => _ <-h store b d pos new_size; hret 0
        end
      else hret 0
  end.

Definition serialize_T_h (T : ctype) (b : option loc) (t : Z) : act Z :=
  let x := hton T t in
  r <-h reserve_space_h b (Z.of_nat (sizeof T));
  if negb (r =? 0) then hret (-1) else
  f <-h load b;
  let '(d, pos, sz) := f in
  _ <-h write_h d pos (object_bytes (sizeof T) x);
  _ <-h store b d (u64 (pos + Z.of_nat (sizeof T))) sz;
  hret 0.

(** [*t] and the code. *)
Definition deserialize_T_h (T : ctype) (b : option loc) (t : Z) : act (Z * Z) :=
  f <-h load b;
  let '(d, pos, sz) := f in
  if pos <? Z.of_nat (sizeof T) then hret (t, -1) else
  _ <-h store b d (pos - Z.of_nat (sizeof T)) sz;
  x <-h read_h d (pos - Z.of_nat (sizeof T)) (Z.of_nat (sizeof T));
  hret (ntoh T (object_value x), 0).

Definition serialize_blob_h (b : option loc) (t : list Z) (bytes : Z) : act Z :=
  r <-h reserve_space_h b (u64 (bytes + 4));
  if negb (r =? 0) then hret (-1) else
  f <-h load b;
  let '(d, pos, sz) := f in
  src <-h outside (mem_read t 0 bytes);
  _ <-h write_h d pos src;
  let pos := u64 (pos + bytes) in
  _ <-h store b d pos sz;
  _ <-h write_h d pos (object_bytes 4 (htonl bytes));
  _ <-h store b d (u64 (pos + 4)) sz;
  hret 0.

(** The block [t] points to, [*bytes] and the code. *)
Definition deserialize_blob_h (b : option loc) (t : list Z) (bytes : Z) : act (list Z * Z * Z) :=
  f <-h load b;
  let '(d, pos, sz) := f in
  if pos <? 4 then hret (t, bytes, -1) else
  let pos := pos - 4 in
  _ <-h store b d pos sz;
  x <-h read_h d pos 4;
  let bytes := ntohl (object_value x) in
  if pos <? bytes then hret (t, bytes, -1) else
  let pos := pos - bytes in
  _ <-h store b d pos sz;
  src <-h read_h d pos bytes;
  t <-h outside (mem_write t 0 src);
  hret (t, bytes, 0).

Definition serialize_str_h (b : option loc) (t : list Z) : act Z :=
  n <-h outside (strlen t); serialize_blob_h b t (u32 n).

Definition deserialize_str_h (b : option loc) (t : list Z) : act (list Z * Z) :=
  r <-h deserialize_blob_h b t 0;
  let '(t, len, code) := r in
  if negb (code =? 0) then hret (t, -1) else
  t <-h outside (mem_write t len [0]);
  hret (t, 0).
End Heap.

(** ** Users of a buffer *)

(** The calls of the interface on a buffer, and what each one answers: the
    code, with the destination it filled. *)
Inductive call :=
  | PutNum (T : ctype) (t : Z)
  | GetNum (T : ctype) (t : Z)
  | PutBlob (t : list Z) (bytes : Z)
  | GetBlob (t : list Z) (bytes : Z)
  | PutStr (t : list Z)
  | GetStr (t : list Z)
  | Rewind.

Inductive answer :=
  | Code (r : Z)
  | Num (t r : Z)
  | Blob (t : list Z) (bytes r : Z)
  | Str (t : list Z) (r : Z)
  | Nothing.

Section Users.
Context `{P : Platform}.

Definition run_call (c : call) (b : option serial_buf) : outcome (option serial_buf * answer) :=
  match c with
  | PutNum T t => obind (serialize_T T b t) (fun '(b, r) => Ret (b, Code r))
  | GetNum T t => obind (deserialize_T T b t) (fun '(b, t, r) => Ret (b, Num t r))
  | PutBlob t n => obind (serialize_blob b t n) (fun '(b, r) => Ret (b, Code r))
  | GetBlob t n => obind (deserialize_blob b t n) (fun '(b, t, n, r) => Ret (b, Blob t n r))
  | PutStr t => obind (serialize_str b t) (fun '(b, r) => Ret (b, Code r))
  | GetStr t => obind (deserialize_str b t) (fun '(b, t, r) => Ret (b, Str t r))
  | Rewind => Ret (reset_serial_buf b, Nothing)
  end.

Fixpoint run_calls (cs : list call) (b : option serial_buf) : outcome (list answer) :=
  match cs with
  | [] => Ret []
  | c :: cs => obind (run_call c b) (fun '(b, a) => obind (run_calls cs b) (fun l => Ret (a :: l)))
  end.

(** A buffer created, or made around the [l] received, used and given up. *)
Definition fresh_session (n : Z) (cs : list call) : outcome (option (list answer)) :=
  match new_serial_buf n with
  | None => Ret None
  | Some b => obind (run_calls cs (Some b)) (fun l => Ret (Some l))
  end.
Definition received_session (l : list Z) (n : Z) (cs : list call) : outcome (option (list answer)) :=
  match make_serial_buf l n with
  | None => Ret None
  | Some b => obind (run_calls cs (Some b)) (fun l => Ret (Some l))
  end.

Context (place : heap -> loc).

Definition run_call_h (c : call) (b : option loc) : act answer :=
  match c with
  | PutNum T t => r <-h serialize_T_h place T b t; hret (Code r)
  | GetNum T t => r <-h deserialize_T_h T b t; hret (Num r.1 r.2)
  | PutBlob t n => r <-h serialize_blob_h place b t n; hret (Code r)
  | GetBlob t n => r <-h deserialize_blob_h b t n; hret (Blob r.1.1 r.1.2 r.2)
  | PutStr t => r <-h serialize_str_h place b t; hret (Code r)
  | GetStr t => r <-h deserialize_str_h b t; hret (Str r.1 r.2)
  | Rewind => _ <-h reset_serial_buf_h b; hret Nothing
  end.

Fixpoint run_calls_h (cs : list call) (b : option loc) : act (list answer) :=
  match cs with
  | [] => hret []
  | c :: cs => a <-h run_call_h c b; l <-h run_calls_h cs b; hret (a :: l)
  end.

(** The use of a buffer the code returned, if it did, up to its release. *)
Definition use_h (cs : list call) (b : option loc) : act (option (list answer)) :=
  match b with
  | None => hret None
  | Some _ => l <-h run_calls_h cs b; _ <-h free_serial_buf_h b; hret (Some l)
  end.

Definition fresh_session_h (n : Z) (cs : list call) : act (option (list answer)) :=
  b <-h new_serial_buf_h place n; use_h cs b.
Definition received_session_h (d : loc) (n : Z) (cs : list call) : act (option (list answer)) :=
  b <-h make_serial_buf_h place (Some d) n; use_h cs b.
End Users.

(** ** The buffer on the heap implements the buffer of [Serialize] *)

(** The heap [h0] with the buffer [b] in it: the structure at [s], the block
    at [d]. *)
Definition with_buf (s d : loc) (b : serial_buf) (h0 : heap) : heap :=
  <[s := Fields (Some d) (pos b) (size b)]> (<[d := Bytes (data b)]> h0).

Definition apart (s d : loc) (h0 : heap) : Prop := h0 !! s = None /\ h0 !! d = None /\ s <> d.

Section Refinement.
Context `{P : Platform} {L : AllocatorLaws platform_alloc}.
Context (place : heap -> loc) (place_free : forall h, h !! place h = None).

Lemma load_buf s d b h0 : load (Some s) (with_buf s d b h0) = Ret (with_buf s d b h0, (Some d, pos b, size b)).
Proof using. unfold load, with_buf. by rewrite lookup_insert_eq. Qed.

Lemma store_buf s d b h0 p z :
  store (Some s) (Some d) p z (with_buf s d b h0) = Ret (with_buf s d (SerialBuf (data b) p z) h0, ()).
Proof using. unfold store, with_buf. rewrite lookup_insert_eq. cbn. by rewrite insert_insert_eq. Qed.

Lemma data_buf s d b h0 : s <> d -> with_buf s d b h0 !! d = Some (Bytes (data b)).
Proof using. intros Hn. unfold with_buf. by rewrite lookup_insert_ne, lookup_insert_eq. Qed.

Lemma read_buf s d b h0 off n : s <> d ->
  read_h (Some d) off n (with_buf s d b h0) = obind (mem_read (data b) off n) (fun x => Ret (with_buf s d b h0, x)).
Proof using. intros Hn. unfold read_h. by rewrite data_buf. Qed.

Lemma write_buf s d b h0 off src : s <> d ->
  write_h (Some d) off src (with_buf s d b h0) =
  obind (mem_write (data b) off src) (fun l => Ret (with_buf s d (SerialBuf l (pos b) (size b)) h0, ())).
Proof using.
  intros Hn. unfold write_h. rewrite data_buf by done. destruct (mem_write _ _ _); [|done]. cbn.
  unfold with_buf. cbn. by rewrite (insert_insert_ne _ d s), insert_insert_eq by done.
Qed.

Lemma free_buf s d b h0 : apart s d h0 -> free_serial_buf_h (Some s) (with_buf s d b h0) = Ret (h0, ()).
Proof using.
  intros (Hs & Hd & Hn). unfold free_serial_buf_h, hbind. rewrite load_buf. cbn.
  rewrite data_buf by done. unfold with_buf. rewrite delete_insert_ne by done.
  rewrite (delete_insert_id h0 d) by done. rewrite lookup_insert_eq.
  by rewrite delete_insert_id.
Qed.

(** The run [r] on the heap ended the way [o] says, with the new buffer at [s]. *)
Definition does {A} (s : loc) (h0 : heap) (r : outcome (heap * A)) (o : outcome (option serial_buf * A)) : Prop :=
  match o with
  | UB => r = UB
  | Ret (b', a) => exists b d, b' = Some b /\ apart s d h0 /\ r = Ret (with_buf s d b h0, a)
  end.

Lemma does_ret {A} s d b h0 (a : A) : apart s d h0 -> does s h0 (Ret (with_buf s d b h0, a)) (Ret (Some b, a)).
Proof using. intros Ha. by exists b, d. Qed.

Lemma does_ub {A} s h0 : does s h0 (UB : outcome (heap * A)) UB.
Proof using. done. Qed.

Lemma does_bind {A B} s h0 h (m : act A) (k : A -> act B) o f :
  does s h0 (m h) o ->
  (forall b d a, apart s d h0 -> does s h0 (k a (with_buf s d b h0)) (f (Some b, a))) ->
  does s h0 (hbind m k h) (obind o f).
Proof using.
  unfold does at 1, hbind. intros Hm Hk. destruct o as [[b' a]|]; [|by rewrite Hm].
  destruct Hm as (b & d & -> & Ha & ->). exact (Hk b d a Ha).
Qed.

(** A block moved by [realloc] is again away from the rest of the heap, and
    the structure points to it once the code has stored it. *)
Lemma realloc_buf s d b h0 n l : apart s d h0 -> realloc (data b) n = Some l ->
  exists h d', realloc_h place (Some d) n (with_buf s d b h0) = Ret (h, Some d') /\ apart s d' h0 /\
    forall p z, store (Some s) (Some d') p z h = Ret (with_buf s d' (SerialBuf l p z) h0, ()).
Proof using place_free.
  intros (Hs & Hd & Hn) El. unfold realloc_h. rewrite data_buf, El by done.
  assert (E : delete d (with_buf s d b h0) = <[s := Fields (Some d) (pos b) (size b)]> h0)
    by (unfold with_buf; rewrite delete_insert_ne, (delete_insert_id h0 d) by done; done).
  cbv zeta. rewrite E. set (h := <[s := _]> h0).
  destruct (proj1 (lookup_insert_None h0 s (place h) _) (place_free h)) as [Hp Hps].
  exists (<[place h := Bytes l]> h), (place h). split; [done|]. split; [done|].
  intros p z. unfold store. rewrite lookup_insert_ne by done.
  assert (Es : h !! s = Some (Fields (Some d) (pos b) (size b))) by apply lookup_insert_eq.
  assert (Ei : forall f, <[s := f]> h = <[s := f]> h0) by (intros f; apply insert_insert_eq).
  rewrite Es. cbn. unfold with_buf. cbn. by rewrite !(insert_insert_ne _ s (place h)), Ei by done.
Qed.

Lemma realloc_buf_null s d b h0 n : apart s d h0 -> realloc (data b) n = None ->
  realloc_h place (Some d) n (with_buf s d b h0) = Ret (with_buf s d b h0, None).
Proof using. intros (Hs & Hd & Hn) El. unfold realloc_h. by rewrite data_buf, El by done. Qed.

(** *** One lemma for each function *)

(** One access to the buffer. *)
Ltac heap_step :=
  unfold hbind at 1; rewrite ?load_buf, ?store_buf; cbn [data pos size]; rewrite ?read_buf, ?write_buf by assumption;
  cbn [data pos size]; cbv zeta.

(** A copy within a block: in range on both sides, or undefined on both. *)
Ltac heap_copy :=
  match goal with
  | |- context [mem_write ?l ?o ?x] => destruct (mem_write l o x)
  | |- context [mem_read ?l ?o ?n] => destruct (mem_read l o n)
  end; [cbn [obind]; cbv zeta|apply does_ub].

Lemma reserve_space_does s d b h0 n : apart s d h0 ->
  does s h0 (reserve_space_h place (Some s) n (with_buf s d b h0)) (Ret (reserve_space (Some b) n)).
Proof using place_free.
  intros Ha. unfold reserve_space_h, reserve_space. heap_step.
  destruct (size b <? u64 (pos b + n)); [|by apply does_ret]. set (ns := if _ <? _ then _ else _).
  unfold hbind at 1. destruct (realloc (data b) ns) as [l|] eqn:El.
  - destruct (realloc_buf _ _ _ _ _ _ Ha El) as (h & d' & -> & Ha' & Hst).
    unfold hbind. rewrite Hst. by apply does_ret.
  - rewrite (realloc_buf_null _ _ _ _ _ Ha El). by apply does_ret.
Qed.

(** What follows a reservation. *)
Lemma reserved_does s d b h0 n (k : act Z) f : apart s d h0 ->
  (forall b d, apart s d h0 -> does s h0 (k (with_buf s d b h0)) (f b)) ->
  does s h0 ((r <-h reserve_space_h place (Some s) n; if negb (r =? 0) then hret (-1) else k) (with_buf s d b h0))
    (let '(b, r) := reserve_space (Some b) n in
     if negb (r =? 0) then Ret (b, -1) else match b with None => UB | Some b => f b end).
Proof using place_free.
  intros Ha Hk.
  change (let '(b, r) := reserve_space (Some b) n in _) with
    (obind (Ret (reserve_space (Some b) n)) (fun '(b, r) =>
       if negb (r =? 0) then Ret (b, -1) else match b with None => UB | Some b => f b end)).
  apply does_bind; [by apply reserve_space_does|]. intros b' d' r Ha'.
  destruct (negb (r =? 0)); [by apply does_ret|by apply Hk].
Qed.

Lemma serialize_T_does T t s d b h0 : apart s d h0 ->
  does s h0 (serialize_T_h place T (Some s) t (with_buf s d b h0)) (serialize_T T (Some b) t).
Proof using place_free.
  intros Ha. unfold serialize_T_h, serialize_T. cbv zeta. apply reserved_does; [done|].
  clear. intros b d Ha. pose proof Ha as (? & ? & ?).
  do 2 heap_step. heap_copy. heap_step. by apply does_ret.
Qed.

Lemma deserialize_T_does T t s d b h0 : apart s d h0 ->
  does s h0 (deserialize_T_h T (Some s) t (with_buf s d b h0))
    (obind (deserialize_T T (Some b) t) (fun '(b, t, r) => Ret (b, (t, r)))).
Proof using.
  intros Ha. unfold deserialize_T_h, deserialize_T. pose proof Ha as (? & ? & ?). heap_step.
  destruct (pos b <? Z.of_nat (sizeof T)); [by apply does_ret|].
  do 2 heap_step. heap_copy. by apply does_ret.
Qed.

Lemma serialize_blob_does t n s d b h0 : apart s d h0 ->
  does s h0 (serialize_blob_h place (Some s) t n (with_buf s d b h0)) (serialize_blob (Some b) t n).
Proof using place_free.
  intros Ha. unfold serialize_blob_h, serialize_blob. apply reserved_does; [done|].
  clear. intros b d Ha. pose proof Ha as (? & ? & ?).
  heap_step. unfold hbind at 1, outside. heap_copy. heap_step. heap_copy. do 2 heap_step. heap_copy.
  heap_step. by apply does_ret.
Qed.

Lemma deserialize_blob_does t n s d b h0 : apart s d h0 ->
  does s h0 (deserialize_blob_h (Some s) t n (with_buf s d b h0))
    (obind (deserialize_blob (Some b) t n) (fun '(b, t, n, r) => Ret (b, (t, n, r)))).
Proof using.
  intros Ha. unfold deserialize_blob_h, deserialize_blob. pose proof Ha as (? & ? & ?). heap_step.
  destruct (pos b <? 4); [by apply does_ret|]. do 2 heap_step. heap_copy.
  destruct (_ <? _); [by apply does_ret|]. do 2 heap_step. heap_copy. unfold hbind, outside.
  heap_copy. by apply does_ret.
Qed.

Lemma serialize_str_does t s d b h0 : apart s d h0 ->
  does s h0 (serialize_str_h place (Some s) t (with_buf s d b h0)) (serialize_str (Some b) t).
Proof using place_free.
  intros Ha. unfold serialize_str_h, serialize_str, hbind, outside. destruct (strlen t) as [n|]; [|apply does_ub].
  cbn [obind]. by apply serialize_blob_does.
Qed.

Lemma deserialize_str_does t s d b h0 : apart s d h0 ->
  does s h0 (deserialize_str_h (Some s) t (with_buf s d b h0))
    (obind (deserialize_str (Some b) t) (fun '(b, t, r) => Ret (b, (t, r)))).
Proof using.
  intros Ha. pose proof (deserialize_blob_does t 0 s d b h0 Ha) as Hb.
  unfold deserialize_str_h, deserialize_str. unfold hbind at 1.
  destruct (deserialize_blob (Some b) t 0) as [[[[b1 t1] len] code]|]; cbn [obind] in Hb |- *.
  - destruct Hb as (b2 & d2 & -> & Ha2 & ->). destruct (negb (code =? 0)); [by apply does_ret|].
    unfold hbind, outside. heap_copy. by apply does_ret.
  - unfold does in Hb. rewrite Hb. apply does_ub.
Qed.

(** *** Creation *)

(** [malloc] of the structure, and the two assignments that fill it. *)
Lemma malloc_struct h l d p z : malloc SIZEOF_SERIAL_BUF = Some l ->
  store (Some (place h)) d p z (<[place h := Bytes l]> h) = Ret (<[place h := Fields d p z]> h, ()).
Proof using L.
  intros El. unfold store. rewrite lookup_insert_eq. cbn [cell_size].
  rewrite (malloc_size _ _ El). cbn. by rewrite insert_insert_eq.
Qed.

Lemma new_serial_buf_does n h :
  match new_serial_buf n with
  | None => new_serial_buf_h place n h = Ret (h, None)
  | Some b => exists s d, apart s d h /\ new_serial_buf_h place n h = Ret (with_buf s d b h, Some s)
  end.
Proof using L place_free.
  unfold new_serial_buf, new_serial_buf_h, hbind, malloc_h.
  destruct (malloc SIZEOF_SERIAL_BUF) as [l|] eqn:El; [|done]. cbv zeta.
  set (sz := if n <=? 0 then _ else _). pose proof (place_free h) as Hs. set (s := place h) in *.
  destruct (malloc sz) as [l'|] eqn:El'; cbn.
  - set (h1 := <[s := Bytes l]> h).
    destruct (proj1 (lookup_insert_None h s (place h1) _) (place_free h1)) as [Hd Hn].
    exists s, (place h1). split; [done|]. rewrite lookup_insert_ne by done.
    assert (E1 : h1 !! s = Some (Bytes l)) by apply lookup_insert_eq.
    rewrite E1. cbn [cell_size]. rewrite (malloc_size _ _ El). cbn. unfold with_buf. cbn.
    assert (Ei : forall f, <[s := f]> h1 = <[s := f]> h) by (intros f; apply insert_insert_eq).
    by rewrite !(insert_insert_ne _ s (place h1)), Ei by done.
  - rewrite lookup_insert_eq. by rewrite delete_insert_id.
Qed.

Lemma make_serial_buf_does n h d l : h !! d = Some (Bytes l) ->
  match make_serial_buf l n with
  | None => make_serial_buf_h place (Some d) n h = Ret (h, None)
  | Some b => exists s, apart s d (delete d h) /\
      make_serial_buf_h place (Some d) n h = Ret (with_buf s d b (delete d h), Some s)
  end.
Proof using L place_free.
  intros Hd. unfold make_serial_buf, make_serial_buf_h, hbind, malloc_h.
  destruct (malloc SIZEOF_SERIAL_BUF) as [l'|] eqn:El; [|done].
  pose proof (place_free h) as Hs. assert (Hn : place h <> d) by congruence.
  exists (place h). split; [repeat split; try done; [by rewrite lookup_delete_ne|apply lookup_delete_eq]|].
  rewrite (malloc_struct _ _ _ _ _ El). unfold with_buf. cbn. by rewrite insert_delete_id.
Qed.

(** *** Sessions *)

Lemma run_call_does c s d b h0 : apart s d h0 ->
  does s h0 (run_call_h place c (Some s) (with_buf s d b h0)) (run_call c (Some b)).
Proof using place_free.
  intros Ha. destruct c; cbn [run_call run_call_h].
  1, 3, 5: apply does_bind; [auto using serialize_T_does, serialize_blob_does, serialize_str_does|];
    intros; by apply does_ret.
  - pose proof (deserialize_T_does T t s d b h0 Ha) as Hd. unfold hbind.
    destruct (deserialize_T T (Some b) t) as [[[b1 t1] r]|]; [|by rewrite Hd].
    destruct Hd as (b2 & d2 & -> & Ha2 & ->). by apply does_ret.
  - pose proof (deserialize_blob_does t bytes s d b h0 Ha) as Hd. unfold hbind.
    destruct (deserialize_blob (Some b) t bytes) as [[[[b1 t1] n] r]|]; [|by rewrite Hd].
    destruct Hd as (b2 & d2 & -> & Ha2 & ->). by apply does_ret.
  - pose proof (deserialize_str_does t s d b h0 Ha) as Hd. unfold hbind.
    destruct (deserialize_str (Some b) t) as [[[b1 t1] r]|]; [|by rewrite Hd].
    destruct Hd as (b2 & d2 & -> & Ha2 & ->). by apply does_ret.
  - unfold reset_serial_buf_h. unfold hbind at 1. heap_step. by apply does_ret.
Qed.

Lemma run_calls_does cs s d b h0 : apart s d h0 ->
  match run_calls cs (Some b) with
  | UB => run_calls_h place cs (Some s) (with_buf s d b h0) = UB
  | Ret l => exists b' d', apart s d' h0 /\
      run_calls_h place cs (Some s) (with_buf s d b h0) = Ret (with_buf s d' b' h0, l)
  end.
Proof using place_free.
  revert b d. induction cs as [|c cs IH]; intros b d Ha; cbn [run_calls run_calls_h]; [by exists b, d|].
  pose proof (run_call_does c s d b h0 Ha) as Hc. unfold does in Hc. unfold hbind.
  destruct (run_call c (Some b)) as [[b1 a]|]; cbn [obind]; [|by rewrite Hc].
  destruct Hc as (b2 & d2 & -> & Ha2 & ->). specialize (IH b2 d2 Ha2).
  destruct (run_calls cs (Some b2)) as [l|]; [|by rewrite IH].
  destruct IH as (b3 & d3 & Ha3 & ->). by exists b3, d3.
Qed.

(** A buffer that is used and given up leaves the rest of the heap alone. *)
Lemma use_does cs s d b h0 : apart s d h0 ->
  use_h place cs (Some s) (with_buf s d b h0) =
  match run_calls cs (Some b) with UB => UB | Ret l => Ret (h0, Some l) end.
Proof using place_free.
  intros Ha. pose proof (run_calls_does cs s d b h0 Ha) as Hc. unfold use_h, hbind.
  destruct (run_calls cs (Some b)) as [l|]; [|by rewrite Hc].
  destruct Hc as (b' & d' & Ha' & ->). by rewrite (free_buf s d' b' h0).
Qed.

End Refinement.

(** ** Properties *)

(** C35. Whoever creates a serialization buffer, calls its operations in any
    order and releases it with [free_serial_buf] gets exactly the answers of
    the buffers of [Serialize] and leaves the heap exactly as it was, so no
    block leaks, none is released twice and none is touched after its release,
    also when an allocation fails on the way; a session is undefined only
    where the functions of [Serialize] are.  A buffer made around a received
    block gives that block up as well, unless the structure could not be
    allocated: then the block is still the caller's. *)
Theorem buffers_leak_nothing (P : Platform) (L : AllocatorLaws (@platform_alloc P)) (place : heap -> loc) :
  (forall h, h !! place h = None) ->
  forall (cs : list call) (n : Z) (h : heap),
    fresh_session_h place n cs h =
      match fresh_session n cs with UB => UB | Ret r => Ret (h, r) end /\
    forall d l, h !! d = Some (Bytes l) ->
      received_session_h place d n cs h =
        match received_session l n cs with
        | UB => UB
        | Ret None => Ret (h, None)
        | Ret (Some r) => Ret (delete d h, Some r)
        end.
Proof.
  intros Hp cs n h. split.
  - pose proof (new_serial_buf_does place Hp n h) as Hn. unfold fresh_session_h, fresh_session, hbind.
    destruct (new_serial_buf n) as [b|]; [|by rewrite Hn].
    destruct Hn as (s & d & Ha & ->). rewrite (use_does place Hp cs s d b h Ha).
    by destruct (run_calls cs (Some b)).
  - intros d l Hd. pose proof (make_serial_buf_does place Hp n h d l Hd) as Hn.
    unfold received_session_h, received_session, hbind.
    destruct (make_serial_buf l n) as [b|]; [|by rewrite Hn].
    destruct Hn as (s & Ha & ->). rewrite (use_does place Hp cs s d b _ Ha).
    by destruct (run_calls cs (Some b)).
Qed.

(** A sender that outgrows its two bytes, and the receiver of what it sent. *)
Lemma buffers_leak_nothing_witness :
  let place := fun h : heap => fresh (dom h : gset loc) in
  let h : heap := {[ 1%positive := Bytes [104; 105; 0; 0; 0; 2; 0; 7] ]} in
  @fresh_session_h x86 place 2 [PutStr [104; 105; 0]; PutNum Tint16 7; GetNum Tint16 0] h =
    Ret (h, Some [Code 0; Code 0; Num 7 0]) /\
  @received_session_h x86 place 1%positive 8 [GetNum Tint16 0; GetStr [0; 0; 0]; GetNum Tint8 5] h =
    Ret (∅, Some [Num 7 0; Str [104; 105; 0] 0; Num 5 (-1)]).
Proof.
  intros place h.
  assert (Hp : forall h, h !! place h = None) by (intros h'; apply (not_elem_of_dom (D := gset loc)); exact (is_fresh (dom h' : gset loc))).
  split.
  - rewrite (proj1 (buffers_leak_nothing x86 arena_laws place Hp _ _ _)). vm_compute. reflexivity.
  - rewrite (proj2 (buffers_leak_nothing x86 arena_laws place Hp _ 8 h) 1%positive [104; 105; 0; 0; 0; 2; 0; 7] eq_refl).
    assert (E : delete 1%positive h = ∅) by apply delete_singleton_eq.
    rewrite E. vm_compute. reflexivity.
Defined.
