(* ===== verification/BpfMaps.v ===== *)
(** * timpani-n/src/bpf/maps.h: the data shared by the BPF programs and the
    node executor, and the BPF map helpers both sides use

    A BPF hash map is a finite map with a capacity; a BPF array map is a list
    of fixed length whose elements always exist.  Helpers return the kernel's
    codes: 0 on success, a negative error otherwise. *)
From stdpp Require Import prelude gmap list.
From Stdlib Require Import ZArith Lia.
From S2P Require Import Prelude.
Local Open Scope Z_scope.

Definition SLOT_NONE : Z := 0xFFFFFFFF.
Definition SCHED_TYPE_TT : Z := 0.
Definition SCHED_TYPE_CBS : Z := 1.
Definition SCHED_TYPE_BEST_EFFORT : Z := 2.
Definition FAULT_DMISS : Z := 0.
Definition FAULT_BUDGET_EXCEED : Z := 1.

Record TtSlotKey := { key_cpu : Z; key_slot_idx : Z }.

#[export] Instance TtSlotKey_eq_dec : EqDecision TtSlotKey.
Proof. solve_decision. Defined.

#[export] Program Instance TtSlotKey_countable : Countable TtSlotKey :=
  inj_countable' (fun k => (key_cpu k, key_slot_idx k))
                 (fun p => {| key_cpu := p.1; key_slot_idx := p.2 |}) _.
Next Obligation. by intros []. Qed.

Record TtSlotBpf := {
  tts_workload_id_hash : Z;
  tts_task_id_hash : Z;
  tts_offset_us : Z;
  tts_duration_us : Z;
  tts_deadline_us : Z;
  tts_cpu : Z;
}.

Record CbsState := {
  cbs_task_id_hash : Z;
  budget_us : Z;
  period_us : Z;
  remaining_us : Z;
  exec_start_ns : Z;
  replenish_at_ns : Z;
  deadline_us : Z;
}.

Record TaskMeta := {
  workload_id_hash : Z;
  task_id_hash : Z;
  assigned_cpu : Z;
  slot_duration_us : Z;
  scheduling_type : Z;
  layer : Z;
  tt_runnable : Z;
  activation_ns : Z;
  cgroup_id : Z;
}.

(** [actual_completion_ns] is [None] when the field was never written: the
    ring buffer hands out memory that is not cleared. *)
Record FaultEvent := {
  fault_workload_id_hash : Z;
  fault_task_id_hash : Z;
  fault_cpu : Z;
  expected_deadline_ns : Z;
  actual_completion_ns : option Z;
  fault_type : Z;
}.

(** ** Hash maps *)

Definition E2BIG : Z := 7.
Definition ENOENT : Z := 2.

Section Hash.
Context {K V : Type} `{Countable K}.

(** [bpf_map_update_elem] with [BPF_ANY] on a hash map of [cap] entries. *)
Definition hash_update (cap : nat) (k : K) (v : V) (m : gmap K V) : gmap K V * Z :=
  if decide (is_Some (m !! k)) then (<[k := v]> m, 0)
  else if decide (size m < cap)%nat then (<[k := v]> m, 0)
  else (m, - E2BIG).

(** [bpf_map_delete_elem] on a hash map. *)
Definition hash_delete (k : K) (m : gmap K V) : gmap K V * Z :=
  if decide (is_Some (m !! k)) then (delete k m, 0) else (m, - ENOENT).

Lemma hash_update_lookup cap k v m k' :
  (hash_update cap k v m).1 !! k' =
    if decide ((hash_update cap k v m).2 = 0 /\ k = k') then Some v else m !! k'.
Proof.
  unfold hash_update. destruct (decide (is_Some (m !! k))); cbn;
    [|destruct (decide (size m < cap)%nat); cbn];
    try (rewrite lookup_insert; repeat case_decide; naive_solver).
  case_decide; [|done]. naive_solver.
Qed.

Lemma hash_delete_map k m : (hash_delete k m).1 = delete k m.
Proof.
  unfold hash_delete. case_decide as E; cbn; [done|].
  symmetry. apply delete_id. by apply eq_None_not_Some.
Qed.

Lemma hash_update_size cap k v m :
  (size m <= cap)%nat -> (size (hash_update cap k v m).1 <= cap)%nat.
Proof.
  intros Hm. unfold hash_update. case_decide as E; cbn.
  - by rewrite map_size_insert_Some.
  - apply eq_None_not_Some in E. case_decide; cbn; [|done].
    rewrite map_size_insert_None by done. lia.
Qed.
End Hash.

(** ** Array maps *)

Section Array.
Context {V : Type}.

(** [bpf_map_lookup_elem]: a pointer to the element, [NULL] out of range. *)
Definition array_lookup (m : list V) (k : Z) : option V :=
  if k <? 0 then None else m !! Z.to_nat k.

(** A store through the pointer, or [bpf_map_update_elem]: out of range the
    helper fails and the array is unchanged. *)
Definition array_store (m : list V) (k : Z) (v : V) : list V :=
  if k <? 0 then m else <[Z.to_nat k := v]> m.

Lemma array_store_length m k v : length (array_store m k v) = length m.
Proof. unfold array_store. destruct (k <? 0); [done|apply length_insert]. Qed.

Lemma array_lookup_store m k v k' :
  array_lookup (array_store m k v) k' =
    if decide (k = k' /\ 0 <= k < Z.of_nat (length m)) then Some v
    else array_lookup m k'.
Proof.
  unfold array_lookup, array_store.
  destruct (Z.ltb_spec k' 0), (Z.ltb_spec k 0); case_decide as E; try done; try lia.
  - destruct E as [<- ?]. by apply list_lookup_insert_eq; lia.
  - destruct (decide (k = k')) as [<-|].
    + rewrite list_insert_ge by lia. done.
    + apply list_lookup_insert_ne. lia.
Qed.

Lemma array_lookup_is_Some m k :
  is_Some (array_lookup m k) <-> 0 <= k < Z.of_nat (length m).
Proof.
  unfold array_lookup. destruct (Z.ltb_spec k 0).
  - split; [by intros []|lia].
  - rewrite lookup_lt_is_Some. lia.
Qed.
End Array.
