(* ===== verification/BpfSched.v ===== *)
(** * timpani-n/src/bpf/timpani.bpf.c: the sched_ext scheduler

    Each handler is a function of the program's maps, the environment of the
    call (time, CPU, what the kernel answers) and its arguments.  The kfuncs
    have no code here: a call is recorded, in order, in [kcalls].  A handler
    runs to completion; the map values a pointer reaches are written back to
    the map they live in. *)
From stdpp Require Import prelude gmap list.
From Stdlib Require Import ZArith Lia.
From S2P Require Import Prelude BpfMaps.
Local Open Scope Z_scope.

(** The kernel's sched_ext constants are not in this repository. *)
Class ScxConsts := {
  SCX_DSQ_GLOBAL : Z;
  SCX_DSQ_LOCAL_ON : Z;
  SCX_SLICE_DFL : Z;
  SCX_ENQ_PREEMPT : Z;
  SCX_ENQ_HEAD : Z;
  SCX_KICK_IDLE : Z;
  SCX_KICK_PREEMPT : Z;
}.

Definition DSQ_CBS : Z := 101.
Definition DSQ_THROTTLED : Z := 102.
Definition DSQ_BE : Z := 103.
Definition PROMOTE_BUDGET : nat := 16.
Definition TT_ACTIVE_RUNNING : Z := 0xffffffffffffffff.
Definition MAX_CPUS : nat := 128.

(** Calls of kernel functions and submitted ring-buffer records. *)
Inductive kcall :=
  | KCreateDsq (dsq_id node : Z)
  | KDispatch (pid dsq_id slice enq_flags : Z)
  | KDispatchFromDsq (pid dsq_id enq_flags : Z)
  | KConsume (dsq_id : Z)
  | KKick (cpu flags : Z)
  | KSetSlice (pid slice : Z)
  | KFault (e : FaultEvent).

(** The maps and globals of the program. *)
Record bpf_state := {
  isolated_cpu_mask : Z;
  tt_table_map : gmap TtSlotKey TtSlotBpf;
  cbs_map : gmap Z CbsState;
  current_slot_map : list Z;
  tt_active_until_map : list Z;
  next_tt_start_map : list Z;
  tt_runnable_count_map : list Z;
  task_meta_map : gmap Z TaskMeta;
}.

(** What a handler call sees of the kernel. *)
Record kenv := {
  ktime : Z;                       (* bpf_ktime_get_ns() *)
  this_cpu : Z;                    (* bpf_get_smp_processor_id() *)
  ringbuf_ok : list kcall -> bool; (* bpf_ringbuf_reserve() after these calls *)
}.

(** *** Field updates *)

Definition with_cbs_map (st : bpf_state) m : bpf_state :=
  {| isolated_cpu_mask := isolated_cpu_mask st; tt_table_map := tt_table_map st;
     cbs_map := m; current_slot_map := current_slot_map st;
     tt_active_until_map := tt_active_until_map st;
     next_tt_start_map := next_tt_start_map st;
     tt_runnable_count_map := tt_runnable_count_map st;
     task_meta_map := task_meta_map st |}.
Definition with_task_meta (st : bpf_state) m : bpf_state :=
  {| isolated_cpu_mask := isolated_cpu_mask st; tt_table_map := tt_table_map st;
     cbs_map := cbs_map st; current_slot_map := current_slot_map st;
     tt_active_until_map := tt_active_until_map st;
     next_tt_start_map := next_tt_start_map st;
     tt_runnable_count_map := tt_runnable_count_map st;
     task_meta_map := m |}.
Definition with_counts (st : bpf_state) m : bpf_state :=
  {| isolated_cpu_mask := isolated_cpu_mask st; tt_table_map := tt_table_map st;
     cbs_map := cbs_map st; current_slot_map := current_slot_map st;
     tt_active_until_map := tt_active_until_map st;
     next_tt_start_map := next_tt_start_map st;
     tt_runnable_count_map := m;
     task_meta_map := task_meta_map st |}.
Definition with_active_until (st : bpf_state) m : bpf_state :=
  {| isolated_cpu_mask := isolated_cpu_mask st; tt_table_map := tt_table_map st;
     cbs_map := cbs_map st; current_slot_map := current_slot_map st;
     tt_active_until_map := m;
     next_tt_start_map := next_tt_start_map st;
     tt_runnable_count_map := tt_runnable_count_map st;
     task_meta_map := task_meta_map st |}.

(** Stores through the pointers [bpf_map_lookup_elem] returned. *)
Definition put_cbs (st : bpf_state) (key : Z) (c : CbsState) : bpf_state :=
  with_cbs_map st (<[key := c]> (cbs_map st)).
Definition put_meta (st : bpf_state) (pid : Z) (m : TaskMeta) : bpf_state :=
  with_task_meta st (<[pid := m]> (task_meta_map st)).

Definition set_tt_runnable (m : TaskMeta) (v : Z) : TaskMeta :=
  {| workload_id_hash := workload_id_hash m; task_id_hash := task_id_hash m;
     assigned_cpu := assigned_cpu m; slot_duration_us := slot_duration_us m;
     scheduling_type := scheduling_type m; layer := layer m; tt_runnable := v;
     activation_ns := activation_ns m; cgroup_id := cgroup_id m |}.
Definition set_activation (m : TaskMeta) (v : Z) : TaskMeta :=
  {| workload_id_hash := workload_id_hash m; task_id_hash := task_id_hash m;
     assigned_cpu := assigned_cpu m; slot_duration_us := slot_duration_us m;
     scheduling_type := scheduling_type m; layer := layer m;
     tt_runnable := tt_runnable m;
     activation_ns := v; cgroup_id := cgroup_id m |}.
Definition set_server (c : CbsState) (remaining start replenish : Z) : CbsState :=
  {| cbs_task_id_hash := cbs_task_id_hash c; budget_us := budget_us c;
     period_us := period_us c; remaining_us := remaining; exec_start_ns := start;
     replenish_at_ns := replenish; deadline_us := deadline_us c |}.

(** ** Helpers *)

Definition cbs_key_from_meta (m : TaskMeta) : Z :=
  Z.lxor (workload_id_hash m) (task_id_hash m).

(** The time [at_] advanced past [now] by whole periods of [period_ns]. *)
Definition advance_periods (at_ period_ns now : Z) : Z :=
  let elapsed := u64 (now - at_) in
  let periods := u64 (elapsed / period_ns + 1) in
  u64 (at_ + u64 (periods * period_ns)).

Definition cbs_lazy_replenish (cbs : option CbsState) (now : Z) : option CbsState :=
  match cbs with
  | None => None
  | Some c =>
      if (period_us c =? 0) || (now <? replenish_at_ns c) then Some c else
      let period_ns := u64 (period_us c * 1000) in
      Some (set_server c (budget_us c) (exec_start_ns c)
              (advance_periods (replenish_at_ns c) period_ns now))
  end.

Definition tt_active_on_cpu (st : bpf_state) (cpu now : Z) : bool :=
  let runnable_count := array_lookup (tt_runnable_count_map st) cpu in
  let active_until := array_lookup (tt_active_until_map st) cpu in
  if match runnable_count with Some c => 0 <? c | None => false end then true
  else match active_until with Some u => now <? u | None => false end.

(** [pid] is the key [meta] points to. *)
Definition mark_tt_runnable (st : bpf_state) (pid : Z) (meta : TaskMeta) (cpu : Z)
  : bpf_state :=
  let st :=
    if tt_runnable meta =? 0 then
      let st :=
        match array_lookup (tt_runnable_count_map st) cpu with
        | Some c => with_counts st (array_store (tt_runnable_count_map st) cpu (u32 (c + 1)))
        | None => st
        end in
      put_meta st pid (set_tt_runnable meta 1)
    else st in
  with_active_until st (array_store (tt_active_until_map st) cpu TT_ACTIVE_RUNNING).

Definition mark_tt_not_runnable (st : bpf_state) (pid : Z) (meta : TaskMeta) (cpu : Z)
  : bpf_state :=
  if tt_runnable meta =? 0 then st else
  let st :=
    match array_lookup (tt_runnable_count_map st) cpu with
    | Some c =>
        if 0 <? c
        then with_counts st (array_store (tt_runnable_count_map st) cpu (u32 (c - 1)))
        else st
    | None => st
    end in
  let st := put_meta st pid (set_tt_runnable meta 0) in
  if match array_lookup (tt_runnable_count_map st) cpu with
     | Some c => c =? 0 | None => true end
  then with_active_until st (array_store (tt_active_until_map st) cpu 0)
  else st.

Definition us_until_next_tt (st : bpf_state) (cpu now : Z) : Z :=
  match array_lookup (next_tt_start_map st) cpu with
  | None => 0xffffffff
  | Some start =>
      if start =? 0 then 0xffffffff
      else if start <=? now then 1
      else
        let delta_us := u64 (start - now) / 1000 in
        if delta_us =? 0 then 1
        else if 0xffffffff <? delta_us then 0xffffffff
        else u32 delta_us
  end.

(** [cpu < 64 && (isolated_cpu_mask & (1ULL << cpu))] *)
Definition is_isolated (st : bpf_state) (cpu : Z) : bool :=
  (cpu <? 64) && negb (Z.land (isolated_cpu_mask st) (Z.shiftl 1 cpu) =? 0).

Section Handlers.
Context `{ScxConsts}.

Definition cbs_enqueue_flags (enq_flags : Z) : Z :=
  Z.ldiff enq_flags (Z.lor SCX_ENQ_PREEMPT SCX_ENQ_HEAD).

(** [q] is what the iterator over [DSQ_THROTTLED] yields. *)
Fixpoint promote_scan (st : bpf_state) (scanned : nat) (now : Z) (q : list Z)
  : bpf_state * list kcall :=
  match q with
  | [] => (st, [])
  | pid :: q =>
      if (PROMOTE_BUDGET <=? scanned)%nat then (st, []) else
      match task_meta_map st !! pid with
      | None => promote_scan st (S scanned) now q
      | Some meta =>
          if negb (scheduling_type meta =? SCHED_TYPE_CBS)
          then promote_scan st (S scanned) now q else
          let key := cbs_key_from_meta meta in
          match cbs_lazy_replenish (cbs_map st !! key) now with
          | None => promote_scan st (S scanned) now q
          | Some cbs =>
              let '(st', calls) := promote_scan (put_cbs st key cbs) (S scanned) now q in
              (st', if 0 <? remaining_us cbs
                    then KDispatchFromDsq pid DSQ_CBS 0
                         :: KKick (assigned_cpu meta) SCX_KICK_IDLE :: calls
                    else calls)
          end
      end
  end.

Definition promote_throttled_if_replenished (st : bpf_state) (now : Z) (q : list Z)
  : bpf_state * list kcall := promote_scan st 0 now q.

(** ** Handlers *)

Definition select_cpu (e : kenv) (st : bpf_state) (pid prev_cpu : Z) : bpf_state * Z :=
  match task_meta_map st !! pid with
  | Some meta =>
      if (scheduling_type meta =? SCHED_TYPE_TT) || (scheduling_type meta =? SCHED_TYPE_CBS)
      then
        let st := put_meta st pid (set_activation meta (ktime e)) in
        let cpu := assigned_cpu meta in
        if is_isolated st cpu then (st, i32 cpu) else (st, prev_cpu)
      else (st, prev_cpu)
  | None => (st, prev_cpu)
  end.

Definition enqueue (e : kenv) (st : bpf_state) (pid enq_flags : Z)
  : bpf_state * list kcall :=
  match task_meta_map st !! pid with
  | None => (st, [KDispatch pid SCX_DSQ_GLOBAL SCX_SLICE_DFL enq_flags])
  | Some meta =>
      if scheduling_type meta =? SCHED_TYPE_TT then
        let acpu := assigned_cpu meta in
        if is_isolated st acpu then
          (mark_tt_runnable st pid meta acpu,
           [KDispatch pid (Z.lor SCX_DSQ_LOCAL_ON acpu) SCX_SLICE_DFL
              (Z.lor enq_flags SCX_ENQ_PREEMPT);
            KKick acpu SCX_KICK_PREEMPT])
        else (st, [KDispatch pid SCX_DSQ_GLOBAL SCX_SLICE_DFL enq_flags])
      else if scheduling_type meta =? SCHED_TYPE_CBS then
        let key := cbs_key_from_meta meta in
        let cbs_flags := cbs_enqueue_flags enq_flags in
        match cbs_lazy_replenish (cbs_map st !! key) (ktime e) with
        | Some cbs =>
            let st := put_cbs st key cbs in
            if remaining_us cbs =? 0
            then (st, [KDispatch pid DSQ_THROTTLED SCX_SLICE_DFL cbs_flags])
            else (st, [KDispatch pid DSQ_CBS SCX_SLICE_DFL cbs_flags])
        | None => (st, [KDispatch pid SCX_DSQ_GLOBAL SCX_SLICE_DFL cbs_flags])
        end
      else (st, [KDispatch pid DSQ_BE SCX_SLICE_DFL enq_flags])
  end.

(** [q] is the content of [DSQ_THROTTLED]. *)
Definition dispatch (e : kenv) (st : bpf_state) (cpu : Z) (q : list Z)
  : bpf_state * list kcall :=
  let now := ktime e in
  if tt_active_on_cpu st (u32 cpu) now then (st, []) else
  let '(st, calls) := promote_throttled_if_replenished st now q in
  (st, calls ++ [KConsume DSQ_CBS]).

Definition running (e : kenv) (st : bpf_state) (pid : Z) : bpf_state * list kcall :=
  match task_meta_map st !! pid with
  | None => (st, [])
  | Some meta =>
      let now := ktime e in
      if scheduling_type meta =? SCHED_TYPE_CBS then
        let key := cbs_key_from_meta meta in
        match cbs_lazy_replenish (cbs_map st !! key) now with
        | None => (st, [])
        | Some cbs =>
            let effective_us := remaining_us cbs in
            let next_tt_us := us_until_next_tt st (this_cpu e) now in
            let effective_us :=
              if next_tt_us <? effective_us then next_tt_us else effective_us in
            let effective_us := if effective_us =? 0 then 1 else effective_us in
            (put_cbs st key (set_server cbs (remaining_us cbs) now (replenish_at_ns cbs)),
             [KSetSlice pid (u64 (effective_us * 1000))])
        end
      else (st, [])
  end.

(** A record is submitted when the ring buffer has room. *)
Definition emit (e : kenv) (calls : list kcall) (f : FaultEvent) : list kcall :=
  if ringbuf_ok e calls then calls ++ [KFault f] else calls.

(** The budget charged for a run from [exec_start_ns] to [now]. *)
Definition charge (c : CbsState) (now : Z) : Z :=
  let elapsed_ns := u64 (now - exec_start_ns c) in
  let elapsed_us := u32 (elapsed_ns / 1000) in
  if remaining_us c <=? elapsed_us then 0 else u32 (remaining_us c - elapsed_us).

(** "If budget exhausted": the next replenishment of an empty server. *)
Definition rearm (c : CbsState) (now : Z) : CbsState :=
  if 0 <? period_us c then
    let period_ns := u64 (period_us c * 1000) in
    if replenish_at_ns c =? 0 then
      set_server c (remaining_us c) (exec_start_ns c) (u64 (now + period_ns))
    else if replenish_at_ns c <=? now then
      set_server c (remaining_us c) (exec_start_ns c)
        (advance_periods (replenish_at_ns c) period_ns now)
    else c
  else c.

Definition stopping_cbs (e : kenv) (st : bpf_state) (pid : Z) (meta : TaskMeta)
  : bpf_state * list kcall :=
  let now := ktime e in
  let key := cbs_key_from_meta meta in
  match cbs_map st !! key with
  | None => (st, [])
  | Some cbs =>
      if negb (0 <? exec_start_ns cbs) then (st, []) else
      let cbs := set_server cbs (charge cbs now) 0 (replenish_at_ns cbs) in
      (* deadline miss *)
      let '(st, calls) :=
        if (0 <? activation_ns meta) && (0 <? deadline_us cbs) then
          let abs_deadline := u64 (activation_ns meta + u64 (deadline_us cbs * 1000)) in
          if abs_deadline <? now then
            (put_meta st pid (set_activation meta 0),
             emit e []
               {| fault_type := FAULT_DMISS;
                  fault_task_id_hash := task_id_hash meta;
                  fault_workload_id_hash := workload_id_hash meta;
                  fault_cpu := this_cpu e;
                  expected_deadline_ns := abs_deadline;
                  actual_completion_ns := Some now |})
          else (st, [])
        else (st, []) in
      (* budget exhausted *)
      if remaining_us cbs =? 0 then
        let cbs := rearm cbs now in
        (put_cbs st key cbs,
         emit e calls
           {| fault_type := FAULT_BUDGET_EXCEED;
              fault_task_id_hash := task_id_hash meta;
              fault_workload_id_hash := workload_id_hash meta;
              fault_cpu := this_cpu e;
              expected_deadline_ns := replenish_at_ns cbs;
              actual_completion_ns := None |})
      else (put_cbs st key cbs, calls)
  end.

Definition stopping_tt (e : kenv) (st : bpf_state) (pid : Z) (meta : TaskMeta)
  : bpf_state * list kcall :=
  let now := ktime e in
  let cpu_key := this_cpu e in
  let slot_idx := array_lookup (current_slot_map st) cpu_key in
  let st := mark_tt_not_runnable st pid meta cpu_key in
  let deadline_ns :=
    match slot_idx with
    | Some i =>
        match tt_table_map st !! {| key_cpu := cpu_key; key_slot_idx := i |} with
        | Some s => if 0 <? tts_deadline_us s then u64 (tts_deadline_us s * 1000)
                    else 10000000
        | None => 10000000
        end
    | None => 10000000
    end in
  let deadline := u64 (activation_ns meta + deadline_ns) in
  if deadline <? now then
    (st, emit e []
       {| fault_type := FAULT_DMISS;
          fault_task_id_hash := task_id_hash meta;
          fault_workload_id_hash := workload_id_hash meta;
          fault_cpu := cpu_key;
          expected_deadline_ns := deadline;
          actual_completion_ns := Some now |})
  else (st, []).

Definition stopping (e : kenv) (st : bpf_state) (pid : Z) (runnable : bool)
  : bpf_state * list kcall :=
  match task_meta_map st !! pid with
  | None => (st, [])
  | Some meta =>
      if scheduling_type meta =? SCHED_TYPE_CBS then stopping_cbs e st pid meta
      else if (scheduling_type meta =? SCHED_TYPE_TT) && negb runnable
      then stopping_tt e st pid meta
      else (st, [])
  end.

Definition init : list kcall * Z :=
  ([KCreateDsq DSQ_CBS (-1); KCreateDsq DSQ_THROTTLED (-1); KCreateDsq DSQ_BE (-1)], 0).

End Handlers.

#[global] Arguments mark_tt_runnable : simpl never.
#[global] Arguments mark_tt_not_runnable : simpl never.
#[global] Arguments cbs_lazy_replenish : simpl never.
#[global] Arguments charge : simpl never.
#[global] Arguments rearm : simpl never.
#[global] Arguments advance_periods : simpl never.
#[global] Arguments tt_active_on_cpu : simpl never.
#[global] Arguments us_until_next_tt : simpl never.
#[global] Arguments is_isolated : simpl never.
#[global] Arguments emit : simpl never.

(** ** The program as a machine: kernel callbacks and user-space map updates *)

Inductive event :=
  | ESelectCpu (pid prev_cpu : Z)
  | EEnqueue (pid enq_flags : Z)
  | EDispatch (cpu : Z) (throttled : list Z)
  | ERunning (pid : Z)
  | EStopping (pid : Z) (runnable : bool)
  | UUpdateTaskMeta (pid : Z) (m : TaskMeta)
  | UDeleteTaskMeta (pid : Z)
  | UUpdateCbs (key : Z) (c : CbsState)
  | UDeleteCbs (key : Z).

Definition kexec `{ScxConsts} (e : kenv) (ev : event) (st : bpf_state)
  : bpf_state * list kcall :=
  match ev with
  | ESelectCpu pid prev => ((select_cpu e st pid prev).1, [])
  | EEnqueue pid flags => enqueue e st pid flags
  | EDispatch cpu q => dispatch e st cpu q
  | ERunning pid => running e st pid
  | EStopping pid r => stopping e st pid r
  | UUpdateTaskMeta pid m =>
      (with_task_meta st (hash_update 4096 pid m (task_meta_map st)).1, [])
  | UDeleteTaskMeta pid =>
      (with_task_meta st (hash_delete pid (task_meta_map st)).1, [])
  | UUpdateCbs key c => (with_cbs_map st (hash_update 1024 key c (cbs_map st)).1, [])
  | UDeleteCbs key => (with_cbs_map st (hash_delete key (cbs_map st)).1, [])
  end.

Fixpoint krun `{ScxConsts} (evs : list (kenv * event)) (st : bpf_state)
  : bpf_state * list kcall :=
  match evs with
  | [] => (st, [])
  | (e, ev) :: evs =>
      let '(st, calls) := kexec e ev st in
      let '(st, calls') := krun evs st in (st, calls ++ calls')
  end.

(** The maps as the kernel creates them. *)
Definition bpf_load (mask : Z) : bpf_state :=
  {| isolated_cpu_mask := mask; tt_table_map := ∅; cbs_map := ∅;
     current_slot_map := replicate MAX_CPUS 0;
     tt_active_until_map := replicate MAX_CPUS 0;
     next_tt_start_map := replicate MAX_CPUS 0;
     tt_runnable_count_map := replicate MAX_CPUS 0;
     task_meta_map := ∅ |}.

(** ** The constant-bandwidth server *)

Record cbs_ok (c : CbsState) : Prop := {
  ok_budget : uword 32 (budget_us c);
  ok_period : uword 32 (period_us c);
  ok_deadline : uword 32 (deadline_us c);
  ok_remaining : 0 <= remaining_us c <= budget_us c;
  ok_start : uword 64 (exec_start_ns c);
  ok_replenish : uword 64 (replenish_at_ns c);
}.

Lemma advance_periods_spec at_ p now :
  0 <= at_ <= now -> 0 < p -> now + p < 2 ^ 64 ->
  now < advance_periods at_ p now <= now + p /\
  (advance_periods at_ p now - at_) mod p = 0.
Proof.
  intros Ha Hp Hn. unfold advance_periods.
  rewrite (wrap_small 64 (now - at_)) by (unfold uword; lia).
  pose proof (Z.div_mod (now - at_) p ltac:(lia)) as Hdm.
  pose proof (Z.mod_pos_bound (now - at_) p Hp) as Hmb.
  set (q := (now - at_) / p) in *.
  assert (0 <= q) by (apply Z.div_pos; lia).
  assert (q * p <= now - at_ < (q + 1) * p) by lia.
  rewrite (wrap_small 64 (q + 1)) by (unfold uword; nia).
  rewrite (wrap_small 64 ((q + 1) * p)) by (unfold uword; nia).
  rewrite wrap_small by (unfold uword; nia).
  split; [lia|].
  replace (at_ + (q + 1) * p - at_) with ((q + 1) * p) by lia.
  apply Z.mod_mul. lia.
Qed.

Lemma period_ns_exact c : cbs_ok c -> u64 (period_us c * 1000) = period_us c * 1000.
Proof. intros []. apply wrap_small. unfold uword in *. lia. Qed.

Lemma lazy_replenish_ok c now c' :
  cbs_ok c -> cbs_lazy_replenish (Some c) now = Some c' -> cbs_ok c'.
Proof.
  intros Hc. unfold cbs_lazy_replenish.
  destruct (_ || _); intros [= <-]; [done|].
  destruct Hc; constructor; cbn; auto.
  - unfold uword in *. lia.
  - unfold advance_periods. by apply wrap_range.
Qed.

Lemma lazy_replenish_cases c now :
  cbs_ok c -> 0 <= now -> now + period_us c * 1000 < 2 ^ 64 ->
  exists c', cbs_lazy_replenish (Some c) now = Some c' /\
    (period_us c = 0 \/ now < replenish_at_ns c -> c' = c) /\
    (0 < period_us c -> replenish_at_ns c <= now ->
      remaining_us c' = budget_us c /\
      now < replenish_at_ns c' <= now + period_us c * 1000 /\
      (replenish_at_ns c' - replenish_at_ns c) mod (period_us c * 1000) = 0).
Proof.
  intros Hc Hn Ho. pose proof (period_ns_exact c Hc) as Hp. destruct Hc.
  unfold cbs_lazy_replenish, uword in *.
  destruct (Z.eqb_spec (period_us c) 0), (Z.ltb_spec now (replenish_at_ns c));
    cbn; eexists; (split; [done|]); split; try done; intros; try lia.
  rewrite Hp. cbn. split; [done|]. apply advance_periods_spec; lia.
Qed.

Lemma charge_range c now : cbs_ok c -> 0 <= charge c now <= remaining_us c.
Proof.
  intros []. unfold charge.
  pose proof (wrap_range 32 (u64 (now - exec_start_ns c) / 1000)) as Hr.
  destruct (Z.leb_spec (remaining_us c) (u32 (u64 (now - exec_start_ns c) / 1000))); [lia|].
  unfold uword in *. rewrite wrap_small; unfold uword; lia.
Qed.

Lemma charge_exact c now :
  cbs_ok c -> exec_start_ns c <= now < 2 ^ 64 ->
  (now - exec_start_ns c) / 1000 < 2 ^ 32 ->
  charge c now = Z.max 0 (remaining_us c - (now - exec_start_ns c) / 1000).
Proof.
  intros [] Hn Hb. unfold charge, uword in *.
  rewrite (wrap_small 64) by (unfold uword; lia).
  assert (0 <= (now - exec_start_ns c) / 1000) by (apply Z.div_pos; lia).
  rewrite (wrap_small 32 ((now - exec_start_ns c) / 1000)) by (unfold uword; lia).
  destruct (Z.leb_spec (remaining_us c) ((now - exec_start_ns c) / 1000)); [lia|].
  rewrite wrap_small; unfold uword; lia.
Qed.

Lemma rearm_ok c now : cbs_ok c -> cbs_ok (rearm c now).
Proof.
  intros Hc. unfold rearm.
  destruct (0 <? _); [|done].
  destruct (_ =? 0); [destruct Hc; constructor; cbn; auto; by apply wrap_range|].
  destruct (_ <=? _); [|done].
  destruct Hc; constructor; cbn; auto. by apply wrap_range.
Qed.

Lemma rearm_remaining c now : remaining_us (rearm c now) = remaining_us c.
Proof. unfold rearm. by repeat case_match. Qed.

(** *** Every server stays within its budget *)

Definition servers_ok (st : bpf_state) : Prop :=
  map_Forall (fun _ c => cbs_ok c) (cbs_map st).

(** Values user space and the kernel pass in are machine words. *)
Definition event_ok (e : kenv) (ev : event) : Prop :=
  uword 64 (ktime e) /\
  match ev with UUpdateCbs _ c => cbs_ok c | _ => True end.

Lemma mark_tt_runnable_cbs st pid m cpu :
  cbs_map (mark_tt_runnable st pid m cpu) = cbs_map st.
Proof. unfold mark_tt_runnable. by repeat case_match. Qed.

Lemma mark_tt_not_runnable_cbs st pid m cpu :
  cbs_map (mark_tt_not_runnable st pid m cpu) = cbs_map st.
Proof. unfold mark_tt_not_runnable. by repeat case_match. Qed.

Lemma put_cbs_ok st key c : servers_ok st -> cbs_ok c -> servers_ok (put_cbs st key c).
Proof. intros. by apply map_Forall_insert_2. Qed.

Lemma replenish_lookup_ok st key now c :
  servers_ok st -> cbs_lazy_replenish (cbs_map st !! key) now = Some c -> cbs_ok c.
Proof.
  intros Hst. destruct (cbs_map st !! key) as [c0|] eqn:E; [|done].
  apply lazy_replenish_ok. by apply (Hst key).
Qed.

Create HintDb bpf.
#[export] Hint Resolve put_cbs_ok replenish_lookup_ok rearm_ok : bpf.

Section Invariant.
Context `{ScxConsts}.

Lemma promote_scan_servers st n now q :
  servers_ok st -> servers_ok (promote_scan st n now q).1.
Proof.
  revert st n. induction q as [|pid q IH]; intros st n Hst; cbn [promote_scan]; [done|].
  destruct (PROMOTE_BUDGET <=? n)%nat; [done|].
  destruct (task_meta_map st !! pid) as [m|]; [|by apply IH].
  destruct (negb _); [by apply IH|].
  destruct (cbs_lazy_replenish _ now) as [c|] eqn:E; [|by apply IH].
  specialize (IH (put_cbs st (cbs_key_from_meta m) c) (S n)).
  destruct (promote_scan _ _ _ _) as [st' calls]. cbn in *. eauto with bpf.
Qed.

Lemma stopping_cbs_servers e st pid m :
  servers_ok st -> servers_ok (stopping_cbs e st pid m).1.
Proof.
  intros Hst. unfold stopping_cbs.
  destruct (cbs_map st !! cbs_key_from_meta m) as [c|] eqn:E; [|done].
  assert (Hc : cbs_ok c) by (by apply (Hst (cbs_key_from_meta m))).
  destruct (negb _); [done|].
  assert (cbs_ok (set_server c (charge c (ktime e)) 0 (replenish_at_ns c))).
  { pose proof (charge_range c (ktime e) Hc). destruct Hc.
    constructor; cbn; auto; unfold uword; lia. }
  set (dm := if _ && _ then _ else _).
  assert (Hdm : servers_ok dm.1) by (unfold dm; by repeat case_match).
  destruct dm as [st' calls]. cbn in Hdm.
  destruct (_ =? 0); cbn; eauto with bpf.
Qed.

Lemma kexec_servers e ev st :
  servers_ok st -> event_ok e ev -> servers_ok (kexec e ev st).1.
Proof.
  intros Hst [Ht Hev]. destruct ev; cbn [kexec fst].
  - unfold select_cpu. by repeat case_match.
  - unfold enqueue. destruct (task_meta_map st !! pid) as [m|]; [|done].
    destruct (_ =? SCHED_TYPE_TT).
    { destruct (is_isolated _ _); [|done]. unfold servers_ok. cbn.
      by rewrite mark_tt_runnable_cbs. }
    destruct (_ =? SCHED_TYPE_CBS); [|done].
    destruct (cbs_lazy_replenish _ _) as [c|] eqn:E; [|done].
    destruct (_ =? 0); cbn; eauto with bpf.
  - unfold dispatch, promote_throttled_if_replenished.
    destruct (tt_active_on_cpu _ _ _); [done|].
    pose proof (promote_scan_servers st 0 (ktime e) throttled Hst).
    by destruct (promote_scan _ _ _ _).
  - unfold running. destruct (task_meta_map st !! pid) as [m|]; [|done].
    destruct (_ =? SCHED_TYPE_CBS); [|done].
    destruct (cbs_lazy_replenish _ _) as [c|] eqn:E; [|done]. cbn.
    apply put_cbs_ok; [done|].
    destruct (replenish_lookup_ok _ _ _ _ Hst E). by constructor.
  - unfold stopping. destruct (task_meta_map st !! pid) as [m|]; [|done].
    destruct (_ =? SCHED_TYPE_CBS); [by apply stopping_cbs_servers|].
    destruct (_ && _); [|done]. unfold stopping_tt, servers_ok.
    destruct (_ <? _); cbn; by rewrite mark_tt_not_runnable_cbs.
  - done.
  - done.
  - unfold servers_ok, hash_update. cbn in *.
    repeat case_decide; cbn; auto; by apply map_Forall_insert_2.
  - unfold servers_ok. cbn. rewrite hash_delete_map. by apply map_Forall_delete.
Qed.

Lemma krun_servers evs st :
  servers_ok st -> Forall (fun p => event_ok p.1 p.2) evs -> servers_ok (krun evs st).1.
Proof.
  revert st. induction evs as [|[e ev] evs IH]; intros st Hst Hev; [done|].
  apply Forall_cons in Hev as [Hev Hevs]. cbn [krun].
  pose proof (kexec_servers e ev st Hst Hev) as Hst'.
  destruct (kexec e ev st) as [st1 c1]. specialize (IH st1 Hst' Hevs).
  by destruct (krun evs st1).
Qed.

End Invariant.

(** ** The per-CPU count of runnable TT tasks *)

Definition runnable_on (cpu : Z) (m : TaskMeta) : Prop :=
  tt_runnable m <> 0 /\ assigned_cpu m = cpu.
#[global] Instance runnable_on_dec cpu m : Decision (runnable_on cpu m).
Proof. unfold runnable_on. apply _. Defined.

(** The number of registered TT tasks of [cpu] that are marked runnable. *)
Definition tt_count (st : bpf_state) (cpu : Z) : Z :=
  map_count (runnable_on cpu) (task_meta_map st).

Definition cpu_ok (cpu : Z) : Prop := 0 <= cpu < Z.of_nat MAX_CPUS.

Record tt_inv (st : bpf_state) : Prop := {
  inv_counts_len : length (tt_runnable_count_map st) = MAX_CPUS;
  inv_until_len : length (tt_active_until_map st) = MAX_CPUS;
  inv_size : (size (task_meta_map st) <= 4096)%nat;
  inv_meta : forall pid m, task_meta_map st !! pid = Some m ->
    0 <= assigned_cpu m /\
    (tt_runnable m <> 0 -> scheduling_type m = SCHED_TYPE_TT /\ cpu_ok (assigned_cpu m));
  inv_count : forall cpu, cpu_ok cpu ->
    array_lookup (tt_runnable_count_map st) cpu = Some (tt_count st cpu);
  inv_until : forall cpu, cpu_ok cpu ->
    array_lookup (tt_active_until_map st) cpu
    = Some (if tt_count st cpu =? 0 then 0 else TT_ACTIVE_RUNNING);
}.

(** The discipline under which the count is exact: a TT task stops on the CPU
    it was dispatched to, and user space replaces or deletes the entry of a
    task only while that task is not runnable. *)
Definition idle_entry (st : bpf_state) (pid : Z) : Prop :=
  match task_meta_map st !! pid with Some m => tt_runnable m = 0 | None => True end.

Definition disciplined (e : kenv) (ev : event) (st : bpf_state) : Prop :=
  match ev with
  | EStopping pid _ =>
      match task_meta_map st !! pid with
      | Some m => tt_runnable m <> 0 -> this_cpu e = assigned_cpu m
      | None => True
      end
  | UUpdateTaskMeta pid m => idle_entry st pid /\ tt_runnable m = 0 /\ 0 <= assigned_cpu m
  | UDeleteTaskMeta pid => idle_entry st pid
  | _ => True
  end.

Lemma tt_count_bound st cpu :
  (size (task_meta_map st) <= 4096)%nat -> 0 <= tt_count st cpu <= 4096.
Proof.
  intros Hs. unfold tt_count.
  pose proof (map_count_nonneg (runnable_on cpu) (task_meta_map st)).
  pose proof (map_count_bound (runnable_on cpu) (task_meta_map st)). lia.
Qed.

Lemma tt_count_put_meta st pid m cpu :
  tt_count (put_meta st pid m) cpu
  = tt_count st cpu - indicator (runnable_on cpu) (task_meta_map st !! pid)
    + indicator (runnable_on cpu) (Some m).
Proof. apply map_count_insert. Qed.

Lemma indicator_runnable cpu m :
  indicator (runnable_on cpu) (Some m)
  = if negb (tt_runnable m =? 0) && (assigned_cpu m =? cpu) then 1 else 0.
Proof.
  unfold indicator, runnable_on. case_decide;
    destruct (Z.eqb_spec (tt_runnable m) 0), (Z.eqb_spec (assigned_cpu m) cpu);
    cbn; naive_solver.
Qed.

(** Replacing an entry by one with the same mark and CPU. *)
Lemma tt_inv_same_mark st pid m m' :
  tt_inv st -> task_meta_map st !! pid = Some m ->
  tt_runnable m' = tt_runnable m -> assigned_cpu m' = assigned_cpu m ->
  scheduling_type m' = scheduling_type m ->
  tt_inv (put_meta st pid m').
Proof.
  intros [Hl1 Hl2 Hsz Hm Hc Hu] Hpid Hr Ha Ht.
  assert (Hcnt : forall cpu, tt_count (put_meta st pid m') cpu = tt_count st cpu).
  { intros cpu. rewrite tt_count_put_meta, Hpid, !indicator_runnable, Hr, Ha. lia. }
  constructor; cbn; auto.
  - by rewrite map_size_insert_Some.
  - intros p x. rewrite lookup_insert. case_decide; [|apply Hm].
    intros [= <-]. rewrite Ha, Hr, Ht. eauto.
  - intros cpu ?. rewrite Hcnt. auto.
  - intros cpu ?. rewrite Hcnt. auto.
Qed.

Lemma tt_inv_other_maps st st' :
  task_meta_map st' = task_meta_map st ->
  tt_runnable_count_map st' = tt_runnable_count_map st ->
  tt_active_until_map st' = tt_active_until_map st ->
  tt_inv st -> tt_inv st'.
Proof.
  intros E1 E2 E3 []. constructor; unfold tt_count in *; rewrite ?E1, ?E2, ?E3; auto.
Qed.

(** User-space updates under the discipline change no count. *)
Lemma tt_inv_user_map st M :
  tt_inv st -> (size M <= 4096)%nat ->
  (forall pid m, M !! pid = Some m ->
     0 <= assigned_cpu m /\ (tt_runnable m <> 0 -> scheduling_type m = SCHED_TYPE_TT /\ cpu_ok (assigned_cpu m))) ->
  (forall cpu, map_count (runnable_on cpu) M = tt_count st cpu) ->
  tt_inv (with_task_meta st M).
Proof.
  intros [Hl1 Hl2 Hsz Hm Hc Hu] HM HM2 Hcnt.
  constructor; cbn; auto; intros cpu Hcpu; unfold tt_count at 1; cbn; rewrite Hcnt; auto.
Qed.

Lemma indicator_idle st pid cpu :
  idle_entry st pid -> indicator (runnable_on cpu) (task_meta_map st !! pid) = 0.
Proof.
  unfold idle_entry. destruct (task_meta_map st !! pid) as [m|]; [|done].
  intros Hi. by rewrite indicator_runnable, Hi.
Qed.

(** Marking moves the counter of the task's CPU by one. *)
(** Setting the mark of a task counts on its CPU. *)
Lemma count_set_runnable st st' pid m v cpu :
  task_meta_map st !! pid = Some m ->
  task_meta_map st' = <[pid := set_tt_runnable m v]> (task_meta_map st) ->
  tt_count st' cpu = tt_count st cpu +
    if decide (cpu = assigned_cpu m) then (if v =? 0 then 0 else 1) - (if tt_runnable m =? 0 then 0 else 1) else 0.
Proof.
  intros Hpid Hst. pose proof (tt_count_put_meta st pid (set_tt_runnable m v) cpu) as E.
  replace (tt_count st' cpu) with (tt_count (put_meta st pid (set_tt_runnable m v)) cpu) by (unfold tt_count; by rewrite Hst).
  rewrite E, Hpid, !indicator_runnable. cbn. rewrite (Z.eqb_sym (assigned_cpu m)).
  case_decide; destruct (Z.eqb_spec cpu (assigned_cpu m)), (v =? 0), (tt_runnable m =? 0); cbn; lia.
Qed.

Lemma mark_tt_runnable_inv st pid m :
  tt_inv st -> task_meta_map st !! pid = Some m ->
  scheduling_type m = SCHED_TYPE_TT -> cpu_ok (assigned_cpu m) ->
  tt_inv (mark_tt_runnable st pid m (assigned_cpu m)).
Proof.
  intros Hinv Hpid Ht Hcpu. pose proof Hinv as [Hl1 Hl2 Hsz Hm Hc Hu].
  unfold mark_tt_runnable. destruct (Z.eqb_spec (tt_runnable m) 0) as [Hr|Hr].
  - rewrite (Hc _ Hcpu). set (a := assigned_cpu m) in *.
    pose proof (tt_count_bound st a Hsz) as Hb.
    rewrite wrap_small by (unfold uword; lia).
    set (st' := put_meta _ pid _).
    assert (Hcnt : forall cpu, tt_count st' cpu
        = tt_count st cpu + if decide (cpu = a) then 1 else 0).
    { intros cpu. rewrite (count_set_runnable st st' pid m 1 cpu Hpid eq_refl), Hr. done. }
    constructor; cbn; rewrite ?array_store_length; auto.
    + by rewrite map_size_insert_Some.
    + intros p x. rewrite lookup_insert. case_decide; [|apply Hm].
      intros [= <-]. cbn. split; [apply Hcpu|auto].
    + intros cpu Hcpu'. rewrite array_lookup_store, Hl1.
      change (tt_count _ cpu) with (tt_count st' cpu). rewrite Hcnt.
      repeat case_decide; unfold cpu_ok in *; try lia; [naive_solver|].
      rewrite Z.add_0_r. auto.
    + intros cpu Hcpu'. rewrite array_lookup_store, Hl2.
      change (tt_count _ cpu) with (tt_count st' cpu). rewrite Hcnt.
      repeat case_decide; unfold cpu_ok in *; try lia.
      * subst. destruct (Z.eqb_spec (tt_count st a + 1) 0); [lia|done].
      * rewrite Z.add_0_r. auto.
  - constructor; cbn; rewrite ?array_store_length; auto.
    intros cpu Hcpu'. rewrite array_lookup_store, Hl2.
    change (tt_count _ cpu) with (tt_count st cpu).
    case_decide as Hd; [|auto]. destruct Hd as [<- _].
    destruct (Z.eqb_spec (tt_count st (assigned_cpu m)) 0) as [Hz|]; [|done].
    exfalso. unfold tt_count in Hz. rewrite map_count_zero in Hz.
    by apply (Hz _ _ Hpid).
Qed.

Lemma mark_tt_not_runnable_inv st pid m cpu :
  tt_inv st -> task_meta_map st !! pid = Some m ->
  (tt_runnable m <> 0 -> cpu = assigned_cpu m) ->
  tt_inv (mark_tt_not_runnable st pid m cpu).
Proof.
  intros Hinv Hpid Hcpu. pose proof Hinv as [Hl1 Hl2 Hsz Hm Hc Hu].
  unfold mark_tt_not_runnable.
  destruct (Z.eqb_spec (tt_runnable m) 0) as [Hr|Hr]; [done|].
  specialize (Hcpu Hr). subst cpu. set (a := assigned_cpu m).
  destruct (Hm _ _ Hpid) as [_ Ha]. destruct (Ha Hr) as [Ht Hac]. fold a in Hac.
  pose proof (tt_count_bound st a Hsz) as Hb.
  assert (Hpos : 0 < tt_count st a).
  { destruct (decide (tt_count st a = 0)) as [Hz|]; [|lia]. unfold tt_count in Hz.
    rewrite map_count_zero in Hz. by destruct (Hz _ _ Hpid). }
  rewrite (Hc _ Hac). destruct (Z.ltb_spec 0 (tt_count st a)); [|lia].
  rewrite wrap_small by (unfold uword; lia).
  set (st1 := put_meta _ pid _).
  assert (Hcnt : forall cpu, tt_count st1 cpu
      = tt_count st cpu - if decide (cpu = a) then 1 else 0).
  { intros cpu. rewrite (count_set_runnable st st1 pid m 0 cpu Hpid eq_refl), (proj2 (Z.eqb_neq _ _) Hr).
    fold a. case_decide; cbn; lia. }
  assert (Hcounts : forall cpu, cpu_ok cpu ->
    array_lookup (tt_runnable_count_map st1) cpu = Some (tt_count st1 cpu)).
  { intros cpu Hcpu'. unfold st1 at 1. cbn. rewrite array_lookup_store, Hl1, Hcnt.
    repeat case_decide; unfold cpu_ok in *; try lia; [naive_solver|].
    rewrite Z.sub_0_r. auto. }
  assert (Hmetas : forall p x, task_meta_map st1 !! p = Some x -> 0 <= assigned_cpu x /\
    (tt_runnable x <> 0 -> scheduling_type x = SCHED_TYPE_TT /\ cpu_ok (assigned_cpu x))).
  { intros p x. unfold st1. cbn. rewrite lookup_insert. case_decide; [|apply Hm].
    intros [= <-]. cbn. split; [apply Hac|done]. }
  rewrite (Hcounts a Hac).
  destruct (Z.eqb_spec (tt_count st1 a) 0) as [Hz|Hnz].
  - constructor; cbn; rewrite ?array_store_length; auto.
    + by rewrite map_size_insert_Some.
    + intros cpu Hcpu'. rewrite array_lookup_store, Hl2.
      change (tt_count _ cpu) with (tt_count st1 cpu).
      case_decide as Hd; [destruct Hd as [<- _]; by rewrite Hz|].
      rewrite Hcnt, decide_False by (unfold cpu_ok in *; naive_solver).
      rewrite Z.sub_0_r. auto.
  - constructor; cbn; rewrite ?array_store_length; auto.
    + by rewrite map_size_insert_Some.
    + intros cpu Hcpu'. change (tt_count _ cpu) with (tt_count st1 cpu).
      rewrite (Hu _ Hcpu'), Hcnt. case_decide as Hd; [subst|by rewrite Z.sub_0_r].
      rewrite Hcnt, decide_True in Hnz by done.
      destruct (Z.eqb_spec (tt_count st a) 0), (Z.eqb_spec (tt_count st a - 1) 0); lia || done.
Qed.

Lemma is_isolated_lt st cpu : is_isolated st cpu = true -> cpu < 64.
Proof. unfold is_isolated. intros [Hlt _]%andb_true_iff. by apply Z.ltb_lt. Qed.

Section CountInvariant.
Context `{ScxConsts}.

Lemma promote_scan_frame st n now q :
  let st' := (promote_scan st n now q).1 in
  task_meta_map st' = task_meta_map st /\
  tt_runnable_count_map st' = tt_runnable_count_map st /\
  tt_active_until_map st' = tt_active_until_map st.
Proof.
  revert st n. induction q as [|pid q IH]; intros st n; cbn [promote_scan]; [done|].
  destruct (PROMOTE_BUDGET <=? n)%nat; [done|].
  destruct (task_meta_map st !! pid) as [m|]; [|apply IH].
  destruct (negb _); [apply IH|].
  destruct (cbs_lazy_replenish _ now) as [c|]; [|apply IH].
  specialize (IH (put_cbs st (cbs_key_from_meta m) c) (S n)).
  by destruct (promote_scan _ _ _ _).
Qed.

Lemma stopping_cbs_inv e st pid m :
  tt_inv st -> task_meta_map st !! pid = Some m -> tt_inv (stopping_cbs e st pid m).1.
Proof.
  intros Hinv Hpid. unfold stopping_cbs.
  destruct (cbs_map st !! _) as [c|]; [|done]. destruct (negb _); [done|].
  set (dm := if _ && _ then _ else _).
  assert (Hdm : tt_inv dm.1)
    by (unfold dm; repeat case_match; try done; by apply (tt_inv_same_mark _ _ m)).
  destruct dm as [st' calls]. cbn in Hdm.
  destruct (_ =? 0); cbn; by apply (tt_inv_other_maps st').
Qed.

Lemma kexec_tt_inv e ev st :
  tt_inv st -> disciplined e ev st -> tt_inv (kexec e ev st).1.
Proof.
  intros Hinv Hd. pose proof (inv_meta st Hinv) as Hm.
  destruct ev; cbn [kexec fst disciplined] in *.
  - unfold select_cpu. destruct (task_meta_map st !! pid) as [m|] eqn:Hpid; [|done].
    destruct (_ || _); [|done].
    destruct (is_isolated _ _); cbn; by apply (tt_inv_same_mark _ _ m).
  - unfold enqueue. destruct (task_meta_map st !! pid) as [m|] eqn:Hpid; [|done].
    destruct (Z.eqb_spec (scheduling_type m) SCHED_TYPE_TT).
    + destruct (is_isolated st (assigned_cpu m)) eqn:Hi; [|done]. cbn.
      apply is_isolated_lt in Hi. destruct (Hm _ _ Hpid).
      apply mark_tt_runnable_inv; auto. unfold cpu_ok, MAX_CPUS. lia.
    + destruct (_ =? SCHED_TYPE_CBS); [|done].
      destruct (cbs_lazy_replenish _ _) as [c|]; [|done].
      destruct (_ =? 0); cbn; by apply (tt_inv_other_maps st).
  - unfold dispatch, promote_throttled_if_replenished.
    destruct (tt_active_on_cpu _ _ _); [done|].
    pose proof (promote_scan_frame st 0 (ktime e) throttled) as (E1 & E2 & E3).
    destruct (promote_scan _ _ _ _) as [st' calls]. cbn in *.
    by apply (tt_inv_other_maps st).
  - unfold running. destruct (task_meta_map st !! pid) as [m|]; [|done].
    destruct (_ =? SCHED_TYPE_CBS); [|done].
    destruct (cbs_lazy_replenish _ _) as [c|]; [|done]. by apply (tt_inv_other_maps st).
  - unfold stopping. destruct (task_meta_map st !! pid) as [m|] eqn:Hpid; [|done].
    destruct (_ =? SCHED_TYPE_CBS); [by apply stopping_cbs_inv|].
    destruct (_ && _); [|done]. unfold stopping_tt.
    destruct (_ <? _); cbn; by apply mark_tt_not_runnable_inv.
  - destruct Hd as (Hidle & Hr & Ha). apply tt_inv_user_map; auto.
    + by apply hash_update_size, inv_size.
    + intros p x. rewrite hash_update_lookup. case_decide; [|apply Hm].
      intros [= <-]. split; [done|by rewrite Hr].
    + intros cpu. unfold hash_update. repeat case_decide; cbn; try done;
        rewrite map_count_insert, indicator_idle, indicator_runnable, Hr by done;
        cbn; unfold tt_count; lia.
  - rewrite hash_delete_map. apply tt_inv_user_map; auto.
    + etrans; [|apply (inv_size st Hinv)]. apply map_subseteq_size, delete_subseteq.
    + intros p x [_ Hx]%lookup_delete_Some. eauto.
    + intros cpu. rewrite map_count_delete, indicator_idle by done. unfold tt_count. lia.
  - by apply (tt_inv_other_maps st).
  - by apply (tt_inv_other_maps st).
Qed.

(** A run each of whose steps keeps the discipline. *)
Fixpoint disciplined_run (evs : list (kenv * event)) (st : bpf_state) : Prop :=
  match evs with
  | [] => True
  | (e, ev) :: evs => disciplined e ev st /\ disciplined_run evs (kexec e ev st).1
  end.

Lemma krun_tt_inv evs st :
  tt_inv st -> disciplined_run evs st -> tt_inv (krun evs st).1.
Proof.
  revert st. induction evs as [|[e ev] evs IH]; intros st Hst; cbn; [done|].
  intros [Hd Hr]. pose proof (kexec_tt_inv e ev st Hst Hd) as Hst'.
  destruct (kexec e ev st) as [st1 c1]. specialize (IH st1 Hst' Hr).
  by destruct (krun evs st1).
Qed.

Lemma bpf_load_inv mask : tt_inv (bpf_load mask).
Proof.
  assert (Hz : forall cpu, tt_count (bpf_load mask) cpu = 0).
  { intros cpu. apply map_count_zero. intros k v Hk. cbn in Hk.
    by rewrite lookup_empty in Hk. }
  assert (Hl : forall cpu, cpu_ok cpu -> array_lookup (replicate MAX_CPUS 0) cpu = Some 0).
  { intros cpu [? ?]. unfold array_lookup.
    destruct (Z.ltb_spec cpu 0); [lia|]. apply lookup_replicate. lia. }
  constructor;
    cbn [tt_runnable_count_map tt_active_until_map task_meta_map bpf_load];
    try apply length_replicate.
  - rewrite map_size_empty. lia.
  - intros pid m Hm. by rewrite lookup_empty in Hm.
  - intros cpu ?. rewrite Hz. auto.
  - intros cpu ?. rewrite Hz. auto.
Qed.

Lemma tt_active_exact st cpu now :
  tt_inv st -> cpu_ok cpu -> uword 64 now ->
  tt_active_on_cpu st cpu now = negb (tt_count st cpu =? 0).
Proof.
  intros Hinv Hcpu [Hn1 Hn2]. unfold tt_active_on_cpu.
  rewrite (inv_count st Hinv cpu Hcpu), (inv_until st Hinv cpu Hcpu).
  pose proof (tt_count_bound st cpu (inv_size st Hinv)).
  destruct (Z.eqb_spec (tt_count st cpu) 0), (Z.ltb_spec 0 (tt_count st cpu)); cbn; try lia.
Qed.

End CountInvariant.

(** ** Runs of a CBS task *)

Section CbsRuns.
Context `{ScxConsts}.

Lemma us_until_next_tt_range st cpu now :
  1 <= us_until_next_tt st cpu now <= 0xffffffff.
Proof.
  unfold us_until_next_tt. destruct (array_lookup _ _) as [s|]; [|lia].
  destruct (s =? 0); [lia|]. destruct (s <=? now); [lia|].
  set (d := u64 (s - now) / 1000).
  destruct (Z.eqb_spec d 0); [lia|]. destruct (Z.ltb_spec 0xffffffff d); [lia|].
  assert (0 <= d) by (apply Z.div_pos; [by apply wrap_range|lia]).
  rewrite wrap_small; unfold uword; lia.
Qed.

Lemma us_until_next_tt_fits st cpu now start :
  array_lookup (next_tt_start_map st) cpu = Some start ->
  0 <= now -> now + 1000 <= start < 2 ^ 64 ->
  now + us_until_next_tt st cpu now * 1000 <= start.
Proof.
  intros E Hn Hs. unfold us_until_next_tt. rewrite E.
  destruct (Z.eqb_spec start 0); [lia|]. destruct (Z.leb_spec start now); [lia|].
  rewrite (wrap_small 64) by (unfold uword; lia).
  pose proof (Z.mul_div_le (start - now) 1000 ltac:(lia)).
  assert (1 <= (start - now) / 1000) by (apply Z.div_le_lower_bound; lia).
  destruct (Z.eqb_spec ((start - now) / 1000) 0); [lia|].
  destruct (Z.ltb_spec 0xffffffff ((start - now) / 1000)); [lia|].
  rewrite wrap_small; unfold uword; lia.
Qed.

(** A registered CBS task and its server. *)
Record cbs_task (st : bpf_state) (pid : Z) (m : TaskMeta) (c : CbsState) : Prop := {
  ct_meta : task_meta_map st !! pid = Some m;
  ct_type : scheduling_type m = SCHED_TYPE_CBS;
  ct_server : cbs_map st !! cbs_key_from_meta m = Some c;
  ct_ok : cbs_ok c;
}.

Lemma running_spec e st pid m c c1 :
  cbs_task st pid m c -> uword 64 (ktime e) ->
  cbs_lazy_replenish (Some c) (ktime e) = Some c1 ->
  let eff := Z.max 1 (Z.min (remaining_us c1) (us_until_next_tt st (this_cpu e) (ktime e))) in
  let c2 := set_server c1 (remaining_us c1) (ktime e) (replenish_at_ns c1) in
  running e st pid = (put_cbs st (cbs_key_from_meta m) c2, [KSetSlice pid (eff * 1000)]) /\
  cbs_task (put_cbs st (cbs_key_from_meta m) c2) pid m c2.
Proof.
  intros [Hm Ht Hs Hc] Hn Hrep eff c2. unfold running. rewrite Hm, Ht. cbn.
  rewrite Hs, Hrep. pose proof (lazy_replenish_ok _ _ _ Hc Hrep) as Hc1.
  pose proof (us_until_next_tt_range st (this_cpu e) (ktime e)).
  pose proof Hc1 as []. unfold uword in *.
  set (n := us_until_next_tt _ _ _) in *.
  assert (E : (if (if n <? remaining_us c1 then n else remaining_us c1) =? 0 then 1
               else if n <? remaining_us c1 then n else remaining_us c1) = eff).
  { unfold eff. destruct (Z.ltb_spec n (remaining_us c1)).
    - destruct (Z.eqb_spec n 0); lia.
    - destruct (Z.eqb_spec (remaining_us c1) 0); lia. }
  rewrite E, (wrap_small 64) by (unfold eff, uword; lia).
  split; [done|]. split; cbn; auto; [apply lookup_insert_eq|].
  constructor; cbn; auto; done.
Qed.

Lemma stopping_server e st pid m c r :
  cbs_task st pid m c -> 0 < exec_start_ns c ->
  let c' := set_server c (charge c (ktime e)) 0 (replenish_at_ns c) in
  let c2 := if remaining_us c' =? 0 then rearm c' (ktime e) else c' in
  exists m', cbs_task (stopping e st pid r).1 pid m' c2 /\
    cbs_key_from_meta m' = cbs_key_from_meta m.
Proof.
  intros [Hm Ht Hs Hc] Hst c' c2. unfold stopping. rewrite Hm, Ht. cbn.
  unfold stopping_cbs. rewrite Hs. apply Z.ltb_lt in Hst. rewrite Hst. cbn [negb].
  fold c'. assert (Hc' : cbs_ok c').
  { pose proof (charge_range c (ktime e) Hc). destruct Hc.
    constructor; cbn; auto; unfold uword; lia. }
  assert (Hc2 : cbs_ok c2) by (unfold c2; destruct (_ =? 0); auto with bpf).
  set (dm := if _ && _ then _ else _).
  assert (exists m', task_meta_map dm.1 !! pid = Some m' /\
    scheduling_type m' = SCHED_TYPE_CBS /\ cbs_key_from_meta m' = cbs_key_from_meta m)
    as (m' & Hm' & Ht' & Hk).
  { unfold dm. repeat case_match; try (by exists m).
    eexists; cbn; split; [apply lookup_insert_eq|]. done. }
  destruct dm as [st' calls]. cbn in Hm'. exists m'. split; [|done].
  destruct (remaining_us c' =? 0); cbn; split; cbn; auto;
    rewrite Hk; apply lookup_insert_eq.
Qed.

(** An empty server that stops is due strictly later. *)
Lemma rearm_future c now :
  cbs_ok c -> 0 < period_us c -> 0 <= now -> now + period_us c * 1000 < 2 ^ 64 ->
  now < replenish_at_ns (rearm c now).
Proof.
  intros Hc Hp Hn Ho. pose proof (period_ns_exact c Hc) as E. destruct Hc.
  unfold rearm, uword in *. destruct (Z.ltb_spec 0 (period_us c)); [|lia].
  rewrite E. destruct (Z.eqb_spec (replenish_at_ns c) 0); cbn.
  { rewrite wrap_small; unfold uword; lia. }
  destruct (Z.leb_spec (replenish_at_ns c) now); cbn; [|lia].
  apply advance_periods_spec; lia.
Qed.

Lemma rearm_period c now : period_us (rearm c now) = period_us c.
Proof. unfold rearm. by repeat case_match. Qed.

Lemma enqueue_cbs e st pid m c c' fl :
  cbs_task st pid m c -> cbs_lazy_replenish (Some c) (ktime e) = Some c' ->
  enqueue e st pid fl =
    (put_cbs st (cbs_key_from_meta m) c',
     [KDispatch pid (if remaining_us c' =? 0 then DSQ_THROTTLED else DSQ_CBS)
        SCX_SLICE_DFL (cbs_enqueue_flags fl)]).
Proof.
  intros [Hm Ht Hs Hc] Hr. unfold enqueue. rewrite Hm, Ht. cbn. rewrite Hs, Hr.
  by destruct (_ =? 0).
Qed.

Lemma lazy_replenish_early c now :
  now < replenish_at_ns c -> cbs_lazy_replenish (Some c) now = Some c.
Proof.
  intros Hn. unfold cbs_lazy_replenish. apply Z.ltb_lt in Hn.
  by rewrite Hn, orb_true_r.
Qed.

End CbsRuns.

(** ** Properties *)

(** Constants of a recent kernel, for concrete runs. *)
Definition scx_6_12 : ScxConsts := {|
  SCX_DSQ_GLOBAL := 2 ^ 63 + 1; SCX_DSQ_LOCAL_ON := 2 ^ 63 + 2 ^ 62;
  SCX_SLICE_DFL := 20000000; SCX_ENQ_PREEMPT := 2 ^ 32; SCX_ENQ_HEAD := 2 ^ 4;
  SCX_KICK_IDLE := 1; SCX_KICK_PREEMPT := 2 |}.

Definition at_ns (t cpu : Z) : kenv :=
  {| ktime := t; this_cpu := cpu; ringbuf_ok := fun _ => true |}.
Definition tt_task (cpu : Z) : TaskMeta :=
  {| workload_id_hash := 7; task_id_hash := 9; assigned_cpu := cpu; slot_duration_us := 500;
     scheduling_type := SCHED_TYPE_TT; layer := 1; tt_runnable := 0; activation_ns := 0;
     cgroup_id := 0 |}.
Definition sporadic_task : TaskMeta :=
  {| workload_id_hash := 7; task_id_hash := 8; assigned_cpu := 2; slot_duration_us := 0;
     scheduling_type := SCHED_TYPE_CBS; layer := 1; tt_runnable := 0; activation_ns := 0;
     cgroup_id := 0 |}.
Definition sporadic_server : CbsState :=
  {| cbs_task_id_hash := 8; budget_us := 1000; period_us := 10000; remaining_us := 1000;
     exec_start_ns := 0; replenish_at_ns := 10000000; deadline_us := 5000 |}.

(** C1. While TT tasks stop on the CPU they were dispatched to, and user space
    leaves the entries of runnable tasks alone, the scheduler's view of a CPU
    is exact: [tt_active_on_cpu] holds after any run of callbacks and map
    updates precisely when some registered TT task of that CPU is runnable, so
    CBS work is held back exactly then. *)
Theorem tt_active_iff_runnable `{ScxConsts} mask evs cpu now :
  disciplined_run evs (bpf_load mask) -> cpu_ok cpu -> uword 64 now ->
  let st := (krun evs (bpf_load mask)).1 in
  tt_active_on_cpu st cpu now = true <->
  exists pid m, task_meta_map st !! pid = Some m /\ runnable_on cpu m.
Proof.
  intros Hd Hcpu Hn st.
  assert (Hinv : tt_inv st) by (apply krun_tt_inv; auto using bpf_load_inv).
  rewrite (tt_active_exact st cpu now Hinv Hcpu Hn), negb_true_iff, Z.eqb_neq.
  unfold tt_count. rewrite map_count_zero. split.
  - intros Hne. apply dec_stable. intros Hno. apply Hne. intros k v Hk Hv. eauto.
  - intros (pid & m & Hm & Hr) Hall. by apply (Hall pid m).
Qed.

(** Two tasks of CPU 2; one has finished its slot. *)
Lemma tt_active_iff_runnable_witness :
  let evs := [(at_ns 1 0, UUpdateTaskMeta 41 (tt_task 2)); (at_ns 2 0, UUpdateTaskMeta 42 (tt_task 2));
              (at_ns 3 2, EEnqueue 41 0); (at_ns 4 2, EEnqueue 42 0);
              (at_ns 5 2, EStopping 41 false)] in
  let st := (@krun scx_6_12 evs (bpf_load 12)).1 in
  tt_active_on_cpu st 2 6 = true <->
  exists pid m, task_meta_map st !! pid = Some m /\ runnable_on 2 m.
Proof.
  intros evs. apply (@tt_active_iff_runnable scx_6_12 12 evs 2 6).
  - cbn. repeat split; vm_compute; auto; discriminate.
  - vm_compute; split; [discriminate|done].
  - vm_compute; split; [discriminate|done].
Defined.

(** Deleting the entry of a TT task that is still runnable (an eviction
    between its wake-up and its stop) leaves its CPU marked busy for ever: the
    task's stop no longer finds an entry, the count stays at one, and from
    then on the dispatch callback of that CPU returns without promoting or
    consuming any CBS task, at whatever time it runs. *)
Theorem evicted_tt_blocks_cbs `{ScxConsts} mask cpu pid m e1 e2 e3 e4 fl r :
  0 <= cpu < 64 -> is_isolated (bpf_load mask) cpu = true ->
  scheduling_type m = SCHED_TYPE_TT -> tt_runnable m = 0 -> assigned_cpu m = cpu ->
  let st := (krun [(e1, UUpdateTaskMeta pid m); (e2, EEnqueue pid fl);
                   (e3, UDeleteTaskMeta pid); (e4, EStopping pid r)] (bpf_load mask)).1 in
  task_meta_map st = ∅ /\
  forall e q, dispatch e st cpu q = (st, []).
Proof.
  intros Hc Hi Ht Hr Ha st. subst cpu. set (cpu := assigned_cpu m) in *.
  set (st0 := with_task_meta (bpf_load mask) {[pid := m]}).
  assert (E1 : kexec e1 (UUpdateTaskMeta pid m) (bpf_load mask) = (st0, [])).
  { cbn [kexec]. unfold hash_update.
    rewrite decide_False by (cbn; rewrite lookup_empty; by intros []).
    rewrite decide_True by (cbn; rewrite map_size_empty; lia). done. }
  assert (E2 : (kexec e2 (EEnqueue pid fl) st0).1 = mark_tt_runnable st0 pid m cpu).
  { cbn. unfold enqueue. cbn. rewrite lookup_singleton_eq, Ht.
    change (is_isolated st0 (assigned_cpu m)) with (is_isolated (bpf_load mask) cpu).
    by rewrite Hi. }
  set (st1 := mark_tt_runnable st0 pid m cpu) in *.
  assert (Est : st = with_task_meta st1 ∅).
  { unfold st. cbn [krun]. rewrite E1.
    destruct (kexec e2 (EEnqueue pid fl) st0) as [st1' c1]. cbn in E2. subst st1'.
    assert (Edel : (hash_delete pid (task_meta_map st1)).1 = ∅).
    { rewrite hash_delete_map. unfold st1, mark_tt_runnable. rewrite Hr.
      apply map_eq. intros k. rewrite lookup_delete, lookup_empty.
      case_decide; [done|]. destruct (array_lookup _ _); cbn;
        by rewrite lookup_insert_ne, lookup_singleton_ne by done. }
    cbn [kexec]. rewrite Edel. cbn. unfold stopping. cbn. by rewrite lookup_empty. }
  rewrite Est. split; [done|]. intros e q. unfold dispatch.
  rewrite (wrap_small 32 cpu) by (unfold uword; lia).
  assert (Hact : tt_active_on_cpu (with_task_meta st1 ∅) cpu (ktime e) = true);
    [|by rewrite Hact].
  unfold tt_active_on_cpu. cbn. unfold st1, mark_tt_runnable. rewrite Hr. cbn [Z.eqb].
  assert (Hz : array_lookup (tt_runnable_count_map st0) cpu = Some 0).
  { unfold array_lookup. destruct (Z.ltb_spec cpu 0); [lia|].
    apply lookup_replicate. unfold MAX_CPUS. lia. }
  rewrite Hz. cbn [with_active_until tt_runnable_count_map put_meta with_task_meta with_counts].
  rewrite array_lookup_store, decide_True; [done|].
  split; [done|]. change (length _) with MAX_CPUS. unfold MAX_CPUS. lia.
Qed.

Lemma evicted_tt_blocks_cbs_witness :
  let st := (@krun scx_6_12 [(at_ns 1 0, UUpdateTaskMeta 41 (tt_task 2));
                 (at_ns 2 2, EEnqueue 41 0); (at_ns 3 0, UDeleteTaskMeta 41);
                 (at_ns 4 2, EStopping 41 false)] (bpf_load 12)).1 in
  task_meta_map st = ∅ /\
  forall e q, @dispatch scx_6_12 e st 2 q = (st, []).
Proof.
  apply (@evicted_tt_blocks_cbs scx_6_12 12 2 41 (tt_task 2)); try reflexivity.
  split; [discriminate|reflexivity].
Defined.

(** No CBS server ever holds more than its budget: after any sequence of
    scheduler callbacks and user-space map updates with machine-word inputs,
    every server's remaining budget lies between zero and its budget and all
    its fields are within their width. *)
Lemma servers_within_budget `{ScxConsts} mask evs key c :
  Forall (fun p => event_ok p.1 p.2) evs ->
  cbs_map (krun evs (bpf_load mask)).1 !! key = Some c ->
  cbs_ok c.
Proof.
  intros Hev Hc. eapply (krun_servers evs (bpf_load mask)); eauto.
  intros k x Hx. cbn in Hx. by rewrite lookup_empty in Hx.
Qed.

(** A CBS task runs 400us, stops, and is late. *)
Lemma servers_within_budget_example :
  cbs_ok (set_server sporadic_server 600 0 10000000).
Proof.
  apply (@servers_within_budget scx_6_12 12
    [(at_ns 1 0, UUpdateTaskMeta 50 sporadic_task);
     (at_ns 1 0, UUpdateCbs (cbs_key_from_meta sporadic_task) sporadic_server);
     (at_ns 10000 2, EEnqueue 50 0); (at_ns 20000 2, ERunning 50);
     (at_ns 420000 2, EStopping 50 false)] (cbs_key_from_meta sporadic_task)).
  - repeat apply Forall_cons_2; try apply Forall_nil_2; (split; [split; [vm_compute; discriminate|reflexivity]|]);
      cbn; auto.
    constructor; cbn; unfold uword; lia.
  - vm_compute. reflexivity.
Defined.

(** C10. Lazy replenishment keeps the server's phase: when the replenishment
    time has come the budget is refilled and the next replenishment is the
    first instant after now on the grid of whole periods from the old one;
    before that time, or with a zero period, the server is untouched; and a
    second call at the same time changes nothing. *)
Theorem lazy_replenish_phase c now :
  cbs_ok c -> 0 <= now -> now + period_us c * 1000 < 2 ^ 64 ->
  exists c', cbs_lazy_replenish (Some c) now = Some c' /\
    (period_us c = 0 \/ now < replenish_at_ns c -> c' = c) /\
    (0 < period_us c -> replenish_at_ns c <= now ->
      remaining_us c' = budget_us c /\
      now < replenish_at_ns c' <= now + period_us c * 1000 /\
      (replenish_at_ns c' - replenish_at_ns c) mod (period_us c * 1000) = 0) /\
    cbs_lazy_replenish (Some c') now = Some c'.
Proof.
  intros Hc Hn Ho. destruct (lazy_replenish_cases c now Hc Hn Ho) as (c' & E & Hsame & Hnew).
  exists c'. split_and!; auto. pose proof Hc as []. unfold uword in *.
  destruct (decide (period_us c = 0 \/ now < replenish_at_ns c)) as [Hd|Hd].
  - rewrite (Hsame Hd) in *. done.
  - apply lazy_replenish_early. apply Hnew; lia.
Qed.

Lemma lazy_replenish_phase_witness :
  exists c', cbs_lazy_replenish (Some sporadic_server) 25000001 = Some c' /\
    (period_us sporadic_server = 0 \/ 25000001 < replenish_at_ns sporadic_server ->
       c' = sporadic_server) /\
    (0 < period_us sporadic_server -> replenish_at_ns sporadic_server <= 25000001 ->
      remaining_us c' = budget_us sporadic_server /\
      25000001 < replenish_at_ns c' <= 25000001 + period_us sporadic_server * 1000 /\
      (replenish_at_ns c' - replenish_at_ns sporadic_server)
        mod (period_us sporadic_server * 1000) = 0) /\
    cbs_lazy_replenish (Some c') 25000001 = Some c'.
Proof.
  apply lazy_replenish_phase.
  - constructor; cbn; unfold uword; lia.
  - lia.
  - cbn. lia.
Defined.

(** C8. The slice a CBS task is given never reaches past its budget nor past
    the next time-triggered slot of the CPU: it is at least one microsecond, at
    most the remaining budget of the (replenished) server when that is
    positive, and ends by the next TT start when that is at least a microsecond
    away. *)
Theorem running_slice_bound e st pid m c c1 :
  cbs_task st pid m c -> uword 64 (ktime e) ->
  cbs_lazy_replenish (Some c) (ktime e) = Some c1 ->
  exists slice, (running e st pid).2 = [KSetSlice pid slice] /\
    1000 <= slice < 2 ^ 64 /\
    (0 < remaining_us c1 -> slice <= remaining_us c1 * 1000) /\
    (forall start, array_lookup (next_tt_start_map st) (this_cpu e) = Some start ->
       ktime e + 1000 <= start < 2 ^ 64 -> ktime e + slice <= start).
Proof.
  intros Ht Hn Hr. destruct (running_spec e st pid m c c1 Ht Hn Hr) as [E _].
  rewrite E. cbn [snd]. eexists; split; [done|].
  pose proof (us_until_next_tt_range st (this_cpu e) (ktime e)).
  split_and!; [lia|lia|lia|].
  intros start Es Hs. destruct Hn as [Hn _].
  pose proof (us_until_next_tt_fits st (this_cpu e) (ktime e) start Es Hn Hs). lia.
Qed.

(** 300us before the next TT slot, with 1000us of budget. *)
Lemma running_slice_bound_witness :
  let st := {| isolated_cpu_mask := 12; tt_table_map := ∅;
    cbs_map := {[15 := sporadic_server]}; current_slot_map := replicate MAX_CPUS 0;
    tt_active_until_map := replicate MAX_CPUS 0;
    next_tt_start_map := <[2%nat := 400000]> (replicate MAX_CPUS 0);
    tt_runnable_count_map := replicate MAX_CPUS 0;
    task_meta_map := {[50 := sporadic_task]} |} in
  exists slice, (running (at_ns 100000 2) st 50).2 = [KSetSlice 50 slice] /\
    1000 <= slice < 2 ^ 64 /\
    (0 < remaining_us sporadic_server -> slice <= remaining_us sporadic_server * 1000) /\
    (forall start, array_lookup (next_tt_start_map st) 2 = Some start ->
       100000 + 1000 <= start < 2 ^ 64 -> 100000 + slice <= start).
Proof.
  intros st. apply (running_slice_bound (at_ns 100000 2) st 50 sporadic_task
    sporadic_server sporadic_server).
  - split; try reflexivity. constructor; cbn; unfold uword; lia.
  - cbn; unfold uword; lia.
  - vm_compute. reflexivity.
Defined.

(** C2. The budget is enforced: a CBS task that starts running at [t1] and
    stops at [t2] is charged exactly the whole microseconds it ran, down to
    zero; and once its server is empty, every enqueue before the recorded
    replenishment time, which lies in the future, sends it to the throttled
    queue. *)
Theorem budget_enforced `{ScxConsts} e1 e2 st pid m c c1 r :
  cbs_task st pid m c -> cbs_lazy_replenish (Some c) (ktime e1) = Some c1 ->
  0 < ktime e1 <= ktime e2 -> ktime e2 + period_us c1 * 1000 < 2 ^ 64 ->
  (ktime e2 - ktime e1) / 1000 < 2 ^ 32 ->
  let st2 := (stopping e2 (running e1 st pid).1 pid r).1 in
  exists c2, cbs_map st2 !! cbs_key_from_meta m = Some c2 /\
    remaining_us c2 = Z.max 0 (remaining_us c1 - (ktime e2 - ktime e1) / 1000) /\
    (remaining_us c2 = 0 -> 0 < period_us c1 ->
      ktime e2 < replenish_at_ns c2 /\
      forall e3 fl, ktime e3 < replenish_at_ns c2 ->
        (enqueue e3 st2 pid fl).2
        = [KDispatch pid DSQ_THROTTLED SCX_SLICE_DFL (cbs_enqueue_flags fl)]).
Proof.
  intros Ht Hr Ht1 Ho Hel st2.
  pose proof (lazy_replenish_ok _ _ _ (ct_ok _ _ _ _ Ht) Hr) as Hc1. pose proof Hc1 as [].
  unfold uword in *.
  assert (Hn : uword 64 (ktime e1)) by (unfold uword; lia).
  destruct (running_spec e1 st pid m c c1 Ht Hn Hr) as [E Ht'].
  unfold st2. rewrite E. cbn [fst]. set (st1 := put_cbs _ _ _) in *.
  set (cr := set_server c1 _ _ _) in *.
  destruct (stopping_server e2 st1 pid m cr r Ht') as (m' & Ht2 & Hk); [cbn; lia|].
  set (c2 := if _ =? 0 then _ else _) in *.
  assert (Hrem : remaining_us c2 = charge cr (ktime e2))
    by (unfold c2; destruct (_ =? 0); rewrite ?rearm_remaining; done).
  exists c2. split_and!.
  - rewrite <- Hk. apply Ht2.
  - rewrite Hrem, charge_exact; cbn; auto; [apply Ht'|lia].
  - intros Hz Hp. rewrite Hz in Hrem.
    assert (E2 : c2 = rearm (set_server cr 0 0 (replenish_at_ns cr)) (ktime e2))
      by (unfold c2; cbn; by rewrite <- Hrem).
    split.
    + rewrite E2. apply rearm_future; cbn; try lia.
      constructor; cbn; auto; unfold uword; lia.
    + intros e3 fl Hlt. rewrite (enqueue_cbs e3 _ pid m' c2 c2 fl Ht2);
        [by rewrite Hz|by apply lazy_replenish_early].
Qed.

Lemma budget_enforced_witness :
  let st := with_task_meta (with_cbs_map (bpf_load 12) {[15 := sporadic_server]})
              {[50 := sporadic_task]} in
  let st2 := (stopping (at_ns 1200000 2)
                (running (at_ns 100000 2) st 50).1 50 true).1 in
  exists c2, cbs_map st2 !! 15 = Some c2 /\
    remaining_us c2 = Z.max 0 (1000 - (1200000 - 100000) / 1000) /\
    (remaining_us c2 = 0 -> 0 < 10000 ->
      1200000 < replenish_at_ns c2 /\
      forall e3 fl, ktime e3 < replenish_at_ns c2 ->
        (@enqueue scx_6_12 e3 st2 50 fl).2
        = [KDispatch 50 DSQ_THROTTLED (@SCX_SLICE_DFL scx_6_12)
             (@cbs_enqueue_flags scx_6_12 fl)]).
Proof.
  intros st. apply (@budget_enforced scx_6_12 (at_ns 100000 2) (at_ns 1200000 2) st 50
    sporadic_task sporadic_server sporadic_server true).
  - split; try reflexivity. constructor; cbn; unfold uword; lia.
  - vm_compute. reflexivity.
  - cbn. lia.
  - cbn. lia.
  - vm_compute. reflexivity.
Defined.

(** *** Promotion of throttled tasks *)

Section Promotion.
Context `{ScxConsts}.

(** [p] may be promoted in [st]: a CBS task whose server has budget. *)
Definition funded (st : bpf_state) (pid : Z) : Prop :=
  exists m c, task_meta_map st !! pid = Some m /\ scheduling_type m = SCHED_TYPE_CBS /\
    cbs_map st !! cbs_key_from_meta m = Some c /\ 0 < remaining_us c.

(** Replenishing at [now] again what was replenished at [now]. *)
Definition settled (now : Z) (c : CbsState) : Prop :=
  cbs_lazy_replenish (Some c) now = Some c.

(** [c] is what lazy replenishment at [now] makes of the server of [st]. *)
Definition tracks (now : Z) (st st' : bpf_state) : Prop :=
  task_meta_map st' = task_meta_map st /\
  forall key c, cbs_map st !! key = Some c -> settled now c -> cbs_map st' !! key = Some c.

(** At [now], with periods that do not overflow the clock. *)
Definition in_time (now : Z) (st : bpf_state) : Prop :=
  servers_ok st /\
  map_Forall (fun _ c => now + period_us c * 1000 < 2 ^ 64) (cbs_map st).

Lemma lazy_replenish_period c now c' :
  cbs_lazy_replenish (Some c) now = Some c' -> period_us c' = period_us c.
Proof. unfold cbs_lazy_replenish. case_match; by intros [= <-]. Qed.

Lemma lazy_replenish_settled c now c' :
  cbs_ok c -> 0 <= now -> now + period_us c * 1000 < 2 ^ 64 ->
  cbs_lazy_replenish (Some c) now = Some c' -> settled now c'.
Proof.
  intros Hc Hn Ho E. destruct (lazy_replenish_cases c now Hc Hn Ho) as (c2 & E2 & Hs & Hd).
  rewrite E in E2. injection E2 as <-. unfold settled. pose proof Hc as []. unfold uword in *.
  destruct (decide (period_us c = 0 \/ now < replenish_at_ns c)) as [Hx|Hx].
  - by rewrite (Hs Hx) in *.
  - apply lazy_replenish_early. apply Hd; lia.
Qed.

Lemma put_cbs_in_time now st key c :
  in_time now st -> cbs_ok c -> now + period_us c * 1000 < 2 ^ 64 ->
  in_time now (put_cbs st key c).
Proof. intros [? ?] ? ?. split; [by apply put_cbs_ok|by apply map_Forall_insert_2]. Qed.

Lemma promote_scan_spec st n now q :
  0 <= now -> in_time now st ->
  let r := promote_scan st n now q in
  tracks now st r.1 /\
  (forall call, call ∈ r.2 ->
     (exists cpu, call = KKick cpu SCX_KICK_IDLE) \/
     (exists pid, call = KDispatchFromDsq pid DSQ_CBS 0 /\
        pid ∈ take (PROMOTE_BUDGET - n) q /\ funded r.1 pid)).
Proof.
  intros Hn. revert st n. induction q as [|pid q IH]; intros st n Ht; cbn [promote_scan].
  { split; [done|]. intros call Hcall. by apply not_elem_of_nil in Hcall. }
  destruct (Nat.leb_spec PROMOTE_BUDGET n).
  { split; [done|]. intros call Hcall. by apply not_elem_of_nil in Hcall. }
  replace (PROMOTE_BUDGET - n)%nat with (S (PROMOTE_BUDGET - S n)) by lia. cbn [take].
  assert (Hskip : let r := promote_scan st (S n) now q in
    tracks now st r.1 /\ forall call, call ∈ r.2 ->
     (exists cpu, call = KKick cpu SCX_KICK_IDLE) \/
     (exists p, call = KDispatchFromDsq p DSQ_CBS 0 /\
        p ∈ pid :: take (PROMOTE_BUDGET - S n) q /\ funded r.1 p)).
  { destruct (IH st (S n) Ht) as [Hk Hc]. split; [done|]. intros call Hcall.
    destruct (Hc call Hcall) as [?|(p & ? & ? & ?)]; [by left|right]. exists p. set_solver. }
  destruct (task_meta_map st !! pid) as [m|] eqn:Hm; [|done].
  destruct (Z.eqb_spec (scheduling_type m) SCHED_TYPE_CBS) as [Hty|]; cbn [negb]; [|done].
  destruct (cbs_map st !! cbs_key_from_meta m) as [c|] eqn:Hs; [|done].
  destruct (cbs_lazy_replenish (Some c) now) as [c'|] eqn:Hr; [|done].
  destruct Ht as [Hok Hov]. pose proof (Hok _ _ Hs) as Hc. pose proof (Hov _ _ Hs) as Ho.
  pose proof (lazy_replenish_ok _ _ _ Hc Hr) as Hc'.
  pose proof (lazy_replenish_settled _ _ _ Hc Hn Ho Hr) as Hset.
  cbn beta in Ho. rewrite <- (lazy_replenish_period _ _ _ Hr) in Ho.
  set (st1 := put_cbs st (cbs_key_from_meta m) c').
  destruct (IH st1 (S n)) as [[Hk1 Hk2] Hcalls]; [by apply put_cbs_in_time|].
  destruct (promote_scan st1 (S n) now q) as [st2 calls]. cbn [fst snd] in *.
  assert (Hserver : cbs_map st2 !! cbs_key_from_meta m = Some c')
    by (apply Hk2; [apply lookup_insert_eq|done]).
  split.
  - split; [done|]. intros key x Hx Hsx. apply Hk2; [|done].
    unfold st1. cbn. rewrite lookup_insert. case_decide as Hkey; [|done].
    subst key. unfold settled in Hsx. congruence.
  - intros call Hcall.
    assert (Hrest : call ∈ calls -> (exists cpu, call = KKick cpu SCX_KICK_IDLE) \/
     (exists p, call = KDispatchFromDsq p DSQ_CBS 0 /\
        p ∈ pid :: take (PROMOTE_BUDGET - S n) q /\ funded st2 p)).
    { intros Hin. destruct (Hcalls call Hin) as [?|(p & ? & ? & ?)]; [by left|right].
      exists p. set_solver. }
    destruct (Z.ltb_spec 0 (remaining_us c')); [|by apply Hrest].
    rewrite !elem_of_cons in Hcall. destruct Hcall as [->|[->|Hin]]; [|by left; eauto|auto].
    right. exists pid. split_and!; [done|set_solver|].
    exists m, c'. by rewrite Hk1.
Qed.

(** Nothing ever takes a task off [DSQ_BE]. *)
Lemma best_effort_never_consumed e ev st :
  KConsume DSQ_BE ∉ (kexec e ev st).2.
Proof.
  assert (Hp : forall q n st now, KConsume DSQ_BE ∉ (promote_scan st n now q).2).
  { induction q as [|pid q IH]; intros n s now; cbn [promote_scan]; [set_solver|].
    destruct (PROMOTE_BUDGET <=? n)%nat; [set_solver|].
    destruct (task_meta_map s !! pid) as [m|]; [|apply IH]. destruct (negb _); [apply IH|].
    destruct (cbs_lazy_replenish _ now) as [c|]; [|apply IH].
    specialize (IH (S n) (put_cbs s (cbs_key_from_meta m) c) now).
    destruct (promote_scan _ _ _ _). cbn in *. destruct (0 <? _); [|done].
    rewrite !not_elem_of_cons. done. }
  destruct ev; cbn [kexec snd];
    unfold enqueue, dispatch, running, stopping, stopping_cbs, stopping_tt,
      promote_throttled_if_replenished, emit; try set_solver.
  all: try (specialize (Hp throttled 0%nat st (ktime e));
            destruct (promote_scan _ _ _ _); cbn in Hp).
  all: repeat case_match; simplify_eq; cbn;
    rewrite ?not_elem_of_cons, ?not_elem_of_app, ?not_elem_of_cons, ?not_elem_of_nil;
    unfold DSQ_CBS, DSQ_BE in *; split_and?; try discriminate; auto using not_elem_of_nil.
Qed.

End Promotion.

(** The dispatch callback only promotes throttled tasks that may run: when
    no TT task holds the CPU it scans at most sixteen throttled tasks, and
    each one it moves to the CBS queue is a registered CBS task whose server
    ends the call with budget left; when a TT task holds the CPU it does
    nothing. *)
Theorem dispatch_promotes_funded `{ScxConsts} e st cpu q :
  0 <= ktime e -> in_time (ktime e) st ->
  let '(st', calls) := dispatch e st cpu q in
  if tt_active_on_cpu st (u32 cpu) (ktime e) then st' = st /\ calls = []
  else
    KConsume DSQ_CBS ∈ calls /\
    forall pid d fl, KDispatchFromDsq pid d fl ∈ calls ->
      d = DSQ_CBS /\ pid ∈ take PROMOTE_BUDGET q /\ funded st' pid.
Proof.
  intros Hn Ht. unfold dispatch.
  destruct (tt_active_on_cpu st (u32 cpu) (ktime e)); [done|].
  unfold promote_throttled_if_replenished.
  destruct (promote_scan_spec st 0 (ktime e) q Hn Ht) as [_ Hcalls].
  destruct (promote_scan _ _ _ _) as [st' calls]. cbn [snd fst] in *.
  split; [set_solver|]. intros pid d fl Hin.
  apply elem_of_app in Hin as [Hin|Hin%list_elem_of_singleton]; [|done].
  destruct (Hcalls _ Hin) as [(? & ?)|(p & ? & ? & ?)]; [done|].
  simplify_eq. rewrite Nat.sub_0_r in *. done.
Qed.

Lemma dispatch_promotes_funded_witness :
  let st := with_task_meta (with_cbs_map (bpf_load 12)
      {[15 := set_server sporadic_server 0 0 10000000]}) {[50 := sporadic_task]} in
  let '(st', calls) := @dispatch scx_6_12 (at_ns 10000000 2) st 2 [50; 51] in
  if tt_active_on_cpu st (u32 2) 10000000 then st' = st /\ calls = []
  else
    KConsume DSQ_CBS ∈ calls /\
    forall pid d fl, KDispatchFromDsq pid d fl ∈ calls ->
      d = DSQ_CBS /\ pid ∈ take PROMOTE_BUDGET [50; 51] /\ funded st' pid.
Proof.
  intros st. apply (@dispatch_promotes_funded scx_6_12 (at_ns 10000000 2) st 2 [50; 51]).
  - cbn. lia.
  - split; apply map_Forall_singleton; [constructor; cbn; unfold uword; lia|cbn; lia].
Defined.
