(* ===== verification/BpfConcurrency.v ===== *)
(** * timpani-n/src/bpf/timpani.bpf.c: its helpers, load by load

    The helpers [mark_tt_runnable], [mark_tt_not_runnable], [tt_active_on_cpu]
    and [cbs_lazy_replenish], and the deduction of a run in [stopping], run on
    several CPUs at once and use no atomic operations.  Here each is a sequence
    of loads and stores on the shared maps, and calls overlap.  Under what the
    kernel serialises - calls for one CPU's TT accounts by its run-queue lock,
    charges of one server since its task runs on one CPU at a time - each CPU's
    accounts are those of its runnable tasks whenever no call is inside for it,
    and no server holds more than its budget, although any number of CPUs refill
    it at once; this is proved with an assertion at every point of every call.
    Calls that touch nothing in common have the effect of the functions of
    BpfSched, one after the other.  Without the serialisation updates are lost,
    and overlapping refills move the replenishment twice: the last section runs
    these. *)
From stdpp Require Import prelude gmap list relations sorting.
From Stdlib Require Import ZArith Lia.
From S2P Require Import Prelude BpfMaps BpfSched.
Local Open Scope Z_scope.

(** ** Calls and their instructions *)

Inductive call :=
  | MarkRunnable (pid cpu : Z)
  | MarkNotRunnable (pid cpu : Z)
  | TestActive (cpu now : Z)
  | Replenish (key now : Z)
  | Charge (key now : Z).
Definition call_cpu (o : call) : option Z :=
  match o with MarkRunnable _ c | MarkNotRunnable _ c | TestActive c _ => Some c | _ => None end.
Definition call_pid (o : call) : option Z :=
  match o with MarkRunnable pid _ | MarkNotRunnable pid _ => Some pid | _ => None end.
Definition call_key (o : call) : option Z := match o with Replenish key _ | Charge key _ => Some key | _ => None end.
Definition call_now (o : call) : Z := match o with TestActive _ now | Replenish _ now | Charge _ now => now | _ => 0 end.

(** Where a call is; the arguments are the registers it still needs. *)
Inductive point :=
  | RunTest | RunLoad | RunStore (c : Z) | RunMeta | RunUntil
  | StopTest | StopTestCount | StopLoad | StopStore (c : Z) | StopMeta | StopReload | StopUntil
  | AskCount | AskUntil
  | DuePeriod | DueTest | DueNs | DueElapsed (period_ns : Z) | DueBudget (advance : Z) | DueStore (advance budget : Z)
  | DueLoad (advance : Z) | DueNext (at_ : Z)
  | RanTest | RanElapsed | RanCompare (elapsed_us : Z) | RanLoad (elapsed_us : Z) | RanStore (remaining : Z) | RanStart
  | Finished (answer : option bool).
Definition entry (o : call) : point :=
  match o with MarkRunnable _ _ => RunTest | MarkNotRunnable _ _ => StopTest | TestActive _ _ => AskCount | Replenish _ _ => DuePeriod | Charge _ _ => RanTest end.

(** What an instruction of a call can read, and the store it makes. *)
Record view := View { v_count : option Z; v_until : option Z; v_meta : option TaskMeta; v_server : option CbsState }.
Definition look (o : call) (st : bpf_state) : view :=
  View (c ← call_cpu o; array_lookup (tt_runnable_count_map st) c) (c ← call_cpu o; array_lookup (tt_active_until_map st) c)
    (pid ← call_pid o; task_meta_map st !! pid) (key ← call_key o; cbs_map st !! key).

Inductive store :=
  | NoStore | StoreCount (v : Z) | StoreUntil (v : Z) | StoreRunnable (v : Z) | StoreRemaining (v : Z) | StoreReplenishAt (v : Z)
  | StoreStart (v : Z).
Definition set_remaining (v : Z) (c : CbsState) : CbsState := set_server c v (exec_start_ns c) (replenish_at_ns c).
Definition set_replenish_at (v : Z) (c : CbsState) : CbsState := set_server c (remaining_us c) (exec_start_ns c) v.
Definition set_exec_start (v : Z) (c : CbsState) : CbsState := set_server c (remaining_us c) v (replenish_at_ns c).
Definition do_store (o : call) (s : store) (st : bpf_state) : bpf_state :=
  match s with
  | NoStore => st
  | StoreCount v =>
      match call_cpu o with
      | Some c => with_counts st (array_store (tt_runnable_count_map st) c v)
      | None => st
      end
  | StoreUntil v =>
      match call_cpu o with
      | Some c => with_active_until st (array_store (tt_active_until_map st) c v)
      | None => st
      end
  | StoreRunnable v =>
      match call_pid o with
      | Some pid => with_task_meta st (alter (fun m => set_tt_runnable m v) pid (task_meta_map st))
      | None => st
      end
  | StoreRemaining v =>
      match call_key o with Some key => with_cbs_map st (alter (set_remaining v) key (cbs_map st)) | None => st end
  | StoreReplenishAt v =>
      match call_key o with Some key => with_cbs_map st (alter (set_replenish_at v) key (cbs_map st)) | None => st end
  | StoreStart v =>
      match call_key o with Some key => with_cbs_map st (alter (set_exec_start v) key (cbs_map st)) | None => st end
  end.

(** What a call does with its server, [None] once the entry is gone. *)
Definition of_server (v : view) (k : CbsState -> store * point) : store * point :=
  match v_server v with Some c => k c | None => (NoStore, Finished None) end.

(** One instruction.  [*runnable_count += 1] is a load and a store. *)
Definition instruction (o : call) (v : view) (p : point) : store * point :=
  match p with
  | RunTest =>
      match v_meta v with
      | Some m => (NoStore, if tt_runnable m =? 0 then RunLoad else RunUntil)
      | None => (NoStore, Finished None)
      end
  | RunLoad => (NoStore, match v_count v with Some c => RunStore c | None => RunMeta end)
  | RunStore c => (StoreCount (u32 (c + 1)), RunMeta)
  | RunMeta => (StoreRunnable 1, RunUntil)
  | RunUntil => (StoreUntil TT_ACTIVE_RUNNING, Finished None)
  | StopTest =>
      match v_meta v with
      | Some m => (NoStore, if tt_runnable m =? 0 then Finished None else StopTestCount)
      | None => (NoStore, Finished None)
      end
  | StopTestCount => (NoStore, match v_count v with Some c => if 0 <? c then StopLoad else StopMeta | None => StopMeta end)
  | StopLoad => (NoStore, match v_count v with Some c => StopStore c | None => StopMeta end)
  | StopStore c => (StoreCount (u32 (c - 1)), StopMeta)
  | StopMeta => (StoreRunnable 0, StopReload)
  | StopReload =>
      (NoStore, if match v_count v with Some c => c =? 0 | None => true end then StopUntil else Finished None)
  | StopUntil => (StoreUntil 0, Finished None)
  | AskCount =>
      (NoStore, if match v_count v with Some c => 0 <? c | None => false end then Finished (Some true) else AskUntil)
  | AskUntil =>
      (NoStore, Finished (Some match v_until v with Some u => call_now o <? u | None => false end))
  | DuePeriod => of_server v (fun c => (NoStore, if period_us c =? 0 then Finished None else DueTest))
  | DueTest => of_server v (fun c => (NoStore, if call_now o <? replenish_at_ns c then Finished None else DueNs))
  | DueNs => of_server v (fun c => (NoStore, DueElapsed (u64 (period_us c * 1000))))
  | DueElapsed period_ns =>
      of_server v (fun c =>
        let elapsed := u64 (call_now o - replenish_at_ns c) in
        let periods := u64 (elapsed / period_ns + 1) in (NoStore, DueBudget (u64 (periods * period_ns))))
  | DueBudget d => of_server v (fun c => (NoStore, DueStore d (budget_us c)))
  | DueStore d b => (StoreRemaining b, DueLoad d)
  | DueLoad d => of_server v (fun c => (NoStore, DueNext (u64 (replenish_at_ns c + d))))
  | DueNext n => (StoreReplenishAt n, Finished None)
  | RanTest => of_server v (fun c => (NoStore, if 0 <? exec_start_ns c then RanElapsed else Finished None))
  | RanElapsed =>
      of_server v (fun c =>
        let elapsed_ns := u64 (call_now o - exec_start_ns c) in (NoStore, RanCompare (u32 (elapsed_ns / 1000))))
  | RanCompare e => of_server v (fun c => (NoStore, if remaining_us c <=? e then RanStore 0 else RanLoad e))
  | RanLoad e => of_server v (fun c => (NoStore, RanStore (u32 (remaining_us c - e))))
  | RanStore r => (StoreRemaining r, RanStart)
  | RanStart => (StoreStart 0, Finished None)
  | Finished a => (NoStore, Finished a)
  end.

Record thread := Thread { th_id : nat; th_call : call; th_at : point }.

Definition step_thread (st : bpf_state) (t : thread) : bpf_state * thread :=
  let '(s, p) := instruction (th_call t) (look (th_call t) st) (th_at t) in
  (do_store (th_call t) s st, Thread (th_id t) (th_call t) p).

(** ** The atomic functions *)

Definition atomically (o : call) (st : bpf_state) : bpf_state * option bool :=
  match o with
  | MarkRunnable pid cpu =>
      (match task_meta_map st !! pid with Some m => mark_tt_runnable st pid m cpu | None => st end, None)
  | MarkNotRunnable pid cpu =>
      (match task_meta_map st !! pid with Some m => mark_tt_not_runnable st pid m cpu | None => st end, None)
  | TestActive cpu now => (st, Some (tt_active_on_cpu st cpu now))
  | Replenish key now =>
      (match cbs_lazy_replenish (cbs_map st !! key) now with Some c => put_cbs st key c | None => st end, None)
  | Charge key now =>
      (match cbs_map st !! key with
       | Some c => if 0 <? exec_start_ns c then put_cbs st key (set_server c (charge c now) 0 (replenish_at_ns c)) else st
       | None => st
       end, None)
  end.

(** Calls one after the other, with their answers. *)
Fixpoint sequentially (calls : list (nat * call)) (st : bpf_state) : bpf_state * list (nat * option bool) :=
  match calls with
  | [] => (st, [])
  | (i, o) :: calls =>
      let '(st, a) := atomically o st in
      let '(st, answers) := sequentially calls st in (st, (i, a) :: answers)
  end.

(** ** Overlapping calls *)

Definition other (x y : option Z) : Prop := x = None \/ x <> y.
(** Two calls that touch nothing in common: their CPUs, tasks and servers differ. *)
Definition apart (a b : call) : Prop :=
  other (call_cpu a) (call_cpu b) /\ other (call_pid a) (call_pid b) /\ other (call_key a) (call_key b).
#[export] Instance apart_dec : RelDecision apart.
Proof. intros a b. unfold apart, other. apply _. Defined.

Record system := System {
  shared : bpf_state; inside : list thread; history : list (nat * call); answers : list (nat * option bool) }.

(** A call begins when it may overlap with each that is inside; a thread
    executes its next instruction; a call returns. *)
Inductive sys_step (may : call -> call -> Prop) : system -> system -> Prop :=
  | sys_begin st ts h ans i o :
      Forall (fun t => may (th_call t) o) ts ->
      sys_step may (System st ts h ans) (System st (ts ++ [Thread i o (entry o)]) (h ++ [(i, o)]) ans)
  | sys_instruction st l t r h ans :
      sys_step may (System st (l ++ t :: r) h ans)
        (System (step_thread st t).1 (l ++ (step_thread st t).2 :: r) h ans)
  | sys_return st l i o a r h ans :
      sys_step may (System st (l ++ Thread i o (Finished a) :: r) h ans) (System st (l ++ r) h (ans ++ [(i, a)])).

Definition idle (st : bpf_state) : system := System st [] [] [].

(** ** Calls as the run-queue locks serialise them *)

(** [dispatch] asks about its own CPU under the lock of that CPU's run queue, a
    TT task is marked under the lock of the CPU it is assigned to, and a task
    runs, and is charged, on one CPU at a time.  Nothing else is serialised: any
    number of CPUs refill one server at once, also while it is charged. *)
Definition charged (o : call) : option Z := match o with Charge key _ => Some key | _ => None end.
Definition may_overlap (a b : call) : Prop := other (call_cpu a) (call_cpu b) /\ other (charged a) (charged b).
#[export] Instance may_overlap_dec : RelDecision may_overlap.
Proof. intros a b. unfold may_overlap, other. apply _. Defined.

Lemma other_sym x y : other x y -> other y x.
Proof. intros [->|Hne]; unfold other; [|right; congruence]. destruct y; [by right|by left]. Qed.
#[export] Instance may_overlap_sym : Symmetric may_overlap.
Proof. intros a b (Hc & Hk). split; by apply other_sym. Qed.

(** The calls as the callbacks make them: a TT task is marked for the CPU of
    its entry, and CPUs are those of the per-CPU maps. *)
Definition proper (st : bpf_state) (o : call) : Prop :=
  match o with
  | MarkRunnable pid cpu =>
      cpu_ok cpu /\ exists m, task_meta_map st !! pid = Some m /\ assigned_cpu m = cpu /\ scheduling_type m = SCHED_TYPE_TT
  | MarkNotRunnable pid cpu => cpu_ok cpu /\ exists m, task_meta_map st !! pid = Some m /\ assigned_cpu m = cpu
  | TestActive cpu now => cpu_ok cpu /\ uword 64 now
  | Replenish _ _ | Charge _ _ => True
  end.

(** The accounts of a CPU are those of its runnable tasks. *)
Definition exact (st : bpf_state) (cpu : Z) : Prop :=
  array_lookup (tt_runnable_count_map st) cpu = Some (tt_count st cpu) /\
  array_lookup (tt_active_until_map st) cpu = Some (if tt_count st cpu =? 0 then 0 else TT_ACTIVE_RUNNING).

Definition marked (st : bpf_state) (pid : Z) : option bool :=
  (fun m => negb (tt_runnable m =? 0)) <$> task_meta_map st !! pid.

(** A server has lost nothing of its definition and holds no more than its budget. *)
Definition sound_server (st0 : bpf_state) (key : Z) (c : CbsState) : Prop :=
  exists c0, cbs_map st0 !! key = Some c0 /\ set_server c 0 0 0 = set_server c0 0 0 0 /\ 0 <= remaining_us c <= budget_us c.

(** What holds whoever is inside. *)
Record tables (st0 st : bpf_state) : Prop := {
  tab_counts : length (tt_runnable_count_map st) = MAX_CPUS;
  tab_until : length (tt_active_until_map st) = MAX_CPUS;
  tab_size : (size (task_meta_map st) <= 4096)%nat;
  tab_tasks : forall pid, (fun m => set_tt_runnable m 0) <$> task_meta_map st !! pid =
    (fun m => set_tt_runnable m 0) <$> task_meta_map st0 !! pid;
  tab_meta : forall pid m, task_meta_map st !! pid = Some m ->
    0 <= assigned_cpu m /\ (tt_runnable m <> 0 -> scheduling_type m = SCHED_TYPE_TT /\ cpu_ok (assigned_cpu m));
  tab_servers : map_Forall (sound_server st0) (cbs_map st);
}.

(** What holds at each point of a call: how far the accounts of its CPU are
    from the marks of its tasks, and what its registers still say. *)
Definition at_point (st : bpf_state) (o : call) (p : point) : Prop :=
  let count cpu k := array_lookup (tt_runnable_count_map st) cpu = Some (tt_count st cpu + k) in
  let until cpu v := array_lookup (tt_active_until_map st) cpu = Some v in
  match o, p with
  | MarkRunnable pid cpu, RunTest => exact st cpu
  | MarkRunnable pid cpu, RunLoad => exact st cpu /\ marked st pid = Some false
  | MarkRunnable pid cpu, RunStore c => exact st cpu /\ marked st pid = Some false /\ c = tt_count st cpu
  | MarkRunnable pid cpu, RunMeta => count cpu 1 /\ marked st pid = Some false
  | MarkRunnable pid cpu, RunUntil => count cpu 0 /\ marked st pid = Some true
  | MarkRunnable pid cpu, Finished a => exact st cpu /\ marked st pid = Some true
  | MarkNotRunnable pid cpu, StopTest => exact st cpu
  | MarkNotRunnable pid cpu, (StopTestCount | StopLoad) => exact st cpu /\ marked st pid = Some true
  | MarkNotRunnable pid cpu, StopStore c => exact st cpu /\ marked st pid = Some true /\ c = tt_count st cpu
  | MarkNotRunnable pid cpu, StopMeta => count cpu (-1) /\ until cpu TT_ACTIVE_RUNNING /\ marked st pid = Some true
  | MarkNotRunnable pid cpu, StopReload => count cpu 0 /\ until cpu TT_ACTIVE_RUNNING /\ marked st pid = Some false
  | MarkNotRunnable pid cpu, StopUntil => count cpu 0 /\ tt_count st cpu = 0 /\ marked st pid = Some false
  | MarkNotRunnable pid cpu, Finished a => exact st cpu /\ marked st pid = Some false
  | TestActive cpu now, AskCount => exact st cpu
  | TestActive cpu now, AskUntil => exact st cpu /\ tt_count st cpu = 0
  | TestActive cpu now, Finished a => exact st cpu /\ a = Some (negb (tt_count st cpu =? 0))
  | Replenish key now, DueStore d b => forall c, cbs_map st !! key = Some c -> b = budget_us c
  | Replenish key now, (DuePeriod | DueTest | DueNs | DueElapsed _ | DueBudget _ | DueLoad _ | DueNext _ | Finished _) => True
  | Charge key now, (RanTest | RanElapsed) => True
  | Charge key now, RanCompare e => 0 <= e
  | Charge key now, RanLoad e => forall c, cbs_map st !! key = Some c -> 0 <= e < remaining_us c
  | Charge key now, RanStore r => forall c, cbs_map st !! key = Some c -> 0 <= r <= budget_us c
  | Charge key now, RanStart => True
  | Charge key now, Finished a => forall c, cbs_map st !! key = Some c -> exec_start_ns c <= 0
  | _, _ => False
  end.

(** *** What a store of one call leaves to the others *)

Lemma array_lookup_other (m : list Z) c c' v : c <> c' -> array_lookup (array_store m c v) c' = array_lookup m c'.
Proof. intros Hne. rewrite array_lookup_store, decide_False; [done|tauto]. Qed.
Lemma array_lookup_same (m : list Z) c v :
  length m = MAX_CPUS -> cpu_ok c -> array_lookup (array_store m c v) c = Some v.
Proof. unfold cpu_ok. intros Hl Hc. rewrite array_lookup_store, decide_True; [done|lia]. Qed.

Lemma alter_some {A} (f : A -> A) pid (m : gmap Z A) x :
  m !! pid = Some x -> alter f pid m = <[pid := f x]> m.
Proof.
  intros E. apply map_eq. intros k. rewrite lookup_insert. case_decide as Ek; [subst k; by rewrite lookup_alter_eq, E|].
  by rewrite lookup_alter_ne.
Qed.

(** The task of a call has an entry, for the CPU of the call. *)
Lemma proper_task st0 st o pid cpu :
  tables st0 st -> proper st0 o -> call_pid o = Some pid -> call_cpu o = Some cpu ->
  exists m, task_meta_map st !! pid = Some m /\ assigned_cpu m = cpu /\ cpu_ok cpu.
Proof.
  intros Ht Hp Epid Ecpu. pose proof (tab_tasks _ _ Ht pid) as E.
  destruct o; cbn in *; simplify_eq; destruct Hp as (Hok & m & Em & Ha); try destruct Ha as [Ha _]; rewrite Em in E;
    destruct (task_meta_map st !! pid) as [m'|]; try discriminate; exists m'; apply (inj Some), (f_equal assigned_cpu) in E; cbn in E;
    by rewrite E.
Qed.

(** Setting a mark counts on the CPU of the task. *)
Lemma mark_count st pid m v :
  task_meta_map st !! pid = Some m ->
  forall cpu, tt_count (with_task_meta st (alter (fun m => set_tt_runnable m v) pid (task_meta_map st))) cpu =
    tt_count st cpu +
      if decide (cpu = assigned_cpu m) then (if v =? 0 then 0 else 1) - (if tt_runnable m =? 0 then 0 else 1) else 0.
Proof.
  intros Em cpu. apply count_set_runnable with pid; [done|]. exact (alter_some (fun m => set_tt_runnable m v) _ _ _ Em).
Qed.

(** The accounts of other CPUs, and the marks of their tasks, stay. *)
Lemma store_other_cpu st0 st o s cpu :
  tables st0 st -> proper st0 o -> call_cpu o <> Some cpu ->
  array_lookup (tt_runnable_count_map (do_store o s st)) cpu = array_lookup (tt_runnable_count_map st) cpu /\
  array_lookup (tt_active_until_map (do_store o s st)) cpu = array_lookup (tt_active_until_map st) cpu /\
  tt_count (do_store o s st) cpu = tt_count st cpu.
Proof.
  intros Ht Hp Hne. destruct s; cbn [do_store]; [done| | | |by repeat case_match..].
  - destruct (call_cpu o) as [c|]; [|done]. cbn. split_and!; [|done|done]. apply array_lookup_other. congruence.
  - destruct (call_cpu o) as [c|]; [|done]. cbn. split_and!; [done| |done]. apply array_lookup_other. congruence.
  - destruct (call_pid o) as [pid|] eqn:Epid; [|done]. destruct (call_cpu o) as [c|] eqn:Ec; [|by destruct o].
    destruct (proper_task _ _ _ _ _ Ht Hp Epid Ec) as (m & Em & Ha & _).
    rewrite (mark_count _ _ _ _ Em), decide_False by congruence. cbn. split_and!; [done|done|lia].
Qed.

Lemma store_other_mark st o s pid : call_pid o <> Some pid -> marked (do_store o s st) pid = marked st pid.
Proof.
  intros Hne. unfold marked. destruct s; cbn [do_store]; repeat case_match; try done. cbn.
  by rewrite lookup_alter_ne by congruence.
Qed.

Lemma store_exact st0 st o s cpu :
  tables st0 st -> proper st0 o -> call_cpu o <> Some cpu -> exact st cpu -> exact (do_store o s st) cpu.
Proof.
  intros Ht Hp Hne [Hc Hu]. destruct (store_other_cpu st0 st o s cpu Ht Hp Hne) as (E1 & E2 & E3).
  unfold exact. by rewrite E1, E2, E3.
Qed.

(** What a store makes of a server. *)
Lemma store_server o s st key c' :
  cbs_map (do_store o s st) !! key = Some c' ->
  exists c, cbs_map st !! key = Some c /\
    (c' = c \/ call_key o = Some key /\
       match s with
       | StoreRemaining v => c' = set_remaining v c
       | StoreReplenishAt v => c' = set_replenish_at v c
       | StoreStart v => c' = set_exec_start v c
       | _ => False
       end).
Proof.
  destruct s; cbn [do_store]; [naive_solver| | | |..];
    [destruct (call_cpu o)|destruct (call_cpu o)|destruct (call_pid o)|destruct (call_key o) as [k|]..];
    try (intros E; exists c'; split; [exact E|by left]);
    cbn; intros E; destruct (decide (k = key)) as [->|Hk];
    try (rewrite lookup_alter_ne in E by done; exists c'; split; [exact E|by left]);
    rewrite lookup_alter_eq in E; destruct (cbs_map st !! key) as [c|]; try discriminate; injection E as <-;
    exists c; split; [done|by right|done|by right|done|by right].
Qed.

(** An instruction leaves every server sound, and only the call that charges
    it lowers its budget. *)
Lemma step_server st0 st o p key c' :
  tables st0 st -> at_point st o p ->
  cbs_map (do_store o (instruction o (look o st) p).1 st) !! key = Some c' ->
  exists c, cbs_map st !! key = Some c /\ set_server c' 0 0 0 = set_server c 0 0 0 /\ 0 <= remaining_us c' <= budget_us c' /\
    (charged o <> Some key -> exec_start_ns c' = exec_start_ns c /\ remaining_us c <= remaining_us c').
Proof.
  intros Ht Hp (c & Ec & Hc)%store_server. exists c. split; [exact Ec|].
  destruct (tab_servers _ _ Ht _ _ Ec) as (c0 & _ & _ & Hr).
  destruct Hc as [->|[Hk Hc]]; [split_and!; lia || done|].
  destruct o as [| | |k now|k now]; try done; injection Hk as ->; destruct p; cbn in Hp, Hc; try done;
    unfold of_server, look in Hc; cbn in Hc; rewrite ?Ec in Hc; repeat case_match; cbn in Hc; try done; subst c'; cbn;
    (split_and!; [done|..]); try lia; try done.
  all: specialize (Hp _ Ec); lia.
Qed.

(** What a call knows outlives an instruction of a call that may overlap it. *)
Lemma at_point_stable st0 st o p o' p' :
  tables st0 st -> proper st0 o -> proper st0 o' -> may_overlap o o' -> at_point st o p -> at_point st o' p' ->
  at_point (do_store o (instruction o (look o st) p).1 st) o' p'.
Proof.
  intros Ht Hp Hp' [Hcpu Hch] Hat Hat'. pose proof (fun key c' => step_server st0 st o p key c' Ht Hat) as Hs.
  set (s := (instruction o (look o st) p).1) in *.
  assert (Hne : forall cpu, call_cpu o' = Some cpu -> call_cpu o <> Some cpu) by (intros cpu E; destruct Hcpu; congruence).
  assert (Hpid : forall pid cpu, call_pid o' = Some pid -> call_cpu o' = Some cpu -> call_pid o <> Some pid).
  { intros pid cpu E Ec E'. destruct (call_cpu o) as [c|] eqn:Eo; [|by destruct o].
    destruct (proper_task _ _ _ _ _ Ht Hp' E Ec) as (m & Em & Ha & _).
    destruct (proper_task _ _ _ _ _ Ht Hp E' Eo) as (m2 & Em2 & Ha2 & _). apply (Hne cpu Ec). congruence. }
  destruct o' as [pid cpu|pid cpu|cpu now|key now|key now]; cbn in Hne, Hpid.
  1-3: destruct (store_other_cpu st0 st o s cpu Ht Hp (Hne _ eq_refl)) as (E1 & E2 & E3);
    destruct p'; cbn in Hat' |- *; try done; unfold exact in *; rewrite ?E1, ?E2, ?E3;
    try (rewrite store_other_mark by by apply (Hpid _ _ eq_refl eq_refl)); done.
  all: destruct p'; cbn in Hat' |- *; try done; intros c' (c & Ec & Hb & _ & Hc)%Hs; specialize (Hat' _ Ec);
    apply (f_equal budget_us) in Hb; cbn in Hb; try (rewrite Hb; exact Hat').
  - destruct Hc as [_ Hc]; [destruct Hch as [Hch|Hch]; cbn in Hch; congruence|]. lia.
  - destruct Hc as [Hc _]; [destruct Hch as [Hch|Hch]; cbn in Hch; congruence|]. by rewrite Hc.
Qed.

(** *** What an instruction makes of what its call knows *)

Lemma count_positive st pid m : task_meta_map st !! pid = Some m -> tt_runnable m <> 0 -> 0 < tt_count st (assigned_cpu m).
Proof.
  intros Em Hr. pose proof (map_count_nonneg (runnable_on (assigned_cpu m)) (task_meta_map st)) as Hn. unfold tt_count.
  destruct (decide (map_count (runnable_on (assigned_cpu m)) (task_meta_map st) = 0)) as [Hz|]; [|lia].
  rewrite map_count_zero in Hz. by destruct (Hz _ _ Em).
Qed.

Lemma marked_alter st pid m v :
  task_meta_map st !! pid = Some m ->
  marked (with_task_meta st (alter (fun m => set_tt_runnable m v) pid (task_meta_map st))) pid = Some (negb (v =? 0)).
Proof. intros Em. unfold marked. cbn. by rewrite lookup_alter_eq, Em. Qed.

Lemma run_at_point st0 st pid cpu p (o := MarkRunnable pid cpu) :
  tables st0 st -> proper st0 o -> at_point st o p ->
  at_point (do_store o (instruction o (look o st) p).1 st) o (instruction o (look o st) p).2.
Proof.
  intros Ht Hp Hat. destruct (proper_task _ _ _ pid cpu Ht Hp eq_refl eq_refl) as (m & Em & Ha & Hok).
  pose proof (tt_count_bound st cpu (tab_size _ _ Ht)) as Hb. pose proof (count_positive st pid m Em) as Hpos. rewrite Ha in Hpos.
  assert (Hm : marked st pid = Some (negb (tt_runnable m =? 0))) by (unfold marked; by rewrite Em).
  destruct p; cbn in Hat; try done; unfold look; cbn [instruction v_meta v_count v_until o call_pid call_cpu mbind option_bind fst snd do_store].
  - rewrite Em. destruct (tt_runnable m =? 0) eqn:Er; cbn; rewrite Hm; [done|]. rewrite Z.add_0_r. by destruct Hat.
  - destruct Hat as [[Hc Hu] Hr]. rewrite Hc. cbn. done.
  - destruct Hat as ([Hc Hu] & Hr & ->). cbn. rewrite wrap_small by (unfold uword; lia).
    rewrite array_lookup_same by (done || apply Ht). done.
  - destruct Hat as [Hc Hr]. cbn -[tt_count marked]. rewrite (marked_alter _ _ _ _ Em), (mark_count _ _ _ _ Em), decide_True by done.
    split; [|done]. rewrite Hr in Hm. destruct (tt_runnable m =? 0); [|done]. rewrite Hc. f_equal. cbn. lia.
  - destruct Hat as [Hc Hr]. cbn. unfold exact. cbn. rewrite array_lookup_same by (done || apply Ht).
    change (tt_count (with_active_until _ _) cpu) with (tt_count st cpu). rewrite Hr in Hm. injection Hm as Hm.
    destruct (Z.eqb_spec (tt_runnable m) 0); [done|]. destruct (Z.eqb_spec (tt_count st cpu) 0); [lia|].
    rewrite Z.add_0_r in Hc. done.
Qed.

Lemma stop_at_point st0 st pid cpu p (o := MarkNotRunnable pid cpu) :
  tables st0 st -> proper st0 o -> at_point st o p ->
  at_point (do_store o (instruction o (look o st) p).1 st) o (instruction o (look o st) p).2.
Proof.
  intros Ht Hp Hat. destruct (proper_task _ _ _ pid cpu Ht Hp eq_refl eq_refl) as (m & Em & Ha & Hok).
  pose proof (tt_count_bound st cpu (tab_size _ _ Ht)) as Hb. pose proof (count_positive st pid m Em) as Hpos. rewrite Ha in Hpos.
  assert (Hm : marked st pid = Some (negb (tt_runnable m =? 0))) by (unfold marked; by rewrite Em).
  assert (Hpos' : marked st pid = Some true -> 0 < tt_count st cpu).
  { intros Hr. apply Hpos. intros E. rewrite Hr, E in Hm. done. }
  destruct p; cbn in Hat; try done; unfold look; cbn [instruction v_meta v_count v_until o call_pid call_cpu mbind option_bind fst snd do_store].
  - rewrite Em. destruct (tt_runnable m =? 0) eqn:Er; cbn; rewrite Hm; done.
  - destruct Hat as [[Hc Hu] Hr]. rewrite Hc. specialize (Hpos' Hr). destruct (Z.ltb_spec 0 (tt_count st cpu)); [|lia]. done.
  - destruct Hat as [[Hc Hu] Hr]. rewrite Hc. done.
  - destruct Hat as ([Hc Hu] & Hr & ->). cbn. specialize (Hpos' Hr). rewrite wrap_small by (unfold uword; lia).
    rewrite array_lookup_same by (done || apply Ht). destruct (Z.eqb_spec (tt_count st cpu) 0); [lia|]. done.
  - destruct Hat as (Hc & Hu & Hr). cbn -[tt_count marked]. rewrite (marked_alter _ _ _ _ Em), (mark_count _ _ _ _ Em), decide_True by done.
    split_and!; [|done|done]. rewrite Hr in Hm. destruct (tt_runnable m =? 0); [done|]. rewrite Hc. f_equal. cbn. lia.
  - destruct Hat as (Hc & Hu & Hr). rewrite Hc, Z.add_0_r in *. destruct (Z.eqb_spec (tt_count st cpu) 0) as [Hz|Hz]; cbn.
    + rewrite Z.add_0_r. done.
    + split; [|done]. split; [done|]. by destruct (Z.eqb_spec (tt_count st cpu) 0).
  - destruct Hat as (Hc & Hz & Hr). split; [|done]. unfold exact. cbn -[tt_count].
    change (tt_count (with_active_until _ _) cpu) with (tt_count st cpu). rewrite array_lookup_same by (done || apply Ht).
    rewrite Hz. cbn. rewrite Hc, Hz. done.
Qed.

Lemma ask_at_point st0 st cpu now p (o := TestActive cpu now) :
  tables st0 st -> proper st0 o -> at_point st o p ->
  at_point (do_store o (instruction o (look o st) p).1 st) o (instruction o (look o st) p).2.
Proof.
  intros Ht [Hok Hnow] Hat. pose proof (tt_count_bound st cpu (tab_size _ _ Ht)) as Hb. unfold uword in Hnow.
  destruct p; cbn in Hat; try done; unfold look; cbn [instruction v_meta v_count v_until o call_pid call_cpu call_now mbind option_bind fst snd do_store].
  - destruct Hat as [Hc Hu]. rewrite Hc. destruct (Z.ltb_spec 0 (tt_count st cpu)); cbn.
    + split; [done|]. by destruct (Z.eqb_spec (tt_count st cpu) 0); [lia|].
    + split; [done|lia].
  - destruct Hat as [[Hc Hu] Hz]. rewrite Hu, Hz. cbn. split; [done|]. rewrite Hz. by destruct (Z.ltb_spec now 0); [lia|].
Qed.

Lemma server_at_point st0 st o p :
  call_cpu o = None -> tables st0 st -> at_point st o p ->
  at_point (do_store o (instruction o (look o st) p).1 st) o (instruction o (look o st) p).2.
Proof.
  intros Ho Ht Hat. destruct o as [| | |key now|key now]; try done;
    (destruct (cbs_map st !! key) as [c|] eqn:Ec;
      [pose proof (tab_servers _ _ Ht _ _ Ec) as (c0 & _ & _ & Hr)|]);
    destruct p; cbn in Hat; try done; unfold look, of_server; cbn; rewrite ?Ec; cbn;
    repeat case_match; cbn; try done; try (intros c' Ec'); rewrite ?lookup_alter_eq, ?Ec in *; cbn in *; simplify_eq; cbn.
  all: try lia.
  - apply wrap_range. lia.
  - specialize (Hat _ eq_refl). unfold wrap.
    pose proof (Z.mod_pos_bound (remaining_us c' - elapsed_us) (2 ^ 32)).
    pose proof (Z.mod_le (remaining_us c' - elapsed_us) (2 ^ 32)). lia.
Qed.

Lemma step_at_point st0 st o p :
  tables st0 st -> proper st0 o -> at_point st o p ->
  at_point (do_store o (instruction o (look o st) p).1 st) o (instruction o (look o st) p).2.
Proof.
  intros Ht Hp. destruct o; [by apply (run_at_point st0)|by apply (stop_at_point st0)|by apply (ask_at_point st0)|..];
    by apply (server_at_point st0).
Qed.

Lemma server_tables st0 st o s :
  call_cpu o = None -> tables st0 st -> map_Forall (sound_server st0) (cbs_map (do_store o s st)) -> tables st0 (do_store o s st).
Proof.
  intros Ho [Hl1 Hl2 Hsz Htk Hm Hs] Hsv. destruct o as [| | |key now|key now]; try done;
    (constructor; [..|exact Hsv]); by destruct s.
Qed.

Lemma step_tables st0 st o p :
  tables st0 st -> proper st0 o -> at_point st o p -> tables st0 (do_store o (instruction o (look o st) p).1 st).
Proof.
  intros Ht Hp Hat.
  assert (Hsv : map_Forall (sound_server st0) (cbs_map (do_store o (instruction o (look o st) p).1 st))).
  { intros key c' (c & Ec & Hs & Hr & _)%(step_server st0); [|done..].
    destruct (tab_servers _ _ Ht _ _ Ec) as (c0 & E0 & Hs0 & _). exists c0. split_and!; [done|by rewrite Hs|lia..]. }
  destruct (call_cpu o) as [cpu|] eqn:Ecpu; [|by apply (server_tables st0)].
  assert (Hv : forall v, (instruction o (look o st) p).1 = StoreRunnable v ->
    exists pid m, call_pid o = Some pid /\ task_meta_map st !! pid = Some m /\
      (v <> 0 -> scheduling_type m = SCHED_TYPE_TT /\ cpu_ok (assigned_cpu m))).
  { intros v Ev. destruct o as [pid c|pid c|c now| |]; try done; injection Ecpu as <-.
    - destruct (proper_task _ _ _ pid c Ht Hp eq_refl eq_refl) as (m & Em & Ha & Hok). exists pid, m. split_and!; [done|done|].
      intros _. rewrite Ha. split; [|done]. destruct Hp as (_ & m0 & Em0 & _ & Hty).
      pose proof (tab_tasks _ _ Ht pid) as E. rewrite Em, Em0 in E. apply (inj Some), (f_equal scheduling_type) in E. by etrans.
    - destruct (proper_task _ _ _ pid c Ht Hp eq_refl eq_refl) as (m & Em & Ha & Hok). exists pid, m. split_and!; [done|done|].
      intros Hv. destruct p; cbn in Hat, Ev; try done; repeat case_match; cbn in Ev; try done; by injection Ev as <-.
    - destruct p; cbn in Hat, Ev; try done; repeat case_match; done. }
  revert Hv Hsv. generalize (instruction o (look o st) p).1 as s. intros s Hv Hsv.
  destruct Ht as [Hl1 Hl2 Hsz Htk Hm Hs]. constructor; try exact Hsv; destruct s; cbn [do_store]; try done;
    rewrite ?Ecpu; cbn; rewrite ?array_store_length; try done; try (by destruct (call_pid o)); try (by destruct (call_key o));
    destruct (Hv v eq_refl) as (pid & m & -> & Em & Hok); cbn; rewrite (alter_some (fun m => set_tt_runnable m v) _ _ _ Em).
  - by rewrite map_size_insert_Some.
  - intros k. rewrite <- Htk, lookup_insert. case_decide; [subst k; by rewrite Em|done].
  - intros k x. rewrite lookup_insert. case_decide; [|apply Hm]. intros [= <-]. cbn. split; [|done]. exact (proj1 (Hm _ _ Em)).
Qed.

(** *** All calls at once *)

Record accounted (st0 : bpf_state) (s : system) : Prop := {
  acc_tables : tables st0 (shared s);
  acc_inside : Forall (fun t => proper st0 (th_call t) /\ at_point (shared s) (th_call t) (th_at t)) (inside s);
  acc_overlap : StronglySorted may_overlap (th_call <$> inside s);
  acc_exact : forall cpu, cpu_ok cpu -> Forall (fun t => call_cpu (th_call t) <> Some cpu) (inside s) -> exact (shared s) cpu;
}.

Lemma entry_at_point st o :
  (forall cpu, call_cpu o = Some cpu -> exact st cpu) -> at_point st o (entry o).
Proof. intros H. destruct o; cbn; auto. Qed.

Lemma finished_exact st o a cpu : at_point st o (Finished a) -> call_cpu o = Some cpu -> exact st cpu.
Proof. destruct o; cbn; intros H E; simplify_eq; tauto. Qed.

Lemma overlap_middle l t r :
  StronglySorted may_overlap (th_call <$> l ++ t :: r) -> Forall (fun t' => may_overlap (th_call t) (th_call t')) (l ++ r).
Proof.
  rewrite fmap_app, fmap_cons. intros Hs. apply Forall_app. split; apply Forall_forall; intros t' Ht'.
  - symmetry. apply (StronglySorted_app_1_elem_of _ _ _ _ _ Hs); [by apply list_elem_of_fmap_2|by left].
  - apply StronglySorted_app in Hs as (_ & _ & Hs). apply StronglySorted_cons in Hs as [Hs _].
    rewrite Forall_fmap in Hs. by apply (proj1 (Forall_forall _ _) Hs).
Qed.

Lemma overlap_without {A} (R : A -> A -> Prop) l x r : StronglySorted R (l ++ x :: r) -> StronglySorted R (l ++ r).
Proof.
  intros (Hlr & Hl & Hr)%StronglySorted_app. apply StronglySorted_cons in Hr as [_ Hr].
  apply StronglySorted_app_2; [|done|done]. intros a b Ha Hb. apply Hlr; [done|by right].
Qed.

Lemma accounted_instruction st0 st l t r h ans :
  accounted st0 (System st (l ++ t :: r) h ans) ->
  accounted st0 (System (step_thread st t).1 (l ++ (step_thread st t).2 :: r) h ans).
Proof.
  intros [Ht Hin Hov Hex]. cbn in Ht, Hin, Hov, Hex. pose proof (overlap_middle _ _ _ Hov) as Hmid.
  pose proof (proj1 (Forall_app _ _ _) Hin) as [Hl (Htt & Hr)%Forall_cons]. destruct Htt as [Hp Hat].
  destruct t as [i o p]. unfold step_thread. cbn [th_call th_at th_id] in *.
  pose proof (step_tables st0 st o p Ht Hp Hat) as Ht'. pose proof (step_at_point st0 st o p Ht Hp Hat) as Hat'.
  pose proof (fun cpu => store_exact st0 st o (instruction o (look o st) p).1 cpu Ht Hp) as Hke.
  assert (Hst : forall t', t' ∈ l ++ r -> proper st0 (th_call t') /\
    at_point (do_store o (instruction o (look o st) p).1 st) (th_call t') (th_at t')).
  { intros t' Hel. assert (Hb : proper st0 (th_call t') /\ at_point st (th_call t') (th_at t')).
    { apply (proj1 (Forall_forall _ _) Hin). set_solver. }
    split; [apply Hb|]. apply (at_point_stable st0); try tauto. by apply (proj1 (Forall_forall _ _) Hmid). }
  destruct (instruction o (look o st) p) as [s p'] eqn:Ei. cbn [fst snd] in *.
  constructor; cbn; [done| | |].
  - rewrite Forall_app, Forall_cons. split_and!; cbn; try done; apply Forall_forall; intros t' Hel; apply Hst; set_solver.
  - rewrite fmap_app, fmap_cons in *. done.
  - intros cpu Hc Hno. rewrite Forall_app, Forall_cons in Hno. destruct Hno as (Hnl & Hno & Hnr). cbn in Hno.
    apply Hke; [done|]. apply Hex; [done|]. by rewrite Forall_app, Forall_cons.
Qed.

Lemma accounted_begin st0 st ts h ans i o :
  accounted st0 (System st ts h ans) -> Forall (fun t => may_overlap (th_call t) o) ts -> proper st0 o ->
  accounted st0 (System st (ts ++ [Thread i o (entry o)]) (h ++ [(i, o)]) ans).
Proof.
  intros [Ht Hin Hov Hex] Hmay Hp. cbn in Ht, Hin, Hov, Hex. constructor; cbn; [done| | |].
  - rewrite Forall_app, Forall_singleton. split; [done|]. split; [done|]. cbn. apply entry_at_point. intros cpu Ec.
    apply Hex; [destruct o; cbn in Ec; simplify_eq; apply Hp|]. eapply Forall_impl; [exact Hmay|].
    intros t [[Hc|Hc] _]; congruence.
  - rewrite fmap_app. apply StronglySorted_app_2; [|done|by repeat constructor].
    intros a b (t & -> & Hel)%list_elem_of_fmap ->%list_elem_of_singleton. by apply (proj1 (Forall_forall _ _) Hmay).
  - intros cpu Hc [Hno _]%Forall_app. by apply Hex.
Qed.

Lemma accounted_return st0 st l i o a r h ans :
  accounted st0 (System st (l ++ Thread i o (Finished a) :: r) h ans) -> accounted st0 (System st (l ++ r) h (ans ++ [(i, a)])).
Proof.
  intros [Ht Hin Hov Hex]. cbn in Ht, Hin, Hov, Hex. rewrite Forall_app, Forall_cons in Hin. destruct Hin as (Hl & [Hp Hat] & Hr).
  constructor; cbn; [done|by rewrite Forall_app| |].
  - rewrite fmap_app, fmap_cons in Hov. rewrite fmap_app. by eapply overlap_without.
  - intros cpu Hc [Hnl Hnr]%Forall_app. destruct (decide (call_cpu o = Some cpu)) as [E|E]; [by eapply finished_exact|].
    apply Hex; [done|]. by rewrite Forall_app, Forall_cons.
Qed.

Lemma accounted_run st0 s :
  accounted st0 (idle st0) -> rtc (sys_step may_overlap) (idle st0) s -> Forall (fun p => proper st0 p.2) (history s) ->
  accounted st0 s.
Proof.
  intros H0. revert s. refine (rtc_ind_r (fun s => Forall (fun p => proper st0 p.2) (history s) -> accounted st0 s) _ _ _); [done|].
  intros s1 s2 _ Hs IH Hh.
  destruct Hs as [st ts h ans i o Hmay|st l t r h ans|st l i o a r h ans]; cbn in Hh, IH.
  - apply Forall_app in Hh as [Hh Ho]. apply Forall_cons in Ho as [Ho _]. apply accounted_begin; [by apply IH|done|exact Ho].
  - by apply accounted_instruction, IH.
  - eapply accounted_return, IH, Hh.
Qed.

(** What holds when a call has done its work, before it returns. *)
Definition served (st : bpf_state) (o : call) (a : option bool) : Prop :=
  match o with
  | MarkRunnable pid cpu => exact st cpu /\ exists m, task_meta_map st !! pid = Some m /\ runnable_on cpu m
  | MarkNotRunnable pid cpu => exact st cpu /\ exists m, task_meta_map st !! pid = Some m /\ tt_runnable m = 0
  | TestActive cpu now => exists b, a = Some b /\ (b = true <-> exists pid m, task_meta_map st !! pid = Some m /\ runnable_on cpu m)
  | Replenish key now => True
  | Charge key now => forall c, cbs_map st !! key = Some c -> exec_start_ns c <= 0
  end.

Lemma count_zero_iff st cpu :
  tt_count st cpu <> 0 <-> exists pid m, task_meta_map st !! pid = Some m /\ runnable_on cpu m.
Proof.
  unfold tt_count. rewrite map_count_zero. split.
  - intros Hne. apply dec_stable. intros Hno. apply Hne. intros k v Hk Hv. eauto.
  - intros (pid & m & Hm & Hr) Hall. by apply (Hall pid m).
Qed.

Lemma finished_served st0 st o a :
  tables st0 st -> proper st0 o -> at_point st o (Finished a) -> served st o a.
Proof.
  intros Ht Hp Hat. destruct o as [pid c|pid c|c now|key now|key now]; cbn in Hat |- *; [..|done|done].
  1-2: destruct (proper_task _ _ _ pid c Ht Hp eq_refl eq_refl) as (m & Em & Ha & _); destruct Hat as [Hex Hm];
    (split; [done|]); exists m; (split; [done|]); unfold marked in Hm; rewrite Em in Hm; injection Hm as Hm;
    unfold runnable_on; by destruct (Z.eqb_spec (tt_runnable m) 0).
  destruct Hat as [_ ->]. eexists. split; [done|]. by rewrite negb_true_iff, Z.eqb_neq, count_zero_iff.
Qed.

(** The accounts of a state in which no call is inside. *)
Lemma accounted_inv st0 st : tables st0 st -> (forall cpu, cpu_ok cpu -> exact st cpu) -> tt_inv st.
Proof. intros [] Hex. constructor; try done; intros cpu Hc; by apply Hex. Qed.

Lemma accounted_idle st0 :
  tt_inv st0 -> map_Forall (fun _ c => 0 <= remaining_us c <= budget_us c) (cbs_map st0) -> accounted st0 (idle st0).
Proof.
  intros [Hl1 Hl2 Hsz Hm Hc Hu] Hs. constructor; cbn; [|done|constructor|by split; auto].
  constructor; try done. intros key c Ec. exists c. split_and!; [done|done|apply (Hs _ _ Ec)..].
Qed.

(** C3. The accounts survive the overlap that the kernel allows.  Calls of the
    helpers overlap instruction by instruction on any number of CPUs; each
    marking concerns the CPU of the task's entry, no two calls for one CPU's
    accounts overlap (its run-queue lock), no two charges of one server overlap
    (its task runs on one CPU at a time), and nothing else is excluded: any
    number of calls refill the same server at once, also while it is charged.
    Then at every moment the count of each CPU for which no call is inside is
    the number of its tasks that are marked runnable and its active-until mark
    is set exactly when there is one, whatever the calls for other CPUs are
    doing; a call that has done its work has set or cleared the mark of its
    task, and a test has answered whether the CPU has a runnable task; every
    server keeps its definition and never holds more than its budget; and once
    all calls have returned the invariant of BpfSched holds again. *)
Theorem accounts_survive_overlap st0 s :
  tt_inv st0 -> map_Forall (fun _ c => 0 <= remaining_us c <= budget_us c) (cbs_map st0) ->
  rtc (sys_step may_overlap) (idle st0) s -> Forall (fun p => proper st0 p.2) (history s) ->
  (forall cpu, cpu_ok cpu -> Forall (fun t => call_cpu (th_call t) <> Some cpu) (inside s) -> exact (shared s) cpu) /\
  (forall i o a, Thread i o (Finished a) ∈ inside s -> served (shared s) o a) /\
  map_Forall (sound_server st0) (cbs_map (shared s)) /\
  (inside s = [] -> tt_inv (shared s)).
Proof.
  intros Hinv Hs Hr Hh. destruct (accounted_run st0 s (accounted_idle st0 Hinv Hs) Hr Hh) as [Ht Hin _ Hex]. split_and!.
  - done.
  - intros i o a Hel. destruct (proj1 (Forall_forall _ _) Hin _ Hel) as [Hp Hat]. by apply (finished_served st0).
  - by apply (tab_servers _ _ Ht).
  - intros E. apply (accounted_inv st0); [done|]. intros cpu Hc. apply Hex; [done|]. by rewrite E.
Qed.


(** ** A call alone has the effect of its function *)

(** How many instructions are left. *)
Definition left_at (p : point) : nat :=
  match p with
  | RunTest => 5 | RunLoad => 4 | RunStore _ => 3 | RunMeta => 2 | RunUntil => 1
  | StopTest => 7 | StopTestCount => 6 | StopLoad => 5 | StopStore _ => 4 | StopMeta => 3 | StopReload => 2 | StopUntil => 1
  | AskCount => 2 | AskUntil => 1
  | DuePeriod => 8 | DueTest => 7 | DueNs => 6 | DueElapsed _ => 5 | DueBudget _ => 4 | DueStore _ _ => 3 | DueLoad _ => 2
  | DueNext _ => 1
  | RanTest => 6 | RanElapsed => 5 | RanCompare _ => 4 | RanLoad _ => 3 | RanStore _ => 2 | RanStart => 1
  | Finished _ => 0
  end.

Definition answer_at (p : point) : option bool := match p with Finished a => a | _ => None end.

Fixpoint run_alone (fuel : nat) (st : bpf_state) (t : thread) : bpf_state * thread :=
  match fuel with O => (st, t) | S fuel => let '(st, t) := step_thread st t in run_alone fuel st t end.

(** The thread to its end: eight instructions are enough. *)
Definition to_end (st : bpf_state) (t : thread) : bpf_state * thread := run_alone 8 st t.

Lemma step_thread_left st t : (left_at (th_at (step_thread st t).2) <= pred (left_at (th_at t)))%nat.
Proof.
  unfold step_thread. destruct t as [i o p]. cbn [th_call th_at]. generalize (look o st) as v. intros v.
  destruct p; cbn [instruction]; unfold of_server; repeat case_match; simplify_eq; cbn; lia.
Qed.

Lemma step_thread_finished st t : left_at (th_at t) = 0%nat -> step_thread st t = (st, t).
Proof. destruct t as [i o []]; cbn; try discriminate. done. Qed.

Lemma run_alone_finished fuel st t : left_at (th_at t) = 0%nat -> run_alone fuel st t = (st, t).
Proof. intros H. induction fuel as [|fuel IH]; [done|]. cbn [run_alone]. by rewrite step_thread_finished. Qed.

Lemma run_alone_more fuel st t k : (left_at (th_at t) <= fuel)%nat -> run_alone (fuel + k) st t = run_alone fuel st t.
Proof.
  revert st t. induction fuel as [|fuel IH]; intros st t Hl.
  { apply run_alone_finished. lia. }
  cbn [Nat.add run_alone]. pose proof (step_thread_left st t) as Hs. destruct (step_thread st t) as [st' t'].
  apply IH. cbn [snd] in Hs. lia.
Qed.

Lemma to_end_step st t : to_end (step_thread st t).1 (step_thread st t).2 = to_end st t.
Proof.
  assert (Hl : (left_at (th_at t) <= 8)%nat) by (destruct t as [i o []]; cbn; lia).
  unfold to_end. rewrite <- (run_alone_more 8 st t 1 Hl). cbn [Nat.add run_alone]. by destruct (step_thread st t).
Qed.

Lemma to_end_finished st i o a : to_end st (Thread i o (Finished a)) = (st, Thread i o (Finished a)).
Proof. by apply run_alone_finished. Qed.

Lemma array_load_store (m : list Z) c v x : array_lookup m c = Some x -> array_lookup (array_store m c v) c = Some v.
Proof.
  unfold array_lookup, array_store. destruct (c <? 0); [done|]. intros H%lookup_lt_Some. by apply list_lookup_insert_eq.
Qed.
Lemma array_no_store (m : list Z) c v : array_lookup m c = None -> array_store m c v = m.
Proof.
  unfold array_lookup, array_store. destruct (c <? 0); [done|]. intros H%lookup_ge_None. by apply list_insert_ge.
Qed.

Lemma run_alone_S fuel st i o p :
  run_alone (S fuel) st (Thread i o p) =
  run_alone fuel (do_store o (instruction o (look o st) p).1 st) (Thread i o (instruction o (look o st) p).2).
Proof. cbn [run_alone]. unfold step_thread. cbn [th_call th_at th_id]. by destruct (instruction _ _ _). Qed.

(** The next instruction of a thread that runs alone. *)
Ltac next_instruction := rewrite run_alone_S; cbn [instruction]; unfold of_server;
  cbn [instruction look v_count v_until v_meta v_server call_cpu call_pid
  call_key call_now mbind option_bind do_store fst snd with_counts with_task_meta with_active_until with_cbs_map put_meta
  tt_runnable_count_map tt_active_until_map task_meta_map cbs_map].

Lemma alone_atomic st i o :
  to_end st (Thread i o (entry o)) = ((atomically o st).1, Thread i o (Finished (atomically o st).2)).
Proof.
  unfold to_end. destruct o as [pid c|pid c|c now|key now|key now]; cbn [entry atomically fst snd].
  - next_instruction. destruct (task_meta_map st !! pid) as [m|] eqn:Em; [|by rewrite run_alone_finished].
    unfold mark_tt_runnable. cbn [fst snd do_store]. destruct (Z.eqb_spec (tt_runnable m) 0) as [Er|Er].
    + next_instruction. destruct (array_lookup (tt_runnable_count_map st) c) as [n|] eqn:Ec; cbn [do_store fst snd].
      * do 3 next_instruction. rewrite run_alone_finished by done. by rewrite (alter_some _ _ _ _ Em).
      * do 2 next_instruction. rewrite run_alone_finished by done. by rewrite (alter_some _ _ _ _ Em).
    + next_instruction. rewrite run_alone_finished by done. done.
  - next_instruction. destruct (task_meta_map st !! pid) as [m|] eqn:Em; [|by rewrite run_alone_finished].
    unfold mark_tt_not_runnable. cbn [fst snd do_store]. destruct (Z.eqb_spec (tt_runnable m) 0) as [Er|Er].
    { by rewrite run_alone_finished. }
    next_instruction. destruct (array_lookup (tt_runnable_count_map st) c) as [n|] eqn:Ec; cbn [do_store fst snd].
    + destruct (0 <? n) eqn:En; cbn [do_store fst snd].
      * next_instruction. rewrite Ec. cbn [do_store fst snd]. do 3 next_instruction. rewrite (array_load_store _ _ _ _ Ec). cbn [fst snd].
        rewrite (alter_some _ _ _ _ Em).
        destruct (u32 (n - 1) =? 0); [next_instruction|]; by rewrite run_alone_finished.
      * do 2 next_instruction. rewrite Ec, (alter_some _ _ _ _ Em). destruct (n =? 0); [next_instruction|]; by rewrite run_alone_finished.
    + do 2 next_instruction. rewrite Ec, (alter_some _ _ _ _ Em). next_instruction. by rewrite run_alone_finished.
  - next_instruction. unfold tt_active_on_cpu. destruct (array_lookup (tt_runnable_count_map st) c) as [n|]; [destruct (0 <? n)|];
      cbn [do_store fst snd]; first [by rewrite run_alone_finished | next_instruction; by rewrite run_alone_finished].
  - next_instruction. unfold cbs_lazy_replenish. destruct (cbs_map st !! key) as [c|] eqn:Ec; cbn [fst snd do_store];
      [|by rewrite run_alone_finished].
    assert (Hid : put_cbs st key c = st) by (unfold put_cbs; rewrite insert_id by done; by destruct st).
    destruct (period_us c =? 0); cbn [orb]; [by rewrite run_alone_finished, Hid|].
    next_instruction. rewrite Ec. cbn [fst snd do_store].
    destruct (now <? replenish_at_ns c); [by rewrite run_alone_finished, Hid|].
    do 3 (next_instruction; rewrite Ec; cbn [fst snd do_store]).
    next_instruction. rewrite (alter_some _ _ _ _ Ec). next_instruction. rewrite lookup_insert_eq. cbn [fst snd do_store].
    next_instruction. rewrite (alter_some _ _ _ _ (lookup_insert_eq _ _ _)), insert_insert_eq.
    rewrite run_alone_finished by done. done.
  - next_instruction. destruct (cbs_map st !! key) as [c|] eqn:Ec; cbn [fst snd do_store]; [|by rewrite run_alone_finished].
    destruct (0 <? exec_start_ns c); [|by rewrite run_alone_finished].
    do 2 (next_instruction; rewrite Ec; cbn [fst snd do_store]). unfold charge. cbv zeta. set (e := u32 _).
    destruct (remaining_us c <=? e); [|next_instruction; rewrite Ec; cbn [fst snd do_store]];
      next_instruction; rewrite (alter_some _ _ _ _ Ec); next_instruction;
      rewrite (alter_some _ _ _ _ (lookup_insert_eq _ _ _)), insert_insert_eq, run_alone_finished by done; done.
Qed.

(** ** Instructions of calls that may overlap commute *)

#[export] Instance apart_sym : Symmetric apart.
Proof. intros a b (Hc & Hp & Hk). split_and!; by apply other_sym. Qed.

Lemma array_store_comm (m : list Z) c c' v v' :
  c <> c' -> array_store (array_store m c v) c' v' = array_store (array_store m c' v') c v.
Proof.
  intros Hne. unfold array_store. destruct (Z.ltb_spec c 0), (Z.ltb_spec c' 0); try done.
  apply list_insert_insert_ne. lia.
Qed.

Lemma look_store a b s st : apart a b -> look b (do_store a s st) = look b st.
Proof.
  intros (Hc & Hp & Hk). unfold look. destruct s as [|v|v|v|v|v|v]; cbn [do_store]; [done|..].
  1-2: destruct (call_cpu a) as [ca|] eqn:Ea; [|done]; destruct (call_cpu b) as [cb|] eqn:Eb; [|done]; cbn;
    (rewrite array_lookup_other; [done|destruct Hc; congruence]).
  1: destruct (call_pid a) as [pa|] eqn:Ea; [|done]; destruct (call_pid b) as [pb|] eqn:Eb; [|done]; cbn;
    (rewrite lookup_alter_ne; [done|destruct Hp; congruence]).
  all: destruct (call_key a) as [ka|] eqn:Ea; [|done]; destruct (call_key b) as [kb|] eqn:Eb; [|done]; cbn;
    (rewrite lookup_alter_ne; [done|destruct Hk; congruence]).
Qed.

Lemma store_comm a b s s' st : apart a b -> do_store a s (do_store b s' st) = do_store b s' (do_store a s st).
Proof.
  intros (Hc & Hp & Hk). destruct s as [|v|v|v|v|v|v], s' as [|v'|v'|v'|v'|v'|v']; cbn [do_store]; try done;
    destruct (call_cpu a) as [ca|] eqn:Ea, (call_cpu b) as [cb|] eqn:Eb; try done;
    destruct (call_pid a) as [pa|] eqn:Epa, (call_pid b) as [pb|] eqn:Epb; try done;
    destruct (call_key a) as [ka|] eqn:Eka, (call_key b) as [kb|] eqn:Ekb; try done;
    unfold with_counts, with_active_until, with_task_meta, with_cbs_map; cbn; f_equal;
    first [apply array_store_comm; destruct Hc; congruence
          |apply alter_alter_ne; destruct Hp; congruence|apply alter_alter_ne; destruct Hk; congruence].
Qed.

Lemma step_comm st t t' :
  apart (th_call t) (th_call t') ->
  (step_thread (step_thread st t').1 t).2 = (step_thread st t).2 /\
  (step_thread (step_thread st t').1 t).1 = (step_thread (step_thread st t).1 t').1 /\
  (step_thread (step_thread st t).1 t').2 = (step_thread st t').2.
Proof.
  intros Ha. unfold step_thread.
  destruct (instruction (th_call t') (look (th_call t') st) (th_at t')) as [s' p'] eqn:E'.
  destruct (instruction (th_call t) (look (th_call t) st) (th_at t)) as [s p] eqn:E. cbn [fst snd].
  rewrite (look_store _ _ s' st (symmetry Ha)), (look_store _ _ s st Ha), E, E'. cbn [fst snd].
  split_and!; [done| |done]. by apply store_comm.
Qed.

Lemma step_thread_call st t : th_call (step_thread st t).2 = th_call t /\ th_id (step_thread st t).2 = th_id t.
Proof. unfold step_thread. by destruct (instruction _ _ _). Qed.

(** A thread that runs to its end commutes with an instruction of another. *)
Lemma run_alone_comm fuel st t t' :
  apart (th_call t) (th_call t') ->
  (step_thread (run_alone fuel st t).1 t').1 = (run_alone fuel (step_thread st t').1 t).1 /\
  (step_thread (run_alone fuel st t).1 t').2 = (step_thread st t').2 /\
  (run_alone fuel (step_thread st t').1 t).2 = (run_alone fuel st t).2.
Proof.
  revert st t. induction fuel as [|fuel IH]; intros st t Ha; [done|]. cbn [run_alone].
  destruct (step_comm st t t' Ha) as (H1 & H2 & H3). destruct (step_thread_call st t) as [Hc _].
  destruct (step_thread st t) as [st1 t1] eqn:E1. cbn [fst snd] in *.
  destruct (step_thread (step_thread st t').1 t) as [st2 t2] eqn:E2. cbn [fst snd] in *. subst t2 st2.
  destruct (IH st1 t1) as (I1 & I2 & I3); [by rewrite Hc|]. rewrite I1, I2, I3. split_and!; [done|done|done].
Qed.

(** ** The linear order of the calls *)

(** All threads to their ends, in the order in which they began. *)
Fixpoint complete (st : bpf_state) (ts : list thread) : bpf_state * list (nat * option bool) :=
  match ts with
  | [] => (st, [])
  | t :: ts =>
      let '(st, t) := to_end st t in
      let '(st, answers) := complete st ts in (st, (th_id t, answer_at (th_at t)) :: answers)
  end.

Lemma complete_app st l r :
  complete st (l ++ r) = ((complete (complete st l).1 r).1, (complete st l).2 ++ (complete (complete st l).1 r).2).
Proof.
  revert st. induction l as [|t l IH]; intros st; [cbn; by destruct (complete st r)|]. cbn [app complete].
  destruct (to_end st t) as [st1 t1]. rewrite IH. destruct (complete st1 l) as [st2 as2]. done.
Qed.

(** An instruction of a thread that began after [l]. *)
Lemma complete_step st l t :
  Forall (fun t' => apart (th_call t') (th_call t)) l ->
  (complete (step_thread st t).1 l).1 = (step_thread (complete st l).1 t).1 /\
  (complete (step_thread st t).1 l).2 = (complete st l).2 /\
  (step_thread (complete st l).1 t).2 = (step_thread st t).2.
Proof.
  revert st. induction l as [|t' l IH]; intros st Hl; [done|]. apply Forall_cons in Hl as [Ht Hl]. cbn [complete].
  destruct (run_alone_comm 8 st t' t Ht) as (H1 & H2 & H3). fold (to_end st t') in H1, H2, H3.
  fold (to_end (step_thread st t).1 t') in H1, H3.
  destruct (to_end st t') as [st1 t1], (to_end (step_thread st t).1 t') as [st2 t2]. cbn [fst snd] in *. subst t2 st2.
  destruct (IH st1 Hl) as (I1 & I2 & I3).
  destruct (complete (step_thread st1 t).1 l) as [s1 a1], (complete st1 l) as [s2 a2]. cbn [fst snd] in *.
  split_and!; [exact I1|by rewrite I2|by etrans].
Qed.

Lemma sequentially_snoc calls i o st :
  sequentially (calls ++ [(i, o)]) st =
  ((atomically o (sequentially calls st).1).1,
   (sequentially calls st).2 ++ [(i, (atomically o (sequentially calls st).1).2)]).
Proof.
  revert st. induction calls as [|[j c] calls IH]; intros st; cbn [app sequentially].
  - cbn. by destruct (atomically o st).
  - destruct (atomically c st) as [st1 a]. rewrite IH. destruct (sequentially calls st1). done.
Qed.

(** Completing the threads gives the calls one after the other. *)
Definition linear (st0 : bpf_state) (s : system) : Prop :=
  StronglySorted apart (th_call <$> inside s) /\
  (complete (shared s) (inside s)).1 = (sequentially (history s) st0).1 /\
  (sequentially (history s) st0).2 ≡ₚ answers s ++ (complete (shared s) (inside s)).2.

Lemma linear_instruction st0 st l t r h ans :
  linear st0 (System st (l ++ t :: r) h ans) ->
  linear st0 (System (step_thread st t).1 (l ++ (step_thread st t).2 :: r) h ans).
Proof.
  intros (Hap & Hst & Hans). unfold linear in *. cbn [shared inside history answers] in *.
  destruct (step_thread_call st t) as [Hc Hid].
  assert (El : Forall (fun t' => apart (th_call t') (th_call t)) l).
  { apply Forall_forall. intros t' Ht. rewrite fmap_app, fmap_cons in Hap.
    apply (StronglySorted_app_1_elem_of _ _ _ _ _ Hap); [by apply list_elem_of_fmap_2|by left]. }
  destruct (complete_step st l t El) as (H1 & H2 & H3).
  assert (E : complete (step_thread st t).1 (l ++ (step_thread st t).2 :: r) = complete st (l ++ t :: r)).
  { rewrite !complete_app, H1, H2. cbn [complete]. rewrite <- H3. rewrite to_end_step. done. }
  rewrite E. split_and!; [|done|done]. rewrite fmap_app, fmap_cons in *. by rewrite Hc.
Qed.

Lemma linear_step st0 s s' : sys_step apart s s' -> linear st0 s -> linear st0 s'.
Proof.
  intros [st ts h ans i o Hap|st l t r h ans|st l i o a r h ans] Hl; [|by apply linear_instruction|].
  - destruct Hl as (Hs & Hst & Hans). unfold linear in *. cbn [shared inside history answers] in *. split_and!.
    + rewrite fmap_app. apply StronglySorted_app_2; [|done|by repeat constructor].
      intros a b (t & -> & Ht)%list_elem_of_fmap ->%list_elem_of_singleton. by apply (proj1 (Forall_forall _ _) Hap).
    + rewrite complete_app, sequentially_snoc. cbn [complete fst snd]. rewrite alone_atomic. cbn. by rewrite Hst.
    + rewrite complete_app, sequentially_snoc. cbn [complete fst snd]. rewrite alone_atomic. cbn. by rewrite Hst, Hans, app_assoc.
  - destruct Hl as (Hs & Hst & Hans). unfold linear in *. cbn [shared inside history answers] in *.
    rewrite complete_app in Hst, Hans. cbn [complete] in Hst, Hans. rewrite to_end_finished in Hst, Hans.
    rewrite complete_app. destruct (complete st l) as [st1 a1]. cbn [fst snd] in *.
    destruct (complete st1 r) as [st2 a2]. cbn [fst snd th_id th_at answer_at] in *. split_and!; [|done|].
    + rewrite fmap_app in *. cbn in Hs. clear -Hs. apply StronglySorted_app in Hs as (Hlr & Hl & Hr).
      apply StronglySorted_cons in Hr as [_ Hr]. apply StronglySorted_app_2; [|done|done].
      intros a b Ha Hb. apply Hlr; [done|by right].
    + rewrite Hans. rewrite <- app_assoc. apply Permutation_app_head. cbn [app]. by rewrite Permutation_middle.
Qed.

(** Calls of which none begins while one for its CPU, its task or its server is
    inside touch disjoint parts of the maps.  Once all have returned, the maps
    and every answer are those of the atomic functions in the order in which
    the calls began; and at any moment, completing the calls that are inside
    leads there. *)
Lemma apart_linearizable st0 s :
  rtc (sys_step apart) (idle st0) s ->
  (complete (shared s) (inside s)).1 = (sequentially (history s) st0).1 /\
  (inside s = [] -> shared s = (sequentially (history s) st0).1 /\ answers s ≡ₚ (sequentially (history s) st0).2).
Proof.
  intros Hr. assert (Hl : linear st0 s).
  { remember (idle st0) as s0. assert (H0 : linear st0 s0) by (subst s0; repeat split; constructor). clear Heqs0.
    induction Hr as [s|s1 s2 s3 Hs _ IH]; [done|]. apply IH. by eapply linear_step. }
  destruct Hl as (_ & Hst & Hans). split; [exact Hst|]. intros E. rewrite E in Hst, Hans. cbn in Hst, Hans.
  split; [exact Hst|]. by rewrite Hans, app_nil_r.
Qed.

(** ** Runs *)

Section Runs.
Context (may : call -> call -> Prop) `{!RelDecision may}.

(** A schedule: calls begin, the thread at a position goes on or returns. *)
Inductive move := Begin (i : nat) (o : call) | Next (k : nat) | Return (k : nat).

Definition do_move (s : system) (m : move) : option system :=
  let '(System st ts h ans) := s in
  match m with
  | Begin i o =>
      if decide (Forall (fun t => may (th_call t) o) ts)
      then Some (System st (ts ++ [Thread i o (entry o)]) (h ++ [(i, o)]) ans) else None
  | Next k =>
      t ← ts !! k; Some (System (step_thread st t).1 (take k ts ++ (step_thread st t).2 :: drop (S k) ts) h ans)
  | Return k =>
      t ← ts !! k;
      match th_at t with
      | Finished a => Some (System st (take k ts ++ drop (S k) ts) h (ans ++ [(th_id t, a)]))
      | _ => None
      end
  end.
Definition schedule (s : system) (ms : list move) : option system := fold_opt do_move s ms.

Lemma do_move_step s m s' : do_move s m = Some s' -> sys_step may s s'.
Proof.
  destruct s as [st ts h ans], m as [i o|k|k]; cbn [do_move].
  - case_decide; [|done]. intros [= <-]. by apply sys_begin.
  - intros (t & Ht & [= <-])%bind_Some. rewrite <- (take_drop_middle ts k t Ht) at 1. apply sys_instruction.
  - intros (t & Ht & E)%bind_Some. destruct t as [i o []]; cbn [th_at th_id] in E; try discriminate.
    injection E as <-. rewrite <- (take_drop_middle ts k _ Ht) at 1. apply sys_return.
Qed.

Lemma schedule_reaches s ms s' : schedule s ms = Some s' -> rtc (sys_step may) s s'.
Proof.
  revert s. induction ms as [|m ms IH]; intros s; cbn [schedule fold_opt]; [by intros [= <-]|].
  destruct (do_move s m) as [s1|] eqn:E; cbn [mbind option_bind]; [|done]. intros H. apply rtc_l with s1; [by eapply do_move_step|].
  by apply IH.
Qed.

End Runs.

(** Two tasks of CPU 2, one of CPU 3, and an empty server of 1000us in 10ms
    that was to be refilled at 10ms. *)
Definition empty_server : CbsState := set_server sporadic_server 0 0 10000000.
Definition three_tasks : bpf_state :=
  with_cbs_map (with_task_meta (bpf_load 12) {[ 41 := tt_task 2; 42 := tt_task 2; 43 := tt_task 3 ]}) {[ 7 := empty_server ]}.
Definition two_cpus : option system :=
  schedule apart (idle three_tasks)
    [Begin 0 (MarkRunnable 41 2); Begin 1 (MarkRunnable 43 3); Next 0; Next 1; Next 1; Next 0; Begin 2 (Replenish 7 10000500);
     Next 2; Next 1; Next 2; Next 0; Next 0; Next 2; Next 1; Next 2; Next 1; Next 0; Return 1; Next 1; Begin 3 (TestActive 3 7);
     Next 1; Next 1; Return 0; Next 1; Next 0; Next 1; Return 0; Return 0].
Definition two_cpus_calls : list (nat * call) :=
  [(0%nat, MarkRunnable 41 2); (1%nat, MarkRunnable 43 3); (2%nat, Replenish 7 10000500); (3%nat, TestActive 3 7)].

Lemma two_cpus_run : exists s, two_cpus = Some s /\ inside s = [] /\ history s = two_cpus_calls /\
  answers s = [(1%nat, None); (0%nat, None); (2%nat, None); (3%nat, Some true)].
Proof. apply evaluated. vm_compute. repeat split. Qed.

Lemma two_cpus_linear :
  exists s, two_cpus = Some s /\ shared s = (sequentially two_cpus_calls three_tasks).1 /\
    answers s ≡ₚ (sequentially two_cpus_calls three_tasks).2.
Proof.
  destruct two_cpus_run as (s & E & Hin & Hh & _). exists s. split; [exact E|].
  apply schedule_reaches in E. rewrite <- Hh. exact (proj2 (apart_linearizable three_tasks s E) Hin).
Qed.

(** The same tasks, and the server with 400us left while its task runs: two CPUs
    refill it at once, the second while it is charged, as two tasks become
    runnable and the CPU of one looks for TT work. *)
Definition running_server : CbsState := set_server sporadic_server 400 9000000 10000000.
Definition busy : bpf_state := with_cbs_map three_tasks {[ 7 := running_server ]}.
Definition overlapping : list move :=
    [Begin 0 (MarkRunnable 41 2); Begin 1 (MarkRunnable 43 3); Begin 2 (Replenish 7 10000500); Begin 3 (Replenish 7 10000600);
     Next 0; Next 1; Next 2; Next 3; Next 0; Next 1; Next 2; Next 3; Next 0; Next 1; Next 2; Next 3; Next 0; Next 1; Next 2; Next 3;
     Next 0; Next 1; Next 2; Next 3; Return 1; Return 0; Begin 4 (Charge 7 9300000); Begin 5 (TestActive 3 7);
     Next 0; Next 2; Next 2; Next 0; Next 2; Next 2; Next 1; Next 2; Next 0; Next 3; Next 2].

Definition overlapping_calls : list (nat * call) :=
  [(0%nat, MarkRunnable 41 2); (1%nat, MarkRunnable 43 3); (2%nat, Replenish 7 10000500); (3%nat, Replenish 7 10000600);
   (4%nat, Charge 7 9300000); (5%nat, TestActive 3 7)].
Lemma overlapping_run : exists s, schedule may_overlap (idle busy) overlapping = Some s /\ history s = overlapping_calls /\
  inside s = [Thread 2 (Replenish 7 10000500) (Finished None); Thread 3 (Replenish 7 10000600) (DueLoad 10000000);
              Thread 4 (Charge 7 9300000) (Finished None); Thread 5 (TestActive 3 7) (Finished (Some true))] /\
  (remaining_us <$> cbs_map (shared s) !! 7) = Some 700.
Proof. apply evaluated. vm_compute. repeat split. Qed.

Lemma overlapping_proper : Forall (fun p => proper busy p.2) overlapping_calls.
Proof.
  assert (H2 : cpu_ok 2) by (vm_compute; split; congruence). assert (H3 : cpu_ok 3) by (vm_compute; split; congruence).
  unfold overlapping_calls. rewrite !Forall_cons. cbn [proper snd]. split_and!; try exact I; try exact H2; try exact H3.
  - exists (tt_task 2). split_and!; vm_compute; reflexivity.
  - exists (tt_task 3). split_and!; vm_compute; reflexivity.
  - constructor.
Qed.

Lemma busy_inv : tt_inv busy.
Proof.
  apply (tt_inv_other_maps three_tasks); [done..|]. apply tt_inv_other_maps with (with_task_meta (bpf_load 12) (task_meta_map three_tasks)); [done..|].
  assert (Hi : map_Forall (fun _ m => tt_runnable m = 0 /\ 0 <= assigned_cpu m) (task_meta_map three_tasks)).
  { apply (bool_decide_unpack _). vm_compute. done. }
  apply tt_inv_user_map; [apply bpf_load_inv|vm_compute; lia| |].
  - intros pid m Em. destruct (Hi _ _ Em) as [Hr Ha]. split; [done|]. congruence.
  - intros cpu. trans 0; [|done]. apply map_count_zero. intros pid m Em [Hr _]. by destruct (Hi _ _ Em).
Qed.

Lemma busy_budgets : map_Forall (fun _ c => 0 <= remaining_us c <= budget_us c) (cbs_map busy).
Proof. intros k c. cbn. intros [<- <-]%lookup_singleton_Some. vm_compute. split; congruence. Qed.
Lemma cpu_2_ok : cpu_ok 2.
Proof. vm_compute. split; congruence. Qed.

Lemma accounts_survive_overlap_witness :
  exists s, schedule may_overlap (idle busy) overlapping = Some s /\ exact (shared s) 2 /\ served (shared s) (TestActive 3 7) (Some true) /\
    map_Forall (sound_server busy) (cbs_map (shared s)).
Proof.
  destruct overlapping_run as (s & E & Hh & Hin & _). exists s. split; [exact E|].
  destruct (accounts_survive_overlap busy s) as (Hex & Hsv & Hs & _);
    [exact busy_inv|exact busy_budgets|exact (schedule_reaches may_overlap _ _ _ E)|rewrite Hh; exact overlapping_proper|].
  split_and!; [apply (Hex _ cpu_2_ok); rewrite Hin; repeat constructor; discriminate| |exact Hs].
  apply (Hsv 5%nat). rewrite Hin. do 3 right. by left.
Defined.

(** Two tasks of one CPU become runnable at once, on two other CPUs, as when
    both are handed to the scheduler where they run: both load the same count,
    one store is lost.  When the first of them stops, the count is 0 and the
    CPU counts as free for CBS work while the other still has its slot. *)
Definition race (st : bpf_state) (ts : list thread) (turns : list nat) : bpf_state * list thread :=
  foldl (fun (s : bpf_state * list thread) k =>
           match s.2 !! k with
           | Some t => let '(st, t) := step_thread s.1 t in (st, <[k := t]> s.2)
           | None => s
           end) (st, ts) turns.
Definition racing : bpf_state * list thread :=
  race three_tasks [Thread 0 (MarkRunnable 41 2) RunTest; Thread 1 (MarkRunnable 42 2) RunTest] [0; 0; 1; 1; 0; 1; 0; 1; 0; 1]%nat.
Lemma lost_count :
  th_at <$> racing.2 = [Finished None; Finished None] /\
  (tt_runnable <$> task_meta_map racing.1 !! 41) = Some 1 /\ (tt_runnable <$> task_meta_map racing.1 !! 42) = Some 1 /\
  array_lookup (tt_runnable_count_map racing.1) 2 = Some 1 /\
  (atomically (TestActive 2 7) (atomically (MarkNotRunnable 41 2) racing.1).1).2 = Some false.
Proof. vm_compute. done. Qed.

(** Two CPUs look for throttled tasks at once and find the same server due:
    both compute the step to the next replenishment before either has made it,
    and the server is refilled one period later than it should be.  (A compiler
    that keeps the value of the first load for the addition avoids this.) *)
Definition refilling : bpf_state * list thread :=
  race three_tasks [Thread 0 (Replenish 7 10000500) DuePeriod; Thread 1 (Replenish 7 10000600) DuePeriod]
    [0; 0; 0; 0; 1; 1; 1; 1; 0; 0; 0; 0; 1; 1; 1; 1]%nat.
Lemma replenished_twice :
  th_at <$> refilling.2 = [Finished None; Finished None] /\
  (replenish_at_ns <$> cbs_map refilling.1 !! 7) = Some 30000000 /\
  (replenish_at_ns <$> cbs_map (sequentially [(0%nat, Replenish 7 10000500); (1%nat, Replenish 7 10000600)] three_tasks).1 !! 7)
    = Some 20000000.
Proof. vm_compute. done. Qed.

(** A CPU that is held up between its test and its store refills the server
    once more, after the budget of the period was spent. *)
Definition held_up : bpf_state * list thread :=
  let '(st, ts) := race three_tasks [Thread 0 (Replenish 7 10000500) DuePeriod; Thread 1 (Replenish 7 10000600) DuePeriod]
    [0; 0; 0; 0; 0; 1; 1; 1; 1; 1; 1; 1; 1]%nat in
  let spent := with_cbs_map st (alter (set_remaining 0) 7 (cbs_map st)) in
  race spent ts [0; 0; 0]%nat.
Lemma refilled_again :
  th_at <$> held_up.2 = [Finished None; Finished None] /\ (remaining_us <$> cbs_map held_up.1 !! 7) = Some 1000.
Proof. vm_compute. done. Qed.
