(* ===== verification/BpfLoader.v ===== *)
(** * timpani-n/src/bpf_loader.cpp: loading the scheduler and writing its maps

    The isolated CPUs are read from cgroup files, given as texts; the BPF
    program is a [bpf_state] once it is loaded.  The skeleton functions and
    the map calls are libbpf's: whether opening, loading and attaching succeed
    is an argument, map calls are the helpers of BpfMaps.  An exception of
    the standard library ([stoi]) is [None]. *)
From Stdlib Require Import Ascii.
From stdpp Require Import prelude gmap strings list pretty.
From Stdlib Require Import ZArith Lia.
From S2P Require Import Prelude Text BpfMaps BpfSched.
Local Open Scope Z_scope.

(** ** CPU lists *)

(** The lambda [trim], which also removes line ends. *)
Definition is_blank_or_end (c : Ascii.ascii) : bool := is_blank c || (code c =? 13) || (code c =? 10).
Fixpoint ltrim_line (t : text) : text :=
  match t with [] => [] | c :: t' => if is_blank_or_end c then ltrim_line t' else t end.
Definition trim_line (t : text) : text := rev (ltrim_line (rev (ltrim_line t))).

Definition set_bit (mask c : Z) : Z := Z.lor mask (Z.shiftl 1 c).

(** [for (int c = lo; c <= hi && c < 64; c++)]: [lo] is not negative, so that
    64 turns are enough. *)
Fixpoint set_range (fuel : nat) (mask c hi : Z) : Z :=
  match fuel with
  | O => mask
  | S fuel => if (c <=? hi) && (c <? 64) then set_range fuel (set_bit mask c) (c + 1) hi else mask
  end.

Definition parse_token (mask : Z) (token : text) : option Z :=
  match trim_line token with
  | [] => Some mask
  | token =>
      match find "-"%char token with
      | None => cpu ← stoi token; Some (if (0 <=? cpu) && (cpu <? 64) then set_bit mask cpu else mask)
      | Some (a, b) => lo ← stoi a; hi ← stoi b; Some (set_range 64 mask lo hi)
      end
  end.

Definition parse_cpu_range_to_mask (range_str : text) : option Z :=
  foldl (fun m token => m ≫= fun mask => parse_token mask token) (Some 0) (getlines ","%char [] range_str).

(** ** Isolated CPUs *)

Definition NL : Ascii.ascii := Ascii.ascii_of_nat 10.

(** [read_file_line]: [None] is a file that cannot be opened. *)
Definition read_file_line (file : option text) : text :=
  match file with
  | None => []
  | Some t => default [] (head (filter (fun l => l <> []) (getlines NL [] t)))
  end.

(** A directory entry below /sys/fs/cgroup: its name, whether it is a
    directory, its cpuset files, and its entries when it can be opened. *)
Inductive cgroup := Cgroup {
  cg_name : text;
  cg_dir : bool;
  cpuset_cpus_partition : option text;
  cpuset_cpus_effective : option text;
  cpuset_cpus : option text;
  cg_entries : option (list cgroup);
}.

Definition isolated_text : text := chars "isolated".

(** The mask of one cgroup that is an isolated partition. *)
Definition partition_mask (g : cgroup) : option Z :=
  if bool_decide (read_file_line (cpuset_cpus_partition g) = isolated_text) then
    let eff := read_file_line (cpuset_cpus_effective g) in
    parse_cpu_range_to_mask (match eff with [] => read_file_line (cpuset_cpus g) | _ => eff end)
  else Some 0.

Definition hidden (g : cgroup) : bool :=
  match cg_name g with c :: _ => code c =? 46 | [] => false end.

(** [scan_cgroup_tree_for_isolated] on the entries of a directory. *)
Fixpoint scan_entry (g : cgroup) : option Z :=
  if hidden g || negb (cg_dir g) then Some 0 else
  own ← partition_mask g;
  below ← match cg_entries g with
          | None => Some 0
          | Some es => foldl (fun m e => mask ← m; x ← scan_entry e; Some (Z.lor mask x)) (Some 0) es
          end;
  Some (Z.lor own below).
Definition scan_cgroup_tree_for_isolated (entries : option (list cgroup)) : option Z :=
  match entries with
  | None => Some 0
  | Some es => foldl (fun m e => mask ← m; x ← scan_entry e; Some (Z.lor mask x)) (Some 0) es
  end.

(** [knob] is /sys/fs/cgroup/cpuset.cpus.isolated. *)
Definition detect_isolated_cpu_mask (knob : option text) (root : option (list cgroup)) : option Z :=
  let val := read_file_line knob in
  match val with
  | [] => scan_cgroup_tree_for_isolated root
  | _ =>
      mask ← parse_cpu_range_to_mask val;
      if negb (mask =? 0) then Some mask else scan_cgroup_tree_for_isolated root
  end.

(** ** The loader *)

(** [skel_] is the state of the loaded program. *)
Record loader := Loader { active_map_idx_ : Z; skel_ : option bpf_state }.

Definition BpfLoader : loader := Loader 0 None.
Definition unload_programs (l : loader) : loader := Loader (active_map_idx_ l) None.

(** The answers of libbpf. *)
Record libbpf := LibBpf { open_ok : bool; load_ok : bool; attach_ok : bool }.

(** The result is [None] when detection throws. *)
Definition load_programs (knob : option text) (root : option (list cgroup)) (k : libbpf) (l : loader)
  : option (loader * bool) :=
  iso_mask ← detect_isolated_cpu_mask knob root;
  Some (if iso_mask =? 0 then (l, false)
        else if negb (open_ok k) then (Loader (active_map_idx_ l) None, false)
        else
          let l := Loader (active_map_idx_ l) (Some (bpf_load iso_mask)) in
          if negb (load_ok k) then (unload_programs l, false)
          else if negb (attach_ok k) then (unload_programs l, false)
          else (l, true)).

Definition TT_TABLE_MAP_ENTRIES : nat := 2048.
Definition CBS_MAP_ENTRIES : nat := 1024.
Definition TASK_META_MAP_ENTRIES : nat := 4096.

(** [if (!skel_) return false; return <map call> == 0]. *)
Definition on_skel (f : bpf_state -> bpf_state * Z) (l : loader) : loader * bool :=
  match skel_ l with
  | None => (l, false)
  | Some st => let '(st, r) := f st in (Loader (active_map_idx_ l) (Some st), r =? 0)
  end.

Definition with_tt_table (st : bpf_state) m : bpf_state :=
  {| isolated_cpu_mask := isolated_cpu_mask st; tt_table_map := m; cbs_map := cbs_map st;
     current_slot_map := current_slot_map st; tt_active_until_map := tt_active_until_map st;
     next_tt_start_map := next_tt_start_map st; tt_runnable_count_map := tt_runnable_count_map st;
     task_meta_map := task_meta_map st |}.
Definition with_current_slot (st : bpf_state) m : bpf_state :=
  {| isolated_cpu_mask := isolated_cpu_mask st; tt_table_map := tt_table_map st; cbs_map := cbs_map st;
     current_slot_map := m; tt_active_until_map := tt_active_until_map st;
     next_tt_start_map := next_tt_start_map st; tt_runnable_count_map := tt_runnable_count_map st;
     task_meta_map := task_meta_map st |}.
Definition with_next_tt_start (st : bpf_state) m : bpf_state :=
  {| isolated_cpu_mask := isolated_cpu_mask st; tt_table_map := tt_table_map st; cbs_map := cbs_map st;
     current_slot_map := current_slot_map st; tt_active_until_map := tt_active_until_map st;
     next_tt_start_map := m; tt_runnable_count_map := tt_runnable_count_map st;
     task_meta_map := task_meta_map st |}.

(** A call on a hash map inside the state, and on an array. *)
Definition at_map {A} (set : bpf_state -> A -> bpf_state) (st : bpf_state) (mr : A * Z) : bpf_state * Z :=
  (set st mr.1, mr.2).
Definition EINVAL : Z := 22.
Definition array_update (k v : Z) (m : list Z) : list Z * Z :=
  if (0 <=? k) && (k <? zlen m) then (array_store m k v, 0) else (m, - E2BIG).

Definition update_tt_slot (key : TtSlotKey) (slot : TtSlotBpf) : loader -> loader * bool :=
  on_skel (fun st => at_map with_tt_table st (hash_update TT_TABLE_MAP_ENTRIES key slot (tt_table_map st))).
Definition update_cbs_state (hash : Z) (state : CbsState) : loader -> loader * bool :=
  on_skel (fun st => at_map with_cbs_map st (hash_update CBS_MAP_ENTRIES hash state (cbs_map st))).
Definition update_task_meta (pid : Z) (meta : TaskMeta) : loader -> loader * bool :=
  on_skel (fun st => at_map with_task_meta st (hash_update TASK_META_MAP_ENTRIES pid meta (task_meta_map st))).
Definition delete_task_meta (pid : Z) : loader -> loader * bool :=
  on_skel (fun st => at_map with_task_meta st (hash_delete pid (task_meta_map st))).
Definition delete_tt_slot (key : TtSlotKey) : loader -> loader * bool :=
  on_skel (fun st => at_map with_tt_table st (hash_delete key (tt_table_map st))).
Definition delete_cbs_state (hash : Z) : loader -> loader * bool :=
  on_skel (fun st => at_map with_cbs_map st (hash_delete hash (cbs_map st))).
Definition update_current_slot (cpu slot_idx : Z) : loader -> loader * bool :=
  on_skel (fun st => at_map with_current_slot st (array_update cpu slot_idx (current_slot_map st))).
Definition update_next_tt_start (cpu next_start_ns : Z) : loader -> loader * bool :=
  on_skel (fun st => at_map with_next_tt_start st (array_update cpu next_start_ns (next_tt_start_map st))).

(** [fd] is the descriptor libbpf gave the ring buffer. *)
Definition get_fault_ringbuf_fd (fd : Z) (l : loader) : Z :=
  match skel_ l with None => -1 | Some _ => fd end.

Definition swap_shadow_maps (l : loader) : loader := Loader (1 - active_map_idx_ l) (skel_ l).
Definition get_active_map_idx (l : loader) : Z := active_map_idx_ l.
Definition get_shadow_map_idx (l : loader) : Z := 1 - active_map_idx_ l.
Definition apply_table_update (l : loader) : loader := swap_shadow_maps l.

(** ** CPU lists in the kernel's format *)

(** A range of CPUs, printed the way the kernel prints cpulists. *)
Definition range_text (r : Z * Z) : text :=
  if r.1 =? r.2 then chars (pretty r.1) else chars (pretty r.1) ++ "-"%char :: chars (pretty r.2).
Fixpoint list_text (rs : list (Z * Z)) : text :=
  match rs with
  | [] => []
  | [r] => range_text r
  | r :: rs => range_text r ++ ","%char :: list_text rs
  end.

Definition range_ok (r : Z * Z) : Prop := 0 <= r.1 <= r.2 /\ r.2 <= INT_MAX.
Definition in_ranges (rs : list (Z * Z)) (c : Z) : bool := existsb (fun r => (r.1 <=? c) && (c <=? r.2)) rs.

Lemma set_bit_spec mask c k : 0 <= c -> 0 <= k -> Z.testbit (set_bit mask c) k = Z.testbit mask k || (k =? c).
Proof.
  intros Hc Hk. unfold set_bit. rewrite Z.lor_spec, Z.shiftl_1_l, Z.pow2_bits_eqb by done.
  f_equal. apply Z.eqb_sym.
Qed.

Lemma set_bit_range mask c : 0 <= c < 64 -> uword 64 mask -> uword 64 (set_bit mask c).
Proof.
  intros Hc [Hm Hu]. unfold set_bit, uword. rewrite Z.shiftl_1_l.
  assert (0 <= Z.lor mask (2 ^ c)) by (apply Z.lor_nonneg; lia). split; [done|].
  destruct (Z.eq_dec (Z.lor mask (2 ^ c)) 0) as [->|]; [lia|].
  apply Z.log2_lt_pow2; [lia|]. rewrite Z.log2_lor, Z.log2_pow2 by lia.
  destruct (Z.eq_dec mask 0) as [->|]; [cbn; lia|].
  assert (Z.log2 mask < 64) by (apply Z.log2_lt_pow2; lia). lia.
Qed.

Lemma set_range_spec fuel mask c hi k :
  0 <= c -> 64 - c <= Z.of_nat fuel -> 0 <= k ->
  Z.testbit (set_range fuel mask c hi) k = Z.testbit mask k || ((c <=? k) && (k <=? hi) && (k <? 64)).
Proof.
  revert mask c. induction fuel as [|fuel IH]; intros mask c Hc Hf Hk; cbn [set_range].
  { destruct (Z.leb_spec c k), (Z.ltb_spec k 64); cbn; rewrite ?andb_false_r, ?orb_false_r; try done; lia. }
  destruct (Z.leb_spec c hi), (Z.ltb_spec c 64); cbn [andb].
  - rewrite IH, set_bit_spec by lia.
    destruct (Z.testbit mask k), (Z.eqb_spec k c), (Z.leb_spec (c + 1) k), (Z.leb_spec c k), (Z.leb_spec k hi),
      (Z.ltb_spec k 64); cbn; done || lia.
  - destruct (Z.leb_spec c k), (Z.ltb_spec k 64); cbn; rewrite ?andb_false_r, ?orb_false_r; try done; lia.
  - destruct (Z.leb_spec c k), (Z.leb_spec k hi); cbn; rewrite ?orb_false_r; try done; lia.
  - destruct (Z.leb_spec c k), (Z.leb_spec k hi); cbn; rewrite ?orb_false_r; try done; lia.
Qed.

Lemma set_range_range fuel mask c hi : 0 <= c -> uword 64 mask -> uword 64 (set_range fuel mask c hi).
Proof.
  revert mask c. induction fuel as [|fuel IH]; intros mask c Hc Hm; cbn [set_range]; [done|].
  destruct (Z.leb_spec c hi), (Z.ltb_spec c 64); cbn [andb]; try done.
  apply IH; [lia|]. by apply set_bit_range.
Qed.

(** *** Texts without blanks *)

Definition plain (t : text) : Prop := Forall (fun c => 45 <= code c <= 57) t.

Lemma ltrim_line_plain t : plain t -> ltrim_line t = t.
Proof.
  destruct 1 as [|c t Hc _]; [done|]. cbn [ltrim_line]. unfold is_blank_or_end, is_blank.
  by rewrite !(proj2 (Z.eqb_neq _ _)) by lia.
Qed.
Lemma trim_line_plain t : plain t -> trim_line t = t.
Proof.
  intros Ht. unfold trim_line. rewrite (ltrim_line_plain t) by done.
  rewrite ltrim_line_plain by (apply Forall_rev, Ht). apply rev_involutive.
Qed.

Lemma pretty_nonneg (n : Z) : 0 <= n -> all_digits (chars (pretty n)) /\ chars (pretty n) <> [].
Proof.
  intros Hn. replace (pretty n) with (pretty (Z.to_N n)); [by destruct (pretty_N_text (Z.to_N n)) as (? & ? & _)|].
  by destruct n.
Qed.
Lemma digits_codes t c : all_digits t -> c ∈ t -> 48 <= code c <= 57.
Proof. intros Ht Hc. eapply Forall_forall in Ht as [d Hd]; [|done]. by eapply digit_code. Qed.
Lemma pretty_plain (n : Z) : plain (chars (pretty n)).
Proof. apply pretty_codes. Qed.
Lemma pretty_no_dash (n : Z) : 0 <= n -> "-"%char ∉ chars (pretty n).
Proof.
  intros Hn Hin. destruct (pretty_nonneg n Hn) as [Hd _]. pose proof (digits_codes _ _ Hd Hin) as Hc.
  vm_compute in Hc. by destruct Hc as [[] _].
Qed.

Lemma range_plain r : plain (range_text r) /\ range_text r <> [].
Proof.
  unfold range_text. destruct (_ =? _).
  - split; [apply pretty_plain|apply pretty_codes].
  - split; [|by destruct (chars (pretty r.1))].
    apply Forall_app. split; [apply pretty_plain|]. constructor; [by vm_compute|apply pretty_plain].
Qed.
Lemma range_no_comma r : ","%char ∉ range_text r.
Proof.
  intros Hin. destruct (range_plain r) as [Hp _]. unfold plain in Hp. rewrite Forall_forall in Hp.
  specialize (Hp _ Hin). vm_compute in Hp. by destruct Hp as [[] _].
Qed.

Lemma find_none c t : c ∉ t -> find c t = None.
Proof.
  induction t as [|x t IH]; [done|]. intros [Hx Ht]%not_elem_of_cons. cbn [find].
  rewrite decide_False by done. by rewrite (IH Ht).
Qed.

(** One range sets its CPUs below 64. *)
Lemma parse_token_range mask r :
  range_ok r -> uword 64 mask ->
  exists mask', parse_token mask (range_text r) = Some mask' /\ uword 64 mask' /\
    forall k, 0 <= k -> Z.testbit mask' k = Z.testbit mask k || ((r.1 <=? k) && (k <=? r.2) && (k <? 64)).
Proof.
  destruct r as [lo hi]. intros [[H0 Hle] Hmax] Hm. cbn [fst snd] in *. unfold parse_token.
  destruct (range_plain (lo, hi)) as [Hp Hne]. rewrite trim_line_plain by done.
  destruct (range_text (lo, hi)) as [|c t] eqn:E; [done|]. rewrite <- E. clear Hp Hne.
  unfold range_text. cbn [fst snd].
  assert (Hint : forall n, 0 <= n <= hi -> stoi (chars (pretty n)) = Some n).
  { intros n Hn. apply stoi_pretty. unfold INT_MIN. lia. }
  destruct (Z.eqb_spec lo hi) as [<-|Hneq].
  - rewrite find_none by (by apply pretty_no_dash). rewrite Hint by lia. cbn [mbind option_bind].
    eexists. split; [done|]. destruct (Z.leb_spec 0 lo), (Z.ltb_spec lo 64); cbn [andb]; try lia.
    + split; [by apply set_bit_range|]. intros k Hk. rewrite set_bit_spec by done. f_equal.
      destruct (Z.eqb_spec k lo), (Z.leb_spec lo k), (Z.leb_spec k lo), (Z.ltb_spec k 64); cbn; done || lia.
    + split; [done|]. intros k Hk. destruct (Z.leb_spec lo k), (Z.leb_spec k lo), (Z.ltb_spec k 64); cbn;
        rewrite ?orb_false_r; done || lia.
  - rewrite find_app by (by apply pretty_no_dash). rewrite !Hint by lia. cbn [mbind option_bind].
    eexists. split; [done|]. split; [by apply set_range_range|]. intros k Hk.
    rewrite set_range_spec by lia. done.
Qed.

Lemma list_tokens rs : getlines ","%char [] (list_text rs) = range_text <$> rs.
Proof.
  induction rs as [|r [|r' rs] IH]; [done| |].
  - cbn [list_text fmap list_fmap]. rewrite getlines_last by apply range_no_comma. cbn [rev app].
    destruct (range_plain r) as [_ Hne]. by destruct (range_text r).
  - cbn [list_text]. rewrite getlines_line by apply range_no_comma. cbn [rev app].
    cbn [list_text] in IH. by rewrite IH.
Qed.

(** What the parser makes of a list in this format: CPU [k] is in the mask
    exactly when it is below 64 and in one of the ranges. *)
Definition mask_of (rs : list (Z * Z)) (mask : Z) : Prop :=
  uword 64 mask /\ forall k, 0 <= k -> Z.testbit mask k = in_ranges rs k && (k <? 64).

Lemma parse_ranges rs mask :
  Forall range_ok rs -> uword 64 mask ->
  exists mask', foldl (fun m token => m ≫= fun mask => parse_token mask token) (Some mask) (range_text <$> rs)
                = Some mask' /\ uword 64 mask' /\
    forall k, 0 <= k -> Z.testbit mask' k = Z.testbit mask k || (in_ranges rs k && (k <? 64)).
Proof.
  intros Hrs. revert mask. induction Hrs as [|r rs Hr Hrs IH]; intros mask Hm; cbn [fmap list_fmap foldl].
  { exists mask. split_and!; [done..|]. intros k _. by rewrite orb_false_r. }
  destruct (parse_token_range mask r Hr Hm) as (m1 & E & Hm1 & Hb1). cbn [mbind option_bind]. rewrite E.
  destruct (IH m1 Hm1) as (m2 & -> & Hm2 & Hb2). exists m2. split_and!; [done..|]. intros k Hk.
  rewrite Hb2, Hb1 by done. cbn [in_ranges existsb]. fold (in_ranges rs k).
  destruct (Z.testbit mask k), (_ && (k <=? r.2)), (in_ranges rs k), (k <? 64); done.
Qed.

Lemma parse_list rs :
  Forall range_ok rs -> exists mask, parse_cpu_range_to_mask (list_text rs) = Some mask /\ mask_of rs mask.
Proof.
  intros Hrs. unfold parse_cpu_range_to_mask. rewrite list_tokens.
  destruct (parse_ranges rs 0 Hrs) as (mask & -> & Hm & Hb); [done|]. exists mask. split; [done|]. split; [done|].
  intros k Hk. by rewrite Hb, Z.testbit_0_l.
Qed.

(** *** Files with one line *)

Definition line_file (t : text) : text := t ++ [NL].

Lemma read_line_file t : NL ∉ t -> read_file_line (Some (line_file t)) = t.
Proof.
  intros Ht. unfold read_file_line, line_file. rewrite getlines_line by done. cbn [rev app getlines].
  rewrite filter_cons, filter_nil. case_decide as E; [done|]. by subst t.
Qed.

Lemma list_text_no_nl rs : NL ∉ list_text rs.
Proof.
  assert (Hr : forall r, NL ∉ range_text r).
  { intros r Hin. destruct (range_plain r) as [Hp _]. unfold plain in Hp. rewrite Forall_forall in Hp.
    specialize (Hp _ Hin). vm_compute in Hp. by destruct Hp as [[] _]. }
  induction rs as [|r [|r' rs] IH]; [apply not_elem_of_nil|apply Hr|]. cbn [list_text] in *.
  rewrite elem_of_app, elem_of_cons. intros [H|[H|H]]; [by apply (Hr r)|by vm_compute in H|by apply IH].
Qed.

Lemma mask_zero rs mask : mask_of rs mask -> mask = 0 <-> forall k, 0 <= k < 64 -> in_ranges rs k = false.
Proof.
  intros [Hu Hm]. split.
  - intros -> k Hk. specialize (Hm k ltac:(lia)). rewrite Z.testbit_0_l, (proj2 (Z.ltb_lt _ _)), andb_true_r in Hm by lia.
    done.
  - intros H. apply Z.bits_inj_0. intros k. destruct (Z.ltb_spec k 0); [by apply Z.testbit_neg_r|].
    rewrite Hm by lia. destruct (Z.ltb_spec k 64); [|by rewrite andb_false_r]. by rewrite H.
Qed.

Lemma is_isolated_mask rs mask cpu :
  mask_of rs mask -> 0 <= cpu -> is_isolated (bpf_load mask) cpu = in_ranges rs cpu && (cpu <? 64).
Proof.
  intros [Hu Hm] Hc. unfold is_isolated. cbn [isolated_cpu_mask bpf_load]. rewrite <- Hm by done.
  destruct (Z.ltb_spec cpu 64); cbn [andb].
  2:{ rewrite Hm by done. destruct (Z.ltb_spec cpu 64); [lia|]. by rewrite andb_false_r. }
  rewrite Z.shiftl_1_l. destruct (Z.testbit mask cpu) eqn:E.
  - apply negb_true_iff, Z.eqb_neq. intros H0.
    assert (H1 : Z.testbit (Z.land mask (2 ^ cpu)) cpu = true) by (by rewrite Z.land_spec, E, Z.pow2_bits_true).
    by rewrite H0, Z.testbit_0_l in H1.
  - apply negb_false_iff, Z.eqb_eq, Z.bits_inj_0. intros k. rewrite Z.land_spec.
    destruct (Z.eq_dec k cpu) as [->|]; [by rewrite E|]. rewrite Z.pow2_bits_false by done. apply andb_false_r.
Qed.

(** ** Cgroup trees *)

(** A directory of the tree that is scanned, the children included. *)
Inductive visited : cgroup -> list cgroup -> Prop :=
  | visit_here g es : g ∈ es -> hidden g = false -> cg_dir g = true -> visited g es
  | visit_below g h es es' : h ∈ es -> hidden h = false -> cg_dir h = true -> cg_entries h = Some es' ->
      visited g es' -> visited g es.

(** The union the scan computes. *)
Lemma scan_fold es mask :
  (forall e, e ∈ es -> is_Some (scan_entry e)) ->
  exists m, foldl (fun m e => mask ← m; x ← scan_entry e; Some (Z.lor mask x)) (Some mask) es = Some m /\
    forall k, 0 <= k -> Z.testbit m k = true <->
      Z.testbit mask k = true \/ exists e x, e ∈ es /\ scan_entry e = Some x /\ Z.testbit x k = true.
Proof.
  revert mask. induction es as [|e es IH]; intros mask Hes; cbn [foldl].
  { exists mask. split; [done|]. intros k _. split; [by left|]. intros [?|(e & x & He & _)]; [done|].
    by apply not_elem_of_nil in He. }
  destruct (Hes e) as [x Hx]; [by left|]. cbn [mbind option_bind]. rewrite Hx. cbn [mbind option_bind].
  destruct (IH (Z.lor mask x)) as (m & -> & Hm); [intros e' He'; apply Hes; by right|].
  exists m. split; [done|]. intros k Hk. rewrite Hm, Z.lor_spec, orb_true_iff by done. split.
  - intros [[?|?]|(e' & x' & He' & ?)]; [by left| |]; right; [exists e, x|exists e', x']; (split; [|done]).
    + by left.
    + by right.
  - intros [?|(e' & x' & He' & Ex & ?)]; [by left; left|]. apply elem_of_cons in He' as [->|He'].
    + simplify_eq. by left; right.
    + right. by exists e', x'.
Qed.

Lemma visited_entry h es : visited h es <-> exists e, e ∈ es /\ visited h [e].
Proof.
  split.
  - destruct 1 as [g es Hg Hh Hd|g e es es' He Hh Hd Hes Hv].
    + exists g. split; [done|]. apply visit_here; [by left|done..].
    + exists e. split; [done|]. eapply visit_below; [by left|done..].
  - intros (e & He & Hv). remember [e] as l eqn:El. destruct Hv as [g es' Hg Hh Hd|g e' es0 es' He' Hh Hd Hes Hv]; subst.
    + apply list_elem_of_singleton in Hg as ->. by apply visit_here.
    + apply list_elem_of_singleton in He' as ->. by eapply visit_below.
Qed.

Lemma visited_one h e :
  visited h [e] <-> hidden e = false /\ cg_dir e = true /\ (h = e \/ exists es, cg_entries e = Some es /\ visited h es).
Proof.
  split.
  - intros Hv. remember [e] as l eqn:El. destruct Hv as [g es Hg Hh Hd|g e' es es' He Hh Hd Hes Hv]; subst.
    + apply list_elem_of_singleton in Hg as ->. auto.
    + apply list_elem_of_singleton in He as ->. eauto 6.
  - intros (Hh & Hd & [->|(es & Hes & Hv)]); [apply visit_here; [by left|done..]|].
    eapply visit_below; [by left|done..].
Qed.

Lemma cgroup_ind_entries (P : cgroup -> Prop) :
  (forall g, (forall es, cg_entries g = Some es -> Forall P es) -> P g) -> forall g, P g.
Proof.
  intros H. fix IH 1. intros [n d p e c [l|]]; apply H; cbn [cg_entries]; [|done].
  intros es [= <-]. induction l as [|x l IHl]; constructor; [apply IH|apply IHl].
Qed.

(** The bits of the isolated partitions among the directories visited. *)
Definition isolated_bits (es : list cgroup) (m : Z) : Prop :=
  forall k, 0 <= k -> Z.testbit m k = true <->
    exists g x, visited g es /\ partition_mask g = Some x /\ Z.testbit x k = true.

Lemma scan_all es :
  Forall (fun e => (forall g, visited g [e] -> is_Some (partition_mask g)) ->
            exists m, scan_entry e = Some m /\ isolated_bits [e] m) es ->
  (forall g, visited g es -> is_Some (partition_mask g)) ->
  exists m, foldl (fun m e => mask ← m; x ← scan_entry e; Some (Z.lor mask x)) (Some 0) es = Some m /\
    isolated_bits es m.
Proof.
  intros Hes Hv.
  assert (Hone : forall e, e ∈ es -> exists m, scan_entry e = Some m /\ isolated_bits [e] m).
  { intros e He. eapply Forall_forall in Hes; [|done]. apply Hes. intros g Hg. apply Hv, visited_entry. eauto. }
  destruct (scan_fold es 0) as (m & -> & Hm).
  { intros e He. destruct (Hone e He) as (x & -> & _). by eexists. }
  exists m. split; [done|]. intros k Hk. rewrite Hm by done. rewrite Z.testbit_0_l. split.
  - intros [?|(e & x & He & Ex & Hx)]; [done|]. destruct (Hone e He) as (x' & Ex' & Hbits). simplify_eq.
    apply Hbits in Hx as (g & y & Hg & Hy & Hb); [|done]. exists g, y. split; [|done]. apply visited_entry. eauto.
  - intros (g & y & (e & He & Hg)%visited_entry & Hy & Hb). right. destruct (Hone e He) as (x & Ex & Hbits).
    exists e, x. split_and!; [done..|]. apply Hbits; eauto.
Qed.

Lemma scan_entry_spec e :
  (forall g, visited g [e] -> is_Some (partition_mask g)) ->
  exists m, scan_entry e = Some m /\ isolated_bits [e] m.
Proof.
  induction e as [e IH] using cgroup_ind_entries. intros Hv.
  destruct (hidden e || negb (cg_dir e)) eqn:Ehd.
  { exists 0. split; [destruct e; cbn [scan_entry]; by rewrite Ehd|]. intros k Hk. rewrite Z.testbit_0_l. split; [done|].
    intros (g & x & (Hh & Hd & _)%visited_one & _). by rewrite Hh, Hd in Ehd. }
  apply orb_false_iff in Ehd as [Hh Hd]. apply negb_false_iff in Hd.
  destruct (Hv e) as [own Hown]; [apply visited_one; auto|].
  set (sub := default [] (cg_entries e)).
  destruct (scan_all sub) as (below & Hbelow & Hbits).
  { unfold sub. destruct (cg_entries e) as [es|] eqn:E; [by apply IH|constructor]. }
  { intros g Hg. apply Hv, visited_one. split_and!; [done..|]. right. unfold sub in Hg.
    destruct (cg_entries e) as [es|]; [by exists es|]. by apply visited_entry in Hg as (x & Hx%not_elem_of_nil & _). }
  exists (Z.lor own below). split.
  - unfold sub in Hbelow. destruct e as [n d p ef c es]. cbn [scan_entry]. rewrite Hh, Hd. cbn [orb negb].
    rewrite Hown. cbn [mbind option_bind cg_entries default] in *.
    destruct es; cbn in Hbelow |- *; rewrite ?Hbelow; [done|]. by injection Hbelow as <-.
  - intros k Hk. rewrite Z.lor_spec, orb_true_iff. setoid_rewrite visited_one. split.
    + intros [Ho|Hb]; [exists e, own; auto|]. apply Hbits in Hb as (g & x & Hg & Hx & Hxk); [|done].
      exists g, x. split_and!; try done. right. unfold sub in Hg. destruct (cg_entries e) as [es|]; [by exists es|].
      by apply visited_entry in Hg as (y & Hy%not_elem_of_nil & _).
    + intros (g & x & (_ & _ & Hg) & Hx & Hxk). destruct Hg as [->|(es & Hes & Hg)]; [simplify_eq; by left|].
      right. apply Hbits; [done|]. exists g, x. split_and!; [|done..]. unfold sub. by rewrite Hes.
Qed.

Lemma scan_tree_spec es :
  (forall g, visited g es -> is_Some (partition_mask g)) ->
  exists m, scan_cgroup_tree_for_isolated (Some es) = Some m /\ isolated_bits es m.
Proof.
  intros Hv. apply scan_all; [|done]. apply Forall_forall. intros e _. apply scan_entry_spec.
Qed.

(** The CPU list a cgroup is read with. *)
Definition cpus_line (g : cgroup) : text :=
  match read_file_line (cpuset_cpus_effective g) with
  | [] => read_file_line (cpuset_cpus g)
  | eff => eff
  end.
Definition is_partition (g : cgroup) : Prop := read_file_line (cpuset_cpus_partition g) = isolated_text.

(** The kernel's files: an isolated partition has a list of CPU ranges. *)
Definition readable (g : cgroup) : Prop :=
  is_partition g -> exists gs, Forall range_ok gs /\ cpus_line g = list_text gs.
Definition isolates (g : cgroup) (cpu : Z) : Prop :=
  is_partition g /\ exists gs, Forall range_ok gs /\ cpus_line g = list_text gs /\ in_ranges gs cpu = true.

Lemma partition_mask_spec g :
  readable g ->
  exists m, partition_mask g = Some m /\ forall k, 0 <= k -> Z.testbit m k = true <-> k < 64 /\ isolates g k.
Proof.
  intros Hr. unfold partition_mask. fold (cpus_line g). destruct (bool_decide_reflect (is_partition g)) as [Hp|Hp].
  - rewrite bool_decide_eq_true_2 by done. destruct (Hr Hp) as (gs & Hok & Hl).
    destruct (parse_list gs Hok) as (m & Hm & Hu & Hb). exists m.
    split; [destruct (read_file_line (cpuset_cpus_effective g)) eqn:E; unfold cpus_line in Hl; rewrite E in Hl;
            by rewrite Hl|].
    intros k Hk. rewrite Hb, andb_true_iff, Z.ltb_lt by done. split.
    + intros [Hin Hlt]. split; [done|]. split; [done|]. by exists gs.
    + intros [Hlt (_ & gs' & Hok' & Hl' & Hin)]. split; [|done].
      destruct (parse_list gs' Hok') as (m' & Hm' & _ & Hb'). rewrite Hl in Hl'. rewrite <- Hl', Hm in Hm'. simplify_eq.
      specialize (Hb' k Hk). rewrite Hb, Hin in Hb' by done. rewrite (proj2 (Z.ltb_lt _ _) Hlt), !andb_true_r in Hb'.
      done.
  - rewrite bool_decide_eq_false_2 by done. exists 0. split; [done|]. intros k _. rewrite Z.testbit_0_l.
    split; [done|]. by intros (_ & ? & _).
Qed.

(** The CPUs the loader takes for isolated: those of the list at the root, or
    when it has none below 64 those of the isolated partitions of the tree. *)
Definition isolated_cpu (rs : list (Z * Z)) (es : list cgroup) (cpu : Z) : Prop :=
  cpu < 64 /\
  (in_ranges rs cpu = true \/
   (forall c, 0 <= c < 64 -> in_ranges rs c = false) /\ exists g, visited g es /\ isolates g cpu).

Lemma scan_isolated root :
  (forall g, visited g (default [] root) -> readable g) ->
  exists m, scan_cgroup_tree_for_isolated root = Some m /\
    forall k, 0 <= k -> Z.testbit m k = true <-> k < 64 /\ exists g, visited g (default [] root) /\ isolates g k.
Proof.
  destruct root as [es|]; cbn [default]; intros Hr.
  - destruct (scan_tree_spec es) as (m & -> & Hm).
    { intros g Hg. destruct (partition_mask_spec g (Hr g Hg)) as (x & -> & _). by eexists. }
    exists m. split; [done|]. intros k Hk. rewrite (Hm k Hk). split.
    + intros (g & x & Hg & Hx & Hb). destruct (partition_mask_spec g (Hr g Hg)) as (x' & Hx' & Hb'). simplify_eq.
      apply Hb' in Hb as [? ?]; eauto.
    + intros (Hlt & g & Hg & Hi). destruct (partition_mask_spec g (Hr g Hg)) as (x & Hx & Hb).
      exists g, x. split_and!; [done..|]. by apply Hb.
  - exists 0. split; [done|]. intros k _. rewrite Z.testbit_0_l. split; [done|].
    intros (_ & g & Hg & _). by apply visited_entry in Hg as (x & Hx%not_elem_of_nil & _).
Qed.

(** What the knob holds: the list of the kernel, or no file at all. *)
Definition knob_lists (knob : option text) (rs : list (Z * Z)) : Prop :=
  Forall range_ok rs /\ (knob = Some (line_file (list_text rs)) \/ knob = None /\ rs = []).

Lemma detect_spec knob rs root :
  knob_lists knob rs -> (forall g, visited g (default [] root) -> readable g) ->
  exists m, detect_isolated_cpu_mask knob root = Some m /\
    forall k, 0 <= k -> Z.testbit m k = true <-> isolated_cpu rs (default [] root) k.
Proof.
  intros [Hok Hknob] Hr. destruct (scan_isolated root Hr) as (ms & Hs & Hsb).
  assert (Hline : read_file_line knob = list_text rs).
  { destruct Hknob as [->|[-> ->]]; [|done]. apply read_line_file, list_text_no_nl. }
  unfold detect_isolated_cpu_mask. rewrite Hline.
  destruct (parse_list rs Hok) as (m & Hm & Hmask). pose proof (mask_zero rs m Hmask) as Hz.
  assert (Hfall : m = 0 -> forall k, 0 <= k -> Z.testbit ms k = true <-> isolated_cpu rs (default [] root) k).
  { intros H0 k Hk. rewrite Hsb by done. unfold isolated_cpu. split.
    - intros [Hlt He]. split; [done|]. right. split; [by apply Hz|done].
    - intros [Hlt [Hin|[_ He]]]; [|done]. rewrite (proj1 Hz H0 k ltac:(lia)) in Hin. done. }
  destruct (list_text rs) as [|c t] eqn:El.
  { exists ms. split; [done|]. apply Hfall. by injection Hm. }
  rewrite Hm. cbn [mbind option_bind]. destruct (Z.eqb_spec m 0) as [H0|H0]; cbn [negb].
  { exists ms. split; [done|]. by apply Hfall. }
  exists m. split; [done|]. intros k Hk. destruct Hmask as [_ Hb]. rewrite Hb, andb_true_iff, Z.ltb_lt by done.
  unfold isolated_cpu. split; [intros [? ?]; auto|]. intros [Hlt [Hin|[Hno _]]]; [done|].
  exfalso. apply H0, Hz, Hno.
Qed.

Lemma is_isolated_bit m cpu :
  0 <= cpu < 64 -> is_isolated (bpf_load m) cpu = Z.testbit m cpu.
Proof.
  intros Hc. unfold is_isolated. cbn [isolated_cpu_mask bpf_load]. rewrite (proj2 (Z.ltb_lt _ _)) by lia. cbn [andb].
  rewrite Z.shiftl_1_l. destruct (Z.testbit m cpu) eqn:E.
  - apply negb_true_iff, Z.eqb_neq. intros H0.
    assert (H1 : Z.testbit (Z.land m (2 ^ cpu)) cpu = true) by (rewrite Z.land_spec, E; apply Z.pow2_bits_true; lia).
    by rewrite H0, Z.testbit_0_l in H1.
  - apply negb_false_iff, Z.eqb_eq, Z.bits_inj_0. intros k. rewrite Z.land_spec.
    destruct (Z.eq_dec k cpu) as [->|]; [by rewrite E|]. rewrite Z.pow2_bits_false by done. apply andb_false_r.
Qed.

(** ** Properties *)

(** C32. Loading the scheduler: with cgroup files as the kernel writes them
    nothing throws; a failure at any stage leaves no program loaded; and after
    a success the program treats as isolated exactly the CPUs below 64 of the
    root's list, or, when that has none, of the isolated partitions anywhere
    in the cgroup tree - at least one CPU. *)
Theorem load_programs_isolates knob rs root k :
  knob_lists knob rs -> (forall g, visited g (default [] root) -> readable g) ->
  exists l ok, load_programs knob root k BpfLoader = Some (l, ok) /\
    (ok = false -> skel_ l = None) /\
    (ok = true <-> open_ok k = true /\ load_ok k = true /\ attach_ok k = true /\
       exists cpu, 0 <= cpu /\ isolated_cpu rs (default [] root) cpu) /\
    (ok = true -> exists st, skel_ l = Some st /\
       forall cpu, 0 <= cpu -> is_isolated st cpu = true <-> isolated_cpu rs (default [] root) cpu).
Proof.
  intros Hk Hr. unfold load_programs. destruct (detect_spec knob rs root Hk Hr) as (m & -> & Hb).
  cbn [mbind option_bind]. do 2 eexists. split; [apply f_equal, surjective_pairing|].
  assert (Hex : (exists cpu, 0 <= cpu /\ isolated_cpu rs (default [] root) cpu) <-> m <> 0).
  { split.
    - intros (cpu & Hc & Hi) H0. apply Hb in Hi; [|done]. by rewrite H0, Z.testbit_0_l in Hi.
    - intros Hne. destruct (decide (Exists (fun c => Z.testbit m c = true) (seqZ 0 64))) as [He|Hno].
      { apply Exists_exists in He as (c & Hc & Hbit). apply elem_of_seqZ in Hc.
        exists c. split; [lia|]. apply Hb; [lia|done]. }
      exfalso. apply Hne, Z.bits_inj_0. intros k'.
      destruct (Z.ltb_spec k' 0); [by apply Z.testbit_neg_r|]. destruct (Z.testbit m k') eqn:E; [|done].
      exfalso. apply Hno, Exists_exists. exists k'. split; [|done]. apply elem_of_seqZ.
      apply Hb in E as [? _]; lia. }
  rewrite Hex. destruct (Z.eqb_spec m 0) as [H0|H0].
  { split_and!; [done|split; [done|naive_solver]|done]. }
  destruct (open_ok k), (load_ok k), (attach_ok k); cbn [negb fst snd]; (split_and!; [done|naive_solver|]); try done.
  intros _. eexists. split; [done|]. intros cpu Hc. rewrite <- Hb by done.
  destruct (Z.ltb_spec cpu 64); [by rewrite is_isolated_bit by lia|].
  rewrite Hb by done. unfold is_isolated, isolated_cpu. rewrite (proj2 (Z.ltb_ge _ _)) by lia. cbn [andb].
  split; [done|lia].
Qed.

(** A root list that names only CPU 70, and an isolated partition below an
    ordinary directory. *)
Definition example_tree : list cgroup :=
  [Cgroup (chars "system.slice") true (Some (line_file (chars "member"))) None None
     (Some [Cgroup (chars "rt") true (Some (line_file isolated_text)) (Some (line_file (chars "2-3,5"))) None (Some [])]);
   Cgroup (chars "cgroup.procs") false None None None None].

Lemma load_programs_isolates_witness :
  exists l, load_programs (Some (line_file (list_text [(70, 70)]))) (Some example_tree) (LibBpf true true true) BpfLoader
            = Some (l, true) /\
    exists st, skel_ l = Some st /\ is_isolated st 3 = true /\ is_isolated st 4 = false.
Proof.
  destruct (load_programs_isolates (Some (line_file (list_text [(70, 70)]))) [(70, 70)] (Some example_tree)
    (LibBpf true true true)) as (l & ok & E & _ & _ & _).
  - split; [|by left]. repeat constructor; cbn; done.
  - assert (Hrt : readable (Cgroup (chars "rt") true (Some (line_file isolated_text)) (Some (line_file (chars "2-3,5")))
                              None (Some []))).
    { intros _. exists [(2, 3); (5, 5)]. split; [repeat constructor; cbn; done|by vm_compute]. }
    intros g Hg. apply visited_entry in Hg as (e & He & Hg). cbn [default example_tree] in He.
    apply elem_of_cons in He as [->|He%list_elem_of_singleton]; [|by subst e; apply visited_one in Hg as (_ & ? & _)].
    apply visited_one in Hg as (_ & _ & [->|(es & Hes & Hg)]); [intros Hp; by vm_compute in Hp|].
    injection Hes as <-. apply visited_entry in Hg as (e & He & Hg). apply list_elem_of_singleton in He as ->.
    apply visited_one in Hg as (_ & _ & [->|(es & Hes & Hg)]); [done|]. injection Hes as <-.
    by apply visited_entry in Hg as (e & He%not_elem_of_nil & _).
  - vm_compute in E. injection E as <- <-. eexists. split; [vm_compute; reflexivity|]. eexists. split; [done|].
    split; vm_compute; reflexivity.
Defined.

(** A list that is not one throws instead of giving an empty mask. *)
Lemma unparseable_throws : parse_cpu_range_to_mask (chars "0-3,all") = None.
Proof. by vm_compute. Qed.
