(* ===== verification/TtShm.v ===== *)
(** * sample-apps/src/libttsched.h and libttsched.c: the wake-up segment

    The layout of the shared memory object [/timpani_ttsched] and the task side
    of the protocol.  Names are the 16 bytes of the slot.  A task maps an
    object by reference, so several mappings can outlive an unlink: objects are
    numbered, and the file system knows at most one of them by name.  The
    blocking call is split at the [FUTEX_WAIT], where other threads act. *)
From stdpp Require Import prelude gmap list.
From Stdlib Require Import ZArith Lia.
From S2P Require Import Prelude.
Local Open Scope Z_scope.

Definition TIMPANI_TTSCHED_MAGIC : Z := 0x54494D50.
Definition TIMPANI_MAX_TASKS : nat := 32.

Record timpani_task_slot := TaskSlot { slot_name : list Z; slot_counter : Z }.

Record timpani_ttsched_shm := TtShm {
  magic : Z;
  n_tasks : Z;
  generation : Z;
  tasks : list timpani_task_slot;
}.

(** ** C strings in fixed arrays *)

(** [strncmp(a, b, n) == 0]; a read past an array ends the comparison. *)
Fixpoint strncmp_eq (n : nat) (a b : list Z) : bool :=
  match n with
  | O => true
  | S n =>
      match a, b with
      | x :: a, y :: b =>
          if x =? y then if x =? 0 then true else strncmp_eq n a b else false
      | _, _ => false
      end
  end.

(** The characters a bounded string function sees: up to the first NUL. *)
Fixpoint c_prefix (n : nat) (s : list Z) : list Z :=
  match n, s with
  | S n, c :: s => if c =? 0 then [] else c :: c_prefix n s
  | _, _ => []
  end.

(** [strncpy(dst, src, n)]: the characters of [src], padded with NULs. *)
Definition strncpy (dst src : list Z) (n : nat) : list Z :=
  let s := c_prefix n src in
  s ++ replicate (n - length s) 0 ++ drop n dst.

(** ** The task side *)

(** [find_task_slot], from slot [i] on. *)
Fixpoint find_from (ts : list timpani_task_slot) (i : Z) (n : Z) (name : list Z) : Z :=
  match ts with
  | [] => -1
  | t :: ts =>
      if (i <? n) && (i <? Z.of_nat TIMPANI_MAX_TASKS) then
        if strncmp_eq 15 (slot_name t) name then i else find_from ts (i + 1) n name
      else -1
  end.

Definition find_task_slot (shm : timpani_ttsched_shm) (name : list Z) : Z :=
  if negb (magic shm =? TIMPANI_TTSCHED_MAGIC) then -1
  else find_from (tasks shm) 0 (n_tasks shm) name.

(** Shared memory objects, and the one [shm_open] finds. *)
Record shm_fs := ShmFs { objects : gmap nat timpani_ttsched_shm; named : option nat }.

(** The thread-local variables; [g_shm] is the mapped object. *)
Record client := Client { g_shm : option nat; g_task_idx : Z; g_shm_generation : Z }.

Definition client0 : client := Client None (-1) 0.

(** [maps] tells whether [mmap] succeeds; [my_name] is what [PR_GET_NAME] gives. *)
Definition ttsched_init (fs : shm_fs) (maps : bool) (my_name : list Z) (c : client) : client :=
  match named fs with
  | None => c
  | Some o =>
      if negb maps then Client None (g_task_idx c) (g_shm_generation c) else
      match objects fs !! o with
      | None => c
      | Some shm => Client (Some o) (find_task_slot shm my_name) (generation shm)
      end
  end.

(** The object a task has mapped. *)
Definition mapped (fs : shm_fs) (c : client) : option timpani_ttsched_shm :=
  match g_shm c with Some o => objects fs !! o | None => None end.

(** Up to the [FUTEX_WAIT]: return -1, or wait on counter [i] for a change
    from [current]. *)
Inductive prepared :=
  | PReturn
  | PWait (i : Z) (current : Z).

Definition wait_lookup (fs : shm_fs) (my_name : list Z) (c : client)
    (shm : timpani_ttsched_shm) : client * prepared :=
  let c :=
    if negb (generation shm =? g_shm_generation c)
    then Client (g_shm c) (-1) (generation shm) else c in
  let c :=
    if g_task_idx c <? 0
    then Client (g_shm c) (find_task_slot shm my_name) (g_shm_generation c) else c in
  if g_task_idx c <? 0 then (c, PReturn) else
  match tasks shm !! Z.to_nat (g_task_idx c) with
  | Some t => (c, PWait (g_task_idx c) (slot_counter t))
  | None => (c, PReturn)
  end.

Definition wait_prepare (fs : shm_fs) (maps : bool) (my_name : list Z) (c : client)
  : client * prepared :=
  let c := match g_shm c with
           | None => ttsched_init fs maps my_name c
           | Some _ => c
           end in
  match mapped fs c with
  | None => (c, PReturn)
  | Some shm =>
      if magic shm =? TIMPANI_TTSCHED_MAGIC then wait_lookup fs my_name c shm else
      (* munmap, forget, re-open *)
      let c := ttsched_init fs maps my_name (Client None (-1) (g_shm_generation c)) in
      match mapped fs c with
      | None => (c, PReturn)
      | Some shm =>
          if magic shm =? TIMPANI_TTSCHED_MAGIC then wait_lookup fs my_name c shm
          else (c, PReturn)
      end
  end.

(** Results of one [FUTEX_WAIT]. *)
Inductive futex_result := FWoken | FEagain | FEintr | FOther.

(** [while (futex(...) == -1 && errno == EINTR);]: [None] while still asleep. *)
Fixpoint futex_loop (rs : list futex_result) : option futex_result :=
  match rs with
  | [] => None
  | FEintr :: rs => futex_loop rs
  | r :: _ => Some r
  end.

(** After the wait, on the memory as it is then: the result is 0 or -1. *)
Definition wait_finish (fs : shm_fs) (c : client) : client * Z :=
  match mapped fs c with
  | None => (c, -1)
  | Some shm =>
      if negb (magic shm =? TIMPANI_TTSCHED_MAGIC)
      then (Client None (-1) (g_shm_generation c), -1)
      else (c, 0)
  end.

(** The whole call: [fs] before the wait, [fs'] after it.  [None] while the
    task sleeps. *)
Definition ttsched_wait_next_period (fs fs' : shm_fs) (maps : bool) (my_name : list Z)
    (rs : list futex_result) (c : client) : option (client * Z) :=
  let '(c, p) := wait_prepare fs maps my_name c in
  match p with
  | PReturn => Some (c, -1)
  | PWait _ _ =>
      match futex_loop rs with
      | None => None
      | Some _ => Some (wait_finish fs' c)
      end
  end.

(** ** What the string functions do on whole arrays *)

Lemma strncmp_eq_prefix n a b :
  (n <= length a)%nat -> (n <= length b)%nat ->
  strncmp_eq n a b = true <-> c_prefix n a = c_prefix n b.
Proof.
  revert a b. induction n as [|n IH]; [done|].
  intros [|x a] [|y b] Ha Hb; cbn in Ha, Hb; try lia. cbn [strncmp_eq c_prefix].
  specialize (IH a b ltac:(lia) ltac:(lia)).
  destruct (Z.eqb_spec x y) as [<-|Hne].
  - destruct (Z.eqb_spec x 0); [done|]. rewrite IH. split; [by intros ->|by intros [= ->]].
  - destruct (Z.eqb_spec x 0), (Z.eqb_spec y 0); split; try done; try lia. by intros [= -> ?].
Qed.

Lemma length_c_prefix n s : (length (c_prefix n s) <= n)%nat.
Proof.
  revert s. induction n as [|n IH]; intros [|c s]; cbn; try lia.
  case_match; cbn; [lia|]. specialize (IH s). lia.
Qed.

Lemma length_strncpy dst src n : (n <= length dst)%nat -> length (strncpy dst src n) = length dst.
Proof.
  intros H. unfold strncpy. rewrite !length_app, length_replicate, length_drop.
  pose proof (length_c_prefix n src). lia.
Qed.

Lemma c_prefix_pad n s k tl :
  (length s + k = n)%nat -> Forall (fun c => c <> 0) s ->
  c_prefix n (s ++ replicate k 0 ++ tl) = s.
Proof.
  revert s. induction n as [|n IH]; intros [|c s] Hl Hs; cbn [length] in Hl; try done.
  - by assert (k = S n) as -> by lia.
  - apply Forall_cons in Hs as [Hc Hs]. cbn [app c_prefix]. rewrite (proj2 (Z.eqb_neq c 0) Hc).
    f_equal. apply IH; [lia|done].
Qed.

Lemma c_prefix_nonzero n s : Forall (fun c => c <> 0) (c_prefix n s).
Proof.
  revert s. induction n as [|n IH]; intros [|c s]; cbn; auto.
  destruct (Z.eqb_spec c 0); auto.
Qed.

(** The bytes a 15-character copy leaves in a slot name: [strncpy] and the NUL
    at index 15 that follows it. *)
Lemma strncpy_prefix dst src n : c_prefix n (strncpy dst src n) = c_prefix n src.
Proof.
  unfold strncpy. pose proof (length_c_prefix n src).
  apply c_prefix_pad; [lia|apply c_prefix_nonzero].
Qed.

Lemma c_prefix_insert n k s v : (n <= k)%nat -> c_prefix n (<[k := v]> s) = c_prefix n s.
Proof.
  revert k s. induction n as [|n IH]; intros k [|c s] Hk; try done.
  destruct k as [|k]; [lia|]. cbn. case_match; [done|]. f_equal. apply IH. lia.
Qed.

(** ** Finding a slot *)

Definition has_name (name : list Z) (t : timpani_task_slot) : Prop :=
  strncmp_eq 15 (slot_name t) name = true.

Lemma find_from_spec ts i n name :
  0 <= i ->
  let r := find_from ts i n name in
  (r = -1 /\ forall k t, ts !! k = Some t -> i + Z.of_nat k < n -> i + Z.of_nat k < 32 ->
     ~ has_name name t) \/
  (exists k t, r = i + Z.of_nat k /\ ts !! k = Some t /\ r < n /\ r < 32 /\ has_name name t /\
     forall j t', (j < k)%nat -> ts !! j = Some t' -> ~ has_name name t').
Proof.
  revert i. induction ts as [|t ts IH]; intros i Hi; cbn [find_from]; cbv zeta.
  - left. split; [done|]. intros k t Hk. by rewrite lookup_nil in Hk.
  - change (Z.of_nat TIMPANI_MAX_TASKS) with 32.
    destruct (Z.ltb_spec i n) as [Hn|Hn]; cbn [andb];
      [destruct (Z.ltb_spec i 32) as [H32|H32]|];
      [|left; split; [done|]; intros k t' Hk; lia..].
    destruct (strncmp_eq 15 (slot_name t) name) eqn:E.
    + right. exists 0%nat, t. split_and!; try lia; try done.
    + specialize (IH (i + 1) ltac:(lia)). cbv zeta in IH.
      destruct IH as [[-> Hno]|(k & t' & -> & Hk & Hr & Hr' & Hn' & Hlow)].
      * left. split; [done|]. intros [|k] t' Hk Hk1 Hk2; cbn in Hk.
        -- injection Hk as <-. unfold has_name. by rewrite E.
        -- apply (Hno k); [done|lia..].
      * right. exists (S k), t'. split_and!; try done; try lia.
        intros [|j] t2 Hj Hl; cbn in Hl.
        -- injection Hl as <-. unfold has_name. by rewrite E.
        -- apply (Hlow j); [lia|done].
Qed.

Lemma find_task_slot_range shm name :
  length (tasks shm) = TIMPANI_MAX_TASKS ->
  let r := find_task_slot shm name in r = -1 \/ 0 <= r < 32 /\ r < n_tasks shm.
Proof.
  intros Hl. unfold find_task_slot. case_match; [by left|].
  destruct (find_from_spec (tasks shm) 0 (n_tasks shm) name ltac:(lia))
    as [[-> _]|(k & t & -> & Hk & ?)]; [by left|right; lia].
Qed.

(** A slot with the name, below which no slot has it, is the one found. *)
Lemma find_task_slot_first shm name k t :
  magic shm = TIMPANI_TTSCHED_MAGIC ->
  tasks shm !! k = Some t -> has_name name t ->
  Z.of_nat k < n_tasks shm -> (k < TIMPANI_MAX_TASKS)%nat ->
  (forall j t', (j < k)%nat -> tasks shm !! j = Some t' -> ~ has_name name t') ->
  find_task_slot shm name = Z.of_nat k.
Proof.
  intros Hm Hk Ht Hn H32 Hlow. unfold TIMPANI_MAX_TASKS in H32. unfold find_task_slot.
  rewrite Hm, Z.eqb_refl. cbn [negb].
  destruct (find_from_spec (tasks shm) 0 (n_tasks shm) name ltac:(lia))
    as [[-> Hno]|(k' & t' & -> & Hk' & _ & _ & Ht' & Hlow')].
  - exfalso. apply (Hno k t); auto; lia.
  - destruct (lt_eq_lt_dec k k') as [[Hlt| ->]|Hlt]; [|lia|].
    + exfalso. by apply (Hlow' k t).
    + exfalso. by apply (Hlow k' t').
Qed.

(** ** The task side, call by call *)

Lemma wait_lookup_spec fs name c shm c' p :
  length (tasks shm) = TIMPANI_MAX_TASKS ->
  -1 <= g_task_idx c < 32 ->
  wait_lookup fs name c shm = (c', p) ->
  g_shm c' = g_shm c /\ g_shm_generation c' = generation shm /\ -1 <= g_task_idx c' < 32 /\
  (g_task_idx c' = find_task_slot shm name \/
   g_shm_generation c = generation shm /\ g_task_idx c' = g_task_idx c) /\
  match p with
  | PReturn => g_task_idx c' = -1
  | PWait i cur => i = g_task_idx c' /\ 0 <= i < 32 /\
      exists t, tasks shm !! Z.to_nat i = Some t /\ cur = slot_counter t
  end.
Proof.
  intros Hl Hc Hw. unfold wait_lookup in Hw.
  pose proof (find_task_slot_range shm name Hl) as Hr. cbv zeta in Hr.
  set (f := find_task_slot shm name) in *.
  assert (Hex : forall i, 0 <= i < 32 -> exists t, tasks shm !! Z.to_nat i = Some t).
  { intros i Hi. apply lookup_lt_is_Some_2. rewrite Hl. unfold TIMPANI_MAX_TASKS. lia. }
  destruct (Z.eqb_spec (generation shm) (g_shm_generation c)) as [Hg|Hg];
    cbn [negb g_task_idx g_shm g_shm_generation] in Hw.
  - destruct (Z.ltb_spec (g_task_idx c) 0); cbn [g_task_idx g_shm g_shm_generation] in Hw.
    + destruct (Z.ltb_spec f 0); [|destruct (Hex f) as [t Ht]; [lia|]; rewrite Ht in Hw];
        simplify_eq; cbn; split_and!; eauto; lia.
    + rewrite (proj2 (Z.ltb_ge (g_task_idx c) 0)) in Hw by lia.
      destruct (Hex (g_task_idx c)) as [t Ht]; [lia|]. rewrite Ht in Hw.
      simplify_eq; cbn; split_and!; eauto; lia.
  - change (-1 <? 0) with true in Hw. cbn [g_task_idx g_shm g_shm_generation] in Hw.
    destruct (Z.ltb_spec f 0); [|destruct (Hex f) as [t Ht]; [lia|]; rewrite Ht in Hw];
        simplify_eq; cbn; split_and!; eauto; lia.
Qed.

Lemma find_from_names ts ts' i n name :
  slot_name <$> ts' = slot_name <$> ts -> find_from ts' i n name = find_from ts i n name.
Proof.
  revert ts' i. induction ts as [|t ts IH]; intros [|t' ts'] i Hn; try done.
  cbn [fmap list_fmap] in Hn. injection Hn as Ht Hn. cbn [find_from].
  by rewrite Ht, (IH ts' (i + 1) Hn).
Qed.

(** *** A client of object 0

    [fs_of shm] is the file system while the daemon's object is [shm]. *)
Definition fs_of (shm : timpani_ttsched_shm) : shm_fs := ShmFs {[ 0%nat := shm ]} (Some 0%nat).

Record client_ok (shm : timpani_ttsched_shm) (name : list Z) (c : client) : Prop := {
  client_map : g_shm c = None /\ g_task_idx c = -1 \/ g_shm c = Some 0%nat;
  client_idx : -1 <= g_task_idx c < 32;
  client_gen : g_shm_generation c <= generation shm;
  client_cache : g_shm_generation c = generation shm ->
    g_task_idx c = -1 \/ g_task_idx c = find_task_slot shm name;
}.

Lemma client0_ok shm name : 0 <= generation shm -> client_ok shm name client0.
Proof. intros. split; cbn; auto; lia. Qed.

Lemma ttsched_init_ok shm name maps c :
  length (tasks shm) = TIMPANI_MAX_TASKS -> client_ok shm name c -> g_task_idx c = -1 ->
  client_ok shm name (ttsched_init (fs_of shm) maps name c) /\
  g_shm (ttsched_init (fs_of shm) maps name c) = if maps then Some 0%nat else None.
Proof.
  intros Hl [H1 H2 H3 H4] Hi. unfold ttsched_init, fs_of. cbn [named objects].
  destruct maps; cbn [negb].
  - rewrite lookup_singleton_eq. cbn [g_shm]. split; [|done].
    pose proof (find_task_slot_range shm name Hl) as Hr. cbv zeta in Hr.
    split; cbn [g_shm g_task_idx g_shm_generation]; auto; lia.
  - split; [|done]. split; cbn [g_shm g_task_idx g_shm_generation]; auto.
Qed.

(** What a prepared call tells of the segment. *)
Definition prepared_ok (shm : timpani_ttsched_shm) (name : list Z) (maps : bool) (c' : client) (p : prepared) : Prop :=
  match p with
  | PReturn => maps = true -> magic shm = TIMPANI_TTSCHED_MAGIC -> find_task_slot shm name = -1
  | PWait i cur => i = find_task_slot shm name /\ g_task_idx c' = i /\ 0 <= i < 32 /\
      magic shm = TIMPANI_TTSCHED_MAGIC /\ g_shm c' = Some 0%nat /\
      exists t, tasks shm !! Z.to_nat i = Some t /\ cur = slot_counter t
  end.

Lemma wait_lookup_ok fs shm name maps c c' p :
  length (tasks shm) = TIMPANI_MAX_TASKS -> client_ok shm name c -> g_shm c = Some 0%nat ->
  magic shm = TIMPANI_TTSCHED_MAGIC -> wait_lookup fs name c shm = (c', p) ->
  client_ok shm name c' /\ prepared_ok shm name maps c' p.
Proof.
  intros Hl [H1 H2 H3 H4] Hg Hm Hw.
  assert (Hre : g_task_idx c = -1 -> g_task_idx c' = find_task_slot shm name).
  { intros Hi. unfold wait_lookup in Hw. cbv zeta in Hw.
    destruct (negb _); cbn [g_task_idx] in Hw; rewrite ?Hi in Hw;
    change (-1 <? 0) with true in Hw; cbn [g_task_idx] in Hw;
    repeat case_match; by simplify_eq. }
  destruct (wait_lookup_spec _ _ _ _ _ _ Hl H2 Hw) as (E1 & E2 & E3 & E4 & E5).
  assert (Hc : g_task_idx c' = find_task_slot shm name).
  { destruct E4 as [?|[Hge Hie]]; [done|].
    destruct (H4 Hge) as [Hi|Hi]; [auto|congruence]. }
  split; [split; auto; [right; congruence|lia]|]. unfold prepared_ok.
  destruct p; [congruence|]. destruct E5 as (-> & ? & ?). split_and!; auto; first [lia|congruence].
Qed.

Lemma wait_prepare_ok shm name maps c c' p :
  length (tasks shm) = TIMPANI_MAX_TASKS -> client_ok shm name c ->
  wait_prepare (fs_of shm) maps name c = (c', p) ->
  client_ok shm name c' /\ prepared_ok shm name maps c' p.
Proof.
  intros Hl Hok Hp.
  unfold wait_prepare in Hp.
  set (c1 := match g_shm c with None => _ | Some _ => _ end) in Hp.
  assert (Hc1 : client_ok shm name c1 /\
    (g_shm c1 = None /\ maps = false \/ g_shm c1 = Some 0%nat)).
  { subst c1. destruct (client_map _ _ _ Hok) as [[Hg Hi]|Hg]; rewrite Hg.
    - destruct (ttsched_init_ok shm name maps c Hl Hok Hi) as [? ->]. split; [done|].
      destruct maps; auto.
    - auto. }
  clearbody c1. destruct Hc1 as [Hok1 [[Hg ->]|Hg]].
  { unfold mapped in Hp. rewrite Hg in Hp. by simplify_eq. }
  unfold mapped in Hp at 1. rewrite Hg in Hp. cbn [fs_of objects] in Hp.
  rewrite lookup_singleton_eq in Hp.
  destruct (Z.eqb_spec (magic shm) TIMPANI_TTSCHED_MAGIC) as [Hm|Hm]; [by eapply wait_lookup_ok|].
  set (c2 := Client None (-1) (g_shm_generation c1)) in Hp.
  assert (Hok2 : client_ok shm name c2).
  { split; cbn; auto; [lia|]. by destruct Hok1. }
  destruct (ttsched_init_ok shm name maps c2 Hl Hok2 eq_refl) as [Hok3 Hg3].
  unfold mapped in Hp. rewrite Hg3 in Hp.
  destruct maps; cbn [fs_of objects] in Hp; [rewrite lookup_singleton_eq in Hp|];
    [rewrite (proj2 (Z.eqb_neq _ _) Hm) in Hp|]; simplify_eq; (split; [done|by intros ? ?]).
Qed.
