(* ===== verification/TimerMaster.v ===== *)
(** * timpani-n/src/timer_master.cpp: the timer threads and the wake-up table

    [master] is the object's state together with the shared memory it maps.
    Operations are the public methods; the thread body is the sequence of its
    loop iterations.  [FUTEX_WAKE] calls are returned in order. *)
From stdpp Require Import prelude gmap list sorting.
From Stdlib Require Import ZArith Lia.
From S2P Require Import Prelude TtShm.
Local Open Scope Z_scope.

Record SlotEntry := SlotEntry_ {
  cpu : Z;
  slot_idx : Z;
  offset_ns : Z;
  duration_ns : Z;
  task_id_hash : Z;
  workload_id_hash : Z;
  task_name : list Z;
}.

(** The threads [start] creates. *)
Inductive worker :=
  | IdlePoll
  | CpuThread (c : Z) (cpu_slots : list SlotEntry) (hp ep : Z).

Record master := Master {
  slot_table : list SlotEntry;
  hyperperiod_ns : Z;
  epoch_ns : Z;
  running : bool;
  table_pending : bool;
  cpu_threads : list worker;
  task_hash_to_shm_idx : gmap Z Z;
  ttsched_shm : option timpani_ttsched_shm;
}.

(** A [FUTEX_WAKE] of [count] waiters on the counter of slot [idx]. *)
Record wake := Wake { wake_idx : Z; wake_count : Z }.


(** ** Shared memory writes *)

Definition bump (t : timpani_task_slot) : timpani_task_slot :=
  TaskSlot (slot_name t) (u32 (slot_counter t + 1)).

(** [strncpy(name, task_name.c_str(), 15); name[15] = 0] *)
Definition set_name (name : list Z) (t : timpani_task_slot) : timpani_task_slot :=
  TaskSlot (<[15%nat := 0]> (strncpy (slot_name t) name 15)) (slot_counter t).
Definition zero_counter (t : timpani_task_slot) : timpani_task_slot :=
  TaskSlot (slot_name t) 0.

Definition with_tasks (s : timpani_ttsched_shm) ts : timpani_ttsched_shm :=
  TtShm (magic s) (n_tasks s) (generation s) ts.
Definition with_magic (s : timpani_ttsched_shm) m : timpani_ttsched_shm :=
  TtShm m (n_tasks s) (generation s) (tasks s).

(** The constructor: [mem] is the object [shm_open] created or found, when
    [shm_open] and [mmap] succeed. *)
Definition TimerMaster (mem : option timpani_ttsched_shm) : master :=
  Master [] 0 0 false false [] ∅
    ((fun s => TtShm 0 0 1 (tasks s)) <$> mem).

(** ** Publishing a table *)

(** Both passes work on the new mapping, [used_slots] and the slots. *)
Record publish := Publish {
  p_map : gmap Z Z;
  p_used : list bool;
  p_tasks : list timpani_task_slot;
}.

Definition first_pass_entry (prev : gmap Z Z) (p : publish) (e : SlotEntry) : publish :=
  match p_map p !! task_id_hash e with
  | Some _ => p
  | None =>
      match prev !! task_id_hash e with
      | Some i =>
          if (i <? Z.of_nat TIMPANI_MAX_TASKS) && negb (nth (Z.to_nat i) (p_used p) false)
          then Publish (<[task_id_hash e := i]> (p_map p)) (<[Z.to_nat i := true]> (p_used p))
                       (alter (set_name (task_name e)) (Z.to_nat i) (p_tasks p))
          else p
      | None => p
      end
  end.

(** [while (idx < 32 && used_slots[idx]) idx++;] *)
Fixpoint lowest_free (used : list bool) : nat :=
  match used with
  | true :: used => S (lowest_free used)
  | _ => O
  end.

Fixpoint second_pass (p : publish) (es : list SlotEntry) : publish :=
  match es with
  | [] => p
  | e :: es =>
      match p_map p !! task_id_hash e with
      | Some _ => second_pass p es
      | None =>
          let idx := lowest_free (p_used p) in
          if (TIMPANI_MAX_TASKS <=? idx)%nat then p else
          second_pass
            (Publish (<[task_id_hash e := Z.of_nat idx]> (p_map p)) (<[idx := true]> (p_used p))
               (alter (zero_counter ∘ set_name (task_name e)) idx (p_tasks p))) es
      end
  end.

Definition total_slots (m : gmap Z Z) : Z :=
  foldl (fun n kv => if n <? kv.2 + 1 then kv.2 + 1 else n) 0 (ascending Z.le m).

(** The shared memory part of [set_schedule_table]. *)
Definition publish_table (table : list SlotEntry) (prev : gmap Z Z) (s : timpani_ttsched_shm)
  : gmap Z Z * timpani_ttsched_shm :=
  let p0 := Publish ∅ (replicate TIMPANI_MAX_TASKS false) (bump <$> tasks s) in
  let p1 := foldl (first_pass_entry prev) p0 table in
  let p2 := second_pass p1 table in
  (p_map p2,
   TtShm TIMPANI_TTSCHED_MAGIC (total_slots (p_map p2)) (u32 (generation s + 1)) (p_tasks p2)).

(** ** Threads *)

(** [per_cpu_slots[entry.cpu].push_back(entry)] for each entry. *)
Definition push_slot (m : gmap Z (list SlotEntry)) (e : SlotEntry) : gmap Z (list SlotEntry) :=
  <[cpu e := default [] (m !! cpu e) ++ [e]]> m.
Definition per_cpu_slots (table : list SlotEntry) : gmap Z (list SlotEntry) :=
  foldl push_slot ∅ table.

(** [stop] joins the threads: it returns only once their loops have ended. *)
Definition stop (m : master) : master :=
  Master (slot_table m) (hyperperiod_ns m) (epoch_ns m) false (table_pending m) []
    (task_hash_to_shm_idx m) (ttsched_shm m).

Definition spawn (m : master) : list worker :=
  match ascending Z.le (per_cpu_slots (slot_table m)) with
  | [] => [IdlePoll]
  | l => (fun cs => CpuThread cs.1 cs.2 (hyperperiod_ns m) (epoch_ns m)) <$> l
  end.

Definition start (m : master) : master :=
  let m := stop m in
  Master (slot_table m) (hyperperiod_ns m) (epoch_ns m) true false (spawn m)
    (task_hash_to_shm_idx m) (ttsched_shm m).

Definition restart (m : master) : master :=
  let m := Master (slot_table m) (hyperperiod_ns m) (epoch_ns m) (running m) true
             (cpu_threads m) (task_hash_to_shm_idx m) (ttsched_shm m) in
  if running m then start m else m.

Definition wake_all (n : nat) : list wake := (fun i => Wake (Z.of_nat i) INT_MAX) <$> seq 0 n.

Section Sort.
Context `{!StdSort}.

Definition set_schedule_table (slots : list SlotEntry) (hyperperiod_us ep : Z) (m : master)
  : master * list wake :=
  let table := std_sort offset_ns slots in
  let hp := u64 (hyperperiod_us * 1000) in
  match ttsched_shm m with
  | None =>
      (restart (Master table hp ep (running m) (table_pending m) (cpu_threads m)
                  (task_hash_to_shm_idx m) None), [])
  | Some s =>
      let '(idx, s') := publish_table table (task_hash_to_shm_idx m) s in
      (restart (Master table hp ep (running m) (table_pending m) (cpu_threads m) idx (Some s')),
       wake_all TIMPANI_MAX_TASKS)
  end.
End Sort.

Definition remove_workload (w : Z) (m : master) : master :=
  let kept := filter (fun e => workload_id_hash e <> w) (slot_table m) in
  if (length kept <? length (slot_table m))%nat
  then restart (Master kept (hyperperiod_ns m) (epoch_ns m) (running m) (table_pending m)
                  (cpu_threads m) (task_hash_to_shm_idx m) (ttsched_shm m))
  else m.

Definition wake_task (h : Z) (m : master) : master * list wake :=
  match ttsched_shm m, task_hash_to_shm_idx m !! h with
  | Some s, Some i =>
      (Master (slot_table m) (hyperperiod_ns m) (epoch_ns m) (running m) (table_pending m)
         (cpu_threads m) (task_hash_to_shm_idx m)
         (Some (with_tasks s (alter bump (Z.to_nat i) (tasks s)))), [Wake i 1])
  | _, _ => (m, [])
  end.

(** The destructor: the memory its unlinked object keeps, and the wakes. *)
Definition destroy (m : master) : option timpani_ttsched_shm * list wake :=
  match ttsched_shm m with
  | None => (None, [])
  | Some s =>
      let n := if Z.of_nat TIMPANI_MAX_TASKS <? n_tasks s
               then Z.of_nat TIMPANI_MAX_TASKS else n_tasks s in
      (Some (with_magic s 0), wake_all (Z.to_nat n))
  end.

(** ** The loop of a CPU thread *)

Definition compute_next_tt_start_for_cpu (cpu_slots : list SlotEntry)
    (current_slot_idx current_hyperperiod_start hyperperiod_ns : Z) : Z :=
  if (length cpu_slots =? 0)%nat || (hyperperiod_ns =? 0) then 0 else
  let next_idx := (current_slot_idx + 1) mod zlen cpu_slots in
  let next_start := if next_idx <=? current_slot_idx
                    then u64 (current_hyperperiod_start + hyperperiod_ns)
                    else current_hyperperiod_start in
  match cpu_slots !! Z.to_nat next_idx with
  | Some e => u64 (next_start + offset_ns e)
  | None => 0
  end.

Definition first_hyperperiod (epoch_ns now_ns hyperperiod_ns : Z) : Z :=
  if epoch_ns =? 0 then now_ns
  else if epoch_ns <? now_ns then
    let elapsed_ns := now_ns - epoch_ns in
    let periods := elapsed_ns / hyperperiod_ns + 1 in
    u64 (epoch_ns + u64 (periods * hyperperiod_ns))
  else epoch_ns.

(** What one iteration does to the outside, in order. *)
Inductive action :=
  | SleepUntil (realtime : Z)
  | UpdateCurrentSlot (c idx : Z)
  | UpdateNextTtStart (c t : Z)
  | WakeTask (h : Z).

Record loop := Loop { next_slot_idx : Z; current_hyperperiod_start : Z }.

(** One iteration at the slot [e]; [now_mono_ns] is the monotonic clock. *)
Definition fire (cpu_slots : list SlotEntry) (hp : Z) (now_mono_ns : Z) (st : loop) (e : SlotEntry)
  : loop * list action :=
  let target_ns := u64 (current_hyperperiod_start st + offset_ns e) in
  let next := compute_next_tt_start_for_cpu cpu_slots (next_slot_idx st)
                (current_hyperperiod_start st) hp in
  let i := next_slot_idx st + 1 in
  (if zlen cpu_slots <=? i then Loop 0 (u64 (current_hyperperiod_start st + hp))
   else Loop i (current_hyperperiod_start st),
   [SleepUntil target_ns; UpdateCurrentSlot (cpu e) (slot_idx e)] ++
   (if target_ns <? next
    then [UpdateNextTtStart (cpu e) (u64 (now_mono_ns + (next - target_ns)))] else []) ++
   [WakeTask (task_id_hash e)]).

(** The iterations until the loop is told to stop, one per clock value. *)
Fixpoint fire_all (cpu_slots : list SlotEntry) (hp : Z) (monos : list Z) (st : loop)
  : loop * list (list action) :=
  match monos with
  | [] => (st, [])
  | t :: monos =>
      match cpu_slots !! Z.to_nat (next_slot_idx st) with
      | None => (st, [])
      | Some e =>
          let '(st', acts) := fire cpu_slots hp t st e in
          let '(st'', rest) := fire_all cpu_slots hp monos st' in
          (st'', acts :: rest)
      end
  end.

Section Thread.
Context `{!StdSort}.

(** The body of the thread; with no slots or no hyperperiod it only polls. *)
Definition cpu_thread_loop (cpu_slots : list SlotEntry) (hp ep now_ns : Z) (monos : list Z)
  : list (list action) :=
  let cpu_slots := std_sort offset_ns cpu_slots in
  if (length cpu_slots =? 0)%nat || (hp =? 0) then [] else
  (fire_all cpu_slots hp monos (Loop 0 (first_hyperperiod ep now_ns hp))).2.
End Thread.

(** ** Slot names

    [name_of] is the (truncated) comm name of the task with a given hash: the
    tables a daemon receives use one name per task and one task per name. *)

Definition names_length (ts : list timpani_task_slot) : Prop :=
  length ts = TIMPANI_MAX_TASKS /\ Forall (fun t => length (slot_name t) = 16%nat) ts.
Definition holds (pfx : list Z) (t : timpani_task_slot) : Prop :=
  c_prefix 15 (slot_name t) = pfx.

Lemma has_name_holds name t :
  length (slot_name t) = 16%nat -> length name = 16%nat ->
  has_name name t <-> holds (c_prefix 15 name) t.
Proof. intros H1 H2. apply strncmp_eq_prefix; lia. Qed.

Lemma holds_set_name name t : holds (c_prefix 15 name) (set_name name t).
Proof. unfold holds, set_name; cbn [slot_name]. by rewrite c_prefix_insert, strncpy_prefix. Qed.
Lemma length_set_name name t :
  length (slot_name t) = 16%nat -> length (slot_name (set_name name t)) = 16%nat.
Proof. intros H. cbn [set_name slot_name]. rewrite length_insert, length_strncpy; lia. Qed.

Lemma names_length_alter f i ts :
  (forall t, length (slot_name t) = 16%nat -> length (slot_name (f t)) = 16%nat) ->
  names_length ts -> names_length (alter f i ts).
Proof.
  intros Hf [Hl Hn]. split; [by rewrite length_alter|].
  apply Forall_alter; [done|]. auto.
Qed.

Section Names.
Context (name_of : Z -> list Z) (name_of_inj : Inj eq eq name_of).

Definition entry_named (e : SlotEntry) : Prop :=
  c_prefix 15 (task_name e) = name_of (task_id_hash e).

(** Slot [i] is the first that holds the name of task [h]. *)
Definition owns (ts : list timpani_task_slot) (h i : Z) : Prop :=
  0 <= i < 32 /\ (exists t, ts !! Z.to_nat i = Some t /\ holds (name_of h) t) /\
  forall j t, (j < Z.to_nat i)%nat -> ts !! j = Some t -> ~ holds (name_of h) t.

Definition mapping_ok (m : gmap Z Z) (ts : list timpani_task_slot) : Prop :=
  names_length ts /\ map_Forall (owns ts) m.

Lemma owns_inj ts h h' i : owns ts h i -> owns ts h' i -> h = h'.
Proof.
  intros (_ & (t & Ht & Hh) & _) (_ & (t' & Ht' & Hh') & _). simplify_eq.
  apply name_of_inj. by rewrite <- Hh, <- Hh'.
Qed.

(** Writing the name of another task, at a slot not below, keeps ownership. *)
Lemma owns_write ts h i k f h' :
  owns ts h i -> (forall t, holds (name_of h') (f t)) ->
  h' <> h -> i <> Z.of_nat k -> owns (alter f k ts) h i.
Proof.
  intros (Hr & (t & Ht & Hh) & Hlow) Hf Hne Hik. split_and!; [lia..| |].
  - exists t. split; [|done]. rewrite list_lookup_alter_ne; [done|lia].
  - intros j t' Hj Hl Hn. destruct (decide (k = j)) as [->|Hkj].
    + rewrite list_lookup_alter_eq in Hl.
      destruct (ts !! j); cbn in Hl; [injection Hl as <-|done].
      apply Hne, name_of_inj. rewrite <- Hn. by rewrite (Hf _).
    + rewrite list_lookup_alter_ne in Hl by done. by eapply Hlow.
Qed.

(** Writing the same name again keeps it too. *)
Lemma owns_rewrite ts h i f :
  owns ts h i -> (forall t, holds (name_of h) (f t)) -> owns (alter f (Z.to_nat i) ts) h i.
Proof.
  intros (Hr & (t & Ht & Hh) & Hlow) Hf. split_and!; [lia..| |].
  - exists (f t). by rewrite list_lookup_alter_eq, Ht.
  - intros j t' Hj Hl. rewrite list_lookup_alter_ne in Hl by lia. by eapply Hlow.
Qed.

Lemma owns_fmap ts h i f :
  owns ts h i -> (forall t, slot_name (f t) = slot_name t) -> owns (f <$> ts) h i.
Proof.
  intros (Hr & (t & Ht & Hh) & Hlow) Hf. split_and!; [lia..| |].
  - exists (f t). rewrite list_lookup_fmap, Ht. split; [done|]. unfold holds. by rewrite Hf.
  - intros j t' Hj Hl. rewrite list_lookup_fmap in Hl. apply fmap_Some in Hl as (t2 & Hl & ->).
    unfold holds. rewrite Hf. by eapply Hlow.
Qed.

(** The state of the two passes. *)
Record pass_ok (p : publish) : Prop := {
  pass_len : length (p_used p) = TIMPANI_MAX_TASKS;
  pass_map : mapping_ok (p_map p) (p_tasks p);
  pass_marked : forall h i, p_map p !! h = Some i -> p_used p !! Z.to_nat i = Some true;
  pass_used : forall k, p_used p !! k = Some true -> exists h, p_map p !! h = Some (Z.of_nat k);
}.

Definition names (f : timpani_task_slot -> timpani_task_slot) (h : Z) : Prop :=
  (forall t, holds (name_of h) (f t)) /\
  forall t, length (slot_name t) = 16%nat -> length (slot_name (f t)) = 16%nat.

Lemma names_set_name e :
  entry_named e -> names (set_name (task_name e)) (task_id_hash e).
Proof.
  intros He. split.
  - intros t. rewrite <- He. apply holds_set_name.
  - intros t. apply length_set_name.
Qed.
Lemma names_new_name e :
  entry_named e -> names (zero_counter ∘ set_name (task_name e)) (task_id_hash e).
Proof. apply names_set_name. Qed.

Lemma pass_step p h k f :
  pass_ok p -> p_map p !! h = None -> p_used p !! k <> Some true ->
  names f h -> owns (alter f k (p_tasks p)) h (Z.of_nat k) ->
  pass_ok (Publish (<[h := Z.of_nat k]> (p_map p)) (<[k := true]> (p_used p))
             (alter f k (p_tasks p))).
Proof.
  intros [Hl [Hn Hm] Hmk Hu] Hh Hk [Hf Hf'] Ho.
  assert (k < length (p_used p))%nat.
  { rewrite Hl. destruct Ho as [? _]. unfold TIMPANI_MAX_TASKS. lia. }
  split; cbn [p_used p_map p_tasks].
  - by rewrite length_insert.
  - split; [by apply names_length_alter|].
    apply map_Forall_insert_2; [done|]. intros h' i Hi.
    apply owns_write with h; [by apply Hm|done|by intros ->; simplify_eq|].
    intros ->. apply Hk. rewrite <- (Nat2Z.id k). by apply Hmk with h'.
  - intros h' i. rewrite lookup_insert. case_decide as Hd.
    + intros [= <-]. rewrite Nat2Z.id. by apply list_lookup_insert_eq.
    + intros Hi. apply list_lookup_insert_Some. pose proof (Hmk _ _ Hi).
      right. split; [|done]. by intros ->.
  - intros j [(<- & _ & _)|[Hj Huj]]%list_lookup_insert_Some.
    + exists h. by rewrite lookup_insert_eq.
    + destruct (Hu _ Huj) as [h' Hh']. exists h'. rewrite lookup_insert_ne; [done|].
      by intros ->; simplify_eq.
Qed.

(** *** First pass: the tasks that have a slot keep it *)

Context (prev : gmap Z Z).

Record first_ok (seen : list Z) (p : publish) : Prop := {
  first_pass : pass_ok p;
  first_prev : map_Forall (owns (p_tasks p)) prev;
  first_map : forall h, p_map p !! h = if decide (h ∈ seen) then prev !! h else None;
}.

Lemma first_pass_entry_ok seen p e :
  first_ok seen p -> entry_named e ->
  first_ok (seen ++ [task_id_hash e]) (first_pass_entry prev p e).
Proof.
  intros [Hp Hprev Hmap] He. unfold first_pass_entry.
  set (h := task_id_hash e) in *.
  assert (Hkeep : first_pass_entry prev p e = p \/ prev !! h = None -> p_map p !! h = prev !! h ->
                  first_ok (seen ++ [h]) p).
  { intros _ Hh. split; [done..|]. intros h'. rewrite Hmap. destruct (decide (h' = h)) as [->|].
    - rewrite <- Hmap, Hh, decide_True by set_solver. done.
    - do 2 case_decide; set_solver. }
  destruct (p_map p !! h) as [i|] eqn:Ei.
  { apply Hkeep; [left; unfold first_pass_entry; by fold h; rewrite Ei|].
    rewrite Hmap in Ei. case_decide; [done|discriminate]. }
  destruct (prev !! h) as [i|] eqn:Epi; [|by apply Hkeep; [right|]].
  pose proof (Hprev _ _ Epi) as Ho. pose proof Ho as [Hr _].
  rewrite (proj2 (Z.ltb_lt i _)) by (unfold TIMPANI_MAX_TASKS; lia). cbn [andb].
  assert (Hu : p_used p !! Z.to_nat i <> Some true).
  { intros Hu. destruct (pass_used p Hp _ Hu) as [h' Hh'].
    rewrite Z2Nat.id in Hh' by lia.
    assert (h' = h) as ->; [|by simplify_eq].
    apply (owns_inj (p_tasks p) _ _ i); [|done]. destruct (pass_map p Hp) as [_ Hm]. by apply Hm. }
  rewrite nth_lookup.
  replace (negb _) with true by (destruct (p_used p !! Z.to_nat i) as [[]|]; done).
  pose proof (names_set_name e He) as Hf. fold h in Hf.
  set (f := set_name (task_name e)) in *.
  assert (Ho' : owns (alter f (Z.to_nat i) (p_tasks p)) h i) by (apply owns_rewrite; [done|apply Hf]).
  split; cbn [p_map p_tasks].
  - rewrite <- (Z2Nat.id i) at 1 by lia. apply pass_step; auto.
    by rewrite Z2Nat.id by lia.
  - intros h' i' Hi'. destruct (decide (h' = h)) as [->|Hne]; [by simplify_eq|].
    apply owns_write with h; [by apply Hprev|apply Hf|done|].
    rewrite Z2Nat.id by lia. intros ->. apply Hne, (owns_inj (p_tasks p) _ _ i); auto.
  - intros h'. rewrite lookup_insert. case_decide as Hd.
    + subst h'. rewrite decide_True by set_solver. done.
    + rewrite Hmap. do 2 case_decide; set_solver.
Qed.

Lemma first_pass_ok es seen p :
  first_ok seen p -> Forall entry_named es ->
  first_ok (seen ++ (task_id_hash <$> es)) (foldl (first_pass_entry prev) p es).
Proof.
  intros Hp Hes. revert seen p Hp. induction Hes as [|e es He Hes IH]; intros seen p Hp.
  - cbn. by rewrite app_nil_r.
  - cbn [foldl fmap list_fmap].
    replace (seen ++ task_id_hash e :: (task_id_hash <$> es))
      with ((seen ++ [task_id_hash e]) ++ (task_id_hash <$> es)) by (by rewrite <- app_assoc).
    apply IH. by apply first_pass_entry_ok.
Qed.

(** *** Second pass: the others take the lowest free slots *)

Lemma lowest_free_spec used :
  (lowest_free used <= length used)%nat /\
  (forall j, (j < lowest_free used)%nat -> used !! j = Some true) /\
  used !! lowest_free used <> Some true.
Proof.
  induction used as [|[] used (H1 & H2 & H3)]; cbn; split_and!; try lia; try done.
  intros [|j] Hj; [done|]. apply H2. lia.
Qed.

Definition full (p : publish) : Prop := forall k, (k < 32)%nat -> p_used p !! k = Some true.

Lemma second_pass_ok es p :
  pass_ok p -> Forall entry_named es ->
  let p' := second_pass p es in
  pass_ok p' /\ p_map p ⊆ p_map p' /\
  (forall h, is_Some (p_map p' !! h) -> is_Some (p_map p !! h) \/ h ∈ (task_id_hash <$> es)) /\
  ((forall h, h ∈ (task_id_hash <$> es) -> is_Some (p_map p' !! h)) \/ full p').
Proof.
  intros Hp Hes. revert p Hp. induction Hes as [|e es He Hes IH]; intros p Hp; cbn [second_pass].
  { split_and!; auto. left. intros h Hh. cbn in Hh. set_solver. }
  set (h := task_id_hash e) in *. cbn [fmap list_fmap]. fold h.
  destruct (p_map p !! h) as [i|] eqn:Ei.
  { destruct (IH p Hp) as (H1 & H2 & H3 & H4). split_and!; auto; [set_solver|].
    destruct H4 as [H4|H4]; [left|by right]. intros h' [->|Hh']%elem_of_cons; [|by apply H4].
    apply (lookup_weaken_is_Some (p_map p)); [by eexists|done]. }
  destruct (lowest_free_spec (p_used p)) as (Hle & Hlow & Hfree).
  set (k := lowest_free (p_used p)) in *. rewrite (pass_len p Hp) in Hle.
  destruct (Nat.leb_spec TIMPANI_MAX_TASKS k) as [Hk|Hk].
  { split_and!; auto. right. intros j Hj. apply Hlow. unfold TIMPANI_MAX_TASKS in *. lia. }
  assert (Hn : names (zero_counter ∘ set_name (task_name e)) h) by by apply names_new_name.
  set (f := zero_counter ∘ set_name (task_name e)) in *.
  assert (Hp' : pass_ok (Publish (<[h := Z.of_nat k]> (p_map p)) (<[k := true]> (p_used p))
             (alter f k (p_tasks p)))).
  { apply pass_step; auto. destruct (pass_map p Hp) as [[Hl Hn'] Hm].
    unfold owns. rewrite Nat2Z.id. unfold TIMPANI_MAX_TASKS in *. split_and!; [lia..| |].
    - destruct (lookup_lt_is_Some_2 (p_tasks p) k) as [t Ht]; [lia|].
      exists (f t). rewrite list_lookup_alter_eq, Ht. split; [done|apply Hn].
    - intros j t Hj Ht Hh. rewrite list_lookup_alter_ne in Ht by lia.
      destruct (pass_used p Hp j (Hlow j Hj)) as [h' Hh'].
      destruct (Hm _ _ Hh') as (_ & (t' & Ht' & Hh2) & _). rewrite Nat2Z.id in Ht'. simplify_eq.
      assert (h = h') as ->; [|congruence]. apply name_of_inj. by rewrite <- Hh, <- Hh2. }
  destruct (IH _ Hp') as (H1 & H2 & H3 & H4). cbn [p_map] in *. split_and!; auto.
  - etrans; [|done]. by apply insert_subseteq.
  - intros h' Hh'. destruct (H3 h' Hh') as [Hi|Hi]; [|set_solver].
    rewrite lookup_insert in Hi. case_decide; [set_solver|by left].
  - destruct H4 as [H4|H4]; [left|by right]. intros h' [->|Hh']%elem_of_cons; [|by apply H4].
    eapply lookup_weaken_is_Some; [|done]. rewrite lookup_insert_eq. by eexists.
Qed.
End Names.

(** *** The published table *)

Lemma total_slots_spec m :
  0 <= total_slots m /\ (forall h i, m !! h = Some i -> i < total_slots m) /\
  (total_slots m = 0 \/ exists h, m !! h = Some (total_slots m - 1)).
Proof.
  unfold total_slots.
  assert (Hg : forall l n, let r := foldl (fun n (kv : Z * Z) => if n <? kv.2 + 1 then kv.2 + 1 else n) n l in
    n <= r /\ (forall kv, kv ∈ l -> kv.2 < r) /\ (r = n \/ exists kv, kv ∈ l /\ kv.2 = r - 1)).
  { induction l as [|kv l IH]; intros n; cbn [foldl].
    - split_and!; [lia|set_solver|by left].
    - destruct (Z.ltb_spec n (kv.2 + 1)) as [Hlt|Hge].
      + destruct (IH (kv.2 + 1)) as (H1 & H2 & H3). cbv zeta in *.
        split_and!; [lia|intros kv' [->|?]%elem_of_cons; [lia|auto]|].
        destruct H3 as [->|(kv' & ? & ?)]; right; [exists kv|exists kv']; split; try set_solver; lia.
      + destruct (IH n) as (H1 & H2 & H3). cbv zeta in *.
        split_and!; [lia|intros kv' [->|?]%elem_of_cons; [lia|auto]|].
        destruct H3 as [?|(kv' & ? & ?)]; [by left|right; exists kv'; set_solver]. }
  destruct (Hg (ascending Z.le m) 0) as (H1 & H2 & H3). cbv zeta in *. split_and!; [done| |].
  - intros h i Hi. apply (H2 (h, i)). by apply elem_of_ascending.
  - destruct H3 as [?|([h i] & Hin & Hi)]; [by left|right]. exists h. cbn in Hi. rewrite <- Hi.
    by apply elem_of_ascending in Hin.
Qed.

Lemma total_slots_le name_of m ts : mapping_ok name_of m ts -> total_slots m <= 32.
Proof.
  intros [_ Hm]. destruct (total_slots_spec m) as (_ & _ & [->|[h Hh]]); [lia|].
  apply Hm in Hh as [? _]. lia.
Qed.

Definition hashes (es : list SlotEntry) : list Z := task_id_hash <$> es.

Lemma publish_start_ok name_of prev s :
  mapping_ok name_of prev (tasks s) ->
  first_ok name_of prev [] (Publish ∅ (replicate TIMPANI_MAX_TASKS false) (bump <$> tasks s)).
Proof.
  intros [[Hl Hn] Hm]. split; [split| |]; cbn [p_used p_map p_tasks].
  - by rewrite length_replicate.
  - split; [split; [by rewrite length_fmap|apply Forall_fmap; eapply Forall_impl; [done|]; auto]|].
    apply map_Forall_empty.
  - intros h i Hi. by rewrite lookup_empty in Hi.
  - intros k [Hk _]%lookup_replicate. done.
  - intros h i Hi. apply owns_fmap; [by apply Hm|done].
  - intros h. rewrite lookup_empty, decide_False by set_solver. done.
Qed.

(** *** The lowest free slot *)

(** [h'] is in the list before [h] is for the first time. *)
Definition earlier (hs : list Z) (h' h : Z) : Prop := exists l r, hs = l ++ h :: r /\ h ∉ l /\ h' ∈ l.

Lemma earlier_cons hs x h' h : x <> h -> earlier hs h' h -> earlier (x :: hs) h' h.
Proof.
  intros Hx (l & r & -> & Hl & Hh). exists (x :: l), r. split_and!; [done| |by right].
  by intros [->|?]%elem_of_cons.
Qed.
Lemma earlier_here hs x h : x <> h -> h ∈ hs -> earlier (x :: hs) x h.
Proof.
  intros Hx (l & r & -> & Hl)%list_elem_of_split_l. exists (x :: l), r. split_and!; [done| |by left].
  by intros [->|?]%elem_of_cons.
Qed.

(** Every slot marked as used is held. *)
Definition held (p : publish) : Prop := forall k, p_used p !! k = Some true -> exists h, p_map p !! h = Some (Z.of_nat k).

Lemma held_step p h k f :
  held p -> p_map p !! h = None -> held (Publish (<[h := Z.of_nat k]> (p_map p)) (<[k := true]> (p_used p)) f).
Proof.
  intros Hp Hh j [(<- & _ & _)|[_ Hj]]%list_lookup_insert_Some; [exists h; cbn [p_map]; by rewrite lookup_insert_eq|].
  destruct (Hp j Hj) as [h' Hh']. exists h'. cbn [p_map]. rewrite lookup_insert_ne; [done|]. by intros ->; rewrite Hh in Hh'.
Qed.

Lemma second_pass_keeps es p : p_map p ⊆ p_map (second_pass p es).
Proof.
  revert p. induction es as [|e es IH]; intros p; cbn [second_pass]; [done|].
  destruct (p_map p !! task_id_hash e) eqn:E; [apply IH|]. case_match; [done|].
  etrans; [|apply IH]. by apply insert_subseteq.
Qed.

(** The slots below the one a task is given - all of them, when it is given
    none - were held: before the pass, or by tasks earlier in the list. *)
Lemma second_pass_lowest es p h j :
  held p -> (forall k, (TIMPANI_MAX_TASKS <= k)%nat -> p_used p !! k = None) -> h ∈ hashes es -> p_map p !! h = None ->
  0 <= j < default 32 (p_map (second_pass p es) !! h) ->
  exists h', p_map (second_pass p es) !! h' = Some j /\ (is_Some (p_map p !! h') \/ earlier (hashes es) h' h).
Proof.
  revert p. induction es as [|e es IH]; intros p Hp Hlen Hh Hno; [by apply not_elem_of_nil in Hh|].
  unfold hashes in *. cbn [fmap list_fmap] in *. cbn [second_pass]. apply elem_of_cons in Hh.
  destruct (p_map p !! task_id_hash e) as [i|] eqn:Ee.
  { assert (Hne : task_id_hash e <> h) by (intros <-; congruence). destruct Hh as [->|Hh]; [done|].
    intros Hj. destruct (IH p Hp Hlen Hh Hno Hj) as (h' & H1 & [H2|H2]); exists h'; (split; [done|]); [by left|right].
    by apply earlier_cons. }
  destruct (lowest_free_spec (p_used p)) as (_ & Hlow & _). set (k := lowest_free (p_used p)) in *.
  assert (Htaken : forall j, 0 <= j < Z.of_nat k -> exists h', p_map p !! h' = Some j).
  { intros i Hi. destruct (Hp (Z.to_nat i)) as [h' Hh']; [apply Hlow; lia|]. exists h'. by rewrite Z2Nat.id in Hh' by lia. }
  destruct (Nat.leb_spec TIMPANI_MAX_TASKS k) as [Hk|Hk].
  { rewrite Hno. cbn. unfold TIMPANI_MAX_TASKS in Hk. intros Hj. destruct (Htaken j ltac:(lia)) as [h' Hh']. eauto. }
  set (p1 := Publish _ _ _). pose proof (second_pass_keeps es p1) as Hsub. intros Hj.
  assert (Hsub0 : forall h' i, p_map p !! h' = Some i -> p_map (second_pass p1 es) !! h' = Some i).
  { intros h' i Hi. apply (lookup_weaken (p_map p1)); [|done]. unfold p1. cbn [p_map].
    rewrite lookup_insert_ne; [done|]. intros <-. congruence. }
  destruct (decide (h = task_id_hash e)) as [->|Hne].
  - rewrite (lookup_weaken (p_map p1) _ _ (Z.of_nat k)) in Hj; [|unfold p1; cbn [p_map]; by rewrite lookup_insert_eq|done].
    cbn in Hj. destruct (Htaken j ltac:(lia)) as [h' Hh']. exists h'. split; [by apply Hsub0|by left].
  - destruct Hh as [?|Hh]; [done|].
    destruct (IH p1) as (h' & H1 & H2); [by apply held_step| |done| |done|].
    + intros i Hi. unfold p1. cbn [p_used]. rewrite list_lookup_insert_ne; [by apply Hlen|lia].
    + unfold p1. cbn [p_map]. by rewrite lookup_insert_ne.
    + exists h'. split; [done|]. destruct H2 as [H2|H2]; [|right; by apply earlier_cons].
      unfold p1 in H2. cbn [p_map] in H2. destruct (decide (h' = task_id_hash e)) as [->|Hne'].
      * right. by apply earlier_here.
      * left. by rewrite lookup_insert_ne in H2.
Qed.

Lemma publish_table_lowest name_of table prev s h j :
  Inj eq eq name_of -> mapping_ok name_of prev (tasks s) -> Forall (entry_named name_of) table ->
  h ∈ hashes table -> prev !! h = None -> 0 <= j < default 32 ((publish_table table prev s).1 !! h) ->
  exists h', (publish_table table prev s).1 !! h' = Some j /\ (is_Some (prev !! h') \/ earlier (hashes table) h' h).
Proof.
  intros Hinj Hprev He Hh Hno. unfold publish_table. cbn [fst]. set (p0 := Publish ∅ _ _).
  pose proof (first_pass_ok name_of Hinj prev table [] p0 (publish_start_ok name_of prev s Hprev) He) as [Hp1 _ Hm1].
  set (p1 := foldl _ p0 table) in *. intros Hj. destruct (second_pass_lowest table p1 h j) as (h' & H1 & H2); [| |done| |done|].
  - exact (pass_used _ _ Hp1).
  - intros k Hk. apply lookup_ge_None. rewrite (pass_len _ _ Hp1). done.
  - rewrite Hm1. by case_decide.
  - exists h'. split; [done|]. destruct H2 as [H2|]; [left|by right]. rewrite Hm1 in H2. by case_decide; [|destruct H2].
Qed.

Lemma publish_table_ok name_of table prev s :
  Inj eq eq name_of -> mapping_ok name_of prev (tasks s) -> Forall (entry_named name_of) table ->
  let '(m, s') := publish_table table prev s in
  mapping_ok name_of m (tasks s') /\
  (magic s' = TIMPANI_TTSCHED_MAGIC /\ n_tasks s' = total_slots m /\
   generation s' = u32 (generation s + 1)) /\
  (forall h i, h ∈ hashes table -> prev !! h = Some i -> m !! h = Some i) /\
  (forall h, is_Some (m !! h) -> h ∈ hashes table) /\
  ((forall h, h ∈ hashes table -> is_Some (m !! h)) \/
   (forall k, (k < 32)%nat -> exists h, m !! h = Some (Z.of_nat k))).
Proof.
  intros Hinj Hprev He. unfold publish_table. set (p0 := Publish ∅ _ _).
  pose proof (first_pass_ok name_of Hinj prev table [] p0 (publish_start_ok name_of prev s Hprev) He) as [Hp1 _ Hm1].
  set (p1 := foldl _ p0 table) in *.
  destruct (second_pass_ok name_of Hinj table p1 Hp1 He) as (Hp2 & Hsub & Honly & Hall).
  set (p2 := second_pass p1 table) in *. cbn [tasks magic n_tasks generation app] in *.
  split_and!; auto.
  - apply Hp2.
  - intros h i Hh Hi. eapply lookup_weaken; [|done]. rewrite Hm1, decide_True by done. done.
  - intros h Hh. destruct (Honly h Hh) as [Hs|]; [|done].
    rewrite Hm1 in Hs. case_decide; [done|]. by destruct Hs.
  - destruct Hall as [?|Hf]; [by left|right]. intros k Hk. by apply (pass_used _ _ Hp2), Hf.
Qed.

(** A mapping onto all slots has 32 tasks. *)
Lemma full_size (m : gmap Z Z) :
  (forall k, (k < 32)%nat -> exists h, m !! h = Some (Z.of_nat k)) -> (32 <= size m)%nat.
Proof.
  intros Hf. rewrite <- length_map_to_list, <- (length_fmap snd).
  change 32%nat with (length (Z.of_nat <$> seq 0 32)).
  apply submseteq_length, NoDup_submseteq.
  - apply NoDup_fmap_2; [apply _|apply NoDup_seq].
  - intros x (k & -> & Hk%elem_of_seq)%list_elem_of_fmap.
    destruct (Hf k ltac:(lia)) as [h Hh]. apply list_elem_of_fmap. exists (h, Z.of_nat k).
    split; [done|]. by apply elem_of_map_to_list.
Qed.

Lemma few_tasks_all_mapped (m : gmap Z Z) (hs : list Z) :
  (size (list_to_set hs : gset Z) <= 32)%nat ->
  (forall h, is_Some (m !! h) -> h ∈ hs) ->
  (forall h, h ∈ hs -> is_Some (m !! h)) \/
    (forall k, (k < 32)%nat -> exists h, m !! h = Some (Z.of_nat k)) ->
  forall h, h ∈ hs -> is_Some (m !! h).
Proof.
  intros Hs Honly [Hall|Hf] h Hh; [auto|]. apply full_size in Hf.
  destruct (m !! h) eqn:E; [by eexists|exfalso].
  assert (size (dom m) < size (list_to_set hs : gset Z))%nat; [|rewrite size_dom in *; lia].
  apply subset_size. split.
  - intros h' Hh'%elem_of_dom. apply elem_of_list_to_set. auto.
  - intros Hsub. apply (elem_of_list_to_set (C := gset Z)), Hsub, elem_of_dom in Hh.
    rewrite E in Hh. by destruct Hh.
Qed.

(** ** Runs of the daemon *)

Inductive op :=
  | OSetTable (slots : list SlotEntry) (hyperperiod_us ep : Z)
  | ORemove (w : Z)
  | OWake (h : Z)
  | OStart
  | OStop.

Section Runs.
Context `{!StdSort, !StdSortLaws}.

Definition exec (o : op) (m : master) : master * list wake :=
  match o with
  | OSetTable slots hp ep => set_schedule_table slots hp ep m
  | ORemove w => (remove_workload w m, [])
  | OWake h => wake_task h m
  | OStart => (start m, [])
  | OStop => (stop m, [])
  end.

Definition execs (os : list op) (m : master) : master := foldl (fun m o => (exec o m).1) m os.

Definition op_named (name_of : Z -> list Z) (o : op) : Prop :=
  match o with OSetTable slots _ _ => Forall (entry_named name_of) slots | _ => True end.

Definition master_ok (name_of : Z -> list Z) (m : master) : Prop :=
  forall s, ttsched_shm m = Some s ->
    mapping_ok name_of (task_hash_to_shm_idx m) (tasks s) /\
    (magic s = 0 /\ task_hash_to_shm_idx m = ∅ \/
     magic s = TIMPANI_TTSCHED_MAGIC /\ n_tasks s = total_slots (task_hash_to_shm_idx m)).

(** What a client can see of the segment apart from the counters. *)
Definition same_table (s s' : timpani_ttsched_shm) : Prop :=
  magic s' = magic s /\ n_tasks s' = n_tasks s /\ generation s' = generation s /\
  slot_name <$> tasks s' = slot_name <$> tasks s.

Lemma restart_shm m :
  ttsched_shm (restart m) = ttsched_shm m /\
  task_hash_to_shm_idx (restart m) = task_hash_to_shm_idx m.
Proof. by unfold restart; destruct (running m). Qed.

Lemma remove_workload_shm w m :
  ttsched_shm (remove_workload w m) = ttsched_shm m /\
  task_hash_to_shm_idx (remove_workload w m) = task_hash_to_shm_idx m.
Proof.
  unfold remove_workload. case_match; [|done].
  match goal with |- context [restart ?m'] => by destruct (restart_shm m') as [-> ->] end.
Qed.

Lemma entries_sorted_named name_of slots :
  Forall (entry_named name_of) slots -> Forall (entry_named name_of) (std_sort offset_ns slots).
Proof. intros He. by rewrite std_sort_perm. Qed.

Lemma set_table_shm name_of slots hp ep m s :
  Inj eq eq name_of -> Forall (entry_named name_of) slots ->
  ttsched_shm m = Some s -> mapping_ok name_of (task_hash_to_shm_idx m) (tasks s) ->
  let m' := (set_schedule_table slots hp ep m).1 in
  exists s', ttsched_shm m' = Some s' /\
    mapping_ok name_of (task_hash_to_shm_idx m') (tasks s') /\
    (magic s' = TIMPANI_TTSCHED_MAGIC /\ n_tasks s' = total_slots (task_hash_to_shm_idx m') /\
     generation s' = u32 (generation s + 1)) /\
    (forall h i, h ∈ hashes slots -> task_hash_to_shm_idx m !! h = Some i ->
       task_hash_to_shm_idx m' !! h = Some i) /\
    (forall h, is_Some (task_hash_to_shm_idx m' !! h) -> h ∈ hashes slots) /\
    ((size (list_to_set (hashes slots) : gset Z) <= 32)%nat ->
     forall h, h ∈ hashes slots -> is_Some (task_hash_to_shm_idx m' !! h)).
Proof.
  intros Hinj He Hs Hok. unfold set_schedule_table. rewrite Hs.
  pose proof (publish_table_ok name_of (std_sort offset_ns slots) (task_hash_to_shm_idx m) s
    Hinj Hok (entries_sorted_named _ _ He)) as Hp.
  destruct (publish_table _ _ _) as [idx s']. cbn [fst].
  destruct Hp as (H1 & H2 & H3 & H4 & H5).
  assert (Hh : forall h, h ∈ hashes (std_sort offset_ns slots) <-> h ∈ hashes slots).
  { intros h. unfold hashes. by rewrite std_sort_perm. }
  setoid_rewrite Hh in H3. setoid_rewrite Hh in H4. setoid_rewrite Hh in H5.
  destruct (restart_shm (Master (std_sort offset_ns slots) (u64 (hp * 1000)) ep (running m)
    (table_pending m) (cpu_threads m) idx (Some s'))) as [-> ->].
  cbn [ttsched_shm task_hash_to_shm_idx].
  exists s'. split_and!; auto; try apply H2. intros Hsz. by apply few_tasks_all_mapped.
Qed.

Lemma same_table_refl s : same_table s s.
Proof. done. Qed.

Lemma same_table_bump s k : same_table s (with_tasks s (alter bump k (tasks s))).
Proof.
  unfold same_table. split_and?; [done..|]. cbn [with_tasks tasks]. apply list_eq. intros j.
  rewrite !list_lookup_fmap, list_lookup_alter. case_decide as Hk; [subst j|done].
  by destruct (tasks s !! k).
Qed.

Lemma mapping_ok_same name_of m s s' :
  same_table s s' -> mapping_ok name_of m (tasks s) -> mapping_ok name_of m (tasks s').
Proof.
  intros (_ & _ & _ & Hn) [[Hl Hf] Hm].
  assert (Hpos : forall k t', tasks s' !! k = Some t' ->
    exists t, tasks s !! k = Some t /\ slot_name t = slot_name t').
  { intros k t' Ht'. pose proof (f_equal (.!! k) Hn) as Hk. cbn in Hk.
    rewrite !list_lookup_fmap, Ht' in Hk. destruct (tasks s !! k) as [t|]; [|done].
    injection Hk as Hk. by eauto. }
  assert (Hlen : length (tasks s') = length (tasks s)).
  { by rewrite <- (length_fmap slot_name (tasks s)), <- Hn, length_fmap. }
  split; [split; [by rewrite Hlen|]|].
  - apply Forall_lookup. intros k t' Ht'. destruct (Hpos _ _ Ht') as (t & Ht & <-).
    by apply (Forall_lookup_1 _ _ _ _ Hf Ht).
  - intros h i Hi. destruct (Hm h i Hi) as (Hr & (t & Ht & Hh) & Hlow). split_and!; [lia..| |].
    + destruct (lookup_lt_is_Some_2 (tasks s') (Z.to_nat i)) as [t' Ht'].
      { rewrite Hlen. by apply lookup_lt_Some with t. }
      exists t'. split; [done|]. destruct (Hpos _ _ Ht') as (t2 & Ht2 & Heq). simplify_eq.
      unfold holds. by rewrite <- Heq.
    + intros j t' Hj Ht'. destruct (Hpos _ _ Ht') as (t2 & Ht2 & Heq).
      unfold holds. rewrite <- Heq. by apply (Hlow j).
Qed.

(** Every operation but a new table keeps the segment's table. *)
Lemma exec_same_table o m s :
  ttsched_shm m = Some s ->
  (exists slots hp ep, o = OSetTable slots hp ep) \/
  exists s', ttsched_shm (exec o m).1 = Some s' /\ same_table s s' /\
    task_hash_to_shm_idx (exec o m).1 = task_hash_to_shm_idx m.
Proof.
  intros Hs. destruct o as [slots hp ep|w|h| |]; cbn [exec fst]; [by left; eauto|right..].
  - destruct (remove_workload_shm w m) as [-> ->]. exists s. by split_and!.
  - unfold wake_task. rewrite Hs.
    destruct (_ !! h) as [i|] eqn:E; cbn [fst ttsched_shm task_hash_to_shm_idx].
    + eexists. split_and!; [done|by apply same_table_bump|done].
    + exists s. by split_and!.
  - exists s. by split_and!.
  - exists s. by split_and!.
Qed.

Lemma exec_ok name_of o m :
  Inj eq eq name_of -> op_named name_of o -> master_ok name_of m -> is_Some (ttsched_shm m) ->
  master_ok name_of (exec o m).1 /\ is_Some (ttsched_shm (exec o m).1).
Proof.
  intros Hinj Ho Hm [s Hs]. destruct (Hm s Hs) as [Hok Hmag].
  destruct (exec_same_table o m s Hs) as [(slots & hp & ep & ->)|(s' & Hs' & Hsame & Hidx)].
  - cbn [exec]. destruct (set_table_shm name_of slots hp ep m s Hinj Ho Hs Hok)
      as (s' & Hs' & Hok' & (Hm' & Hn' & _) & _).
    split; [|by eexists]. intros s2 Hs2. simplify_eq. eauto.
  - split; [|by eexists]. intros s2 Hs2. rewrite Hidx. simplify_eq.
    split; [by eapply mapping_ok_same|]. destruct Hsame as (-> & -> & _). done.
Qed.

Lemma execs_ok name_of os mem :
  Inj eq eq name_of -> Forall (op_named name_of) os -> names_length (tasks mem) ->
  master_ok name_of (execs os (TimerMaster (Some mem))) /\
  is_Some (ttsched_shm (execs os (TimerMaster (Some mem)))).
Proof.
  intros Hinj Hos Hl.
  assert (Hi : master_ok name_of (TimerMaster (Some mem)) /\
               is_Some (ttsched_shm (TimerMaster (Some mem)))).
  { split; [|by eexists]. intros s [= <-]. split; [|by left]. split; [done|apply map_Forall_empty]. }
  unfold execs. revert Hi. generalize (TimerMaster (Some mem)).
  induction Hos as [|o os Ho Hos IH]; intros m [H1 H2]; [done|]. cbn [foldl]. apply IH.
  by apply exec_ok.
Qed.

Lemma mapped_found name_of m s name h i :
  mapping_ok name_of m (tasks s) ->
  magic s = TIMPANI_TTSCHED_MAGIC -> n_tasks s = total_slots m ->
  m !! h = Some i -> length name = 16%nat -> c_prefix 15 name = name_of h ->
  find_task_slot s name = i.
Proof.
  intros [[Hlen Hl] Hm] Hmag Hn Hi H16 Hname.
  destruct (Hm _ _ Hi) as (Hr & (t & Ht & Hh) & Hlow).
  rewrite <- (Z2Nat.id i) by lia. apply find_task_slot_first with t; auto.
  - apply has_name_holds; [by apply (Forall_lookup_1 _ _ _ _ Hl Ht)|done|]. by rewrite Hname.
  - rewrite Z2Nat.id, Hn by lia. destruct (total_slots_spec m) as (_ & Hlt & _). eauto.
  - unfold TIMPANI_MAX_TASKS. lia.
  - intros j t' Hj Ht' Hn'. apply has_name_holds in Hn';
      [|by apply (Forall_lookup_1 _ _ _ _ Hl Ht')|done].
    rewrite Hname in Hn'. by apply (Hlow j t').
Qed.
End Runs.

(** ** The daemon and one task

    The daemon's operations happen between the task's steps: a call runs to
    its [FUTEX_WAIT] or returns, and a waiting call ends later. *)

Record sys := Sys { daemon : master; task : client; asleep : option (Z * Z) }.

Inductive ev :=
  | EDaemon (o : op)
  | ECall (maps : bool)
  | EEnd.

Section System.
Context `{!StdSort, !StdSortLaws} (my_name : list Z).

Definition files (m : master) : shm_fs :=
  match ttsched_shm m with Some s => fs_of s | None => ShmFs ∅ None end.

Definition sstep (s : sys) (e : ev) : sys :=
  match e, asleep s with
  | EDaemon o, _ => Sys (exec o (daemon s)).1 (task s) (asleep s)
  | ECall maps, None =>
      let '(c, p) := wait_prepare (files (daemon s)) maps my_name (task s) in
      Sys (daemon s) c (match p with PWait i cur => Some (i, cur) | PReturn => None end)
  | EEnd, Some _ => Sys (daemon s) (wait_finish (files (daemon s)) (task s)).1 None
  | _, _ => s
  end.

Definition srun (evs : list ev) (mem : timpani_ttsched_shm) : sys :=
  foldl sstep (Sys (TimerMaster (Some mem)) client0 None) evs.

Definition ev_named (name_of : Z -> list Z) (e : ev) : Prop :=
  match e with EDaemon o => op_named name_of o | _ => True end.

Record sys_ok (name_of : Z -> list Z) (bound : Z) (s : sys) : Prop := {
  sys_master : master_ok name_of (daemon s);
  sys_client : exists shm, ttsched_shm (daemon s) = Some shm /\ client_ok shm my_name (task s) /\
    0 <= generation shm <= bound;
}.

Lemma client_ok_same s s' c : same_table s s' -> client_ok s my_name c -> client_ok s' my_name c.
Proof.
  intros (Hm & Hn & Hg & Hts) [H1 H2 H3 H4]. rewrite <- Hg in H3, H4. split; auto.
  unfold find_task_slot in *. by rewrite Hm, Hn, (find_from_names _ _ _ _ _ Hts).
Qed.

Lemma wait_finish_ok shm c :
  client_ok shm my_name c -> client_ok shm my_name (wait_finish (fs_of shm) c).1.
Proof.
  intros [H1 H2 H3 H4]. unfold wait_finish. repeat case_match; try done.
  split; cbn; auto; lia.
Qed.

Lemma shm_length name_of m s :
  master_ok name_of m -> ttsched_shm m = Some s -> length (tasks s) = TIMPANI_MAX_TASKS.
Proof. intros Hm Hs. apply (Hm s Hs). Qed.

Lemma sstep_ok name_of bound s e :
  Inj eq eq name_of -> ev_named name_of e -> bound + 1 < 2 ^ 32 ->
  sys_ok name_of bound s -> sys_ok name_of (bound + 1) (sstep s e).
Proof.
  intros Hinj He Hb [Hm (shm & Hs & Hc & Hg)]. unfold sstep.
  assert (Hstay : sys_ok name_of (bound + 1) s) by (split; [done|]; exists shm; split_and!; auto; lia).
  destruct e as [o|maps|].
  - destruct (exec_ok name_of o (daemon s) Hinj He Hm ltac:(by eexists)) as [Hm' _].
    split; cbn [daemon task]; [done|].
    destruct (exec_same_table o (daemon s) shm Hs) as [(slots & hp & ep & ->)|(s' & Hs' & Hsame & _)].
    + destruct (Hm shm Hs) as [Hok _]. cbn [exec].
      destruct (set_table_shm name_of slots hp ep (daemon s) shm Hinj He Hs Hok)
        as (s' & Hs' & _ & (_ & _ & Hgen) & _).
      rewrite wrap_small in Hgen by (unfold uword; lia).
      exists s'. split_and!; [done| |lia..]. destruct Hc as [H1 H2 H3 H4]. split; auto; lia.
    + exists s'. split_and!; [done|by eapply client_ok_same|..];
      destruct Hsame as (_ & _ & -> & _); lia.
  - destruct (asleep s); [done|].
    destruct (wait_prepare _ _ _ _) as [c p] eqn:E. unfold files in E. rewrite Hs in E.
    apply wait_prepare_ok in E as [Hc' _]; [|by eapply shm_length|done].
    split; [done|]. exists shm. split_and!; auto; lia.
  - destruct (asleep s); [|done]. split; [done|]. exists shm. unfold files. cbn [daemon task].
    rewrite Hs. split_and!; [done|by apply wait_finish_ok|lia..].
Qed.

Lemma srun_ok name_of evs mem :
  Inj eq eq name_of -> Forall (ev_named name_of) evs -> names_length (tasks mem) ->
  zlen evs + 1 < 2 ^ 32 ->
  sys_ok name_of (zlen evs + 1) (srun evs mem).
Proof.
  intros Hinj Hevs Hl Hlen. unfold srun.
  assert (Hi : sys_ok name_of 1 (Sys (TimerMaster (Some mem)) client0 None)).
  { split; [intros s [= <-]; split; [split; [done|apply map_Forall_empty]|by left]|].
    eexists. split_and!; [done|by apply client0_ok|cbn; lia..]. }
  rewrite Z.add_comm in *. revert Hlen Hi.
  generalize (Sys (TimerMaster (Some mem)) client0 None), 1.
  induction Hevs as [|e evs He Hevs IH]; intros s b Hlen Hi.
  - by rewrite Z.add_0_r.
  - rewrite zlen_cons, Z.add_assoc in *. pose proof (zlen_nonneg evs). cbn [foldl]. apply IH; [lia|].
    apply sstep_ok; auto. lia.
Qed.
End System.

(** ** The times a thread fires at *)

(** The start of the [n]-th slot after the thread's first hyperperiod. *)
Definition target (ss : list SlotEntry) (start hp n : Z) : Z :=
  start + n / zlen ss * hp +
  default 0 (offset_ns <$> ss !! Z.to_nat (n mod zlen ss)).

Definition actions (ss : list SlotEntry) (start hp n mono : Z) (e : SlotEntry) : list action :=
  let t := target ss start hp n in
  let t' := target ss start hp (n + 1) in
  [SleepUntil t; UpdateCurrentSlot (cpu e) (slot_idx e)] ++
  (if t <? t' then [UpdateNextTtStart (cpu e) (u64 (mono + (t' - t)))] else []) ++
  [WakeTask (task_id_hash e)].

Section Firing.
Context (ss : list SlotEntry) (start hp : Z).
Context (Hss : ss <> []) (Hhp : 0 < hp) (Hstart : 0 <= start).
Context (Hoff : Forall (fun e => 0 <= offset_ns e < hp) ss).

Lemma slots_pos : 0 < zlen ss.
Proof. unfold zlen. destruct ss; [done|]. cbn [length]. lia. Qed.

Lemma slot_at n : 0 <= n -> exists e, ss !! Z.to_nat (n mod zlen ss) = Some e /\ 0 <= offset_ns e < hp.
Proof.
  intros Hn. pose proof slots_pos. pose proof (Z.mod_pos_bound n (zlen ss) ltac:(done)).
  destruct (lookup_lt_is_Some_2 ss (Z.to_nat (n mod zlen ss))) as [e He]; [unfold zlen in *; lia|].
  exists e. split; [done|]. by apply (Forall_lookup_1 _ _ _ _ Hoff He).
Qed.

Lemma target_at n e :
  ss !! Z.to_nat (n mod zlen ss) = Some e ->
  target ss start hp n = start + n / zlen ss * hp + offset_ns e.
Proof. intros He. unfold target. by rewrite He. Qed.

Lemma target_range n : 0 <= n -> start <= target ss start hp n < start + (n / zlen ss + 1) * hp.
Proof.
  intros Hn. destruct (slot_at n Hn) as (e & He & Ho). rewrite (target_at n e He).
  pose proof slots_pos. pose proof (Z.div_pos n (zlen ss) Hn ltac:(done)). nia.
Qed.

Lemma next_div_mod n : 0 <= n ->
  (n mod zlen ss + 1 < zlen ss /\ (n + 1) / zlen ss = n / zlen ss /\
   (n + 1) mod zlen ss = n mod zlen ss + 1) \/
  (n mod zlen ss + 1 = zlen ss /\ (n + 1) / zlen ss = n / zlen ss + 1 /\ (n + 1) mod zlen ss = 0).
Proof.
  intros Hn. pose proof slots_pos as Hp. set (k := zlen ss) in *.
  pose proof (Z.mod_pos_bound n k Hp). pose proof (Z.div_mod n k ltac:(lia)).
  destruct (decide (n mod k + 1 < k)); [left|right]; split_and!; try lia.
  - symmetry. apply Z.div_unique with (n mod k + 1); lia.
  - symmetry. apply Z.mod_unique with (n / k); lia.
  - symmetry. apply Z.div_unique with 0; lia.
  - symmetry. apply Z.mod_unique with (n / k + 1); lia.
Qed.

Lemma compute_next_target n :
  0 <= n -> start + ((n + 1) / zlen ss + 1) * hp < 2 ^ 64 ->
  compute_next_tt_start_for_cpu ss (n mod zlen ss) (start + n / zlen ss * hp) hp
  = target ss start hp (n + 1).
Proof.
  intros Hn Hb. unfold compute_next_tt_start_for_cpu.
  destruct (Nat.eqb_spec (length ss) 0) as [E|_]; [by destruct ss|].
  rewrite (proj2 (Z.eqb_neq hp 0)) by lia. cbn [orb]. pose proof slots_pos.
  rewrite Zplus_mod_idemp_l.
  destruct (slot_at (n + 1) ltac:(lia)) as (e & He & Ho). rewrite He, (target_at _ e He).
  pose proof (Z.div_pos n (zlen ss) Hn ltac:(done)).
  destruct (next_div_mod n Hn) as [(N1 & N2 & N3)|(N1 & N2 & N3)]; rewrite N2, N3 in *.
  - rewrite (proj2 (Z.leb_gt _ _)) by lia. apply wrap_small. unfold uword; nia.
  - pose proof (Z.mod_pos_bound n (zlen ss) ltac:(done)).
    rewrite (proj2 (Z.leb_le _ _)) by lia.
    rewrite (wrap_small 64 (start + n / zlen ss * hp + hp)) by (unfold uword; nia).
    rewrite wrap_small by (unfold uword; nia). lia.
Qed.

Lemma fire_at n mono e :
  0 <= n -> start + ((n + 1) / zlen ss + 1) * hp < 2 ^ 64 ->
  ss !! Z.to_nat (n mod zlen ss) = Some e ->
  fire ss hp mono (Loop (n mod zlen ss) (start + n / zlen ss * hp)) e
  = (Loop ((n + 1) mod zlen ss) (start + (n + 1) / zlen ss * hp), actions ss start hp n mono e).
Proof.
  intros Hn Hb He. unfold fire. cbn [next_slot_idx current_hyperperiod_start].
  rewrite compute_next_target by done. pose proof slots_pos.
  pose proof (Forall_lookup_1 _ _ _ _ Hoff He) as Ho. cbn in Ho.
  pose proof (Z.div_pos n (zlen ss) Hn ltac:(done)).
  assert (n / zlen ss <= (n + 1) / zlen ss) by (apply Z.div_le_mono; lia).
  rewrite (wrap_small 64 (_ + offset_ns e)) by (unfold uword; nia).
  rewrite <- (target_at n e He). unfold actions.
  f_equal. destruct (next_div_mod n Hn) as [(N1 & N2 & N3)|(N1 & N2 & N3)]; rewrite N2, N3 in *.
  - by rewrite (proj2 (Z.leb_gt _ _)) by lia.
  - rewrite (proj2 (Z.leb_le _ _)) by lia. f_equal.
    rewrite wrap_small by (unfold uword; nia). lia.
Qed.

Lemma fire_all_at monos n :
  0 <= n -> start + ((n + zlen monos) / zlen ss + 1) * hp < 2 ^ 64 ->
  let r := (fire_all ss hp monos (Loop (n mod zlen ss) (start + n / zlen ss * hp))).2 in
  length r = length monos /\
  forall k mono, monos !! k = Some mono ->
    exists e, ss !! Z.to_nat ((n + Z.of_nat k) mod zlen ss) = Some e /\
      r !! k = Some (actions ss start hp (n + Z.of_nat k) mono e).
Proof.
  pose proof slots_pos as Hp. revert n. induction monos as [|t monos IH]; intros n Hn Hb; cbv zeta.
  { split; [done|]. intros k m Hk. by rewrite lookup_nil in Hk. }
  rewrite zlen_cons in Hb. pose proof (zlen_nonneg monos).
  assert ((n + 1) / zlen ss <= (n + (1 + zlen monos)) / zlen ss) by (apply Z.div_le_mono; lia).
  destruct (slot_at n Hn) as (e & He & Ho). cbn [fire_all next_slot_idx]. rewrite He.
  rewrite fire_at by (done || nia).
  destruct (IH (n + 1) ltac:(lia)) as [Hl Hk].
  { by replace (n + 1 + zlen monos) with (n + (1 + zlen monos)) by lia. }
  destruct (fire_all _ _ _ _) as [st r]. cbn [snd] in *. split; [cbn; lia|].
  intros [|k] m Hm; cbn in Hm.
  - simplify_eq. exists e. by rewrite Z.add_0_r.
  - destruct (Hk k m Hm) as (e' & He' & Hr). exists e'.
    replace (n + Z.of_nat (S k)) with (n + 1 + Z.of_nat k) by lia. done.
Qed.

Lemma target_mono n :
  StronglySorted (fun a b => offset_ns a <= offset_ns b) ss -> 0 <= n ->
  target ss start hp n <= target ss start hp (n + 1).
Proof.
  intros Hsort Hn. pose proof slots_pos.
  destruct (slot_at n Hn) as (e & He & Ho), (slot_at (n + 1) ltac:(lia)) as (e' & He' & Ho').
  rewrite (target_at n e He), (target_at (n + 1) e' He').
  pose proof (Z.mod_pos_bound n (zlen ss) ltac:(done)).
  destruct (next_div_mod n Hn) as [(N1 & N2 & N3)|(N1 & N2 & N3)]; rewrite N2, ?N3 in *; [|lia].
  enough (offset_ns e <= offset_ns e') by lia.
  refine (StronglySorted_lookup _ ss _ _ e e' Hsort He He' _). lia.
Qed.
End Firing.

Lemma first_hyperperiod_spec ep now hp :
  0 <= ep -> 0 <= now -> 0 < hp -> now + hp < 2 ^ 64 ->
  let s := first_hyperperiod ep now hp in
  (ep = 0 -> s = now) /\ (now <= ep -> ep <> 0 -> s = ep) /\
  (0 < ep < now -> now < s <= now + hp /\ (s - ep) mod hp = 0).
Proof.
  intros He Hn Hh Hb. unfold first_hyperperiod. cbv zeta. split_and!.
  - by intros ->.
  - intros H H0. by rewrite (proj2 (Z.eqb_neq _ _) H0), (proj2 (Z.ltb_ge _ _) H).
  - intros H. rewrite (proj2 (Z.eqb_neq ep 0)), (proj2 (Z.ltb_lt ep now)) by lia.
    pose proof (Z.div_mod (now - ep) hp ltac:(lia)).
    pose proof (Z.mod_pos_bound (now - ep) hp Hh). set (q := (now - ep) / hp) in *.
    assert (0 <= q) by (apply Z.div_pos; lia).
    rewrite (wrap_small 64 ((q + 1) * hp)) by (unfold uword; nia).
    rewrite wrap_small by (unfold uword; nia). split; [nia|].
    replace (ep + (q + 1) * hp - ep) with ((q + 1) * hp) by lia. apply Z.mod_mul. lia.
Qed.

Lemma per_cpu_slots_lookup table c :
  per_cpu_slots table !! c =
  match filter (fun e => cpu e = c) table with [] => None | l => Some l end.
Proof.
  unfold per_cpu_slots. induction table as [|e table IH] using rev_ind; [done|].
  rewrite foldl_app, filter_app. cbn [foldl]. unfold push_slot at 1.
  rewrite lookup_insert. case_decide as Hc.
  - rewrite Hc, IH. rewrite filter_cons_True by done. rewrite filter_nil.
    by destruct (filter _ table).
  - rewrite filter_cons_False by done. rewrite filter_nil, app_nil_r. done.
Qed.

Lemma filter_StronglySorted {A} (R : A -> A -> Prop) (P : A -> Prop) `{!forall x, Decision (P x)} l :
  StronglySorted R l -> StronglySorted R (filter P l).
Proof.
  induction 1 as [|x l Hs IH Hx]; [constructor|].
  destruct (decide (P x)); [rewrite filter_cons_True by done|by rewrite filter_cons_False by done].
  constructor; [done|]. apply Forall_forall. intros y [_ Hy]%list_elem_of_filter.
  by apply (proj1 (Forall_forall _ _) Hx).
Qed.

(** The threads of a non-empty sorted table. *)
(** The thread of a CPU, if it has slots. *)
Lemma spawn_thread m c ss hp ep :
  CpuThread c ss hp ep ∈ spawn m <->
  ss <> [] /\ ss = filter (fun e => cpu e = c) (slot_table m) /\ hp = hyperperiod_ns m /\ ep = epoch_ns m.
Proof.
  assert (Hin : forall c l, (c, l) ∈ ascending Z.le (per_cpu_slots (slot_table m)) <->
    l = filter (fun e => cpu e = c) (slot_table m) /\ l <> []).
  { intros c' l. rewrite elem_of_ascending, per_cpu_slots_lookup.
    destruct (filter _ _); split; [done|intros [-> ?]; done|by intros [= <-]|by intros [-> _]]. }
  assert (E : CpuThread c ss hp ep ∈ spawn m <->
    CpuThread c ss hp ep ∈ (fun cs => CpuThread cs.1 cs.2 (hyperperiod_ns m) (epoch_ns m)) <$>
      ascending Z.le (per_cpu_slots (slot_table m))).
  { unfold spawn. destruct (ascending _ _); [|done]. split; [by intros ?%list_elem_of_singleton|by intros ?%not_elem_of_nil]. }
  rewrite E, list_elem_of_fmap. split.
  - intros ([c' l] & Heq & [-> Hl]%Hin). injection Heq as -> -> -> ->. by split_and!.
  - intros (Hne & -> & -> & ->). eexists (c, _). split; [done|]. by apply Hin.
Qed.

Lemma spawn_threads `{!StdSort, !StdSortLaws} slots hp ep m w :
  slots <> [] -> slot_table m = std_sort offset_ns slots -> hyperperiod_ns m = hp -> epoch_ns m = ep ->
  w ∈ spawn m <->
  exists c, let l := filter (fun e => cpu e = c) (std_sort offset_ns slots) in
    l <> [] /\ StronglySorted (fun a b => offset_ns a <= offset_ns b) l /\ w = CpuThread c l hp ep.
Proof.
  intros Hne Ht <- <-. split.
  - intros Hw. assert (exists c l, w = CpuThread c l (hyperperiod_ns m) (epoch_ns m)) as (c & l & ->).
    { unfold spawn in Hw. rewrite Ht in Hw. set (table := std_sort offset_ns slots) in *.
      destruct (ascending Z.le (per_cpu_slots table)) as [|x xs] eqn:E.
      - exfalso. destruct slots as [|e slots]; [done|].
        assert (e ∈ table) as He by (unfold table; rewrite std_sort_perm; by left).
        assert (is_Some (per_cpu_slots table !! cpu e)) as [l Hl].
        { rewrite per_cpu_slots_lookup. destruct (filter _ table) eqn:Ef; [|done]. exfalso.
          apply (not_elem_of_nil e). rewrite <- Ef. by apply list_elem_of_filter. }
        apply (not_elem_of_nil (cpu e, l)). rewrite <- E. by apply elem_of_ascending.
      - apply list_elem_of_fmap in Hw as ([c l] & -> & _). eauto. }
    apply spawn_thread in Hw as (Hl & -> & _). rewrite Ht in *. exists c. split_and!; [done| |done].
    apply filter_StronglySorted, std_sort_sorted.
  - intros (c & Hl & _ & ->). apply spawn_thread. by rewrite Ht.
Qed.

(** ** Properties *)

(** C9. A task that is in the table calls [ttsched_wait_next_period] at any
    moment of any run of the daemon: the call blocks on the slot the daemon
    has for the task, and the next [wake_task] for it changes the counter the
    call waits on and wakes a waiter of that same slot.  Stale names that
    earlier tables left in the segment never mislead it. *)
Theorem task_waits_where_it_is_woken `{!StdSort, !StdSortLaws} name_of my_name evs mem h i :
  Inj eq eq name_of -> Forall (ev_named name_of) evs -> names_length (tasks mem) ->
  zlen evs + 1 < 2 ^ 32 -> length my_name = 16%nat -> c_prefix 15 my_name = name_of h ->
  let s := srun my_name evs mem in
  asleep s = None -> task_hash_to_shm_idx (daemon s) !! h = Some i ->
  exists shm t cur m', asleep (sstep my_name s (ECall true)) = Some (i, cur) /\
    ttsched_shm (daemon s) = Some shm /\ tasks shm !! Z.to_nat i = Some t /\
    slot_counter t = cur /\
    wake_task h (daemon s) = (m', [Wake i 1]) /\
    exists shm' t', ttsched_shm m' = Some shm' /\ tasks shm' !! Z.to_nat i = Some t' /\
      slot_counter t' = u32 (cur + 1) /\ slot_counter t' <> cur.
Proof.
  intros Hinj Hevs Hl Hlen H16 Hname s Hs Hi.
  destruct (srun_ok my_name name_of evs mem Hinj Hevs Hl Hlen) as [Hm (shm & Hshm & Hc & _)].
  fold s in Hm, Hshm, Hc. destruct (Hm shm Hshm) as [Hok [[_ He]|[Hmag Hn]]].
  { rewrite He in Hi. by rewrite lookup_empty in Hi. }
  pose proof (mapped_found _ _ _ my_name h i Hok Hmag Hn Hi H16 Hname) as Hf.
  pose proof Hok as [_ Hmap]. destruct (Hmap h i Hi) as (Hr & (t & Ht & _) & _).
  unfold sstep. rewrite Hs. destruct (wait_prepare _ _ _ _) as [c p] eqn:E.
  unfold files in E. rewrite Hshm in E.
  apply wait_prepare_ok in E as [_ Hp]; [|by eapply shm_length|done].
  destruct p as [|i' cur]; [specialize (Hp eq_refl Hmag); lia|].
  destruct Hp as (-> & _ & _ & _ & _ & t' & Ht' & ->). rewrite Hf in *. simplify_eq.
  unfold wake_task. rewrite Hshm, Hi.
  exists shm, t, (slot_counter t). eexists. split_and!; try done.
  eexists _, _. split_and!; [done|cbn [with_tasks tasks]; by rewrite list_lookup_alter_eq, Ht|done|].
  cbn [bump slot_counter]. pose proof (wrap_range 32 (slot_counter t + 1) ltac:(lia)) as Hw.
  destruct (decide (uword 32 (slot_counter t))) as [Hu|Hu]; [|by intros Heq; rewrite Heq in Hw].
  destruct (decide (slot_counter t + 1 = 2 ^ 32)) as [Hx|Hx]; unfold uword in *.
  - rewrite Hx. change (u32 (2 ^ 32)) with 0. lia.
  - rewrite wrap_small by (unfold uword; lia). lia.
Qed.

Definition no_names : timpani_ttsched_shm :=
  TtShm 0 0 0 (replicate 32 (TaskSlot (replicate 16 0) 0)).
Definition slot_of (c off h : Z) : SlotEntry := SlotEntry_ c 0 off 10 h 1 [h].
Definition name1 (h : Z) : list Z := h :: replicate 15 0.

Lemma name1_inj : Inj eq eq (fun h : Z => [h]).
Proof. by intros h h' [= ->]. Qed.

(** Two tables; the client of task 7 has already waited once.  Task 7 keeps
    slot 1, and the name of task 5 is still in slot 0. *)
Lemma task_waits_where_it_is_woken_witness :
  let evs := [EDaemon (OSetTable [slot_of 1 0 5; slot_of 2 5 7] 1000 0); ECall true; EEnd;
              EDaemon (OSetTable [slot_of 2 0 7] 1000 0)] in
  let s := @srun stable_sort (name1 7) evs no_names in
  asleep s = None /\ task_hash_to_shm_idx (daemon s) !! 7 = Some 1 /\
  exists shm t cur m', asleep (@sstep stable_sort (name1 7) s (ECall true)) = Some (1, cur) /\
    ttsched_shm (daemon s) = Some shm /\ tasks shm !! Z.to_nat 1 = Some t /\
    slot_counter t = cur /\
    wake_task 7 (daemon s) = (m', [Wake 1 1]) /\
    exists shm' t', ttsched_shm m' = Some shm' /\ tasks shm' !! Z.to_nat 1 = Some t' /\
      slot_counter t' = u32 (cur + 1) /\ slot_counter t' <> cur.
Proof.
  intros evs s. split_and!; [by vm_compute|by vm_compute|].
  apply (@task_waits_where_it_is_woken stable_sort stable_sort_laws (fun h => [h])).
  - apply name1_inj.
  - repeat constructor.
  - repeat constructor.
  - vm_compute. done.
  - done.
  - done.
  - by vm_compute.
  - by vm_compute.
Defined.

(** C27. Publishing a table, when each hash stands for one name: a task that had
    an index keeps it.  Every other task takes, in offset order, the lowest
    index still free: each one below it is held by a task that kept it or by a
    task that comes earlier, and so are all 32 when a task gets none.  So all
    tasks have one when they are at most 32, only the table's tasks do, two
    never share one, the indices stay below the published count, and every
    waiter is woken.  A running daemon is left with one thread per CPU of the
    table, which has the CPU's slots in offset order - with an idle one when
    the table is empty -, and the threads of a stopped one stay. *)
Theorem set_schedule_table_assigns_slots `{!StdSort, !StdSortLaws} name_of os mem slots hp ep s :
  Inj eq eq name_of -> Forall (op_named name_of) os -> names_length (tasks mem) ->
  Forall (entry_named name_of) slots ->
  let m := execs os (TimerMaster (Some mem)) in
  ttsched_shm m = Some s ->
  let m' := (set_schedule_table slots hp ep m).1 in
  let idx := task_hash_to_shm_idx m' in
  (forall h i, h ∈ hashes slots -> task_hash_to_shm_idx m !! h = Some i -> idx !! h = Some i) /\
  (forall h, is_Some (idx !! h) -> h ∈ hashes slots) /\
  ((size (list_to_set (hashes slots) : gset Z) <= 32)%nat ->
   forall h, h ∈ hashes slots -> is_Some (idx !! h)) /\
  (forall h j, h ∈ hashes slots -> task_hash_to_shm_idx m !! h = None -> 0 <= j < default 32 (idx !! h) ->
   exists h', idx !! h' = Some j /\
     (is_Some (task_hash_to_shm_idx m !! h') \/ earlier (hashes (std_sort offset_ns slots)) h' h)) /\
  (forall h h' i, idx !! h = Some i -> idx !! h' = Some i -> h = h') /\
  (exists s', ttsched_shm m' = Some s' /\ magic s' = TIMPANI_TTSCHED_MAGIC /\
     generation s' = u32 (generation s + 1) /\ n_tasks s' <= 32 /\
     forall h i, idx !! h = Some i -> 0 <= i < n_tasks s') /\
  (set_schedule_table slots hp ep m).2 = wake_all 32 /\
  (running m = true -> slots <> [] ->
   running m' = true /\ forall w, w ∈ cpu_threads m' <->
     exists c, let l := filter (fun e => cpu e = c) (std_sort offset_ns slots) in
       l <> [] /\ StronglySorted (fun a b => offset_ns a <= offset_ns b) l /\
       w = CpuThread c l (u64 (hp * 1000)) ep) /\
  (running m = true -> slots = [] -> running m' = true /\ cpu_threads m' = [IdlePoll]) /\
  (running m = false -> running m' = false /\ cpu_threads m' = cpu_threads m).
Proof.
  intros Hinj Hos Hl He m Hs m' idx.
  destruct (execs_ok name_of os mem Hinj Hos Hl) as [Hm _]. destruct (Hm s Hs) as [Hok _].
  destruct (set_table_shm name_of slots hp ep m s Hinj He Hs Hok)
    as (s' & Hs' & Hok' & (H1 & H2 & H3) & H4 & H5 & H6).
  fold m' in Hs', Hok', H2, H4, H5, H6. fold idx in Hok', H2, H4, H5, H6.
  destruct (total_slots_spec idx) as (_ & Hlt & _). pose proof Hok' as [_ Hmap].
  split_and!; auto.
  - intros h j Hh Hno. assert (Eidx : idx = (publish_table (std_sort offset_ns slots) (task_hash_to_shm_idx m) s).1).
    { unfold idx, m', set_schedule_table. rewrite Hs. destruct (publish_table _ _ _) as [idx2 s2]. cbn [fst].
      by destruct (restart_shm (Master (std_sort offset_ns slots) (u64 (hp * 1000)) ep (running m)
        (table_pending m) (cpu_threads m) idx2 (Some s2))) as [_ ->]. }
    rewrite Eidx. apply (publish_table_lowest name_of); [done|done|by apply entries_sorted_named| |done].
    unfold hashes. by rewrite std_sort_perm.
  - intros h h' i Hh Hh'. by apply (owns_inj name_of Hinj (tasks s') h h' i); apply Hmap.
  - exists s'. split_and!; auto; [rewrite H2; by eapply total_slots_le|].
    intros h i Hi. rewrite H2. split; [|eauto]. by destruct (Hmap h i Hi) as [? _]; lia.
  - unfold set_schedule_table. rewrite Hs. by destruct (publish_table _ _ _).
  - intros Hrun Hne. unfold m', set_schedule_table. rewrite Hs.
    destruct (publish_table _ _ _) as [idx2 s2]. cbn [fst]. unfold restart.
    cbn [running]. rewrite Hrun. cbn [start stop slot_table hyperperiod_ns epoch_ns running cpu_threads].
    split; [done|]. intros w. by apply spawn_threads.
  - intros Hrun ->. unfold m', set_schedule_table. rewrite Hs.
    destruct (publish_table _ _ _) as [idx2 s2]. cbn [fst]. unfold restart. cbn [running]. rewrite Hrun. cbn.
    pose proof (std_sort_perm offset_ns (@nil SlotEntry)) as Hnil. apply Permutation_nil_r in Hnil. unfold spawn. cbn. by rewrite Hnil.
  - intros Hrun. unfold m', set_schedule_table. rewrite Hs.
    destruct (publish_table _ _ _) as [idx2 s2]. cbn [fst]. unfold restart. cbn [running]. by rewrite Hrun.
Qed.

Lemma set_schedule_table_assigns_slots_witness :
  let os := [OStart; OSetTable [slot_of 1 0 5; slot_of 2 5 7] 1000 0] in
  let m := @execs stable_sort os (TimerMaster (Some no_names)) in
  let slots := [slot_of 2 3 9; slot_of 1 8 7; slot_of 2 0 7] in
  let m' := (@set_schedule_table stable_sort slots 2000 0 m).1 in
  running m = true /\
  (forall h i, h ∈ hashes slots -> task_hash_to_shm_idx m !! h = Some i ->
     task_hash_to_shm_idx m' !! h = Some i) /\
  task_hash_to_shm_idx m' !! 7 = Some 1 /\ task_hash_to_shm_idx m' !! 9 = Some 0.
Proof.
  intros os m slots m'. split; [by vm_compute|]. split; [|split; by vm_compute].
  destruct (ttsched_shm m) as [s|] eqn:Hs; [|by vm_compute in Hs].
  refine (proj1 (@set_schedule_table_assigns_slots stable_sort stable_sort_laws (fun h => [h])
    os no_names slots 2000 0 s name1_inj _ _ _ Hs)); repeat constructor.
Defined.

(** C26. A timer thread: its first hyperperiod starts now when there is no
    epoch, at the epoch when that is still to come, and otherwise at the first
    instant after now that is a whole number of hyperperiods past the epoch.
    Its [n]-th iteration then sleeps until start + (n / slots) hyperperiods +
    the offset of slot n mod slots, publishes that slot, announces the start
    of the next one as a delay from that target, and wakes the slot's task;
    the targets never decrease. *)
Theorem cpu_thread_fires_in_phase `{!StdSort, !StdSortLaws} slots hp ep now monos :
  let ss := std_sort offset_ns slots in
  let start := first_hyperperiod ep now hp in
  slots <> [] -> 0 < hp -> 0 <= ep -> 0 <= now -> now + hp < 2 ^ 64 ->
  Forall (fun e => 0 <= offset_ns e < hp) slots ->
  start + (zlen monos / zlen ss + 1) * hp < 2 ^ 64 ->
  (ep = 0 -> start = now) /\ (now <= ep -> ep <> 0 -> start = ep) /\
  (0 < ep < now -> now < start <= now + hp /\ (start - ep) mod hp = 0) /\
  let r := cpu_thread_loop slots hp ep now monos in
  length r = length monos /\
  (forall n mono, monos !! n = Some mono ->
     exists e, ss !! Z.to_nat (Z.of_nat n mod zlen ss) = Some e /\
       r !! n = Some (actions ss start hp (Z.of_nat n) mono e)) /\
  forall n, 0 <= n -> start <= target ss start hp n <= target ss start hp (n + 1).
Proof.
  intros ss start Hne Hhp Hep Hnow Hov Hoff Hb.
  destruct (first_hyperperiod_spec ep now hp Hep Hnow Hhp Hov) as (H1 & H2 & H3). fold start in H1, H2, H3.
  assert (Hss : ss <> []).
  { intros E. apply Hne, Permutation_nil_r. rewrite <- E. symmetry. apply std_sort_perm. }
  assert (Hoff' : Forall (fun e => 0 <= offset_ns e < hp) ss) by (unfold ss; by rewrite std_sort_perm).
  assert (Hst : 0 <= start).
  { destruct (decide (ep = 0)); [rewrite H1; lia|].
    destruct (decide (now <= ep)); [rewrite H2; lia|]. destruct H3; lia. }
  unfold cpu_thread_loop. fold ss. destruct (Nat.eqb_spec (length ss) 0) as [E|_]; [by destruct ss|].
  rewrite (proj2 (Z.eqb_neq hp 0)) by lia. cbn [orb].
  pose proof (fire_all_at ss start hp Hss Hhp Hst Hoff' monos 0 ltac:(lia) Hb) as Hf.
  rewrite Zmod_0_l, Zdiv_0_l, Z.mul_0_l, Z.add_0_r in Hf.
  destruct Hf as [Hlen Hat]. split_and!; auto. intros n Hn. split.
  - by apply target_range.
  - apply target_mono; auto. apply std_sort_sorted.
Qed.

Lemma cpu_thread_fires_in_phase_witness :
  let slots := [slot_of 1 500 7; slot_of 1 0 5] in
  first_hyperperiod 1000 6500 2000 = 7000 /\
  @cpu_thread_loop stable_sort slots 2000 1000 6500 [10; 600; 2010] =
    [[SleepUntil 7000; UpdateCurrentSlot 1 0; UpdateNextTtStart 1 510; WakeTask 5];
     [SleepUntil 7500; UpdateCurrentSlot 1 0; UpdateNextTtStart 1 2100; WakeTask 7];
     [SleepUntil 9000; UpdateCurrentSlot 1 0; UpdateNextTtStart 1 2510; WakeTask 5]] /\
  6500 < first_hyperperiod 1000 6500 2000 <= 8500.
Proof.
  intros slots. split; [by vm_compute|]. split; [by vm_compute|].
  refine (proj1 (proj1 (proj2 (proj2 (@cpu_thread_fires_in_phase stable_sort stable_sort_laws
    slots 2000 1000 6500 [10; 600; 2010] _ _ _ _ _ _ _))) _)); try done; try lia.
  repeat constructor; cbn; lia.
Defined.

(** ** Where the protocol and its documentation part *)

(** A slot that passes to a new task starts again at 0, so a task that read
    the counter before the update can still fall asleep after it: it read 0 on
    slot 0, the slot now belongs to task 9, and its counter is 0 again. *)
Lemma reassigned_slot_counter_restarts :
  let s0 := @srun stable_sort (name1 5)
    [EDaemon (OSetTable [slot_of 1 0 5] 1000 0); EDaemon (OSetTable [slot_of 1 0 9] 1000 0);
     EDaemon (OSetTable [slot_of 1 0 5] 1000 0); ECall true] no_names in
  let s1 := @sstep stable_sort (name1 5) s0 (EDaemon (OSetTable [slot_of 1 0 9] 1000 0)) in
  asleep s0 = Some (0, 0) /\ asleep s1 = Some (0, 0) /\
  (ttsched_shm (daemon s1) ≫= fun m => slot_counter <$> tasks m !! 0%nat) = Some 0.
Proof. vm_compute. done. Qed.

(** A table update wakes every waiter; a task that looks at [magic] once the
    new table is published returns 0 although its slot has not fired. *)
Lemma table_update_returns_zero :
  let s := @srun stable_sort (name1 5)
    [EDaemon (OSetTable [slot_of 1 0 5] 1000 0); ECall true;
     EDaemon (OSetTable [slot_of 1 0 5] 1000 0)] no_names in
  asleep s = Some (0, 0) /\ (wait_finish (files (daemon s)) (task s)).2 = 0.
Proof. vm_compute. done. Qed.

(** After a restart that finds the old segment (the previous daemon died
    without its destructor) the generation starts again at 1: a client of the
    old daemon keeps its index into the new table. *)
Lemma generation_restarts :
  let s := @srun stable_sort (name1 5)
    [EDaemon (OSetTable [slot_of 1 0 5] 1000 0); ECall true; EEnd] no_names in
  match ttsched_shm (daemon s) with
  | None => False
  | Some old =>
      let m := (@set_schedule_table stable_sort [slot_of 1 0 9; slot_of 1 5 5] 1000 0
                  (TimerMaster (Some old))).1 in
      (wait_prepare (files m) true (name1 5) (task s)).2 = PWait 0 0 /\
      task_hash_to_shm_idx m !! 5 = Some 1
  end.
Proof. vm_compute. done. Qed.
