(* ===== verification/Segment.v ===== *)
(** * timer_master.cpp and libttsched.c: the wake-up segment, word by word

    A table update of [TimerMaster] and a call of [ttsched_wait_next_period]
    share the segment of [TtShm] and no lock.  Here the daemon's side is the
    sequence of its stores and [FUTEX_WAKE] calls, a task's side the sequence
    of its loads, and any number of tasks run between any two of them.  The
    daemon's updates and firings exclude each other ([schedule_mutex_]).  Loads
    and stores are sequentially consistent; [strncpy] and [strncmp] go byte by
    byte, upwards. *)
From stdpp Require Import prelude gmap list relations sorting.
From Stdlib Require Import ZArith Lia.
From S2P Require Import Prelude TtShm TimerMaster.
Local Open Scope Z_scope.

(** ** The daemon's side *)

Inductive word_store :=
  | StMagic (v : Z)
  | StBump (i : nat)
  | StByte (i k : nat) (b : Z)
  | StZero (i : nat)
  | StCount (n : Z)
  | StGeneration.

Definition set_byte (k : nat) (b : Z) (t : timpani_task_slot) : timpani_task_slot :=
  TaskSlot (<[k := b]> (slot_name t)) (slot_counter t).

Definition apply_store (w : word_store) (s : timpani_ttsched_shm) : timpani_ttsched_shm :=
  match w with
  | StMagic v => with_magic s v
  | StBump i => with_tasks s (alter bump i (tasks s))
  | StByte i k b => with_tasks s (alter (set_byte k b) i (tasks s))
  | StZero i => with_tasks s (alter zero_counter i (tasks s))
  | StCount n => TtShm (magic s) n (generation s) (tasks s)
  | StGeneration => TtShm (magic s) (n_tasks s) (u32 (generation s + 1)) (tasks s)
  end.

Inductive instr :=
  | Do (w : word_store)
  | WakeUp (w : wake).

(** The memory after an uninterrupted run, and the wakes on the way. *)
Definition run_instr (s : timpani_ttsched_shm) (x : instr) : timpani_ttsched_shm :=
  match x with Do w => apply_store w s | WakeUp _ => s end.
Definition run_code (c : list instr) (s : timpani_ttsched_shm) : timpani_ttsched_shm :=
  foldl run_instr s c.
Definition code_wakes (c : list instr) : list wake :=
  omap (fun x => match x with WakeUp w => Some w | Do _ => None end) c.

(** [__atomic_fetch_add(&counter, 1)], then [FUTEX_WAKE] of up to [n]. *)
Definition bump_code (n i : Z) : list instr :=
  [Do (StBump (Z.to_nat i)); WakeUp (Wake i n)].

(** [strncpy(name, task_name, 15); name[15] = 0] *)
Definition name_code (i : nat) (name : list Z) : list instr :=
  ((fun k => Do (StByte i k (nth k (c_prefix 15 name) 0))) <$> seq 0 15) ++ [Do (StByte i 15 0)].

(** The stores of the two passes; what they decide does not depend on the
    memory ([p_tasks] is left empty). *)
Definition first_entry_code (prev : gmap Z Z) (p : publish) (e : SlotEntry) : list instr :=
  match p_map p !! task_id_hash e with
  | Some _ => []
  | None =>
      match prev !! task_id_hash e with
      | Some i =>
          if (i <? Z.of_nat TIMPANI_MAX_TASKS) && negb (nth (Z.to_nat i) (p_used p) false)
          then name_code (Z.to_nat i) (task_name e) else []
      | None => []
      end
  end.

Fixpoint first_code (prev : gmap Z Z) (p : publish) (es : list SlotEntry) : list instr :=
  match es with
  | [] => []
  | e :: es => first_entry_code prev p e ++ first_code prev (first_pass_entry prev p e) es
  end.

Fixpoint second_code (p : publish) (es : list SlotEntry) : list instr :=
  match es with
  | [] => []
  | e :: es =>
      match p_map p !! task_id_hash e with
      | Some _ => second_code p es
      | None =>
          let idx := lowest_free (p_used p) in
          if (TIMPANI_MAX_TASKS <=? idx)%nat then [] else
          name_code idx (task_name e) ++ Do (StZero idx) ::
          second_code
            (Publish (<[task_id_hash e := Z.of_nat idx]> (p_map p)) (<[idx := true]> (p_used p))
               (alter (zero_counter ∘ set_name (task_name e)) idx (p_tasks p))) es
      end
  end.

Definition no_slots : publish := Publish ∅ (replicate TIMPANI_MAX_TASKS false) [].
Definition first_pass_all (table : list SlotEntry) (prev : gmap Z Z) : publish :=
  foldl (first_pass_entry prev) no_slots table.
Definition new_mapping (table : list SlotEntry) (prev : gmap Z Z) : gmap Z Z :=
  p_map (second_pass (first_pass_all table prev) table).

Definition bumps_code : list instr :=
  (seq 0 TIMPANI_MAX_TASKS) ≫= (fun i => bump_code INT_MAX (Z.of_nat i)).

Definition publish_code (table : list SlotEntry) (prev : gmap Z Z) : list instr :=
  Do (StMagic 0) :: bumps_code ++
  first_code prev no_slots table ++ second_code (first_pass_all table prev) table ++
  [Do (StCount (total_slots (new_mapping table prev))); Do StGeneration;
   Do (StMagic TIMPANI_TTSCHED_MAGIC)].

(** [wake_task] of task [h]. *)
Definition fire_code (m : gmap Z Z) (h : Z) : list instr :=
  match m !! h with Some i => bump_code 1 i | None => [] end.

(** The destructor: no counter changes. *)
Definition destroy_code (s : timpani_ttsched_shm) : list instr :=
  let n := if Z.of_nat TIMPANI_MAX_TASKS <? n_tasks s
           then Z.of_nat TIMPANI_MAX_TASKS else n_tasks s in
  Do (StMagic 0) :: (WakeUp <$> wake_all (Z.to_nat n)).

(** ** A task's side *)

(** Who called [find_task_slot]: [ttsched_init] (called again after the magic
    was found missing, or not), or the call itself. *)
Inductive lookup_for :=
  | InInit (again : bool)
  | InWait.

(** The next access to the segment. *)
Inductive call_point :=
  | Start
  | FindMagic (f : lookup_for)
  | FindCount (f : lookup_for)
  | FindByte (f : lookup_for) (i : nat) (n : Z) (k : nat)
  | InitGeneration (again : bool)
  | Magic1
  | Magic2
  | Generation1
  | Generation2
  | Counter
  | FutexWait (current : Z)
  | Asleep (current : Z)
  | Final
  | Returned (v : Z).

Record caller := Reader { r_name : list Z; r_client : client; r_at : call_point }.

Definition goto (r : caller) (l : call_point) : caller := Reader (r_name r) (r_client r) l.
Definition with_client (r : caller) (c : client) (l : call_point) : caller := Reader (r_name r) c l.
Definition set_idx (i : Z) (c : client) : client := Client (g_shm c) i (g_shm_generation c).
Definition set_generation (g : Z) (c : client) : client := Client (g_shm c) (g_task_idx c) g.

(** The end of [find_task_slot]. *)
Definition find_returns (f : lookup_for) (i : Z) (r : caller) : caller :=
  match f with
  | InInit again => with_client r (set_idx i (r_client r)) (InitGeneration again)
  | InWait => with_client r (set_idx i (r_client r)) (if i <? 0 then Returned (-1) else Counter)
  end.

(** The loop head: [i < n && i < 32]. *)
Definition find_next (f : lookup_for) (i : nat) (n : Z) (r : caller) : caller :=
  if (Z.of_nat i <? n) && (i <? TIMPANI_MAX_TASKS)%nat
  then goto r (FindByte f i n 0) else find_returns f (-1) r.

(** One step of [strncmp(tasks[i].name, name, 15)]. *)
Definition compare_byte (f : lookup_for) (i : nat) (n : Z) (k : nat) (x y : option Z) (r : caller)
  : caller :=
  match x, y with
  | Some x, Some y =>
      if x =? y then
        if (x =? 0) || (14 <=? k)%nat then find_returns f (Z.of_nat i) r else goto r (FindByte f i n (S k))
      else find_next f (S i) n r
  | _, _ => find_next f (S i) n r
  end.

(** [shm_open] and [mmap] of the object the daemon keeps ([maps]: they
    succeed), up to the lookup. *)
Definition open_segment (maps again : bool) (r : caller) (c : client) : caller :=
  if maps then with_client r (Client (Some 0%nat) (g_task_idx c) (g_shm_generation c)) (FindMagic (InInit again))
  else with_client r (Client None (g_task_idx c) (g_shm_generation c)) (Returned (-1)).

Definition after_generation (r : caller) : caller :=
  goto r (if g_task_idx (r_client r) <? 0 then FindMagic InWait else Counter).

Definition slot_at_idx (s : timpani_ttsched_shm) (c : client) : option timpani_task_slot :=
  tasks s !! Z.to_nat (g_task_idx c).

Definition step_reader (maps : bool) (s : timpani_ttsched_shm) (r : caller) : caller :=
  let c := r_client r in
  match r_at r with
  | Start => match g_shm c with None => open_segment maps false r c | Some _ => goto r Magic1 end
  | FindMagic f =>
      if magic s =? TIMPANI_TTSCHED_MAGIC then goto r (FindCount f) else find_returns f (-1) r
  | FindCount f => find_next f 0 (n_tasks s) r
  | FindByte f i n k =>
      compare_byte f i n k (tasks s !! i ≫= fun t => slot_name t !! k) (r_name r !! k) r
  | InitGeneration again =>
      with_client r (set_generation (generation s) c) (if again then Magic2 else Magic1)
  | Magic1 =>
      if magic s =? TIMPANI_TTSCHED_MAGIC then goto r Generation1
      else open_segment maps true r (Client None (-1) (g_shm_generation c))
  | Magic2 =>
      if magic s =? TIMPANI_TTSCHED_MAGIC then goto r Generation1 else goto r (Returned (-1))
  | Generation1 =>
      if generation s =? g_shm_generation c then after_generation r else goto r Generation2
  | Generation2 => after_generation (with_client r (set_idx (-1) (set_generation (generation s) c)) Generation2)
  | Counter =>
      match slot_at_idx s c with
      | Some t => goto r (FutexWait (slot_counter t))
      | None => goto r (Returned (-1))
      end
  | FutexWait current =>
      match slot_at_idx s c with
      | Some t => goto r (if slot_counter t =? current then Asleep current else Final)
      | None => goto r Final
      end
  | Final =>
      if magic s =? TIMPANI_TTSCHED_MAGIC then goto r (Returned 0)
      else with_client r (Client None (-1) (g_shm_generation c)) (Returned (-1))
  | Asleep _ | Returned _ => r
  end.

Definition asleep_on (i : Z) (r : caller) : bool :=
  match r_at r with Asleep _ => g_task_idx (r_client r) =? i | _ => false end.

(** What a task can do by itself: an access, a new call, and the two ways to
    leave the futex without a [FUTEX_WAKE] - a signal ([EINTR], and it waits
    again) and a spurious wake-up. *)
Inductive reader_step (s : timpani_ttsched_shm) : caller -> caller -> Prop :=
  | reader_access maps r : reader_step s r (step_reader maps s r)
  | reader_call r v : r_at r = Returned v -> reader_step s r (goto r Start)
  | reader_signal r cur : r_at r = Asleep cur -> reader_step s r (goto r (FutexWait cur))
  | reader_spurious r cur : r_at r = Asleep cur -> reader_step s r (goto r Final).

(** ** Both sides *)

Record seg := Seg {
  memory : timpani_ttsched_shm;
  mapping : gmap Z Z;
  code : list instr;
  readers : list caller;
  closing : bool;
}.

(** [FUTEX_WAKE]: any [n] of the tasks that sleep on slot [i]. *)
Inductive futex_wake (i : Z) : Z -> list caller -> list caller -> Prop :=
  | wake_none n rs :
      n <= 0 \/ Forall (fun r => asleep_on i r = false) rs -> futex_wake i n rs rs
  | wake_some n rs k r rs' :
      0 < n -> rs !! k = Some r -> asleep_on i r = true ->
      futex_wake i (n - 1) (<[k := goto r Final]> rs) rs' -> futex_wake i n rs rs'.

Section Steps.
Context (T : list SlotEntry -> Prop).

(** A task's step, an update with a table of [T], a firing, the end of the
    daemon, and the next instruction of the one under way. *)
Inductive seg_step : seg -> seg -> Prop :=
  | seg_publish table mem m rs :
      T table ->
      seg_step (Seg mem m [] rs false)
        (Seg mem (new_mapping table m) (publish_code table m) rs false)
  | seg_fire h mem m rs :
      seg_step (Seg mem m [] rs false) (Seg mem m (fire_code m h) rs false)
  | seg_close mem m rs :
      seg_step (Seg mem m [] rs false) (Seg mem m (destroy_code mem) rs true)
  | seg_store w c mem m rs b :
      seg_step (Seg mem m (Do w :: c) rs b) (Seg (apply_store w mem) m c rs b)
  | seg_wake w c mem m rs rs' b :
      futex_wake (wake_idx w) (wake_count w) rs rs' ->
      seg_step (Seg mem m (WakeUp w :: c) rs b) (Seg mem m c rs' b)
  | seg_reader k r r' mem m c rs b :
      rs !! k = Some r -> reader_step mem r r' ->
      seg_step (Seg mem m c rs b) (Seg mem m c (<[k := r']> rs) b).
End Steps.

(** The constructor has run and tasks named [names] have not called yet. *)
Definition fresh (name : list Z) : caller := Reader name client0 (Returned (-1)).
Definition constructed (mem : timpani_ttsched_shm) (names : list (list Z)) : seg :=
  Seg (TtShm 0 0 1 (tasks mem)) ∅ [] (fresh <$> names) false.

(** ** The stores, uninterrupted, are the operations of [TimerMaster] *)

Lemma run_code_app c d s : run_code (c ++ d) s = run_code d (run_code c s).
Proof. apply foldl_app. Qed.

Lemma code_wakes_app c d : code_wakes (c ++ d) = code_wakes c ++ code_wakes d.
Proof. apply omap_app. Qed.

Lemma with_tasks_same s ts ts' : with_tasks (with_tasks s ts) ts' = with_tasks s ts'.
Proof. done. Qed.

Lemma with_own_tasks s : with_tasks s (tasks s) = s.
Proof. by destruct s. Qed.

(** Writing [g k] at the indices [k] below [n]. *)
Lemma fill_lookup (g : nat -> Z) (l : list Z) n k :
  foldl (fun (l : list Z) k => <[k := g k]> l) l (seq 0 n) !! k =
  if decide (k < n)%nat then (fun _ => g k) <$> l !! k else l !! k.
Proof.
  induction n as [|n IH].
  - done.
  - rewrite seq_S, foldl_app. cbn [foldl]. rewrite Nat.add_0_l, list_lookup_insert.
    assert (Hl : length (foldl (fun l k => <[k := g k]> l) l (seq 0 n)) = length l).
    { clear. generalize (seq 0 n). intros ks. revert l.
      induction ks as [|k ks IH]; intros l; [done|]. cbn [foldl]. by rewrite IH, length_insert. }
    rewrite Hl, IH. destruct (decide (n = k /\ n < length l)%nat) as [[-> Hn]|Hd].
    + rewrite decide_True by lia. by destruct (lookup_lt_is_Some_2 l k Hn) as [x ->].
    + destruct (decide (k < n)%nat), (decide (k < S n)%nat); try lia; try done.
      rewrite lookup_ge_None_2; [done|lia].
Qed.

Lemma strncpy_lookup dst src n k :
  (n <= length dst)%nat ->
  strncpy dst src n !! k = if decide (k < n)%nat then Some (nth k (c_prefix n src) 0) else dst !! k.
Proof.
  intros Hn. unfold strncpy. set (s := c_prefix n src).
  assert (length s <= n)%nat by apply length_c_prefix.
  destruct (decide (k < length s)%nat) as [Hk|Hk].
  - rewrite lookup_app_l, decide_True by lia.
    destruct (lookup_lt_is_Some_2 s k Hk) as [x Hx]. by rewrite Hx, (nth_lookup_Some _ _ _ _ Hx).
  - rewrite lookup_app_r by lia. case_decide as Hd.
    + rewrite lookup_app_l by (rewrite length_replicate; lia).
      rewrite lookup_replicate_2 by lia. by rewrite nth_overflow by lia.
    + rewrite lookup_app_r; rewrite length_replicate; [|lia].
      rewrite lookup_drop. f_equal. lia.
Qed.

Lemma run_bytes i (g : nat -> Z) ks s :
  run_code ((fun k => Do (StByte i k (g k))) <$> ks) s =
  with_tasks s (alter (fun t => TaskSlot (foldl (fun l k => <[k := g k]> l) (slot_name t) ks)
                                  (slot_counter t)) i (tasks s)).
Proof.
  revert s. induction ks as [|k ks IH]; intros s.
  - cbn [fmap list_fmap run_code foldl]. rewrite list_alter_id; [by rewrite with_own_tasks|].
    by intros [].
  - cbn [fmap list_fmap]. unfold run_code in *. cbn [foldl]. rewrite IH.
    cbn [run_instr apply_store with_tasks tasks]. unfold with_tasks. cbn. f_equal.
    by rewrite list_alter_alter_eq.
Qed.

Lemma run_name_code i name s :
  names_length (tasks s) ->
  run_code (name_code i name) s = with_tasks s (alter (set_name name) i (tasks s)).
Proof.
  intros [_ Hn]. unfold name_code. rewrite run_code_app, run_bytes.
  unfold run_code. cbn [foldl run_instr apply_store with_tasks tasks].
  unfold with_tasks. cbn [magic n_tasks generation tasks]. f_equal. rewrite list_alter_alter_eq.
  apply list_alter_ext; [|done]. intros t Ht. pose proof (Forall_lookup_1 _ _ _ _ Hn Ht) as Hl. cbn in Hl.
  unfold set_name, set_byte, compose. cbn [slot_name slot_counter]. f_equal. f_equal.
  apply list_eq. intros k.
  rewrite (fill_lookup (fun k => nth k (c_prefix 15 name) 0) (slot_name t) 15 k).
  rewrite strncpy_lookup by lia. case_decide; [|done].
  by destruct (lookup_lt_is_Some_2 (slot_name t) k ltac:(lia)) as [x ->].
Qed.

(** The daemon bumps every counter. *)
Lemma run_bumps n s :
  (n <= length (tasks s))%nat ->
  run_code (seq 0 n ≫= (fun i => bump_code INT_MAX (Z.of_nat i))) s =
  with_tasks s ((bump <$> take n (tasks s)) ++ drop n (tasks s)).
Proof.
  induction n as [|n IH]; intros Hn; [by rewrite with_own_tasks|].
  rewrite seq_S, bind_app, run_code_app, IH by lia. cbn [mbind list_bind app bump_code].
  unfold run_code. cbn [foldl run_instr apply_store with_tasks tasks].
  rewrite with_tasks_same, Nat.add_0_l, Nat2Z.id. f_equal.
  destruct (lookup_lt_is_Some_2 (tasks s) n Hn) as [t Ht].
  rewrite (take_S_r _ _ _ Ht), fmap_app, (drop_S _ _ _ Ht), <- app_assoc.
  assert (n = length (bump <$> take n (tasks s)) + 0)%nat as E
    by (rewrite length_fmap, length_take; lia).
  rewrite E at 1. by rewrite alter_app_r.
Qed.

(** The decisions of the two passes do not look at the memory. *)
Definition same_choice (p q : publish) : Prop := p_map p = p_map q /\ p_used p = p_used q.

Lemma run_first_code prev es p q s :
  same_choice p q -> names_length (p_tasks q) ->
  let q' := foldl (first_pass_entry prev) q es in
  run_code (first_code prev p es) (with_tasks s (p_tasks q)) = with_tasks s (p_tasks q') /\
  same_choice (foldl (first_pass_entry prev) p es) q' /\ names_length (p_tasks q').
Proof.
  revert p q. induction es as [|e es IH]; intros p q [Hm Hu] Hn; [done|].
  cbn [foldl first_code]. rewrite run_code_app.
  assert (H : run_code (first_entry_code prev p e) (with_tasks s (p_tasks q)) =
      with_tasks s (p_tasks (first_pass_entry prev q e)) /\
    same_choice (first_pass_entry prev p e) (first_pass_entry prev q e) /\
    names_length (p_tasks (first_pass_entry prev q e))).
  { unfold first_entry_code, first_pass_entry, same_choice. rewrite <- Hm, <- Hu.
    destruct (p_map p !! task_id_hash e); [done|]. destruct (prev !! task_id_hash e) as [i|]; [|done].
    destruct (_ && _); [|done]. cbn [p_map p_used p_tasks].
    rewrite run_name_code by done. split_and!; try done.
    apply names_length_alter; [|done]. intros t. apply length_set_name. }
  destruct H as (-> & Hs & Hl). by apply IH.
Qed.

Lemma run_second_code es p q s :
  same_choice p q -> names_length (p_tasks q) ->
  let q' := second_pass q es in
  run_code (second_code p es) (with_tasks s (p_tasks q)) = with_tasks s (p_tasks q') /\
  same_choice (second_pass p es) q'.
Proof.
  revert p q. induction es as [|e es IH]; intros p q [Hm Hu] Hn; [done|].
  cbn [second_pass second_code]. rewrite <- Hm, <- Hu.
  destruct (p_map p !! task_id_hash e); [by apply IH|].
  destruct (_ <=? _)%nat; [done|]. set (idx := lowest_free (p_used p)).
  rewrite run_code_app, run_name_code by done. rewrite with_tasks_same.
  unfold run_code. cbn [foldl run_instr apply_store with_tasks tasks]. rewrite with_tasks_same.
  rewrite list_alter_alter_eq.
  set (q1 := Publish _ _ (alter _ idx (p_tasks q))). apply (IH _ q1); [done|].
  apply names_length_alter; [|done]. intros t. apply length_set_name.
Qed.

Lemma bumps_wakes : code_wakes bumps_code = wake_all TIMPANI_MAX_TASKS.
Proof. reflexivity. Qed.

Lemma name_code_wakes i name : code_wakes (name_code i name) = [].
Proof. reflexivity. Qed.

Lemma passes_wake_nobody prev es p :
  code_wakes (first_code prev p es) = [] /\ code_wakes (second_code p es) = [].
Proof.
  split; revert p; induction es as [|e es IH]; intros p; try done; cbn [first_code second_code].
  - rewrite code_wakes_app, IH, app_nil_r. unfold first_entry_code.
    repeat (case_match; try done).
  - destruct (_ !! _); [apply IH|]. case_match; [done|].
    rewrite code_wakes_app, name_code_wakes. apply IH.
Qed.

Lemma publish_code_refines table prev s :
  names_length (tasks s) ->
  (new_mapping table prev, run_code (publish_code table prev) s) = publish_table table prev s /\
  code_wakes (publish_code table prev) = wake_all TIMPANI_MAX_TASKS.
Proof.
  intros [Hl Hn]. split.
  - unfold publish_table, publish_code. set (p0 := Publish ∅ _ (bump <$> tasks s)).
    assert (Hn0 : names_length (p_tasks p0)).
    { unfold p0. cbn [p_tasks]. split; [by rewrite length_fmap|].
      apply Forall_fmap. eapply Forall_impl; [done|]. auto. }
    change (Do (StMagic 0) :: ?c) with ([Do (StMagic 0)] ++ c). rewrite !run_code_app.
    replace (run_code bumps_code _) with (with_tasks (with_magic s 0) (p_tasks p0)).
    2: { unfold bumps_code. rewrite run_bumps by (unfold run_code; cbn [foldl run_instr apply_store with_magic tasks]; lia).
         unfold run_code. cbn [foldl run_instr apply_store with_magic tasks].
         by rewrite <- Hl, firstn_all, drop_all, app_nil_r. }
    destruct (run_first_code prev table no_slots p0 (with_magic s 0) ltac:(done) Hn0) as (-> & H1 & Hn1).
    destruct (run_second_code table _ _ (with_magic s 0) H1 Hn1) as [E H2].
    unfold first_pass_all. rewrite E. destruct H2 as [H2 _].
    unfold new_mapping, first_pass_all. rewrite H2. done.
  - unfold publish_code. change (Do (StMagic 0) :: ?c) with ([Do (StMagic 0)] ++ c).
    rewrite !code_wakes_app, bumps_wakes.
    destruct (passes_wake_nobody prev table no_slots) as [-> _].
    by destruct (passes_wake_nobody prev table (first_pass_all table prev)) as [_ ->].
Qed.

Lemma fire_code_refines h m s :
  ttsched_shm m = Some s ->
  let c := fire_code (task_hash_to_shm_idx m) h in
  ttsched_shm (wake_task h m).1 = Some (run_code c s) /\ (wake_task h m).2 = code_wakes c.
Proof.
  intros Hs. unfold wake_task, fire_code. rewrite Hs.
  by destruct (task_hash_to_shm_idx m !! h).
Qed.

Lemma destroy_code_refines m s :
  ttsched_shm m = Some s ->
  destroy m = (Some (run_code (destroy_code s) s), code_wakes (destroy_code s)).
Proof.
  intros Hs. unfold destroy, destroy_code. rewrite Hs.
  set (ws := wake_all _). unfold run_code. cbn [foldl run_instr apply_store].
  f_equal.
  - f_equal. generalize (with_magic s 0). induction ws as [|w ws IH]; intros s'; [done|]. apply IH.
  - induction ws as [|w ws IH]; [done|].
    change (w :: ws = w :: code_wakes (Do (StMagic 0) :: (WakeUp <$> ws))). by f_equal.
Qed.

(** ** The loads, uninterrupted, are the call of [TtShm] *)

Section Alone.
Context (maps : bool) (s : timpani_ttsched_shm).

Definition alone : relation caller := rtc (fun r r' => r' = step_reader maps s r).

Lemma alone_step r r' : alone (step_reader maps s r) r' -> alone r r'.
Proof. intros H. by eapply rtc_l. Qed.

Lemma found_goto f i r l : find_returns f i (goto r l) = find_returns f i r.
Proof. by destruct f. Qed.
Lemma find_next_goto f i n r l : find_next f i n (goto r l) = find_next f i n r.
Proof. unfold find_next. by rewrite found_goto. Qed.

Lemma compare_alone f i n k t r :
  tasks s !! i = Some t -> (k <= 14)%nat ->
  alone (goto r (FindByte f i n k))
    (if strncmp_eq (15 - k) (drop k (slot_name t)) (drop k (r_name r))
     then find_returns f (Z.of_nat i) r else find_next f (S i) n r).
Proof.
  intros Ht Hk. remember (14 - k)%nat as j eqn:Ej. revert k Hk Ej.
  induction j as [|j IH]; intros k Hk Ej; apply alone_step; cbn [step_reader goto r_at r_name].
  all: rewrite Ht; cbn [mbind option_bind]; unfold compare_byte.
  all: destruct (slot_name t !! k) as [x|] eqn:Hx;
    [rewrite (drop_S _ _ _ Hx); destruct (r_name r !! k) as [y|] eqn:Hy;
     [rewrite (drop_S _ _ _ Hy)|rewrite (drop_ge (r_name r) k) by by apply lookup_ge_None_1]
    |rewrite (drop_ge (slot_name t) k) by by apply lookup_ge_None_1].
  all: replace (15 - k)%nat with (S (14 - k)) by lia; cbn [strncmp_eq].
  all: rewrite ?find_next_goto; try apply rtc_refl.
  all: destruct (x =? y); [|apply rtc_refl].
  all: destruct (x =? 0); cbn [orb]; [rewrite found_goto; apply rtc_refl|].
  - rewrite (proj2 (Nat.leb_le 14 k)) by lia. rewrite found_goto.
    replace (14 - k)%nat with 0%nat by lia. apply rtc_refl.
  - rewrite (proj2 (Nat.leb_gt 14 k)) by lia.
    replace (14 - k)%nat with (15 - S k)%nat by lia.
    apply (IH (S k)); lia.
Qed.

Lemma find_alone f i n r :
  length (tasks s) = TIMPANI_MAX_TASKS ->
  alone (find_next f i n r) (find_returns f (find_from (drop i (tasks s)) (Z.of_nat i) n (r_name r)) r).
Proof.
  intros Hl. remember (32 - i)%nat as j eqn:Ej. revert i Ej.
  induction j as [|j IH]; intros i Ej; unfold find_next.
  - rewrite (drop_ge (tasks s) i) by (rewrite Hl; unfold TIMPANI_MAX_TASKS; lia).
    rewrite (proj2 (Nat.ltb_ge i TIMPANI_MAX_TASKS)) by (unfold TIMPANI_MAX_TASKS; lia).
    rewrite andb_false_r. apply rtc_refl.
  - destruct (lookup_lt_is_Some_2 (tasks s) i) as [t Ht]; [rewrite Hl; unfold TIMPANI_MAX_TASKS; lia|].
    rewrite (drop_S _ _ _ Ht). cbn [find_from].
    rewrite (proj2 (Nat.ltb_lt i TIMPANI_MAX_TASKS)) by (unfold TIMPANI_MAX_TASKS; lia).
    rewrite (proj2 (Z.ltb_lt (Z.of_nat i) (Z.of_nat TIMPANI_MAX_TASKS))) by (unfold TIMPANI_MAX_TASKS; lia).
    rewrite !andb_true_r. destruct (Z.of_nat i <? n); [|apply rtc_refl].
    pose proof (compare_alone f i n 0 t r Ht ltac:(lia)) as Hc. rewrite !drop_0 in Hc.
    etransitivity; [exact Hc|]. destruct (strncmp_eq _ _ _); [apply rtc_refl|].
    replace (Z.of_nat i + 1) with (Z.of_nat (S i)) by lia. apply IH. lia.
Qed.

Lemma find_slot_alone f r :
  length (tasks s) = TIMPANI_MAX_TASKS ->
  alone (goto r (FindMagic f)) (find_returns f (find_task_slot s (r_name r)) r).
Proof.
  intros Hl. apply alone_step. cbn [step_reader goto r_at]. unfold find_task_slot.
  destruct (magic s =? TIMPANI_TTSCHED_MAGIC); cbn [negb].
  - apply alone_step. cbn [step_reader goto r_at].
    pose proof (find_alone f 0 (n_tasks s) r Hl) as H. by rewrite drop_0 in H.
  - rewrite found_goto. apply rtc_refl.
Qed.

(** What a task is at when [wait_prepare] is done with it. *)
Definition prepared_reader (name : list Z) (cp : client * prepared) : caller :=
  Reader name cp.1 (match cp.2 with PReturn => Returned (-1) | PWait _ cur => FutexWait cur end).

Lemma lookup_alone name c :
  length (tasks s) = TIMPANI_MAX_TASKS ->
  alone (Reader name c Generation1) (prepared_reader name (wait_lookup (fs_of s) name c s)).
Proof.
  intros Hl.
  assert (Hafter : forall c : client, alone (after_generation (Reader name c Generation1))
    (prepared_reader name
      (let c := if g_task_idx c <? 0
                then Client (g_shm c) (find_task_slot s name) (g_shm_generation c) else c in
       if g_task_idx c <? 0 then (c, PReturn) else
       match tasks s !! Z.to_nat (g_task_idx c) with
       | Some t => (c, PWait (g_task_idx c) (slot_counter t))
       | None => (c, PReturn)
       end))).
  { assert (Hread : forall c : client, (g_task_idx c <? 0) = false ->
      alone (Reader name c Counter) (prepared_reader name
        (match tasks s !! Z.to_nat (g_task_idx c) with
         | Some t => (c, PWait (g_task_idx c) (slot_counter t))
         | None => (c, PReturn)
         end))).
    { intros c1 _. apply alone_step. cbn [step_reader r_at r_client]. unfold slot_at_idx.
      destruct (tasks s !! _); apply rtc_refl. }
    clear c. intros c. unfold after_generation. cbn [r_client]. cbv zeta.
    destruct (g_task_idx c <? 0) eqn:Hi; cbn [g_task_idx].
    - etransitivity; [apply (find_slot_alone InWait); done|]. cbn [r_name find_returns r_client].
      destruct (find_task_slot s name <? 0) eqn:Hf; [apply rtc_refl|].
      by apply (Hread (Client (g_shm c) (find_task_slot s name) (g_shm_generation c))).
    - rewrite Hi. by apply Hread. }
  unfold wait_lookup. apply alone_step. cbn [step_reader r_at r_client].
  destruct (generation s =? g_shm_generation c); cbn [negb]; [apply Hafter|].
  apply alone_step. apply (Hafter (Client (g_shm c) (-1) (generation s))).
Qed.

Lemma init_alone name c again :
  length (tasks s) = TIMPANI_MAX_TASKS -> g_shm c = None ->
  alone (open_segment maps again (Reader name c Start) c)
    (Reader name (ttsched_init (fs_of s) maps name c)
       (if maps then if again then Magic2 else Magic1 else Returned (-1))).
Proof.
  intros Hl Hc. unfold open_segment, ttsched_init, fs_of. cbn [named objects].
  destruct maps; cbn [negb]; [|apply rtc_refl]. rewrite lookup_singleton_eq.
  set (c' := Client _ _ _).
  etransitivity; [apply (find_slot_alone (InInit again) (Reader name c' Start) Hl)|].
  apply alone_step, rtc_refl.
Qed.
End Alone.

(** A call that nothing interrupts does what [wait_prepare] says. *)
Lemma call_alone maps s name c :
  length (tasks s) = TIMPANI_MAX_TASKS -> g_shm c = None \/ g_shm c = Some 0%nat ->
  alone maps s (Reader name c Start) (prepared_reader name (wait_prepare (fs_of s) maps name c)).
Proof.
  intros Hl Hc. unfold wait_prepare.
  set (c1 := match g_shm c with None => _ | Some _ => _ end).
  assert (H1 : alone maps s (Reader name c Start)
    (Reader name c1 (match g_shm c1 with None => Returned (-1) | Some _ => Magic1 end)) /\
    (g_shm c1 = None \/ g_shm c1 = Some 0%nat)).
  { subst c1. destruct Hc as [Hc|Hc]; rewrite Hc.
    - assert (Hg : g_shm (ttsched_init (fs_of s) maps name c) = if maps then Some 0%nat else None).
      { unfold ttsched_init, fs_of. cbn. rewrite lookup_singleton_eq. by destruct maps. }
      split; [|rewrite Hg; destruct maps; auto].
      apply alone_step. cbn [step_reader r_at r_client]. rewrite Hc, Hg.
      etransitivity; [by apply init_alone|]. destruct maps; apply rtc_refl.
    - split; [|auto]. rewrite Hc. apply alone_step. cbn [step_reader r_at r_client]. rewrite Hc.
      apply rtc_refl. }
  clearbody c1. destruct H1 as [H1 Hg]. etransitivity; [exact H1|]. clear H1.
  unfold mapped. destruct Hg as [Hg|Hg]; rewrite Hg; [apply rtc_refl|].
  cbn [fs_of objects]. rewrite lookup_singleton_eq.
  apply alone_step. cbn [step_reader r_at r_client].
  destruct (magic s =? TIMPANI_TTSCHED_MAGIC) eqn:Hm; [by apply lookup_alone|].
  etransitivity; [by apply (init_alone maps s name (Client None (-1) (g_shm_generation c1)) true)|].
  unfold ttsched_init, fs_of. cbn [named objects].
  destruct maps; cbn [negb]; rewrite ?lookup_singleton_eq; cbn [g_shm]; [|apply rtc_refl].
  rewrite ?lookup_singleton_eq, Hm. apply alone_step. cbn [step_reader r_at]. rewrite Hm.
  apply rtc_refl.
Qed.

(** ** Bytes of names *)

(** Byte [k] of a name padded with NULs. *)
Definition char_at (name : list Z) (k : nat) : Z := nth k name 0.

Lemma c_prefix_bytes n s k :
  (n <= length s)%nat -> (k < n)%nat -> (k <= length (c_prefix n s))%nat ->
  s !! k = Some (char_at (c_prefix n s) k).
Proof.
  revert s k. induction n as [|n IH]; intros [|c s] k Hl Hk Hp; cbn in Hl; try lia.
  cbn [c_prefix] in *. destruct (Z.eqb_spec c 0) as [->|Hc].
  - cbn in Hp. by replace k with 0%nat by lia.
  - destruct k as [|k]; [done|]. cbn in Hp |- *. apply IH; lia.
Qed.

Lemma c_prefix_char_nonzero n s k :
  (k < length (c_prefix n s))%nat -> char_at (c_prefix n s) k <> 0.
Proof.
  intros Hk. destruct (lookup_lt_is_Some_2 _ _ Hk) as [x Hx].
  unfold char_at. rewrite (nth_lookup_Some _ _ _ _ Hx).
  exact (Forall_lookup_1 _ _ _ _ (c_prefix_nonzero n s) Hx).
Qed.

Lemma c_prefix_of_bytes n s name :
  (length name <= n)%nat -> Forall (fun c => c <> 0) name ->
  (forall k, (k < n)%nat -> (k <= length name)%nat -> s !! k = Some (char_at name k)) ->
  c_prefix n s = name.
Proof.
  revert s name. induction n as [|n IH]; intros s name Hl Hf Hs.
  - destruct name; [done|]. cbn in Hl. lia.
  - destruct s as [|c s]; [by specialize (Hs 0%nat ltac:(lia) ltac:(lia))|].
    pose proof (Hs 0%nat ltac:(lia) ltac:(lia)) as H0. injection H0 as H0. cbn [c_prefix].
    destruct name as [|x name]; cbn in H0; subst c; [done|].
    apply Forall_cons in Hf as [Hx Hf]. rewrite (proj2 (Z.eqb_neq x 0) Hx). f_equal.
    cbn in Hl. apply IH; [lia|done|]. intros k Hk Hk'.
    apply (Hs (S k)); cbn; lia.
Qed.

Section Protocol.
Context (name_of : Z -> list Z) (h : Z) (p : nat).

(** Byte [p] tells task [h] from the other tasks of a table, which has room
    for all its tasks. *)
Record table_ok (table : list SlotEntry) : Prop := {
  table_named : Forall (entry_named name_of) table;
  table_has : h ∈ hashes table;
  table_fits : (size (list_to_set (hashes table) : gset Z) <= 32)%nat;
  table_apart : Forall (fun e => task_id_hash e <> h ->
    char_at (name_of (task_id_hash e)) p <> char_at (name_of h) p) table;
}.

Context (Hinj : Inj eq eq name_of).
Context (Hname : exists name, c_prefix 15 name = name_of h).
Context (Hp : (p < 15)%nat) (Hp' : (p <= length (name_of h))%nat).

(** ** What holds of the segment between any two stores *)

Record good (i : nat) (s : timpani_ttsched_shm) : Prop := {
  good_length : names_length (tasks s);
  good_slot : exists t, tasks s !! i = Some t /\ holds (name_of h) t;
  good_below : forall j t, (j < i)%nat -> tasks s !! j = Some t ->
    slot_name t !! p <> Some (char_at (name_of h) p);
}.

Definition harmless (i : nat) (x : instr) : Prop :=
  match x with
  | Do (StByte j k b) =>
      (j = i -> (k < 15)%nat -> b = char_at (name_of h) k) /\
      ((j < i)%nat -> k = p -> b <> char_at (name_of h) p)
  | Do (StZero j) => j <> i
  | Do _ => True
  | WakeUp w => 0 < wake_count w
  end.

Lemma good_alter f i j s :
  good i s ->
  (forall t, length (slot_name t) = 16%nat -> length (slot_name (f t)) = 16%nat) ->
  (j = i -> forall t, length (slot_name t) = 16%nat -> holds (name_of h) t -> holds (name_of h) (f t)) ->
  ((j < i)%nat -> forall t, length (slot_name t) = 16%nat ->
     slot_name t !! p <> Some (char_at (name_of h) p) ->
     slot_name (f t) !! p <> Some (char_at (name_of h) p)) ->
  good i (with_tasks s (alter f j (tasks s))).
Proof.
  intros [[Hl Hf] (t & Ht & Hh) Hb] H1 H2 H3.
  split; cbn [with_tasks tasks]; [by apply names_length_alter| |].
  - destruct (decide (j = i)) as [->|Hj].
    + exists (f t). rewrite list_lookup_alter_eq, Ht. split; [done|].
      apply H2; [done| |done]. exact (Forall_lookup_1 _ _ _ _ Hf Ht).
    + exists t. by rewrite list_lookup_alter_ne.
  - intros k t' Hk Ht'. destruct (decide (j = k)) as [->|Hj].
    + rewrite list_lookup_alter_eq in Ht'. destruct (tasks s !! k) as [t2|] eqn:E; [|done].
      injection Ht' as <-. apply H3; [done| |by eapply Hb].
      exact (Forall_lookup_1 _ _ _ _ Hf E).
    + rewrite list_lookup_alter_ne in Ht' by done. by eapply Hb.
Qed.

Lemma name_length : (length (name_of h) <= 15)%nat.
Proof using All. destruct Hname as [name <-]. apply length_c_prefix. Qed.
Lemma name_nonzero : Forall (fun c => c <> 0) (name_of h).
Proof using All. destruct Hname as [name <-]. apply c_prefix_nonzero. Qed.
Lemma char_nonzero k : (k < length (name_of h))%nat -> char_at (name_of h) k <> 0.
Proof using All. destruct Hname as [name <-]. apply c_prefix_char_nonzero. Qed.

Lemma holds_set_byte k t :
  length (slot_name t) = 16%nat -> holds (name_of h) t ->
  forall b, ((k < 15)%nat -> b = char_at (name_of h) k) -> holds (name_of h) (set_byte k b t).
Proof using All.
  unfold holds. cbn [set_byte slot_name]. intros Hl Hh b Hb.
  destruct (decide (k < 15)%nat) as [Hk|Hk]; [|by rewrite c_prefix_insert by lia].
  rewrite (Hb Hk). apply c_prefix_of_bytes.
  - apply name_length.
  - apply name_nonzero.
  - intros q Hq Hq'. rewrite list_lookup_insert. case_decide as Hd.
    + by destruct Hd as [<- _].
    + rewrite <- Hh in Hq' |- *. apply c_prefix_bytes; lia.
Qed.

Lemma good_run i s x : good i s -> harmless i x -> good i (run_instr s x).
Proof using All.
  intros Hg Hx. destruct x as [w|w]; [|done].
  destruct w as [v|j|j k b|j|n|]; cbn [run_instr apply_store] in *.
  - destruct Hg. by split.
  - apply good_alter; auto.
  - destruct Hx as [Hx1 Hx2]. apply good_alter; [done| | |].
    + intros t Ht. cbn. by rewrite length_insert.
    + intros E t Ht Hh. apply holds_set_byte; auto.
    + intros Hj t Ht Hn. cbn [set_byte slot_name]. rewrite list_lookup_insert.
      case_decide as Hd; [|done]. destruct Hd as [-> _]. intros [= E]. by apply Hx2.
  - apply good_alter; auto.
  - destruct Hg. by split.
  - destruct Hg. by split.
Qed.

(** ** What holds of a task between any two loads *)

Definition is_named (r : caller) : Prop := c_prefix 15 (r_name r) = name_of h.
#[local] Instance is_named_dec r : Decision (is_named r).
Proof. unfold is_named. apply _. Defined.

(** The slot a task may have: none or its own; and not the slot of [h]. *)
Definition idx_ok (i : nat) (r : caller) (j : Z) : Prop :=
  -1 <= j /\ (is_named r -> j = -1 \/ j = Z.of_nat i) /\ (~ is_named r -> j <> Z.of_nat i).

Definition place_ok (i : nat) (r : caller) : Prop :=
  match r_at r with
  | FindByte _ j _ k =>
      (k <= 14)%nat /\
      (is_named r -> (j <= i)%nat /\ (k <= length (name_of h))%nat /\ ((j < i)%nat -> (k <= p)%nat)) /\
      (~ is_named r -> j = i -> forall q, (q < k)%nat ->
         r_name r !! q = Some (char_at (name_of h) q) /\ char_at (name_of h) q <> 0)
  | Counter | FutexWait _ | Asleep _ => g_task_idx (r_client r) <> -1
  | _ => True
  end.

Record reader_ok (i : nat) (r : caller) : Prop := {
  reader_name : length (r_name r) = 16%nat;
  reader_idx : idx_ok i r (g_task_idx (r_client r));
  reader_place : place_ok i r;
}.

Lemma reader_at i r c l :
  reader_ok i r -> idx_ok i r (g_task_idx c) ->
  place_ok i (with_client r c l) -> reader_ok i (with_client r c l).
Proof. intros [H1 H2 H3] Hi Hl. by split. Qed.

Lemma idx_none i r : idx_ok i r (-1).
Proof. split_and!; [lia|auto|lia]. Qed.

Lemma found_ok i f j r : reader_ok i r -> idx_ok i r j -> reader_ok i (find_returns f j r).
Proof.
  intros Hr Hj. destruct f; cbn [find_returns]; apply reader_at; auto; cbn [place_ok with_client r_at]; [done|].
  destruct (Z.ltb_spec j 0); [done|]. cbn. lia.
Qed.

Lemma find_next_ok i f j n r :
  reader_ok i r -> (is_named r -> (j <= i)%nat) -> reader_ok i (find_next f j n r).
Proof.
  intros Hr Hj. unfold find_next. destruct (_ && _); [|by apply found_ok, idx_none].
  apply (reader_at i r (r_client r)); [done|apply Hr|].
  cbn [place_ok goto with_client r_at]. split_and!; [lia| |].
  - intros Hn. split_and!; [by apply Hj|lia..].
  - intros _ _ q Hq. lia.
Qed.

Lemma char_zero k : (length (name_of h) <= k)%nat -> char_at (name_of h) k = 0.
Proof. intros Hk. by apply nth_overflow. Qed.

Lemma char_bound k : char_at (name_of h) k <> 0 -> (k < length (name_of h))%nat.
Proof. intros Hk. destruct (decide (k < length (name_of h))%nat); [done|]. by rewrite char_zero in Hk by lia. Qed.

Lemma holds_byte t k :
  length (slot_name t) = 16%nat -> holds (name_of h) t -> (k <= 14)%nat ->
  (k <= length (name_of h))%nat -> slot_name t !! k = Some (char_at (name_of h) k).
Proof. intros Hl <- Hk Hk'. apply c_prefix_bytes; lia. Qed.

Lemma named_byte r k :
  length (r_name r) = 16%nat -> is_named r -> (k <= 14)%nat ->
  (k <= length (name_of h))%nat -> r_name r !! k = Some (char_at (name_of h) k).
Proof. intros Hl Hn Hk Hk'. unfold is_named in Hn. rewrite <- Hn in *. apply c_prefix_bytes; lia. Qed.

(** A comparison that is through has seen the whole name. *)
Lemma whole_name_seen r k :
  (k <= 14)%nat ->
  (forall q, (q <= k)%nat -> r_name r !! q = Some (char_at (name_of h) q)) ->
  char_at (name_of h) k = 0 \/ k = 14%nat -> is_named r.
Proof using All.
  intros Hk Hq Hz. pose proof name_length. apply c_prefix_of_bytes; [done|apply name_nonzero|].
  intros q Hq1 Hq2. apply Hq. destruct Hz as [Hz| ->]; [|lia].
  destruct (decide (q <= k)%nat); [done|]. exfalso. apply (char_nonzero k); [lia|done].
Qed.

Lemma next_byte_ok i r f j n k :
  reader_ok i r -> (k < 14)%nat ->
  (is_named r -> (j <= i)%nat /\ (S k <= length (name_of h))%nat /\ ((j < i)%nat -> (S k <= p)%nat)) ->
  (~ is_named r -> j = i -> forall q, (q < S k)%nat ->
     r_name r !! q = Some (char_at (name_of h) q) /\ char_at (name_of h) q <> 0) ->
  reader_ok i (goto r (FindByte f j n (S k))).
Proof.
  intros Hr Hk H1 H2. apply (reader_at i r (r_client r)); [done|apply Hr|].
  cbn [place_ok with_client r_at]. by split_and!; [lia| |].
Qed.

(** The task [h] compares its name with slot [j]. *)
Lemma compare_named_ok i s r f j n k :
  good i s -> reader_ok i r -> r_at r = FindByte f j n k -> is_named r ->
  reader_ok i (compare_byte f j n k (tasks s !! j ≫= fun t => slot_name t !! k) (r_name r !! k) r).
Proof using All.
  intros [[_ Hlen] (ti & Hti & Hh) Hbelow] Hr Hat Hn.
  pose proof (reader_place i r Hr) as Hpl. unfold place_ok in Hpl. rewrite Hat in Hpl.
  destruct Hpl as (Hk & Hnamed & _). destruct (Hnamed Hn) as (Hji & Hkl & Hkp).
  rewrite (named_byte r k (reader_name _ _ Hr) Hn Hk Hkl). unfold compare_byte.
  destruct (decide (j = i)) as [->|Hne].
  - rewrite Hti. cbn [mbind option_bind].
    rewrite (holds_byte ti k (Forall_lookup_1 _ _ _ _ Hlen Hti) Hh Hk Hkl), Z.eqb_refl.
    destruct (_ || _) eqn:E.
    { apply found_ok; [done|]. by split_and!; [lia|auto|]. }
    apply orb_false_iff in E as [E1%Z.eqb_neq%char_bound E2%Nat.leb_gt].
    apply next_byte_ok; [done|lia|intros _; lia|done].
  - destruct (_ ≫= _) as [x|] eqn:Hx; [|apply find_next_ok; [done|lia]].
    destruct (Z.eqb_spec x (char_at (name_of h) k)) as [->|_]; [|apply find_next_ok; [done|lia]].
    apply bind_Some in Hx as (t & Ht & Hx).
    assert (k <> p) as Hkp' by (intros ->; by apply (Hbelow j t ltac:(lia) Ht)).
    specialize (Hkp ltac:(lia)). pose proof (char_nonzero k ltac:(lia)).
    rewrite (proj2 (Z.eqb_neq _ 0)), (proj2 (Nat.leb_gt 14 k)) by (done || lia).
    apply next_byte_ok; [done|lia|intros _; lia|done].
Qed.

(** Another task compares its name with the slot of [h]. *)
Lemma compare_other_ok i s r f n k :
  good i s -> reader_ok i r -> r_at r = FindByte f i n k -> ~ is_named r ->
  reader_ok i (compare_byte f i n k (tasks s !! i ≫= fun t => slot_name t !! k) (r_name r !! k) r).
Proof using All.
  intros [[_ Hlen] (ti & Hti & Hh) _] Hr Hat Hn.
  pose proof (reader_place i r Hr) as Hpl. unfold place_ok in Hpl. rewrite Hat in Hpl.
  destruct Hpl as (Hk & _ & Hother). specialize (Hother Hn eq_refl).
  assert (Hkl : (k <= length (name_of h))%nat).
  { destruct k as [|k]; [lia|]. destruct (Hother k ltac:(lia)) as [_ ?%char_bound]. lia. }
  rewrite Hti. cbn [mbind option_bind].
  rewrite (holds_byte ti k (Forall_lookup_1 _ _ _ _ Hlen Hti) Hh Hk Hkl).
  unfold compare_byte. destruct (r_name r !! k) as [y|] eqn:Hy; [|by apply find_next_ok].
  destruct (Z.eqb_spec (char_at (name_of h) k) y) as [<-|_]; [|by apply find_next_ok].
  assert (Hupto : forall q, (q <= k)%nat -> r_name r !! q = Some (char_at (name_of h) q)).
  { intros q Hq. destruct (decide (q = k)) as [->|]; [done|]. apply Hother; lia. }
  destruct (_ || _) eqn:E.
  - exfalso. apply Hn, (whole_name_seen r k Hk Hupto).
    apply orb_true_iff in E as [E%Z.eqb_eq|E%Nat.leb_le]; [by left|right; lia].
  - apply orb_false_iff in E as [E1%Z.eqb_neq%char_bound E2%Nat.leb_gt].
    apply next_byte_ok; [done|lia|done|]. intros _ _ q Hq.
    split; [apply Hupto; lia|apply char_nonzero; lia].
Qed.

Lemma compare_ok i s r f j n k :
  good i s -> reader_ok i r -> r_at r = FindByte f j n k ->
  reader_ok i (compare_byte f j n k (tasks s !! j ≫= fun t => slot_name t !! k) (r_name r !! k) r).
Proof using All.
  intros Hg Hr Hat. destruct (decide (is_named r)) as [Hn|Hn]; [by apply compare_named_ok|].
  destruct (decide (j = i)) as [->|Hne]; [by apply compare_other_ok|].
  pose proof (reader_place i r Hr) as Hpl. unfold place_ok in Hpl. rewrite Hat in Hpl.
  destruct Hpl as (Hk & _ & _). unfold compare_byte.
  assert (Hnext : reader_ok i (find_next f (S j) n r)) by by apply find_next_ok.
  destruct (_ ≫= _) as [x|]; [|done]. destruct (r_name r !! k) as [y|]; [|done].
  destruct (x =? y); [|done]. destruct (_ || _) eqn:E.
  - apply found_ok; [done|]. by split_and!; [lia| |lia].
  - apply orb_false_iff in E as [_ E2%Nat.leb_gt]. by apply next_byte_ok; [|lia| |].
Qed.

(** Every step of a task keeps it so. *)
Lemma reader_step_ok i s r r' : good i s -> reader_ok i r -> reader_step s r r' -> reader_ok i r'.
Proof using All.
  intros Hg Hr Hs.
  assert (Hmove : forall c l, idx_ok i r (g_task_idx c) -> place_ok i (with_client r c l) ->
    reader_ok i (with_client r c l)) by (intros; by apply reader_at).
  pose proof (reader_idx i r Hr) as Hidx. pose proof (reader_place i r Hr) as Hpl.
  assert (Hgoto : forall l, place_ok i (goto r l) -> reader_ok i (goto r l)).
  { intros l Hl. by apply (Hmove (r_client r)). }
  assert (Hopen : forall maps again c, idx_ok i r (g_task_idx c) -> reader_ok i (open_segment maps again r c)).
  { intros [] again c Hc; by apply Hmove. }
  destruct Hs as [maps r|r v Hv|r cur Hv|r cur Hv];
    [|by apply Hgoto|apply Hgoto; unfold place_ok in *; by rewrite Hv in Hpl|by apply Hgoto].
  unfold step_reader. destruct (r_at r) as [|f|f|f j n k|again| | | | | |cur|cur| |v] eqn:Hat.
  - destruct (g_shm _); [by apply Hgoto|by apply Hopen].
  - case_match; [by apply Hgoto|apply found_ok, idx_none; done].
  - apply find_next_ok; [done|lia].
  - by apply compare_ok.
  - apply Hmove; [done|]. by destruct again.
  - case_match; [by apply Hgoto|apply Hopen, idx_none].
  - case_match; by apply Hgoto.
  - case_match; [|by apply Hgoto]. apply Hgoto. cbn.
    destruct (Z.ltb_spec (g_task_idx (r_client r)) 0); [done|]. cbn. lia.
  - apply Hmove; [apply idx_none|done].
  - unfold place_ok in Hpl. rewrite Hat in Hpl. case_match; by apply Hgoto.
  - unfold place_ok in Hpl. rewrite Hat in Hpl. case_match; [|by apply Hgoto].
    apply Hgoto. by case_match.
  - done.
  - case_match; [by apply Hgoto|apply Hmove, I; apply idx_none].
  - done.
Qed.

(** ** What the daemon writes *)

(** A bump of slot [i] is followed at once by its [FUTEX_WAKE]. *)
Fixpoint paired (i : nat) (c : list instr) : Prop :=
  match c with
  | [] => True
  | Do (StBump j) :: c =>
      (j = i -> exists w c', c = WakeUp w :: c' /\ wake_idx w = Z.of_nat i) /\ paired i c
  | _ :: c => paired i c
  end.

Definition code_ok (i : nat) (c : list instr) : Prop := Forall (harmless i) c /\ paired i c.

Lemma code_ok_app i c d : code_ok i c -> code_ok i d -> code_ok i (c ++ d).
Proof.
  intros [Hf Hc] [Hg Hd]. split; [by apply Forall_app|]. clear Hf Hg.
  induction c as [|x c IH]; [done|]. cbn [app].
  assert (Hx : forall b : Prop, (b -> exists w c', c = WakeUp w :: c' /\ wake_idx w = Z.of_nat i) ->
    b -> exists w c', c ++ d = WakeUp w :: c' /\ wake_idx w = Z.of_nat i).
  { intros b Hb H. destruct (Hb H) as (w & c' & -> & Hw). by eexists w, _. }
  destruct x as [[]|]; cbn [paired] in *; try (by apply IH).
  destruct Hc as [H1 H2]. split; [by apply Hx|by apply IH].
Qed.

Lemma bump_code_ok i n j : 0 < n -> 0 <= j -> code_ok i (bump_code n j).
Proof.
  intros Hn Hj. split; [by repeat constructor|]. cbn. split; [|done].
  intros <-. eexists _, _. split; [done|]. cbn. lia.
Qed.

Lemma bumps_code_ok i : code_ok i bumps_code.
Proof.
  unfold bumps_code. generalize (seq 0 TIMPANI_MAX_TASKS). intros l.
  induction l as [|j l IH]; [by repeat constructor|]. cbn [mbind list_bind].
  apply code_ok_app; [|done]. apply bump_code_ok; [done|lia].
Qed.

Lemma name_code_ok i j e :
  entry_named name_of e ->
  (j = i -> task_id_hash e = h) ->
  ((j < i)%nat -> char_at (name_of (task_id_hash e)) p <> char_at (name_of h) p) ->
  code_ok i (name_code j (task_name e)).
Proof using All.
  intros He Hj Hlt. split.
  - apply Forall_app. split; [|repeat constructor; cbn; lia].
    apply Forall_fmap, Forall_forall. intros k Hk. cbn. rewrite He.
    split; [intros E _; by rewrite Hj|intros Hji ->; by apply Hlt].
  - unfold name_code. generalize (seq 0 15). intros l. by induction l.
Qed.

(** The mapping gives slot [i] to [h] alone. *)
Definition only_ours (i : nat) (m : gmap Z Z) : Prop :=
  m !! h = Some (Z.of_nat i) /\ forall h' j, m !! h' = Some j -> 0 <= j < 32 /\ (j = Z.of_nat i -> h' = h).

(** During the first pass: [h] has its slot, or not yet and nobody has it. *)
Definition kept (i : nat) (q : publish) : Prop :=
  length (p_used q) = 32%nat /\
  (p_map q !! h = None /\ p_used q !! i <> Some true \/
   p_map q !! h = Some (Z.of_nat i) /\ p_used q !! i = Some true).

Lemma first_entry_ok i m q e :
  only_ours i m -> kept i q -> entry_named name_of e ->
  (task_id_hash e <> h -> char_at (name_of (task_id_hash e)) p <> char_at (name_of h) p) ->
  code_ok i (first_entry_code m q e) /\ kept i (first_pass_entry m q e) /\
  (task_id_hash e = h \/ is_Some (p_map q !! h) -> is_Some (p_map (first_pass_entry m q e) !! h)).
Proof using All.
  intros [Hh Hm] [Hl Hq] He Hap.
  assert (Hnil : code_ok i []) by by repeat constructor.
  unfold first_entry_code, first_pass_entry.
  destruct (p_map q !! task_id_hash e) as [j|] eqn:Ee.
  { split_and!; [done|done|]. intros [<-|]; [by eexists|done]. }
  destruct (m !! task_id_hash e) as [j|] eqn:Em.
  2: { split_and!; [done|done|]. intros [E|]; [by rewrite E, Hh in Em|done]. }
  destruct (Hm _ _ Em) as [Hj Hji]. destruct (Hm _ _ Hh) as [Hi _].
  rewrite (proj2 (Z.ltb_lt j _)) by (unfold TIMPANI_MAX_TASKS; lia). cbn [andb].
  rewrite nth_lookup.
  destruct (decide (task_id_hash e = h)) as [E|E].
  - rewrite E in *. assert (j = Z.of_nat i) as -> by congruence. rewrite Nat2Z.id.
    destruct Hq as [[_ Hq]|[Hq _]]; [|congruence].
    replace (negb _) with true by (destruct (p_used q !! i) as [[]|]; done).
    split_and!; [by apply name_code_ok; [|rewrite ?E..]; try lia| |].
    + split; cbn [p_used p_map]; [by rewrite length_insert|right].
      rewrite lookup_insert_eq, list_lookup_insert_eq by lia. done.
    + intros _. cbn [p_map]. rewrite lookup_insert_eq. by eexists.
  - assert (Z.to_nat j <> i) as Hne by (intros <-; apply E, Hji; lia).
    destruct (negb _); [|split_and!; [done|done|by intros [?|?]]].
    split_and!; [apply name_code_ok; [done|done|auto]| |].
    + split; cbn [p_used p_map]; [by rewrite length_insert|].
      by rewrite lookup_insert_ne, list_lookup_insert_ne.
    + intros [?|?]; [done|]. cbn [p_map]. by rewrite lookup_insert_ne.
Qed.

Lemma mapping_only_ours i m ts : mapping_ok name_of m ts -> m !! h = Some (Z.of_nat i) -> only_ours i m.
Proof using All.
  intros [_ Hm] Hi. split; [done|]. intros h' j Hj. pose proof (Hm _ _ Hj) as Ho.
  split; [apply Ho|]. intros ->. apply (owns_inj name_of Hinj ts h' h (Z.of_nat i)); [done|by apply Hm].
Qed.

Definition apart (e : SlotEntry) : Prop :=
  entry_named name_of e /\
  (task_id_hash e <> h -> char_at (name_of (task_id_hash e)) p <> char_at (name_of h) p).

Lemma table_apart_all table : table_ok table -> Forall apart table.
Proof. intros [H1 _ _ H2]. apply Forall_and. by split. Qed.

Lemma first_code_ok i m es q :
  only_ours i m -> kept i q -> Forall apart es ->
  code_ok i (first_code m q es) /\ kept i (foldl (first_pass_entry m) q es) /\
  (h ∈ hashes es \/ is_Some (p_map q !! h) -> is_Some (p_map (foldl (first_pass_entry m) q es) !! h)).
Proof using All.
  intros Hm Hq Hes. revert q Hq. induction Hes as [|e es [He Ha] Hes IH]; intros q Hq.
  { split_and!; [by repeat constructor|done|]. intros [H|H]; [by apply not_elem_of_nil in H|done]. }
  destruct (first_entry_ok i m q e Hm Hq He Ha) as (Hc & Hk & Hs).
  destruct (IH _ Hk) as (Hc' & Hk' & Hs'). cbn [foldl first_code hashes fmap list_fmap].
  split_and!; [by apply code_ok_app|done|]. rewrite elem_of_cons. intros [[->|H]|H]; auto.
Qed.

Lemma second_code_ok i es q :
  p_map q !! h = Some (Z.of_nat i) -> p_used q !! i = Some true -> Forall apart es ->
  code_ok i (second_code q es) /\ p_map (second_pass q es) !! h = Some (Z.of_nat i).
Proof using All.
  intros Hm Hu Hes. revert q Hm Hu. induction Hes as [|e es [He Ha] Hes IH]; intros q Hm Hu.
  { split; [by repeat constructor|done]. }
  cbn [second_code second_pass].
  destruct (p_map q !! task_id_hash e) as [j|] eqn:Ee; [by apply IH|].
  assert (task_id_hash e <> h) as Hne by congruence.
  destruct (lowest_free_spec (p_used q)) as (_ & _ & Hfree). set (idx := lowest_free (p_used q)) in *.
  assert (idx <> i) as Hi by congruence.
  destruct (_ <=? _)%nat; [by split; [repeat constructor|]|].
  edestruct (IH (Publish (<[task_id_hash e := Z.of_nat idx]> (p_map q)) (<[idx := true]> (p_used q))
    (alter (zero_counter ∘ set_name (task_name e)) idx (p_tasks q)))) as [[Hh Hp2] Hmap].
  { cbn [p_map]. by rewrite lookup_insert_ne. }
  { cbn [p_used]. by rewrite list_lookup_insert_ne. }
  split; [|done]. apply code_ok_app; [by apply name_code_ok; auto|].
  split; [by constructor|done].
Qed.

(** An update keeps the slot of [h] and writes nothing that misleads. *)
Lemma publish_code_ok i m table :
  only_ours i m -> table_ok table ->
  code_ok i (publish_code table m) /\ new_mapping table m !! h = Some (Z.of_nat i).
Proof using All.
  intros Hm Ht. pose proof (table_apart_all table Ht) as Ha.
  assert (Hk : kept i no_slots).
  { split; [done|left]. split; [apply lookup_empty|]. by intros [? _]%lookup_replicate. }
  destruct (first_code_ok i m table no_slots Hm Hk Ha) as (Hc1 & [_ Hq] & Hs).
  specialize (Hs (or_introl (table_has table Ht))). fold (first_pass_all table m) in Hq, Hs.
  destruct Hq as [[E _]|[Hq Hu]]; [rewrite E in Hs; by destruct Hs|].
  destruct (second_code_ok i table _ Hq Hu Ha) as [Hc2 Hn]. split; [|done].
  unfold publish_code. change (Do (StMagic 0) :: ?c) with ([Do (StMagic 0)] ++ c).
  apply code_ok_app; [by split; [repeat constructor|]|].
  apply code_ok_app; [apply bumps_code_ok|]. apply code_ok_app; [done|].
  apply code_ok_app; [done|by split; [repeat constructor|]].
Qed.

Lemma fire_code_ok i m h' : only_ours i m -> code_ok i (fire_code m h').
Proof.
  intros [_ Hm]. unfold fire_code. destruct (m !! h') as [j|] eqn:E; [|by repeat constructor].
  apply bump_code_ok; [lia|]. by destruct (Hm _ _ E) as [[? _] _].
Qed.

Lemma destroy_code_ok i s : code_ok i (destroy_code s).
Proof.
  unfold destroy_code. set (n := Z.to_nat _). split.
  - constructor; [done|]. apply Forall_fmap. unfold wake_all. by apply Forall_fmap, Forall_true.
  - cbn. unfold wake_all. generalize (seq 0 n). intros l. by induction l.
Qed.

(** *** The first table

    The slots are given out from below, so each slot below that of [h] has
    the name of another task of the table. *)

Lemma set_name_byte name t q :
  length (slot_name t) = 16%nat -> (q < 15)%nat ->
  slot_name (set_name name t) !! q = Some (char_at (c_prefix 15 name) q).
Proof.
  intros Hl Hq. cbn [set_name slot_name]. rewrite list_lookup_insert_ne by lia.
  rewrite strncpy_lookup, decide_True by lia. done.
Qed.

Definition slot_named (table : list SlotEntry) (q : publish) (k : nat) : Prop :=
  exists e t, e ∈ table /\ p_map q !! task_id_hash e = Some (Z.of_nat k) /\ p_tasks q !! k = Some t /\
    forall b, (b < 15)%nat -> slot_name t !! b = Some (char_at (name_of (task_id_hash e)) b).

Record dense (table : list SlotEntry) (q : publish) : Prop := {
  dense_tasks : names_length (p_tasks q);
  dense_used : length (p_used q) = 32%nat;
  dense_down : forall j k, (j < k)%nat -> p_used q !! k = Some true -> p_used q !! j = Some true;
  dense_marked : forall h' k, p_map q !! h' = Some (Z.of_nat k) -> p_used q !! k = Some true;
  dense_slot : forall k, p_used q !! k = Some true -> slot_named table q k;
}.

Lemma dense_step table q e :
  let idx := lowest_free (p_used q) in
  dense table q -> apart e -> e ∈ table -> p_map q !! task_id_hash e = None ->
  (idx < TIMPANI_MAX_TASKS)%nat ->
  dense table (Publish (<[task_id_hash e := Z.of_nat idx]> (p_map q)) (<[idx := true]> (p_used q))
                 (alter (zero_counter ∘ set_name (task_name e)) idx (p_tasks q))).
Proof.
  intros idx [[Hl Hf] Hu Hd Hmk Hs] [He _] Hin Hno Hidx. unfold TIMPANI_MAX_TASKS in *.
  destruct (lowest_free_spec (p_used q)) as (_ & Hlow & Hfree). fold idx in Hlow, Hfree.
  split; cbn [p_map p_used p_tasks].
  - apply names_length_alter; [|done]. intros t. apply length_set_name.
  - by rewrite length_insert.
  - intros j k Hjk [(<- & _ & _)|[Hne Hk]]%list_lookup_insert_Some; apply list_lookup_insert_Some.
    + right. split; [lia|by apply Hlow].
    + destruct (decide (idx = j)) as [->|]; [left; lia|right]. split; [done|by apply (Hd j k)].
  - intros h' k. rewrite lookup_insert. case_decide as E.
    + intros [= ?]. assert (k = idx) as -> by lia. apply list_lookup_insert_eq. lia.
    + intros Hk. pose proof (Hmk _ _ Hk). apply list_lookup_insert_Some. right. split; [congruence|done].
  - intros k [(<- & _ & _)|[Hne Hk]]%list_lookup_insert_Some.
    + destruct (lookup_lt_is_Some_2 (p_tasks q) idx) as [t Ht]; [lia|].
      exists e. eexists. split_and!; [done|cbn [p_map]; by rewrite lookup_insert_eq| |].
      { cbn [p_tasks]. by rewrite list_lookup_alter_eq, Ht. }
      intros b Hb. unfold compose, zero_counter. cbn [slot_name]. rewrite <- He.
      apply set_name_byte; [exact (Forall_lookup_1 _ _ _ _ Hf Ht)|done].
    + destruct (Hs k Hk) as (e' & t & H1 & H2 & H3 & H4). exists e', t. split_and!; [done| | |done].
      * cbn [p_map]. rewrite lookup_insert_ne; [done|]. intros E. by rewrite E, H2 in Hno.
      * cbn [p_tasks]. by rewrite list_lookup_alter_ne.
Qed.

Lemma second_pass_dense table es q :
  dense table q -> Forall apart es -> (forall e, e ∈ es -> e ∈ table) ->
  dense table (second_pass q es).
Proof.
  intros Hq Hes Hin. revert q Hq. induction Hes as [|e es He Hes IH]; intros q Hq; [done|].
  cbn [second_pass]. assert (forall e, e ∈ es -> e ∈ table) as Hin' by (intros; apply Hin; by right).
  destruct (p_map q !! task_id_hash e) eqn:E; [by apply IH|].
  destruct (Nat.leb_spec TIMPANI_MAX_TASKS (lowest_free (p_used q))); [done|].
  apply IH; [done|]. apply dense_step; auto. apply Hin. by left.
Qed.

Lemma first_pass_no_prev es q : foldl (first_pass_entry ∅) q es = q.
Proof.
  induction es as [|e es IH]; [done|]. cbn [foldl]. rewrite <- IH at 2. f_equal.
  unfold first_pass_entry. rewrite lookup_empty. by case_match.
Qed.

(** What the readers may rely on once the daemon has finished. *)
Record settled (m : gmap Z Z) (s : timpani_ttsched_shm) : Prop := {
  settled_mapping : mapping_ok name_of m (tasks s);
  settled_magic : magic s = TIMPANI_TTSCHED_MAGIC;
  settled_count : n_tasks s = total_slots m;
}.

Lemma publish_settles table m s :
  mapping_ok name_of m (tasks s) -> table_ok table ->
  settled (new_mapping table m) (run_code (publish_code table m) s) /\
  is_Some (new_mapping table m !! h).
Proof using All.
  intros Hm Ht. destruct (publish_code_refines table m s (proj1 Hm)) as [E _].
  pose proof (publish_table_ok name_of table m s Hinj Hm (table_named table Ht)) as Hok.
  rewrite <- E in Hok. destruct Hok as (H1 & (H2 & H3 & _) & _ & H5 & H6). split; [by split|].
  apply (few_tasks_all_mapped _ (hashes table)); auto; apply Ht.
Qed.

Lemma first_publish table s :
  names_length (tasks s) -> table_ok table ->
  exists i, new_mapping table ∅ !! h = Some (Z.of_nat i) /\
    good i (run_code (publish_code table ∅) s) /\
    settled (new_mapping table ∅) (run_code (publish_code table ∅) s).
Proof using All.
  intros Hl Ht.
  destruct (publish_settles table ∅ s) as [Hset [z Hz]]; [by split; [|apply map_Forall_empty]|done|].
  destruct (publish_code_refines table ∅ s Hl) as [E _].
  destruct (settled_mapping _ _ Hset) as [Hn Hown]. destruct (Hown h z Hz) as (Hr & Hslot & _).
  exists (Z.to_nat z). rewrite Z2Nat.id by lia. split_and!; [done| |done]. split; [done|done|].
  pose proof (second_pass_dense table table (Publish ∅ (replicate TIMPANI_MAX_TASKS false) (bump <$> tasks s)))
    as Hd.
  intros j t Hj Ht'. revert Hz Ht'. unfold publish_table in E. rewrite first_pass_no_prev in E.
  pose proof (f_equal fst E) as Em. pose proof (f_equal (tasks ∘ snd) E) as Et.
  unfold compose in Et. cbn [fst snd tasks] in Em, Et. rewrite Em, Et. clear E Em Et.
  destruct Hd as [_ _ Hdown Hmk Hnamed]; [|by apply table_apart_all|done|].
  { split; cbn [p_tasks p_used p_map]; [|done|..].
    - destruct Hl as [Hl Hf]. split; [by rewrite length_fmap|].
      apply Forall_fmap. eapply Forall_impl; [done|]. auto.
    - by intros ? ? ? [? _]%lookup_replicate.
    - intros ? ?. by rewrite lookup_empty.
    - by intros ? [? _]%lookup_replicate. }
  intros Hz Ht'. rewrite <- (Z2Nat.id z) in Hz by lia.
  destruct (Hnamed j (Hdown j _ Hj (Hmk _ _ Hz))) as (e & t2 & He & Hme & Ht2 & Hbytes).
  simplify_eq. rewrite Hbytes by lia.
  assert (task_id_hash e <> h) as Hne by (intros Hd; rewrite Hd in Hme; simplify_eq; lia).
  destruct (proj1 (Forall_forall _ _) (table_apart_all table Ht) e He) as [_ Ha]. intros [= Hc]. by apply Ha.
Qed.

(** ** What holds of both sides *)

(** Before the first table is out nobody finds a slot. *)
Definition blind (r : caller) : Prop :=
  length (r_name r) = 16%nat /\ g_task_idx (r_client r) = -1 /\
  match r_at r with
  | Start | Magic1 | Magic2 | FindMagic (InInit _) | InitGeneration _ | Returned _ => True
  | _ => False
  end.

Lemma blind_ok i r : blind r -> reader_ok i r.
Proof.
  intros (Hl & Hi & Hat). split; [done| |].
  - rewrite Hi. apply idx_none.
  - unfold place_ok. by destruct (r_at r).
Qed.

Lemma blind_step s r r' :
  magic s <> TIMPANI_TTSCHED_MAGIC -> blind r -> reader_step s r r' -> blind r'.
Proof.
  intros Hm%Z.eqb_neq (Hl & Hi & Hat) Hs.
  destruct Hs as [maps r|r v Hv|r cur Hv|r cur Hv]; [|by split_and!|by rewrite Hv in Hat..].
  unfold step_reader. destruct (r_at r) as [|f|f|f j n k|again| | | | | |cur|cur| |v] eqn:E;
    try done; rewrite ?Hm.
  - unfold open_segment. destruct (g_shm _), maps; by split_and!.
  - destruct f; [|done]. by split_and!.
  - by destruct again; split_and!.
  - unfold open_segment. by destruct maps; split_and!.
  - by split_and!.
  - unfold blind. by rewrite E.
Qed.

Definition calm (x : instr) : Prop := match x with Do (StMagic v) => v = 0 | _ => True end.

Lemma calm_run s x :
  calm x -> magic s <> TIMPANI_TTSCHED_MAGIC -> magic (run_instr s x) <> TIMPANI_TTSCHED_MAGIC.
Proof. destruct x as [[]|]; cbn; auto. by intros ->. Qed.

Lemma name_code_calm j name : Forall calm (name_code j name).
Proof. apply Forall_app. split; [by apply Forall_fmap, Forall_true|by repeat constructor]. Qed.

Lemma passes_calm prev es q : Forall calm (first_code prev q es) /\ Forall calm (second_code q es).
Proof.
  split; revert q; induction es as [|e es IH]; intros q; cbn [first_code second_code]; try done.
  - apply Forall_app. split; [|apply IH]. unfold first_entry_code.
    destruct (_ !! _); [done|]. destruct (prev !! _); [|done]. case_match; [apply name_code_calm|done].
  - destruct (_ !! _); [apply IH|]. case_match; [done|].
    apply Forall_app. split; [apply name_code_calm|]. by constructor.
Qed.

Lemma publish_code_calm table m :
  exists c, publish_code table m = c ++ [Do (StMagic TIMPANI_TTSCHED_MAGIC)] /\ Forall calm c.
Proof.
  unfold publish_code. set (total := StCount _).
  exists (Do (StMagic 0) :: bumps_code ++ first_code m no_slots table ++
          second_code (first_pass_all table m) table ++ [Do total; Do StGeneration]).
  destruct (passes_calm m table no_slots) as [H1 _].
  destruct (passes_calm m table (first_pass_all table m)) as [_ H2]. split.
  - cbn [app]. by rewrite <- !app_assoc.
  - constructor; [done|]. rewrite !Forall_app. split_and!; auto; [|by repeat constructor].
    unfold bumps_code. generalize (seq 0 TIMPANI_MAX_TASKS). intros l.
    induction l as [|j l IH]; [done|]. cbn [mbind list_bind]. apply Forall_app. by split; [repeat constructor|].
Qed.

Lemma destroy_code_calm s : Forall calm (destroy_code s).
Proof. constructor; [done|]. by apply Forall_fmap, Forall_true. Qed.

(** A sleeping task [h] has seen the last change of its counter, or the
    [FUTEX_WAKE] that goes with the change is the next instruction. *)
Definition waits (i : nat) (s : seg) : Prop :=
  forall k r cur, readers s !! k = Some r -> r_at r = Asleep cur -> is_named r ->
    (exists t, tasks (memory s) !! i = Some t /\ slot_counter t = cur) \/
    (exists w c, code s = WakeUp w :: c /\ wake_idx w = Z.of_nat i).

Record serving (i : nat) (s : seg) : Prop := {
  serving_mapping : mapping s !! h = Some (Z.of_nat i);
  serving_good : good i (memory s);
  serving_readers : Forall (reader_ok i) (readers s);
  serving_code : code_ok i (code s);
  serving_waits : waits i s;
  serving_settled : closing s = false -> settled (mapping s) (run_code (code s) (memory s));
}.

Record quiet (s : seg) : Prop := {
  quiet_magic : magic (memory s) <> TIMPANI_TTSCHED_MAGIC;
  quiet_readers : Forall blind (readers s);
  quiet_code :
    mapping s = ∅ /\ Forall calm (code s) /\
      (closing s = false -> code s = [] /\ names_length (tasks (memory s))) \/
    closing s = false /\ exists c i, code s = c ++ [Do (StMagic TIMPANI_TTSCHED_MAGIC)] /\ Forall calm c /\
      mapping s !! h = Some (Z.of_nat i) /\
      good i (run_code (code s) (memory s)) /\ settled (mapping s) (run_code (code s) (memory s));
}.

Definition one_named (k : nat) (s : seg) : Prop :=
  forall k' r, readers s !! k' = Some r -> is_named r -> k' = k.

Lemma futex_wake_lookup i n rs rs' :
  futex_wake i n rs rs' -> forall k r', rs' !! k = Some r' ->
  exists r, rs !! k = Some r /\ (r' = r \/ asleep_on i r = true /\ r' = goto r Final).
Proof.
  induction 1 as [n rs _|n rs k r rs' _ Hk Ha _ IH]; intros k' r' Hr'; [by eauto|].
  destruct (IH k' r' Hr') as (r2 & Hr2 & Hcase).
  apply list_lookup_insert_Some in Hr2 as [(<- & <- & _)|[_ Hr2]]; [|by eauto].
  exists r. split; [done|right]. split; [done|]. destruct Hcase as [->|[Hx _]]; [done|].
  by unfold asleep_on, goto in Hx.
Qed.

Lemma futex_wake_nobody i n rs rs' :
  futex_wake i n rs rs' -> Forall (fun r => asleep_on i r = false) rs -> rs' = rs.
Proof.
  destruct 1 as [n rs _|n rs k r rs' _ Hk Ha _]; intros Hf; [done|].
  pose proof (Forall_lookup_1 _ _ _ _ Hf Hk) as Hf'. cbn in Hf'. congruence.
Qed.

(** A wake-up of a slot on which at most one task sleeps leaves nobody there. *)
Lemma futex_wake_single i n rs rs' k :
  futex_wake i n rs rs' -> 0 < n ->
  (forall k' r, rs !! k' = Some r -> asleep_on i r = true -> k' = k) ->
  Forall (fun r => asleep_on i r = false) rs'.
Proof.
  intros Hw Hn Hu. destruct Hw as [n rs [Hle|Hf]|n rs k' r rs' _ Hk Ha Hw]; [lia|done|].
  apply futex_wake_nobody in Hw as Heq.
  - rewrite Heq. apply Forall_lookup. intros j r' [(<- & <- & _)|[Hj Hr']]%list_lookup_insert_Some; [done|].
    apply not_true_is_false. intros Ha'. apply Hj. by rewrite (Hu _ _ Hk Ha), (Hu _ _ Hr' Ha').
  - apply Forall_lookup. intros j r' [(<- & <- & _)|[Hj Hr']]%list_lookup_insert_Some; [done|].
    apply not_true_is_false. intros Ha'. apply Hj. by rewrite (Hu _ _ Hk Ha), (Hu _ _ Hr' Ha').
Qed.

Lemma asleep_named i r :
  reader_ok i r -> asleep_on (Z.of_nat i) r = true <-> is_named r /\ exists cur, r_at r = Asleep cur.
Proof.
  intros [_ (_ & H1 & H2) Hpl]. unfold asleep_on, place_ok in *. split.
  - destruct (r_at r) eqn:E; try done. intros Hi%Z.eqb_eq.
    destruct (decide (is_named r)) as [Hn|Hn]; [eauto|]. by specialize (H2 Hn).
  - intros [Hn [cur Hat]]. rewrite Hat in *. apply Z.eqb_eq. by destruct (H1 Hn).
Qed.

Lemma reader_step_name s r r' : reader_step s r r' -> r_name r' = r_name r.
Proof.
  destruct 1 as [maps r| | |]; try done. unfold step_reader, open_segment, compare_byte, find_next, find_returns.
  destruct (r_at r); repeat case_match; done.
Qed.

Lemma is_named_step s r r' : reader_step s r r' -> is_named r' <-> is_named r.
Proof. intros Hs. unfold is_named. by rewrite (reader_step_name _ _ _ Hs). Qed.

Lemma one_named_step k s s' : one_named k s -> seg_step table_ok s s' -> one_named k s'.
Proof.
  intros Hu. destruct 1 as [table mem m rs _|h' mem m rs|mem m rs|w c mem m rs b|w c mem m rs rs' b Hw
    |j r r' mem m c rs b Hr Hst]; try exact Hu; intros k' r2 Hr2 Hn; cbn [readers] in Hr2.
  - destruct (futex_wake_lookup _ _ _ _ Hw _ _ Hr2) as (r0 & Hr0 & Hcase).
    apply (Hu k' r0 Hr0). by destruct Hcase as [->|[_ ->]].
  - apply list_lookup_insert_Some in Hr2 as [(<- & <- & _)|[_ Hr2]]; [|by apply (Hu k' r2)].
    apply (Hu j r Hr). by apply (is_named_step _ _ _ Hst).
Qed.

(** Falling asleep needs the counter to be what was read. *)
Lemma falls_asleep s r r' cur :
  reader_step s r r' -> r_at r' = Asleep cur ->
  r' = r \/ r_at r = FutexWait cur /\ g_task_idx (r_client r') = g_task_idx (r_client r) /\
    exists t, slot_at_idx s (r_client r) = Some t /\ slot_counter t = cur.
Proof.
  destruct 1 as [maps r|r v Hv|r c Hv|r c Hv]; try done.
  unfold step_reader, open_segment, compare_byte, find_next, find_returns, after_generation.
  destruct (r_at r) eqn:E; repeat case_match; intros Hat; cbn in Hat; try congruence; try (by left).
  injection Hat as <-. right. cbn. split_and!; eauto. eexists. split; [done|]. by apply Z.eqb_eq.
Qed.

(** *** The steps keep it so *)

(** With no instruction pending, a sleeper's counter is what it waits on. *)
Lemma waits_idle i mem m rs b m' c b' :
  waits i (Seg mem m [] rs b) -> waits i (Seg mem m' c rs b').
Proof.
  intros Hw k r cur Hr Hat Hn. destruct (Hw k r cur Hr Hat Hn) as [?|(w & c' & Hc & _)]; [by left|done].
Qed.

Lemma settled_fire m s h' : settled m s -> settled m (run_code (fire_code m h') s).
Proof.
  intros [H1 H2 H3]. unfold fire_code. destruct (m !! h') as [j|]; [|done].
  unfold run_code. cbn [bump_code foldl run_instr apply_store].
  pose proof (same_table_bump s (Z.to_nat j)) as Hs. split; [by eapply mapping_ok_same|..]; by destruct Hs as (? & ? & _).
Qed.

Lemma serving_store i w c mem m rs b :
  serving i (Seg mem m (Do w :: c) rs b) -> serving i (Seg (apply_store w mem) m c rs b).
Proof using All.
  intros [H1 H2 H3 [Hh Hpr] Hw Hs]. cbn [memory mapping code readers closing] in *.
  apply Forall_cons in Hh as [Hx Hh]. split; cbn [memory mapping code readers closing]; auto.
  - by apply (good_run i mem (Do w)).
  - split; [done|]. destruct w; try done. by destruct Hpr.
  - intros k r cur Hr Hat Hn. destruct (Hw k r cur Hr Hat Hn) as [(t & Ht & Hc)|(w' & c' & Hc & _)]; [|done].
    cbn [memory code] in *. destruct w as [v|j|j k' v|j|n|]; cbn [apply_store with_magic with_tasks tasks]; [by eauto| | | |by eauto..].
    + destruct (decide (j = i)) as [->|Hj].
      * right. destruct Hpr as [Hpr _]. destruct (Hpr eq_refl) as (w' & c' & -> & Hi). by eauto.
      * left. exists t. by rewrite list_lookup_alter_ne.
    + left. rewrite list_lookup_alter. case_decide as E; [subst j; rewrite Ht; by eexists|by eauto].
    + left. exists t. by rewrite list_lookup_alter_ne.
Qed.

Lemma serving_wake i k w c mem m rs rs' b :
  one_named k (Seg mem m (WakeUp w :: c) rs b) -> futex_wake (wake_idx w) (wake_count w) rs rs' ->
  serving i (Seg mem m (WakeUp w :: c) rs b) -> serving i (Seg mem m c rs' b).
Proof using All.
  intros Hu Hf [H1 H2 H3 [Hh Hpr] Hw Hs]. cbn [memory mapping code readers closing] in *.
  apply Forall_cons in Hh as [Hx Hh].
  assert (Hrs : Forall (reader_ok i) rs').
  { apply Forall_lookup. intros j r' Hr'. destruct (futex_wake_lookup _ _ _ _ Hf _ _ Hr') as (r & Hr & Hcase).
    pose proof (Forall_lookup_1 _ _ _ _ H3 Hr) as Hok. destruct Hcase as [->|[_ ->]]; [done|].
    apply (reader_at i r (r_client r)); [done|apply Hok|done]. }
  split; cbn [memory mapping code readers closing]; auto; [by split|].
  intros j r cur Hr Hat Hn.
  destruct (decide (wake_idx w = Z.of_nat i)) as [E|E].
  - exfalso. rewrite E in Hf.
    assert (Hnone : Forall (fun r => asleep_on (Z.of_nat i) r = false) rs').
    { apply (futex_wake_single _ _ _ _ k Hf Hx). intros k' r2 Hr2 Ha. apply (Hu k' r2 Hr2).
      by apply (asleep_named i r2 (Forall_lookup_1 _ _ _ _ H3 Hr2)). }
    pose proof (Forall_lookup_1 _ _ _ _ Hnone Hr) as Ha. cbn in Ha.
    rewrite (proj2 (asleep_named i r (Forall_lookup_1 _ _ _ _ Hrs Hr))) in Ha; [done|]. by eauto.
  - destruct (futex_wake_lookup _ _ _ _ Hf _ _ Hr) as (r0 & Hr0 & [->|[_ ->]]); [|done].
    destruct (Hw j r0 cur Hr0 Hat Hn) as [?|(w' & c' & [= <- <-] & Hi)]; [by left|done].
Qed.

Lemma serving_reader i k r r' mem m c rs b :
  rs !! k = Some r -> reader_step mem r r' ->
  serving i (Seg mem m c rs b) -> serving i (Seg mem m c (<[k := r']> rs) b).
Proof using All.
  intros Hr Hst [H1 H2 H3 H4 Hw Hs]. cbn [memory mapping code readers closing] in *.
  pose proof (Forall_lookup_1 _ _ _ _ H3 Hr) as Hok.
  pose proof (reader_step_ok i mem r r' H2 Hok Hst) as Hok'.
  split; cbn [memory mapping code readers closing]; auto; [by apply Forall_insert|].
  intros j r2 cur [(<- & <- & _)|[_ Hr2]]%list_lookup_insert_Some Hat Hn; [|by apply (Hw j r2 cur)].
  destruct (falls_asleep _ _ _ _ Hst Hat) as [->|(Hat0 & Hidx & t & Ht & Hc)].
  - by apply (Hw k r cur).
  - left. cbn [memory]. exists t. split; [|done]. unfold slot_at_idx in Ht. rewrite <- Hidx in Ht.
    destruct Hok' as [_ (_ & Hi & _) Hpl]. unfold place_ok in Hpl. rewrite Hat in Hpl.
    destruct (Hi Hn) as [?|E]; [done|]. by rewrite E, Nat2Z.id in Ht.
Qed.

Lemma serving_step i k s s' : one_named k s -> serving i s -> seg_step table_ok s s' -> serving i s'.
Proof using All.
  intros Hu Hl Hst. destruct Hst as [table mem m rs Ht|h' mem m rs|mem m rs|w c mem m rs b
    |w c mem m rs rs' b Hf|j r r' mem m c rs b Hr Hst].
  1-3: destruct Hl as [H1 H2 H3 H4 Hw Hs]; cbn [memory mapping code readers closing] in *;
    specialize (Hs eq_refl); pose proof (mapping_only_ours i m _ (settled_mapping _ _ Hs) H1) as Ho.
  - destruct (publish_code_ok i m table Ho Ht) as [Hc Hm].
    split; cbn [memory mapping code readers closing]; auto; [by eapply waits_idle|].
    intros _. apply publish_settles; [apply Hs|done].
  - split; cbn [memory mapping code readers closing]; auto; [by apply fire_code_ok|by eapply waits_idle|].
    intros _. by apply settled_fire.
  - split; cbn [memory mapping code readers closing]; auto; [apply destroy_code_ok|by eapply waits_idle|done].
  - by apply serving_store.
  - by eapply serving_wake.
  - by eapply serving_reader.
Qed.

Lemma blind_awake i rs : Forall blind rs -> Forall (fun r => asleep_on i r = false) rs.
Proof.
  intros Hf. eapply Forall_impl; [exact Hf|]. intros r (_ & _ & Hat). unfold asleep_on. by destruct (r_at r).
Qed.

Lemma quiet_to_live i mem m rs :
  m !! h = Some (Z.of_nat i) -> good i mem -> settled m mem -> Forall blind rs ->
  serving i (Seg mem m [] rs false).
Proof.
  intros Hm Hg Hs Hb. split; cbn [memory mapping code readers closing]; auto.
  - eapply Forall_impl; [exact Hb|]. intros r. apply blind_ok.
  - by split.
  - intros k r cur Hr Hat _. destruct (Forall_lookup_1 _ _ _ _ Hb Hr) as (_ & _ & H). by rewrite Hat in H.
Qed.

Lemma quiet_store w c mem m rs b :
  quiet (Seg mem m (Do w :: c) rs b) ->
  quiet (Seg (apply_store w mem) m c rs b) \/ exists i, serving i (Seg (apply_store w mem) m c rs b).
Proof.
  intros [Hm Hr Hc]. cbn [memory mapping code readers closing] in *.
  destruct Hc as [(-> & Hcalm & Hb)|(-> & c0 & i & Hc & Hcalm & Hh & Hg & Hs)].
  - left. apply Forall_cons in Hcalm as [Hw Hcalm].
    split; cbn [memory mapping code readers closing]; [by apply (calm_run mem (Do w))|done|left].
    split_and!; [done|done|]. intros E. by destruct (Hb E).
  - destruct c0 as [|x c0]; cbn [app] in Hc.
    + injection Hc as -> ->. right. exists i. by apply quiet_to_live.
    + injection Hc as <- ->. left. apply Forall_cons in Hcalm as [Hw Hcalm].
      split; cbn [memory mapping code readers closing]; [by apply (calm_run mem (Do w))|done|right].
      split; [done|]. exists c0, i. by split_and!.
Qed.

Lemma quiet_wake w c mem m rs rs' b :
  futex_wake (wake_idx w) (wake_count w) rs rs' ->
  quiet (Seg mem m (WakeUp w :: c) rs b) -> quiet (Seg mem m c rs' b).
Proof.
  intros Hf [Hm Hr Hc]. cbn [memory mapping code readers closing] in *.
  rewrite (futex_wake_nobody _ _ _ _ Hf (blind_awake _ _ Hr)).
  split; cbn [memory mapping code readers closing]; auto.
  destruct Hc as [(-> & Hcalm & Hb)|(-> & c0 & i & Hc & Hcalm & Hh & Hg & Hs)].
  - left. apply Forall_cons in Hcalm as [_ Hcalm]. split_and!; [done|done|]. intros E. by destruct (Hb E).
  - right. split; [done|]. destruct c0 as [|x c0]; cbn [app] in Hc; [done|injection Hc as <- ->].
    apply Forall_cons in Hcalm as [_ Hcalm]. exists c0, i. by split_and!.
Qed.

Lemma quiet_step s s' :
  quiet s -> seg_step table_ok s s' -> quiet s' \/ exists i, serving i s'.
Proof using All.
  intros Hq Hst. destruct Hst as [table mem m rs Ht|h' mem m rs|mem m rs|w c mem m rs b
    |w c mem m rs rs' b Hf|j r r' mem m c rs b Hr Hst];
    [| | |by apply quiet_store|left; by eapply quiet_wake|left].
  1-3: left; destruct Hq as [Hm Hr Hc]; cbn [memory mapping code readers closing] in *;
    destruct Hc as [(-> & Hcalm & Hb)|(_ & c0 & i & Hc & _)]; [|by destruct c0];
    destruct (Hb eq_refl) as [_ Hl].
  - destruct (first_publish table mem Hl Ht) as (i & Hi & Hg & Hs).
    destruct (publish_code_calm table ∅) as (c & Ec & Hc).
    split; cbn [memory mapping code readers closing]; auto. right. split; [done|]. by exists c, i.
  - split; cbn [memory mapping code readers closing]; [done|done|left].
    unfold fire_code. by rewrite lookup_empty.
  - split; cbn [memory mapping code readers closing]; auto.
    left. split_and!; [done|apply destroy_code_calm|done].
  - destruct Hq as [Hm Hrs Hc]. split; cbn [memory mapping code readers closing] in *; auto.
    apply Forall_insert; [done|]. apply (blind_step mem r); auto. exact (Forall_lookup_1 _ _ _ _ Hrs Hr).
Qed.

Lemma seg_reachable_ok mem names k s :
  names_length (tasks mem) -> Forall (fun name => length name = 16%nat) names ->
  (forall k' name, names !! k' = Some name -> c_prefix 15 name = name_of h -> k' = k) ->
  rtc (seg_step table_ok) (constructed mem names) s ->
  one_named k s /\ (quiet s \/ exists i, serving i s).
Proof using All.
  intros Hl Hn Hu Hs.
  assert (Hi : one_named k (constructed mem names) /\ quiet (constructed mem names)).
  { split.
    - intros k' r Hr Hnm. cbn in Hr. apply list_lookup_fmap_Some in Hr as (name & -> & Hname').
      by apply (Hu k' name).
    - split; cbn [constructed memory mapping code readers closing magic tasks]; [done| |left].
      + apply Forall_fmap. eapply Forall_impl; [exact Hn|]. intros name Hname'. by split_and!.
      + by split_and!; [|constructor|]. }
  assert (Hi' : one_named k (constructed mem names) /\ (quiet (constructed mem names) \/
    exists i, serving i (constructed mem names))) by tauto. clear Hi. revert Hi'.
  induction Hs as [s|s s1 s2 Hst Hs IH]; [done|]. intros [Ho Hq]. apply IH.
  split; [by eapply one_named_step|]. destruct Hq as [Hq|[i Hq]]; [by eapply quiet_step|].
  right. exists i. by eapply serving_step.
Qed.

(** The slot of [h], once it has one, is the same ever after. *)
Lemma slot_stays i k s s' :
  one_named k s -> quiet s \/ serving i s -> mapping s !! h = Some (Z.of_nat i) ->
  rtc (seg_step table_ok) s s' -> mapping s' !! h = Some (Z.of_nat i).
Proof using All.
  intros Ho Hq Hm Hs. revert Ho Hq Hm. induction Hs as [s|s s1 s2 Hst Hs IH]; [done|]. intros Ho Hq Hm.
  destruct Hq as [Hq|Hq].
  - assert (Hm1 : mapping s1 !! h = Some (Z.of_nat i)).
    { destruct Hst; try done. cbn [mapping] in *. exfalso.
      destruct (quiet_code _ Hq) as [[E _]|(_ & c & j & E & _)]; cbn in E;
        [by rewrite E, lookup_empty in Hm|by destruct c]. }
    destruct (quiet_step _ _ Hq Hst) as [Hq1|[j Hq1]].
    + by apply IH; [eapply one_named_step|left|].
    + assert (j = i) as -> by (pose proof (serving_mapping _ _ Hq1); simplify_eq; lia).
      by apply IH; [eapply one_named_step|right|].
  - pose proof (serving_step i k s s1 Ho Hq Hst) as Hq1.
    apply IH; [by eapply one_named_step|by right|by apply serving_mapping].
Qed.
(** *** What the invariant says *)

Lemma nobody_sleeps_yet s j r cur : quiet s -> readers s !! j = Some r -> r_at r <> Asleep cur.
Proof.
  intros Hq Hr Hat. destruct (Forall_lookup_1 _ _ _ _ (quiet_readers _ Hq) Hr) as (_ & _ & H). by rewrite Hat in H.
Qed.

Lemma busy_at_first s i : quiet s -> mapping s !! h = Some i -> code s <> [] /\ 0 <= i.
Proof.
  intros Hq Hi. destruct (quiet_code _ Hq) as [[E _]|(_ & c & j & E & _ & Hj & _)].
  - by rewrite E, lookup_empty in Hi.
  - rewrite E. split; [by destruct c|]. simplify_eq. lia.
Qed.

Lemma serving_index i j s : serving j s -> mapping s !! h = Some i -> i = Z.of_nat j.
Proof. intros Hl Hi. pose proof (serving_mapping _ _ Hl). by simplify_eq. Qed.

Lemma sleepers_of_slot k s j i r cur :
  one_named k s -> serving i s -> (forall r, readers s !! k = Some r -> is_named r) ->
  readers s !! j = Some r -> r_at r = Asleep cur ->
  g_task_idx (r_client r) = Z.of_nat i <-> j = k.
Proof.
  intros Ho Hl Hme Hr Hat.
  pose proof (asleep_named i r (Forall_lookup_1 _ _ _ _ (serving_readers _ _ Hl) Hr)) as Ha.
  unfold asleep_on in Ha. rewrite Hat, Z.eqb_eq in Ha. rewrite Ha. split.
  - intros [Hx _]. by apply (Ho j r).
  - intros ->. split; [by apply Hme|by eexists].
Qed.

Lemma wake_leaves_nobody k s i w c rs' :
  one_named k s -> quiet s \/ serving i s -> code s = WakeUp w :: c ->
  futex_wake (Z.of_nat i) (wake_count w) (readers s) rs' ->
  Forall (fun r => asleep_on (Z.of_nat i) r = false) rs'.
Proof.
  intros Ho [Hq|Hq] Hc Hf.
  - rewrite (futex_wake_nobody _ _ _ _ Hf); apply blind_awake, (quiet_readers _ Hq).
  - apply (futex_wake_single _ _ _ _ k Hf).
    + destruct (serving_code _ _ Hq) as [Hh _]. rewrite Hc in Hh. by apply Forall_cons in Hh as [Hh _].
    + intros k' r Hr Ha. apply (Ho k' r Hr).
      by apply (asleep_named i r (Forall_lookup_1 _ _ _ _ (serving_readers _ _ Hq) Hr)).
Qed.
End Protocol.

(** ** Names and mappings of the tasks do not change *)

Definition maps_segment (r : caller) : Prop := g_shm (r_client r) = None \/ g_shm (r_client r) = Some 0%nat.

Lemma reader_step_maps s r r' : reader_step s r r' -> maps_segment r -> maps_segment r'.
Proof.
  unfold maps_segment. destruct 1 as [maps r| | |]; try done. intros Hr.
  unfold step_reader, open_segment, compare_byte, find_next, find_returns, after_generation.
  destruct (r_at r); repeat case_match; cbn; auto; by right; destruct Hr as [Hr|Hr]; congruence.
Qed.

Lemma seg_step_readers T s s' names :
  seg_step T s s' ->
  r_name <$> readers s = names /\ Forall maps_segment (readers s) ->
  r_name <$> readers s' = names /\ Forall maps_segment (readers s').
Proof.
  destruct 1 as [table mem m rs _|h' mem m rs|mem m rs|w c mem m rs b|w c mem m rs rs' b Hw
    |j r r' mem m c rs b Hr Hst]; cbn [readers]; intros [Hn Hf]; try done.
  - induction Hw as [n rs _|n rs k r rs' _ Hk _ _ IH]; [done|].
    pose proof (Forall_lookup_1 _ _ _ _ Hf Hk) as Hr. apply IH; [|by apply Forall_insert].
    rewrite list_fmap_insert. cbn [goto r_name]. rewrite list_insert_id; [done|].
    by rewrite list_lookup_fmap, Hk.
  - split.
    + rewrite list_fmap_insert, (reader_step_name _ _ _ Hst), list_insert_id; [done|].
      by rewrite list_lookup_fmap, Hr.
    + apply Forall_insert; [done|]. apply (reader_step_maps _ _ _ Hst), (Forall_lookup_1 _ _ _ _ Hf Hr).
Qed.

Lemma constructed_readers T mem names s :
  rtc (seg_step T) (constructed mem names) s ->
  r_name <$> readers s = names /\ Forall maps_segment (readers s).
Proof.
  intros Hs.
  assert (Hi : r_name <$> readers (constructed mem names) = names /\
               Forall maps_segment (readers (constructed mem names))).
  { cbn. split; [|by apply Forall_fmap, Forall_true; left].
    rewrite <- list_fmap_compose. by apply list_fmap_id. }
  revert Hi. induction Hs as [|s s1 s2 Hst _ IH]; [done|]. intros Hi. apply IH. by eapply seg_step_readers.
Qed.

(** A call while the daemon is idle. *)
Lemma call_blocks s name c i t :
  length (tasks s) = TIMPANI_MAX_TASKS -> g_shm c = None \/ g_shm c = Some 0%nat ->
  magic s = TIMPANI_TTSCHED_MAGIC -> find_task_slot s name = Z.of_nat i ->
  g_task_idx c = -1 \/ g_task_idx c = Z.of_nat i -> tasks s !! i = Some t ->
  exists r', alone true s (Reader name c Start) r' /\
    r_at r' = Asleep (slot_counter t) /\ g_task_idx (r_client r') = Z.of_nat i.
Proof.
  intros Hl Hg Hm Hf Hi Ht. pose proof (call_alone true s name c Hl Hg) as Ha.
  assert (Hlook : forall c, g_task_idx c = -1 \/ g_task_idx c = Z.of_nat i -> g_shm c = Some 0%nat ->
    exists c', wait_lookup (fs_of s) name c s = (c', PWait (Z.of_nat i) (slot_counter t)) /\
      g_task_idx c' = Z.of_nat i).
  { clear c Hg Hi Ha. intros c Hi Hg. unfold wait_lookup.
    destruct (_ =? _); cbn [negb g_task_idx]; [destruct Hi as [Hi|Hi]; rewrite Hi|];
      rewrite ?Hf, ?(proj2 (Z.ltb_ge (Z.of_nat i) 0)) by lia; cbn [g_task_idx Z.ltb Z.compare];
      rewrite ?Hi, ?(proj2 (Z.ltb_ge (Z.of_nat i) 0)), ?Nat2Z.id, ?Ht by lia; by eauto. }
  assert (Hp : exists c', wait_prepare (fs_of s) true name c = (c', PWait (Z.of_nat i) (slot_counter t)) /\
    g_task_idx c' = Z.of_nat i).
  { unfold wait_prepare, mapped, ttsched_init. destruct Hg as [Hg|Hg]; rewrite Hg;
      cbn [fs_of named objects negb]; rewrite ?lookup_singleton_eq; cbn [g_shm]; rewrite ?Hg;
      cbn [fs_of named objects]; rewrite ?lookup_singleton_eq, Hm, Z.eqb_refl; apply Hlook; auto. }
  destruct Hp as (c' & Hp & Hc'). rewrite Hp in Ha. unfold prepared_reader in Ha. cbn [fst snd] in Ha.
  eexists. split; [etransitivity; [exact Ha|]|].
  - apply alone_step. cbn [step_reader r_at r_client]. unfold slot_at_idx.
    rewrite Hc', Nat2Z.id, Ht, Z.eqb_refl. apply rtc_refl.
  - by split.
Qed.

Lemma idle_call_blocks name_of h p i s k r :
  serving name_of h p i s -> Forall maps_segment (readers s) -> code s = [] -> closing s = false ->
  readers s !! k = Some r -> is_named name_of h r -> r_at r = Start ->
  exists r' t, alone true (memory s) r r' /\ r_at r' = Asleep (slot_counter t) /\
    g_task_idx (r_client r') = Z.of_nat i /\ tasks (memory s) !! i = Some t.
Proof.
  intros Hl Hmaps Hc Hcl Hr Hn Hat.
  pose proof (serving_settled _ _ _ _ _ Hl Hcl) as [Hm Hmag Hcount]. rewrite Hc in Hm, Hmag, Hcount.
  destruct (good_slot _ _ _ _ _ (serving_good _ _ _ _ _ Hl)) as (t & Ht & _).
  destruct (Forall_lookup_1 _ _ _ _ (serving_readers _ _ _ _ _ Hl) Hr) as [H16 (_ & Hidx & _) _].
  destruct r as [name c l]. cbn [r_at r_name r_client] in *. subst l.
  destruct (call_blocks (memory s) name c i t) as (r' & H1 & H2 & H3); auto.
  - apply Hm.
  - exact (Forall_lookup_1 _ _ _ _ Hmaps Hr).
  - eapply mapped_found; eauto. by apply (serving_mapping _ _ _ _ _ Hl).
  - by exists r', t.
Qed.

(** ** Scripts: runs that can be evaluated *)

Fixpoint wake_first (i n : Z) (rs : list caller) : list caller :=
  match rs with
  | [] => []
  | r :: rs => if (0 <? n) && asleep_on i r then goto r Final :: wake_first i (n - 1) rs
               else r :: wake_first i n rs
  end.

Lemma wake_first_wakes i n rs : futex_wake i n rs (wake_first i n rs).
Proof.
  enough (H : forall pre, n <= 0 \/ Forall (fun r => asleep_on i r = false) pre ->
    futex_wake i n (pre ++ rs) (pre ++ wake_first i n rs)) by (apply (H []); by right).
  revert n. induction rs as [|r rs IH]; intros n pre Hpre; cbn [wake_first].
  { rewrite app_nil_r. by apply wake_none. }
  destruct (Z.ltb_spec 0 n) as [Hn|Hn]; cbn [andb]; [destruct (asleep_on i r) eqn:Ha|].
  - destruct Hpre as [?|Hpre]; [lia|].
    apply wake_some with (length pre) r; [done|by rewrite lookup_app_r, Nat.sub_diag by done|done|].
    rewrite insert_app_r_alt, Nat.sub_diag by done. cbn.
    rewrite (cons_middle _ pre rs), (cons_middle _ pre (wake_first _ _ _)), !app_assoc.
    apply IH. right. apply Forall_app. split; [done|]. by constructor.
  - destruct Hpre as [?|Hpre]; [lia|].
    rewrite (cons_middle _ pre rs), (cons_middle _ pre (wake_first _ _ _)), !app_assoc.
    apply IH. right. apply Forall_app. split; [done|]. by constructor.
  - rewrite (cons_middle _ pre rs), (cons_middle _ pre (wake_first _ _ _)), !app_assoc.
    apply IH. by left.
Qed.

Inductive turn :=
  | TPublish (table : list SlotEntry)
  | TFire (h : Z)
  | TClose
  | TNext
  | TRead (k : nat)
  | TCall (k : nat).

Definition on_reader (k : nat) (f : caller -> option caller) (s : seg) : option seg :=
  r ← readers s !! k; r' ← f r;
  Some (Seg (memory s) (mapping s) (code s) (<[k := r']> (readers s)) (closing s)).

Definition do_turn (t : turn) (s : seg) : option seg :=
  match t, s with
  | TPublish table, Seg mem m [] rs false => Some (Seg mem (new_mapping table m) (publish_code table m) rs false)
  | TFire h, Seg mem m [] rs false => Some (Seg mem m (fire_code m h) rs false)
  | TClose, Seg mem m [] rs false => Some (Seg mem m (destroy_code mem) rs true)
  | TNext, Seg mem m (Do w :: c) rs b => Some (Seg (apply_store w mem) m c rs b)
  | TNext, Seg mem m (WakeUp w :: c) rs b => Some (Seg mem m c (wake_first (wake_idx w) (wake_count w) rs) b)
  | TRead k, s => on_reader k (fun r => Some (step_reader true (memory s) r)) s
  | TCall k, s => on_reader k (fun r => match r_at r with Returned _ => Some (goto r Start) | _ => None end) s
  | _, _ => None
  end.

Definition play (ts : list turn) (s : seg) : option seg := fold_left (fun s t => s ≫= do_turn t) ts (Some s).

Definition turn_ok (T : list SlotEntry -> Prop) (t : turn) : Prop :=
  match t with TPublish table => T table | _ => True end.

Lemma do_turn_step T t s s' : turn_ok T t -> do_turn t s = Some s' -> seg_step T s s'.
Proof.
  assert (Hreader : forall k f, (forall r r', f r = Some r' -> reader_step (memory s) r r') ->
    on_reader k f s = Some s' -> seg_step T s s').
  { intros k f Hf H. unfold on_reader in H. apply bind_Some in H as (r & Hr & H).
    apply bind_Some in H as (r' & Hr' & [= <-]). destruct s. eapply seg_reader; [done|]. by apply Hf. }
  intros Ht H. destruct t as [table|h'| | |k|k]; cbn [do_turn] in H.
  - destruct s as [mem m [] rs []]; try done. injection H as <-. by constructor.
  - destruct s as [mem m [] rs []]; try done. injection H as <-. by constructor.
  - destruct s as [mem m [] rs []]; try done. injection H as <-. by constructor.
  - destruct s as [mem m [|[w|w] c] rs b]; try done; injection H as <-; constructor. apply wake_first_wakes.
  - apply (Hreader k _) in H; [done|]. intros r r' [= <-]. constructor.
  - apply (Hreader k _) in H; [done|]. intros r r' Hr. destruct (r_at r) eqn:E; try done.
    injection Hr as <-. by econstructor.
Qed.

Lemma play_reaches T ts s s' : Forall (turn_ok T) ts -> play ts s = Some s' -> rtc (seg_step T) s s'.
Proof.
  intros Ht. unfold play. revert s. induction Ht as [|t ts Ht _ IH]; intros s H; cbn in H; [by simplify_eq|].
  destruct (do_turn t s) as [s1|] eqn:E.
  - eapply rtc_l; [by eapply do_turn_step|]. by apply IH.
  - exfalso. clear -H. induction ts as [|t' ts IH]; [done|]. by apply IH.
Qed.

Definition nexts (n : nat) : list turn := replicate n TNext.
Definition reads (k n : nat) : list turn := replicate n (TRead k).
Definition update (table : list SlotEntry) (m : gmap Z Z) : list turn :=
  TPublish table :: nexts (length (publish_code table m)).

(** ** Properties *)

(** C5. The daemon and any number of tasks run with every interleaving of
    their stores, loads, bumps and futex calls, signals and spurious wake-ups
    included, from the daemon's start, each store and load being seen by all at
    once.  What is asked: every table has task [h] and at most 32 tasks; byte
    [p] of its name, below 15, differs from that byte of the tables' other
    tasks (else a half-written name misleads it:
    [half_written_name_misleads]); a name stands for one hash; and exactly one
    caller has the name of [h].  Then: once [h] has a slot it
    keeps it; the tasks asleep on that slot are [h] and nobody else; while [h]
    sleeps it has seen the last change of the counter, or the [FUTEX_WAKE] for
    that change is the daemon's next instruction, and no task sleeps on the
    slot after it; and when the daemon is between operations a call of [h]
    falls asleep on its slot. *)
Theorem no_wakeup_is_lost name_of h p mem names k my_name s i :
  Inj eq eq name_of -> names_length (tasks mem) ->
  Forall (fun name => length name = 16%nat) names ->
  names !! k = Some my_name -> c_prefix 15 my_name = name_of h ->
  (forall k' name, names !! k' = Some name -> c_prefix 15 name = name_of h -> k' = k) ->
  (p < 15)%nat -> (p <= length (name_of h))%nat ->
  let step := seg_step (table_ok name_of h p) in
  rtc step (constructed mem names) s -> mapping s !! h = Some i ->
  (forall s', rtc step s s' -> mapping s' !! h = Some i) /\
  (forall j r cur, readers s !! j = Some r -> r_at r = Asleep cur ->
     g_task_idx (r_client r) = i <-> j = k) /\
  (forall r cur, readers s !! k = Some r -> r_at r = Asleep cur ->
     (exists t, tasks (memory s) !! Z.to_nat i = Some t /\ slot_counter t = cur) \/
     exists w c, code s = WakeUp w :: c /\ wake_idx w = i) /\
  (forall w c rs', code s = WakeUp w :: c -> wake_idx w = i ->
     futex_wake i (wake_count w) (readers s) rs' -> Forall (fun r => asleep_on i r = false) rs') /\
  (forall r, code s = [] -> closing s = false -> readers s !! k = Some r -> r_at r = Start ->
     exists r' t, alone true (memory s) r r' /\ r_at r' = Asleep (slot_counter t) /\
       g_task_idx (r_client r') = i /\ tasks (memory s) !! Z.to_nat i = Some t).
Proof.
  intros Hinj Hl Hn16 Hk Hmy Hone Hp Hp' step Hs Hi.
  assert (Hname : exists name, c_prefix 15 name = name_of h) by eauto.
  destruct (seg_reachable_ok name_of h p Hinj Hname Hp Hp' mem names k s Hl Hn16 Hone Hs) as [Ho Hq].
  destruct (constructed_readers _ mem names s Hs) as [Hnames Hmaps].
  assert (Hme : forall r, readers s !! k = Some r -> is_named name_of h r).
  { intros r Hr. pose proof (f_equal (.!! k) Hnames) as E. cbn in E.
    rewrite list_lookup_fmap, Hr, Hk in E. injection E as E. unfold is_named. by rewrite E. }
  assert (Hq' : exists j, i = Z.of_nat j /\ (quiet name_of h p s \/ serving name_of h p j s)).
  { destruct Hq as [Hq|[j Hq]].
    - destruct (busy_at_first name_of h p Hp Hp' s i Hq Hi) as [_ Hi0]. exists (Z.to_nat i). split; [lia|by left].
    - exists j. split; [by eapply serving_index|by right]. }
  destruct Hq' as (j & -> & Hj). rewrite Nat2Z.id.
  assert (Hasleep : forall j' r cur, readers s !! j' = Some r -> r_at r = Asleep cur -> serving name_of h p j s).
  { intros j' r cur Hr Hat. destruct Hj as [Hj|Hj]; [|done].
    by apply (nobody_sleeps_yet name_of h p s j' r cur) in Hj. }
  split_and!.
  - intros s' Hs'. by apply (slot_stays name_of h p Hinj Hname Hp Hp' _ k s).
  - intros j' r cur Hr Hat. apply (sleepers_of_slot name_of h p k s j' j r cur); eauto.
  - intros r cur Hr Hat. apply (serving_waits _ _ _ _ _ (Hasleep k r cur Hr Hat) k r cur); auto.
  - intros w c rs' Hc _ Hf. by apply (wake_leaves_nobody name_of h p Hp Hp' k s j w c).
  - intros r Hc Hcl Hr Hat. destruct Hj as [Hj|Hj].
    + by destruct (busy_at_first name_of h p Hp Hp' s _ Hj Hi).
    + apply (idle_call_blocks name_of h p j s k r); auto.
Qed.

Definition table_57 : list SlotEntry := [slot_of 1 0 5; slot_of 2 5 7].
Definition table_79 : list SlotEntry := [slot_of 2 0 7; slot_of 1 5 9].
Definition mapping_57 : gmap Z Z := new_mapping table_57 ∅.

(** Task 7 sleeps through an update in which task 9 takes the slot of task 5,
    waits again, and is between the two halves of a firing. *)
Definition busy_script : list turn :=
  update table_57 ∅ ++ TCall 0 :: reads 0 11 ++ update table_79 mapping_57 ++
  TRead 0 :: TCall 0 :: reads 0 11 ++ [TFire 7; TNext].

Lemma tables_57_79_ok : Forall (turn_ok (table_ok (fun h => [h]) 7 0)) busy_script.
Proof.
  assert (H1 : table_ok (fun h => [h]) 7 0 table_57).
  { split; [by repeat constructor|vm_compute; set_solver|vm_compute; lia|].
    repeat constructor; cbn; lia. }
  assert (H2 : table_ok (fun h => [h]) 7 0 table_79).
  { split; [by repeat constructor|vm_compute; set_solver|vm_compute; lia|].
    repeat constructor; cbn; lia. }
  assert (Hn : forall n, Forall (turn_ok (table_ok (fun h => [h]) 7 0)) (nexts n)).
  { intros n. apply Forall_replicate. done. }
  assert (Hr : forall n, Forall (turn_ok (table_ok (fun h => [h]) 7 0)) (reads 0 n)).
  { intros n. apply Forall_replicate. done. }
  unfold busy_script, update. cbn [app].
  repeat (first [apply Hn|apply Hr|done|apply Forall_app; split|constructor]).
Qed.

Lemma no_wakeup_is_lost_witness :
  exists s, play busy_script (constructed no_names [name1 7; name1 9]) = Some s /\
    (mapping s !! 7 = Some 1 /\ code s = [WakeUp (Wake 1 1)] /\
     r_at <$> readers s !! 0%nat = Some (Asleep 1) /\
     slot_counter <$> tasks (memory s) !! 1%nat = Some 2) /\
    forall rs', futex_wake 1 1 (readers s) rs' -> Forall (fun r => asleep_on 1 r = false) rs'.
Proof.
  assert (He : exists s, play busy_script (constructed no_names [name1 7; name1 9]) = Some s /\
    (mapping s !! 7 = Some 1 /\ code s = [WakeUp (Wake 1 1)] /\
     r_at <$> readers s !! 0%nat = Some (Asleep 1) /\
     slot_counter <$> tasks (memory s) !! 1%nat = Some 2)).
  { apply evaluated. vm_compute. by split_and!. }
  destruct He as (s & Hp & Hs). exists s. split; [exact Hp|]. split; [exact Hs|].
  destruct Hs as (Hm & Hc & _). intros rs' Hf.
  refine (proj1 (proj2 (proj2 (proj2 (no_wakeup_is_lost (fun h => [h]) 7 0 no_names [name1 7; name1 9] 0
    (name1 7) s 1 name1_inj _ _ eq_refl eq_refl _ _ _ _ Hm)))) (Wake 1 1) [] rs' Hc eq_refl Hf).
  - repeat constructor.
  - repeat constructor.
  - intros [|[|k']] name Hk Hpfx; [done| |done]. injection Hk as <-. by vm_compute in Hpfx.
  - lia.
  - cbn. lia.
  - by apply (play_reaches _ busy_script); [apply tables_57_79_ok|].
Defined.

(** ** Where the protocol loses a wake-up *)

Definition sees (o : option seg) (Q : seg -> Prop) : Prop := match o with Some s => Q s | None => False end.

(** The destructor wakes without a bump: a task that has read its counter and
    not reached the futex yet sleeps on an object nobody knows any more. *)
Lemma shutdown_wakeup_lost :
  sees (play (update table_57 ∅ ++ TCall 0 :: reads 0 10 ++ TClose :: nexts 3 ++ [TRead 0])
          (constructed no_names [name1 7]))
    (fun s => code s = [] /\ closing s = true /\ magic (memory s) = 0 /\
       r_at <$> readers s !! 0%nat = Some (Asleep 0) /\
       slot_counter <$> tasks (memory s) !! 1%nat = Some 0).
Proof. vm_compute. by split_and!. Qed.

(** [ttsched_init] looks its slot up before it reads the generation.  An
    update in between leaves task 5, which is no longer in the table, with the
    slot of task 9 under the current generation: it takes the one wake-up of
    task 9, and will again. *)
Lemma init_caches_stale_slot :
  sees (play (update table_57 ∅ ++ TCall 0 :: reads 0 5 ++ update table_79 mapping_57 ++ reads 0 5 ++
          TCall 1 :: reads 1 10 ++ TFire 9 :: nexts 2 ++ TRead 0 :: TCall 0 :: reads 0 5)
          (constructed no_names [name1 5; name1 9]))
    (fun s => code s = [] /\ mapping s !! 5 = None /\ mapping s !! 9 = Some 0 /\
       slot_counter <$> tasks (memory s) !! 0%nat = Some 1 /\
       (fun r => (r_at r, g_task_idx (r_client r))) <$> readers s = [(Asleep 1, 0); (Asleep 0, 0)] /\
       (fun r => g_shm_generation (r_client r)) <$> readers s = [generation (memory s); generation (memory s)]).
Proof. vm_compute. by split_and!. Qed.

(** A name read while it is written: between "aa" and "bb" a task sees "ba",
    which is its own, and settles on that slot.  Its own is slot 1.  So the
    theorem above asks for a byte that tells the names apart. *)
Definition entry_of (h : Z) (name : list Z) : SlotEntry := SlotEntry_ 1 0 0 10 h 1 name.
Definition table_aa : list SlotEntry := [entry_of 1 [97; 97]; entry_of 2 [98; 97]].
Definition table_bb : list SlotEntry := [entry_of 2 [98; 97]; entry_of 3 [98; 98]].
Lemma half_written_name_misleads :
  sees (play (update table_aa ∅ ++ TCall 0 :: reads 0 3 ++
          TPublish table_bb :: nexts 82 ++ reads 0 3 ++ nexts 19 ++ reads 0 5)
          (constructed no_names [98 :: 97 :: replicate 14 0]))
    (fun s => code s = [] /\ mapping s !! 2 = Some 1 /\ mapping s !! 3 = Some 0 /\
       (fun r => (r_at r, g_task_idx (r_client r))) <$> readers s = [(Asleep 0, 0)] /\
       (fun r => g_shm_generation (r_client r)) <$> readers s = [generation (memory s)]).
Proof. vm_compute. by split_and!. Qed.
