(* ===== verification/SchedStat.v ===== *)
(** * timpani-n/src/bpf/schedstat.bpf.c and schedstat_monitor.cpp

    The two tracing programs on their three hash maps, the ring buffer as the
    list of records submitted, and the monitor's calls on the pid filter. *)
From stdpp Require Import prelude gmap list.
From Stdlib Require Import ZArith Lia.
From S2P Require Import Prelude BpfMaps.
Local Open Scope Z_scope.

Definition TASK_RUNNING : Z := 0.
Definition map_entries : nat := 1024.

Record schedstat_event := SchedstatEvent {
  ev_pid : Z; ev_cpu : Z; ts_wakeup : Z; ts_start : Z; ts_stop : Z }.

Record sched_time := SchedTime { st_wakeup : Z; st_start : Z }.

(** The fields a program reads of a [task_struct]: [__state] exists in newer
    kernels only, [state] in older ones. *)
Record task_struct := TaskStruct { pid : Z; __state : option Z; state : Z }.

Definition get_task_state (t : task_struct) : Z :=
  match __state t with Some s => s | None => state t end.

Record stat_maps := StatMaps {
  pid_filter_map : gmap Z Z;
  sched_waking_map : gmap Z sched_time;
  sched_switch_map : gmap Z sched_time;
}.

Definition sched_waking (now : Z) (task : task_struct) (m : stat_maps) : stat_maps :=
  match pid_filter_map m !! pid task with
  | None => m
  | Some _ =>
      StatMaps (pid_filter_map m)
        (hash_update map_entries (pid task) (SchedTime now 0) (sched_waking_map m)).1
        (sched_switch_map m)
  end.

(** The part of [sched_switch] on the task that leaves; [room] tells whether
    the ring buffer has space. *)
Definition switch_out (now : Z) (room : bool) (cpu : Z) (prev : task_struct) (m : stat_maps)
  : stat_maps * list schedstat_event :=
  match sched_switch_map m !! pid prev with
  | None => (m, [])
  | Some d =>
      (StatMaps (pid_filter_map m)
         (if get_task_state prev =? TASK_RUNNING
          then (hash_update map_entries (pid prev) (SchedTime (st_wakeup d) 0) (sched_waking_map m)).1
          else sched_waking_map m)
         (hash_delete (pid prev) (sched_switch_map m)).1,
       if room then [SchedstatEvent (pid prev) cpu (st_wakeup d) (st_start d) now] else [])
  end.

(** The part on the task that enters. *)
Definition switch_in (now : Z) (next : task_struct) (m : stat_maps) : stat_maps :=
  match pid_filter_map m !! pid next, sched_waking_map m !! pid next with
  | Some _, Some d =>
      StatMaps (pid_filter_map m) (hash_delete (pid next) (sched_waking_map m)).1
        (hash_update map_entries (pid next) (SchedTime (st_wakeup d) now) (sched_switch_map m)).1
  | _, _ => m
  end.

Definition sched_switch (now : Z) (room : bool) (cpu : Z) (prev next : task_struct) (m : stat_maps)
  : stat_maps * list schedstat_event :=
  let '(m, out) := switch_out now room cpu prev m in
  (switch_in now next m, out).

(** ** The monitor's side of the filter *)

(** [add_pid]; [active] is [is_active()]. *)
Definition add_pid (active : bool) (p : Z) (m : stat_maps) : stat_maps * bool :=
  if (p <=? 0) || negb active then (m, false) else
  let '(f, r) := hash_update map_entries p 1 (pid_filter_map m) in
  (StatMaps f (sched_waking_map m) (sched_switch_map m), r =? 0).

(** [remove_pid]; [open] tells whether the filter's descriptor is open.  The
    call succeeds also when the pid was not there. *)
Definition remove_pid (open : bool) (p : Z) (m : stat_maps) : stat_maps * bool :=
  if (p <=? 0) || negb open then (m, false) else
  let '(f, r) := hash_delete p (pid_filter_map m) in
  (StatMaps f (sched_waking_map m) (sched_switch_map m), (r =? 0) || (r =? - ENOENT)).

(** [ring_buffer_callback]: whether the monitor's callback gets the record. *)
Definition ring_buffer_callback (has_callback : bool) (ctx data : bool) (len : Z) : bool :=
  if negb ctx || negb data || (len <? 32) then false else has_callback.

(** ** Traces *)

Inductive stat_ev :=
  | TWaking (task : task_struct)
  | TSwitch (room : bool) (cpu : Z) (prev next : task_struct)
  | TAdd (active : bool) (p : Z)
  | TRemove (open : bool) (p : Z).

Definition stat_step (m : stat_maps) (now : Z) (e : stat_ev) : stat_maps * list schedstat_event :=
  match e with
  | TWaking t => (sched_waking now t m, [])
  | TSwitch room cpu prev next => sched_switch now room cpu prev next m
  | TAdd active p => ((add_pid active p m).1, [])
  | TRemove open p => ((remove_pid open p m).1, [])
  end.

(** Events at their times; the records in the order submitted. *)
Fixpoint stat_run (m : stat_maps) (tr : list (Z * stat_ev)) : stat_maps * list schedstat_event :=
  match tr with
  | [] => (m, [])
  | (now, e) :: tr =>
      let '(m, out) := stat_step m now e in
      let '(m, rest) := stat_run m tr in
      (m, out ++ rest)
  end.

Definition stat_init : stat_maps := StatMaps ∅ ∅ ∅.

(** ** Invariant *)

(** Up to [now]: every wake-up and start is in the past, in that order, and
    the runs recorded in [log] ended before the one in progress began. *)
Record stat_ok (now : Z) (log : list schedstat_event) (m : stat_maps) : Prop := {
  so_waking : forall p d, sched_waking_map m !! p = Some d -> st_wakeup d <= now;
  so_switch : forall p d, sched_switch_map m !! p = Some d -> st_wakeup d <= st_start d <= now;
  so_log : forall e, e ∈ log ->
    ts_wakeup e <= ts_start e <= ts_stop e /\ ts_stop e <= now /\
    forall d, sched_switch_map m !! ev_pid e = Some d -> ts_stop e <= st_start d;
}.

Lemma stat_ok_le now now' log m : now <= now' -> stat_ok now log m -> stat_ok now' log m.
Proof.
  intros Hn [H1 H2 H3]. split.
  - intros p d Hd. specialize (H1 p d Hd). lia.
  - intros p d Hd. specialize (H2 p d Hd). lia.
  - intros e He. destruct (H3 e He) as (? & ? & ?). split_and!; auto; lia.
Qed.

Lemma hash_update_Some {V} cap k (v : V) (m : gmap Z V) k' v' :
  (hash_update cap k v m).1 !! k' = Some v' -> k' = k /\ v' = v \/ m !! k' = Some v'.
Proof. rewrite hash_update_lookup. case_decide as Hd; [|by right]. left. destruct Hd as [_ ->]. by simplify_eq. Qed.

Lemma waking_ok now log t m : stat_ok now log m -> stat_ok now log (sched_waking now t m).
Proof.
  intros [H1 H2 H3]. unfold sched_waking. case_match; [|by split]. split; [|done..].
  intros p d [[_ ->]|Hd]%hash_update_Some; cbn; [lia|by eapply H1].
Qed.

Lemma switch_out_ok now log room c prev m :
  stat_ok now log m ->
  let '(m', out) := switch_out now room c prev m in
  stat_ok now (log ++ out) m' /\ (length out <= 1)%nat /\
  (forall e e', e ∈ log -> e' ∈ out -> ev_pid e = ev_pid e' -> ts_stop e <= ts_start e').
Proof.
  intros Hok. pose proof Hok as [H1 H2 H3]. unfold switch_out.
  destruct (sched_switch_map m !! pid prev) as [d|] eqn:Ed.
  2:{ rewrite app_nil_r. split_and!; [done|cbn; lia|]. intros e e' _ Hn. by apply not_elem_of_nil in Hn. }
  pose proof (H2 _ _ Ed) as Hd. split_and!.
  - split; cbn [sched_waking_map sched_switch_map].
    + intros p d'. case_match; [|apply H1].
      intros [[_ ->]|Hd']%hash_update_Some; cbn; [lia|by eapply H1].
    + intros p d'. rewrite hash_delete_map, lookup_delete_Some. intros [_ Hd']. by eapply H2.
    + intros e [He|He]%elem_of_app.
      * destruct (H3 e He) as (? & ? & Hs). split_and!; auto; try lia.
        intros d'. rewrite hash_delete_map, lookup_delete_Some. intros [_ Hd']. auto.
      * destruct room; [apply list_elem_of_singleton in He as ->|by apply not_elem_of_nil in He].
        cbn [ts_wakeup ts_start ts_stop ev_pid]. split_and!; try lia.
        intros d'. rewrite hash_delete_map, lookup_delete_Some. by intros [? _].
  - destruct room; cbn; lia.
  - intros e e' He He' Hp.
    destruct room; [apply list_elem_of_singleton in He' as ->|by apply not_elem_of_nil in He'].
    cbn in Hp |- *. apply (H3 e He). by rewrite Hp.
Qed.

Lemma switch_in_ok now log next m : stat_ok now log m -> stat_ok now log (switch_in now next m).
Proof.
  intros [H1 H2 H3]. unfold switch_in. destruct (pid_filter_map m !! _); [|by split].
  destruct (sched_waking_map m !! pid next) as [d|] eqn:Ed; [|by split].
  split; cbn [sched_waking_map sched_switch_map].
  - intros p d'. rewrite hash_delete_map, lookup_delete_Some. intros [_ Hd']. by eapply H1.
  - intros p d' [[_ ->]|Hd']%hash_update_Some; cbn; [|by eapply H2].
    specialize (H1 _ _ Ed). lia.
  - intros e He. destruct (H3 e He) as (? & ? & Hs). split_and!; auto; try lia.
    intros d' [[_ ->]|Hd']%hash_update_Some; [done|auto].
Qed.

Lemma stat_step_ok now log m e :
  stat_ok now log m ->
  let '(m', out) := stat_step m now e in
  stat_ok now (log ++ out) m' /\ (length out <= 1)%nat /\
  (forall e e', e ∈ log -> e' ∈ out -> ev_pid e = ev_pid e' -> ts_stop e <= ts_start e').
Proof.
  intros Hok.
  assert (Hno : forall m', stat_ok now log m' -> stat_ok now (log ++ []) m' /\
    (length (@nil schedstat_event) <= 1)%nat /\
    forall e e', e ∈ log -> e' ∈ [] -> ev_pid e = ev_pid e' -> ts_stop e <= ts_start e').
  { intros m' Hm'. rewrite app_nil_r. split_and!; [done|cbn; lia|].
    intros e1 e2 _ Hn. by apply not_elem_of_nil in Hn. }
  destruct e as [t|room c prev next|active p|open p]; cbn [stat_step].
  - by apply Hno, waking_ok.
  - unfold sched_switch. pose proof (switch_out_ok now log room c prev m Hok) as Ho.
    destruct (switch_out now room c prev m) as [m1 out]. destruct Ho as (Ho1 & Ho2 & Ho3).
    split_and!; auto. by apply switch_in_ok.
  - apply Hno. unfold add_pid. case_match; [done|]. case_match. by destruct Hok.
  - apply Hno. unfold remove_pid. case_match; [done|]. case_match. by destruct Hok.
Qed.

(** Times in a trace never go back. *)
Fixpoint monotone (now : Z) (tr : list (Z * stat_ev)) : Prop :=
  match tr with [] => True | (t, _) :: tr => now <= t /\ monotone t tr end.

Lemma stat_run_ok now log m tr :
  stat_ok now log m -> monotone now tr ->
  let '(m', out) := stat_run m tr in
  (exists now', stat_ok now' (log ++ out) m') /\
  (forall e e', e ∈ log -> e' ∈ out -> ev_pid e = ev_pid e' -> ts_stop e <= ts_start e') /\
  ForallOrdPairs (fun e e' => ev_pid e = ev_pid e' -> ts_stop e <= ts_start e') out.
Proof.
  revert now log m. induction tr as [|[t e] tr IH]; intros now log m Hok Hm; cbn [stat_run].
  { rewrite app_nil_r. split_and!; [by eexists| |constructor].
    intros e e' _ Hn. by apply not_elem_of_nil in Hn. }
  destruct Hm as [Hle Hm]. pose proof (stat_step_ok t log m e (stat_ok_le _ _ _ _ Hle Hok)) as Hs.
  destruct (stat_step m t e) as [m1 out]. destruct Hs as (Hs1 & Hs2 & Hs3).
  specialize (IH t (log ++ out) m1 Hs1 Hm).
  destruct (stat_run m1 tr) as [m2 rest]. destruct IH as ([now' Hok'] & Hx & Hp).
  split_and!.
  - exists now'. by rewrite app_assoc.
  - intros e1 e2 H1 [H2|H2]%elem_of_app; [by apply Hs3|]. apply Hx; [set_solver|done].
  - destruct out as [|o [|]]; [done| |cbn in Hs2; lia]. constructor; [|done].
    apply Forall_forall. intros e' He'. apply Hx; set_solver.
Qed.

(** ** Properties *)

(** C36. Whatever the kernel traces, with a clock that never goes back, each
    record submitted has wake-up <= start <= stop, and the runs recorded for
    one pid do not overlap and come in order. *)
Theorem schedstat_records_ordered t0 tr :
  monotone t0 tr ->
  let out := (stat_run stat_init tr).2 in
  Forall (fun e => ts_wakeup e <= ts_start e <= ts_stop e) out /\
  ForallOrdPairs (fun e e' => ev_pid e = ev_pid e' -> ts_stop e <= ts_start e') out.
Proof.
  intros Hm. assert (Hi : stat_ok t0 [] stat_init).
  { split; intros *; cbn; [by rewrite lookup_empty..|]. intros Hn. by apply not_elem_of_nil in Hn. }
  pose proof (stat_run_ok t0 [] stat_init tr Hi Hm) as Hr.
  destruct (stat_run stat_init tr) as [m out]. destruct Hr as ([now' [_ _ Hl]] & _ & Hp).
  split; [|done]. apply Forall_forall. intros e He. by apply Hl.
Qed.

Definition runnable (p : Z) : task_struct := TaskStruct p (Some 0) 0.
Definition sleeping (p : Z) : task_struct := TaskStruct p (Some 1) 0.

(** Pid 7 is woken at 10, runs from 12 to 15, is preempted, runs from 20 to
    25 and sleeps: two records with the same wake-up. *)
Lemma schedstat_records_ordered_witness :
  let tr := [(0, TAdd true 7); (10, TWaking (sleeping 7));
             (12, TSwitch true 1 (runnable 0) (runnable 7));
             (15, TSwitch true 1 (runnable 7) (runnable 0));
             (20, TSwitch true 1 (runnable 0) (runnable 7));
             (25, TSwitch true 1 (sleeping 7) (runnable 0))] in
  (stat_run stat_init tr).2 = [SchedstatEvent 7 1 10 12 15; SchedstatEvent 7 1 10 20 25] /\
  Forall (fun e => ts_wakeup e <= ts_start e <= ts_stop e) (stat_run stat_init tr).2.
Proof.
  intros tr. split; [by vm_compute|].
  apply (schedstat_records_ordered 0 tr). cbn. lia.
Defined.

(** One run of a filtered task that was woken at [w]: switched in at [t1]
    and, with nothing in between that concerns the task, out at [t2], it gives
    exactly the record (w, t1, t2); when it leaves still runnable it keeps its
    wake-up time for the next run, and otherwise is forgotten. *)
Theorem schedstat_run_recorded m t1 t2 w c c' room prev task leaving next :
  pid task = pid leaving -> pid prev <> pid task -> pid next <> pid task ->
  (size (sched_waking_map m) <= map_entries)%nat ->
  is_Some (pid_filter_map m !! pid task) ->
  sched_waking_map m !! pid task = Some (SchedTime w 0) ->
  sched_switch_map m !! pid task = None -> sched_switch_map m !! pid prev = None ->
  (size (sched_switch_map m) < map_entries)%nat ->
  let '(m1, out1) := sched_switch t1 room c prev task m in
  let '(m2, out2) := sched_switch t2 true c' leaving next m1 in
  out1 = [] /\ out2 = [SchedstatEvent (pid task) c' w t1 t2] /\
  sched_switch_map m2 !! pid task = None /\
  sched_waking_map m2 !! pid task =
    if get_task_state leaving =? TASK_RUNNING then Some (SchedTime w 0) else None.
Proof.
  intros Hpid Hprev Hnext Hcap [f Hf] Hw Hs Hsp Hroom. unfold sched_switch, switch_out.
  rewrite Hsp. cbv beta iota.
  set (m1 := StatMaps (pid_filter_map m) (hash_delete (pid task) (sched_waking_map m)).1
               (hash_update map_entries (pid task) (SchedTime w t1) (sched_switch_map m)).1).
  assert (switch_in t1 task m = m1) as -> by (unfold switch_in; by rewrite Hf, Hw).
  assert (Hm1 : sched_switch_map m1 !! pid task = Some (SchedTime w t1)).
  { cbn [m1 sched_switch_map]. unfold hash_update.
    rewrite decide_False by (rewrite Hs; by intros [? ?]). rewrite decide_True by done.
    cbn [fst]. by rewrite lookup_insert_eq. }
  rewrite <- Hpid, Hm1. cbv beta iota. cbn [st_wakeup st_start]. split_and!; [done|done| |].
  - unfold switch_in. cbn [pid_filter_map sched_waking_map sched_switch_map].
    destruct (pid_filter_map m1 !! pid next);
      [destruct (_ !! pid next) as [d|]|]; cbn [sched_switch_map];
      rewrite hash_delete_map, ?hash_update_lookup, ?decide_False by (intros [_ Hx]; by apply Hnext);
      by rewrite lookup_delete_eq.
  - assert (Hw1 : sched_waking_map m1 !! pid task = None /\
                  (size (sched_waking_map m1) < map_entries)%nat).
    { cbn [m1 sched_waking_map]. rewrite hash_delete_map, lookup_delete_eq. split; [done|].
      rewrite map_size_delete_Some by (by eexists).
      assert (size (sched_waking_map m) <> 0)%nat; [|lia].
      intros Hz. apply map_size_empty_inv in Hz. rewrite Hz, lookup_empty in Hw. done. }
    destruct Hw1 as [Hw1 Hsz].
    assert (Hkeep : forall wk sw fm, wk !! pid task = (if get_task_state leaving =? TASK_RUNNING
        then Some (SchedTime w 0) else None) ->
      sched_waking_map (switch_in t2 next (StatMaps fm wk sw)) !! pid task =
        if get_task_state leaving =? TASK_RUNNING then Some (SchedTime w 0) else None).
    { intros wk sw fm Hwk. unfold switch_in. cbn [pid_filter_map sched_waking_map].
      destruct (fm !! pid next); [destruct (wk !! pid next)|]; cbn [sched_waking_map]; try done.
      by rewrite hash_delete_map, lookup_delete_ne. }
    apply Hkeep. case_match; [|done]. unfold hash_update.
    rewrite decide_False by (rewrite Hw1; by intros [? ?]). rewrite decide_True by done.
    cbn [fst]. by rewrite lookup_insert_eq.
Qed.

Lemma schedstat_run_recorded_witness :
  let m := StatMaps {[ 7 := 1 ]} {[ 7 := SchedTime 10 0 ]} ∅ in
  let '(m1, out1) := sched_switch 12 true 1 (runnable 0) (runnable 7) m in
  let '(m2, out2) := sched_switch 15 true 1 (sleeping 7) (runnable 0) m1 in
  out1 = [] /\ out2 = [SchedstatEvent 7 1 10 12 15] /\
  sched_switch_map m2 !! 7 = None /\ sched_waking_map m2 !! 7 = None.
Proof.
  intros m.
  apply (schedstat_run_recorded m 12 15 10 1 1 true (runnable 0) (runnable 7) (sleeping 7) (runnable 0));
    try done; unfold map_entries; vm_compute; try lia; by eexists.
Defined.
