(* ===== verification/GpdataWriter.v ===== *)
(** * timpani-n/src/gpdata_writer.cpp: the trace file of a node

    Clocks, [fopen] and [fprintf] are the C library's: the readings and
    whether the calls succeed are arguments.  A line is a text; times of the
    clocks are nanoseconds. *)
From Stdlib Require Import Ascii.
From stdpp Require Import prelude gmap strings list pretty.
From Stdlib Require Import ZArith Lia.
From S2P Require Import Prelude Text SchedStat.
Local Open Scope Z_scope.

Record timespec := Timespec { tv_sec : Z; tv_nsec : Z }.
Definition timespec_to_ns (ts : timespec) : Z := u64 (u64 (tv_sec ts * 1000000000) + tv_nsec ts).

Definition kNsPerUs : Z := 1000.
Definition ULLONG_MAX : Z := 2 ^ 64 - 1.

Record writer := Writer {
  node_id_ : string;
  file_ : option (list text);
  ktime_offset_ns_ : Z;
  started_ : bool;
}.
(** Closed files are kept by the caller: [stop] hands the lines over. *)
Definition GpdataWriter (node_id : string) : writer :=
  Writer (if decide (node_id = ""%string) then "node"%string else node_id) None 0 false.
Definition set_started (b : bool) (w : writer) : writer := Writer (node_id_ w) (file_ w) (ktime_offset_ns_ w) b.

(** ** Calibration *)

(** The three readings of one turn, realtime, monotonic, realtime; [None]
    when one of them fails. *)
Definition sample : Type := option (timespec * timespec * timespec).

(** One turn on [best_delta] and [best_offset]. *)
Definition calibrate_turn (best : Z * Z) (t1 t2 t3 : timespec) : Z * Z :=
  let ns_t1 := timespec_to_ns t1 in
  let ns_t2 := timespec_to_ns t2 in
  let ns_t3 := timespec_to_ns t3 in
  let delta := u64 (ns_t3 - ns_t1) in
  let midpoint := u64 (ns_t1 + ns_t3) / 2 in
  if delta <? best.1 then (delta, u64 (midpoint - ns_t2)) else best.

Definition calibrate_ktime_offset_locked (samples : list sample) : option Z :=
  snd <$> fold_opt (fun best (s : sample) => '(t1, t2, t3) ← s; Some (calibrate_turn best t1 t2 t3))
            (ULLONG_MAX, 0) (take 20 samples).

Definition start (samples : list sample) (w : writer) : writer * bool :=
  if started_ w then (w, true) else
  match calibrate_ktime_offset_locked samples with
  | None => (w, false)
  | Some off => (Writer (node_id_ w) (file_ w) off true, true)
  end.

(** The lines of the file that is closed. *)
Definition stop (w : writer) : writer * option (list text) :=
  (Writer (node_id_ w) None (ktime_offset_ns_ w) false, file_ w).

(** ** Writing *)

Definition to_realtime_ns (w : writer) (monotonic_ns : Z) : Z := u64 (ktime_offset_ns_ w + monotonic_ns).
Definition ns_to_us_round_up (ns : Z) : Z := u64 (ns + (kNsPerUs - 1)) / kNsPerUs.

Definition ensure_file_opened_locked (fopen_ok : bool) (w : writer) : writer * bool :=
  match file_ w with
  | Some _ => (w, true)
  | None => if fopen_ok then (Writer (node_id_ w) (Some []) (ktime_offset_ns_ w) (started_ w), true) else (w, false)
  end.

(** [%-16s] *)
Definition pad16 (t : text) : text := t ++ replicate (16 - length t) " "%char.

Definition event_line (node task : string) (cpu wakeup start stop : Z) : text :=
  pad16 (chars task) ++ chars " 0 0 " ++ chars node ++ chars "-C" ++ chars (pretty cpu) ++ chars " 0 " ++
  chars (pretty wakeup) ++ chars " " ++ chars (pretty start) ++ chars " " ++ chars (pretty stop) ++ chars " 0" ++
  [ascii_of_nat 10].

Definition write_event (fopen_ok fprintf_ok : bool) (event : schedstat_event) (task_name : string) (w : writer) : writer :=
  if negb (started_ w) then w else
  let '(w, ok) := ensure_file_opened_locked fopen_ok w in
  if negb ok then set_started false w else
  let us ns := ns_to_us_round_up (to_realtime_ns w ns) in
  if fprintf_ok then
    Writer (node_id_ w)
      (Some (default [] (file_ w) ++ [event_line (node_id_ w) task_name (ev_cpu event) (us (ts_wakeup event))
                                       (us (ts_start event)) (us (ts_stop event))]))
      (ktime_offset_ns_ w) (started_ w)
  else set_started false w.

(** ** How accurate the written times are *)

(** The nanoseconds of the three readings of a turn. *)
Record turn := Turn { before : Z; mono : Z; after : Z }.
Definition reads (s : sample) (r : turn) : Prop :=
  exists t1 t2 t3, s = Some (t1, t2, t3) /\
    timespec_to_ns t1 = before r /\ timespec_to_ns t2 = mono r /\ timespec_to_ns t3 = after r.

(** The realtime clock is [d] ahead of the monotonic one, and the middle
    reading was made between the other two; no clock is past 2^62 ns. *)
Definition consistent (d : Z) (r : turn) : Prop :=
  0 <= before r /\ before r <= mono r + d <= after r /\ after r < 2 ^ 62 /\ 0 <= mono r < 2 ^ 62.

Definition delta (r : turn) : Z := after r - before r.

(** A calibrated offset: off from [d] by at most half of [best], rounded up. *)
Definition calibrated (d best off : Z) : Prop := exists e, off = u64 (d + e) /\ 2 * Z.abs e <= best + 1.

Lemma calibrate_turn_spec d best off s r :
  reads s r -> consistent d r -> best < ULLONG_MAX -> calibrated d best off \/ delta r < best ->
  exists t1 t2 t3 off', s = Some (t1, t2, t3) /\
    calibrate_turn (best, off) t1 t2 t3 = (Z.min best (delta r), off') /\ calibrated d (Z.min best (delta r)) off'.
Proof.
  intros (t1 & t2 & t3 & -> & H1 & H2 & H3) (Hb & [Hl Hu] & Ha & Hm) _ Hoff.
  exists t1, t2, t3. unfold calibrate_turn. rewrite H1, H2, H3. cbv zeta. cbn [fst]. unfold delta in *. pows.
  rewrite (wrap_small 64 (after r - before r)), (wrap_small 64 (before r + after r)) by (unfold uword; pows; lia).
  destruct (Z.ltb_spec (after r - before r) best) as [Hlt|Hge].
  - eexists. split; [done|]. rewrite Z.min_r by lia. split; [done|].
    exists ((before r + after r) / 2 - mono r - d). split; [f_equal; lia|].
    pose proof (Z.div_mod (before r + after r) 2 ltac:(lia)). pose proof (Z.mod_pos_bound (before r + after r) 2 ltac:(lia)). lia.
  - exists off. split; [done|]. rewrite Z.min_l by lia. split; [done|]. destruct Hoff; [done|lia].
Qed.

Definition min_delta (best : Z) (rs : list turn) : Z := foldl (fun m r => Z.min m (delta r)) best rs.

Lemma calibrate_fold d best off ss rs :
  Forall2 reads ss rs -> Forall (consistent d) rs -> best < ULLONG_MAX -> calibrated d best off ->
  exists off', fold_opt (fun best (s : sample) => '(t1, t2, t3) ← s; Some (calibrate_turn best t1 t2 t3)) (best, off) ss
               = Some (min_delta best rs, off') /\ calibrated d (min_delta best rs) off'.
Proof.
  intros Hr Hc. revert best off. induction Hr as [|s r ss rs Hs Hr IH]; intros best off Hb Hoff; [by exists off|].
  apply Forall_cons in Hc as [Hc1 Hc]. cbn [fold_opt min_delta foldl].
  destruct (calibrate_turn_spec d best off s r Hs Hc1 Hb ltac:(by left)) as (t1 & t2 & t3 & off' & -> & E & Hoff').
  cbn [mbind option_bind]. rewrite E. apply IH; [done|lia|done].
Qed.

Lemma calibrate_spec d ss r rs :
  Forall2 reads ss (r :: rs) -> Forall (consistent d) (r :: rs) -> length ss = 20%nat ->
  exists off, calibrate_ktime_offset_locked ss = Some off /\ calibrated d (min_delta (delta r) rs) off.
Proof.
  intros Hr Hc Hlen. unfold calibrate_ktime_offset_locked. rewrite take_ge by lia.
  apply Forall2_cons_inv_r in Hr as (s & ss' & Hs & Hr & ->). apply Forall_cons in Hc as [Hc1 Hc]. cbn [fold_opt].
  pose proof Hc1 as (? & [? ?] & ? & ?). 
  destruct (calibrate_turn_spec d (ULLONG_MAX - 1) 0 s r Hs Hc1) as (t1 & t2 & t3 & off & -> & E & Hoff).
  { lia. }
  { right. unfold delta, ULLONG_MAX. pows. lia. }
  assert (Hmin : Z.min (ULLONG_MAX - 1) (delta r) = delta r) by (unfold delta, ULLONG_MAX; pows; lia).
  assert (E' : calibrate_turn (ULLONG_MAX, 0) t1 t2 t3 = (delta r, off)).
  { rewrite Hmin in E. rewrite <- E. unfold calibrate_turn. cbn [fst]. 
    destruct Hs as (x1 & x2 & x3 & [= -> -> ->] & -> & -> & ->).
    rewrite wrap_small by (unfold uword, delta in *; pows; lia).
    rewrite !(proj2 (Z.ltb_lt _ _)); [done|..]; unfold delta, ULLONG_MAX in *; pows; lia. }
  cbn [mbind option_bind]. rewrite E'. rewrite Hmin in Hoff.
  destruct (calibrate_fold d (delta r) off ss' rs Hr Hc) as (off' & -> & Hoff'); [unfold delta, ULLONG_MAX; pows; lia|done|].
  by exists off'.
Qed.

Lemma min_delta_spec best rs : exists m, min_delta best rs = m /\ m <= best /\ forall r, r ∈ rs -> m <= delta r.
Proof.
  exists (min_delta best rs). split; [done|]. revert best. induction rs as [|x rs IH]; intros best; cbn [min_delta foldl].
  { split; [lia|]. by intros r ?%not_elem_of_nil. }
  destruct (IH (Z.min best (delta x))) as [H1 H2]. unfold min_delta in *. split; [lia|].
  intros r [->|Hr]%elem_of_cons; [lia|auto].
Qed.

(** [us] microseconds of the realtime clock stand for the monotonic [ns]: no
    more than half of [m] early, and at most as much and a microsecond late. *)
Definition accurate (d m ns us : Z) : Prop := - (m + 1) <= 2 * (1000 * us - (ns + d)) <= (m + 1) + 2 * 999.

Lemma written_time_accurate w d m ns :
  calibrated d m (ktime_offset_ns_ w) -> 0 <= m < 2 ^ 62 -> 0 <= ns < 2 ^ 62 -> d < 2 ^ 62 -> m + 1 <= ns + d ->
  accurate d m ns (ns_to_us_round_up (to_realtime_ns w ns)).
Proof.
  intros (e & Hoff & He) Hm Hns Hd Hpos. unfold ns_to_us_round_up, to_realtime_ns, kNsPerUs. rewrite Hoff.
  assert (Hw : u64 (u64 (d + e) + ns) = d + e + ns).
  { unfold wrap. rewrite Zplus_mod_idemp_l. apply Z.mod_small. pows. lia. }
  rewrite Hw, wrap_small by (unfold uword; pows; lia). unfold accurate.
  pose proof (Z.div_mod (d + e + ns + (1000 - 1)) 1000 ltac:(lia)).
  pose proof (Z.mod_pos_bound (d + e + ns + (1000 - 1)) 1000 ltac:(lia)). lia.
Qed.

(** C40. The times of a trace: a writer calibrated with twenty consistent
    readings of the clocks, of which [r] is one and the fastest took [m] ns,
    writes one line per event, and each of its times is the realtime in
    microseconds of the event, rounded up, up to half of [m]. *)
Theorem trace_times_accurate d samples r rs node event task w :
  length samples = 20%nat -> Forall2 reads samples (r :: rs) -> Forall (consistent d) (r :: rs) ->
  started_ w = false -> node = node_id_ w ->
  (forall ns, ns ∈ [ts_wakeup event; ts_start event; ts_stop event] -> 0 <= ns < 2 ^ 62 /\ delta r + 1 <= ns + d) ->
  exists w1 m wakeup start_ stop_, start samples w = (w1, true) /\
    (forall x, x ∈ r :: rs -> m <= delta x) /\ m ∈ delta <$> r :: rs /\
    file_ (write_event true true event task w1) =
      Some (default [] (file_ w) ++ [event_line node task (ev_cpu event) wakeup start_ stop_]) /\
    accurate d m (ts_wakeup event) wakeup /\ accurate d m (ts_start event) start_ /\ accurate d m (ts_stop event) stop_.
Proof.
  intros Hlen Hr Hc Hst -> Hns. destruct (calibrate_spec d samples r rs Hr Hc Hlen) as (off & Hcal & Hoff).
  unfold start. rewrite Hst, Hcal. destruct (min_delta_spec (delta r) rs) as (m & <- & Hm1 & Hm2).
  set (w1 := Writer (node_id_ w) (file_ w) off true). set (us := fun ns => ns_to_us_round_up (to_realtime_ns w1 ns)).
  exists w1, (min_delta (delta r) rs), (us (ts_wakeup event)), (us (ts_start event)), (us (ts_stop event)).
  split; [done|]. split; [intros x [->|Hx]%elem_of_cons; [exact Hm1|auto]|]. split.
  { clear. cbn [fmap list_fmap]. unfold min_delta. generalize (delta r). induction rs as [|x rs IH]; intros b; cbn [foldl fmap list_fmap].
    - by left.
    - specialize (IH (Z.min b (delta x))). apply elem_of_cons in IH as [->|IH]; [|do 2 right; done].
      destruct (Z.min_spec b (delta x)) as [[_ ->]|[_ ->]]; [by left|right; by left]. }
  split.
  { unfold write_event, ensure_file_opened_locked. cbn [w1 started_ negb file_]. by destruct (file_ w). }
  assert (Hd : d < 2 ^ 62) by (apply Forall_cons in Hc as [(? & ? & ? & ?) _]; lia).
  assert (Hm0 : 0 <= min_delta (delta r) rs).
  { clear -Hc. apply Forall_cons in Hc as [(? & ? & ? & ?) Hc]. assert (Hdr : 0 <= delta r) by (unfold delta; lia).
    revert Hdr. generalize (delta r). induction Hc as [|x rs (? & ? & ? & ?) _ IH]; intros b Hb; cbn [min_delta foldl]; [done|].
    apply IH. unfold delta. lia. }
  assert (Hlt : min_delta (delta r) rs < 2 ^ 62).
  { apply Forall_cons in Hc as [(? & ? & ? & ?) _]. unfold delta in *. lia. }
  assert (Ht : forall ns, ns ∈ [ts_wakeup event; ts_start event; ts_stop event] ->
            accurate d (min_delta (delta r) rs) ns (us ns)).
  { intros ns Hin. destruct (Hns ns Hin) as [? ?]. apply written_time_accurate; [done|done|done|done|lia]. }
  split_and!; apply Ht; set_solver.
Qed.

Definition reading (a m b : Z) : sample := Some (Timespec 1 a, Timespec 0 m, Timespec 1 b).
Definition readings : list sample := reading 100 150 200 :: replicate 18 (reading 100 190 400) ++ [reading 500 505 511].
Definition readings_ns : list turn :=
  replicate 18 (Turn 1000000100 190 1000000400) ++ [Turn 1000000500 505 1000000511].

(** The fastest reading took 11 ns; the offset 1000000000 is found. *)
Lemma trace_times_accurate_witness :
  exists w1 wakeup start_ stop_, start readings (GpdataWriter "n") = (w1, true) /\
    file_ (write_event true true (SchedstatEvent 7 3 1500 2500 9000) "cam" w1)
    = Some [event_line "n" "cam" 3 wakeup start_ stop_] /\ accurate 1000000000 11 2500 start_.
Proof.
  destruct (trace_times_accurate 1000000000 readings (Turn 1000000100 150 1000000200) readings_ns "n"
    (SchedstatEvent 7 3 1500 2500 9000) "cam" (GpdataWriter "n")) as (w1 & m & a & b & c & E & Hmin & Hm & Hf & _ & Ha & _).
  - done.
  - unfold readings, readings_ns. cbn [replicate app].
    repeat (apply Forall2_cons_2; [do 3 eexists; split; [reflexivity|]; split_and!; vm_compute; reflexivity|]). apply Forall2_nil_2.
  - unfold readings_ns. cbn [replicate app]. repeat (apply Forall_cons; split; [unfold consistent; cbn; lia|]). constructor.
  - done.
  - done.
  - intros ns Hin. cbn in Hin. assert (ns = 1500 \/ ns = 2500 \/ ns = 9000) by set_solver. unfold delta. cbn [after before]. pows. lia.
  - assert (m = 11) as ->.
    { assert (m <= 11) by (apply (Hmin (Turn 1000000500 505 1000000511)); vm_compute; set_solver).
      
      assert (Hall : Forall (fun x => 11 <= delta x) (Turn 1000000100 150 1000000200 :: readings_ns))
        by (repeat constructor; by vm_compute).
      apply list_elem_of_fmap in Hm as (x & -> & Hx). eapply Forall_forall in Hall; [|exact Hx]. cbn beta in Hall. lia. }
    exists w1, a, b, c. split; [exact E|]. split; [exact Hf|done].
Defined.
