(* ===== verification/Floats.v ===== *)
(** * Floating-point numbers

    The formats the C and C++ sources use, as instances of the Standard
    Library's executable IEEE arithmetic (SpecFloat), with round to nearest
    even after every operation. *)
From stdpp Require Import prelude list.
From Stdlib Require Import ZArith SpecFloat Lia.
From S2P Require Import Prelude.
Local Open Scope Z_scope.

(** ** long double (x87) *)

Module Ld.
Definition prec : Z := 64.
Definition emax : Z := 16384.
Definition of_Z (z : Z) : spec_float := binary_normalize prec emax z 0 false.
Definition add := SFadd prec emax.
Definition sub := SFsub prec emax.
Definition mul := SFmul prec emax.
Definition div := SFdiv prec emax.
(** 1.0e-12L: the nearest value, 10141204801825835212 * 2^-103. *)
Definition precision : spec_float := S754_finite false 10141204801825835212 (-103).
End Ld.

(** ** double *)

Module Dbl.
Definition prec : Z := 53.
Definition emax : Z := 1024.
Definition of_Z (z : Z) : spec_float := binary_normalize prec emax z 0 false.
Definition add := SFadd prec emax.
Definition sub := SFsub prec emax.
Definition mul := SFmul prec emax.
Definition div := SFdiv prec emax.
(** Conversion from a wider format. *)
Definition of_wide (x : spec_float) : spec_float :=
  match x with
  | S754_finite s m e => binary_normalize prec emax (if s then Z.neg m else Z.pos m) e s
  | _ => x
  end.
(** [rint] followed by a conversion to [int]: nearest integer, ties to even. *)
Definition rint_to_Z (x : spec_float) : Z :=
  match x with
  | S754_finite s m e =>
      let r :=
        if 0 <=? e then Z.pos m * 2 ^ e
        else
          let d := 2 ^ (- e) in
          let q := Z.pos m / d in
          let r := 2 * (Z.pos m mod d) in
          if r <? d then q else if d <? r then q + 1 else if Z.even q then q else q + 1 in
      if s then - r else r
  | _ => 0
  end.
End Dbl.

(** ** Floating-point results that are not below zero *)

Definition not_below_zero (x : spec_float) : Prop :=
  match x with
  | S754_finite true _ _ | S754_infinity true => False
  | _ => True
  end.

Lemma not_below_zero_ltb x : not_below_zero x -> SFltb x (S754_zero false) = false.
Proof. by destruct x as [[]|[]| |[] ? ?]. Qed.

Lemma binary_round_aux_sign prec emax m e l :
  not_below_zero (binary_round_aux prec emax false m e l).
Proof.
  unfold binary_round_aux. destruct (shr_fexp _ _ _ _ _) as [mrs e'].
  destruct (shr_fexp _ _ _ _ _) as [mrs' e'']. by destruct (shr_m mrs'); [| |]; try case_match.
Qed.

Lemma binary_normalize_nonneg prec emax z e : 0 <= z -> not_below_zero (binary_normalize prec emax z e false).
Proof.
  intros Hz. unfold binary_normalize. destruct z as [|m|m]; [done| |lia].
  unfold binary_round. destruct (shl_align _ _ _). apply binary_round_aux_sign.
Qed.

Lemma mul_nonneg x y : not_below_zero x -> not_below_zero y -> not_below_zero (Dbl.mul x y).
Proof.
  unfold Dbl.mul, SFmul. destruct x as [[]|[]| |[] ? ?], y as [[]|[]| |[] ? ?]; try done.
  intros _ _. apply binary_round_aux_sign.
Qed.

Lemma div_nonneg x my ey : not_below_zero x -> not_below_zero (Dbl.div x (S754_finite false my ey)).
Proof.
  unfold Dbl.div, SFdiv. destruct x as [[]|[]| |[] ? ?]; try done.
  intros _. cbv beta iota. match goal with |- context [SFdiv_core_binary ?p ?q ?a ?b ?c ?d] =>
    destruct (SFdiv_core_binary p q a b c d) as [[mz ez] lz] end. apply binary_round_aux_sign.
Qed.

Lemma add_nonneg x y : not_below_zero x -> not_below_zero y -> not_below_zero (Dbl.add x y).
Proof.
  unfold Dbl.add, SFadd. destruct x as [[]|[]| |[] mx ex], y as [[]|[]| |[] my ey]; try done.
  intros _ _. apply binary_normalize_nonneg. cbn [cond_Zopp]. lia.
Qed.
