(* ===== verification/Workloads.v ===== *)
(** * sample-apps/src/sample_apps.c: the workloads

    Each workload is a function to the code it returns; [UB] is an undefined
    operation (or a loop that outlasts its fuel, which the theorems exclude).
    [rand] is the sequence of values the library function returns: a workload
    takes the number of values used so far and returns the new number.
    Floating-point values are IEEE numbers of the widths of the source. *)
From stdpp Require Import prelude list.
From Stdlib Require Import ZArith Znumtheory SpecFloat Lia.
From S2P Require Import Prelude Floats.
Local Open Scope Z_scope.
Local Open Scope c_scope.

Definition EXIT_SUCCESS : Z := 0.
Definition EXIT_FAILURE : Z := 1.
Definition RAND_MAX : Z := 2147483647.

(** ** Newton-Raphson (bisection) square root, in 80-bit floating point *)

(** [while ((j++ < 56) && ((hi - lo) > precision))]: [j] at the end, [lo], [hi]. *)
Fixpoint nsqrt_loop (fuel : nat) (n : spec_float) (j : Z) (lo hi : spec_float)
  : option (Z * spec_float * spec_float) :=
  match fuel with
  | O => None
  | S fuel =>
      let c := j <? 56 in
      let j := j + 1 in
      if c && SFltb Ld.precision (Ld.sub hi lo) then
        let g := Ld.div (Ld.add lo hi) (Ld.of_Z 2) in
        if SFltb n (Ld.mul g g) then nsqrt_loop fuel n j lo g else nsqrt_loop fuel n j g hi
      else Some (j, lo, hi)
  end.

(** The body for one [i]: whether both checks pass. *)
Definition nsqrt_check (i : Z) : bool :=
  let n := Ld.of_Z i in
  let one := Ld.of_Z 1 in
  let lo := if SFltb n one then n else one in
  let hi := if SFltb n one then one else n in
  match nsqrt_loop 58 n 0 lo hi with
  | None => false
  | Some (j, lo, hi) =>
      let rt := Ld.div (Ld.add lo hi) (Ld.of_Z 2) in
      let r2 := Dbl.rint_to_Z (Dbl.of_wide (Ld.mul rt rt)) in
      (j <? 56) && (r2 =? i)
  end.

Definition stress_cpu_nsqrt : Z :=
  if forallb nsqrt_check (seqZ 16300 84) then EXIT_SUCCESS else EXIT_FAILURE.

(** ** Fibonacci *)

(** [do { ... } while (!(fn & 0x8000000000000000))]: the last [fn] and the
    number of iterations. *)
Fixpoint fib_loop (fuel : nat) (f1 f2 i : Z) : option (Z * Z) :=
  match fuel with
  | O => None
  | S fuel =>
      let fn := u64 (f1 + f2) in
      let i := u64 (i + 1) in
      if Z.land fn 0x8000000000000000 =? 0 then fib_loop fuel f2 fn i else Some (fn, i)
  end.

Definition fn_res : Z := 0xa94fad42221f2702.
Definition stress_cpu_fibonacci (fuel : nat) : option (Z * Z) :=
  '(fn, i) ← fib_loop fuel 0 1 0;
  Some (if fn_res =? fn then EXIT_SUCCESS else EXIT_FAILURE, i).

(** ** Sieve of Eratosthenes *)

(** [for (int j = i * i; j <= limit; j += i) is_prime[j] = false;] *)
Fixpoint clear_multiples (fuel : nat) (limit i j : Z) (p : list bool) : outcome (list bool) :=
  if limit <? j then Ret p else
  match fuel with
  | O => UB
  | S fuel =>
      p <-c aset p j false;
      j <-c cint (j + i);
      clear_multiples fuel limit i j p
  end.

(** [for (int i = 2; i * i <= limit; i++)] *)
Fixpoint sieve_loop (fuel : nat) (limit i : Z) (p : list bool) : outcome (list bool) :=
  match fuel with
  | O => UB
  | S fuel =>
      sq <-c cint (i * i);
      if limit <? sq then Ret p else
      b <-c aget p i;
      p <-c (if (b : bool) then clear_multiples (Z.to_nat limit) limit i sq p else Ret p);
      i <-c cint (i + 1);
      sieve_loop fuel limit i p
  end.

Definition count_primes (p : list bool) : Z := zlen (filter (fun b => b = true) (drop 2 p)).

(** [malloc_ok] tells whether the allocation succeeds. *)
Definition sieve (limit : Z) : outcome (list bool) :=
  n <-c cint (limit + 1);
  p <-c aset (replicate (Z.to_nat n) true) 1 false;
  p <-c aset p 0 false;
  sieve_loop (Z.to_nat limit) limit 2 p.

Definition stress_cpu_prime (malloc_ok : bool) (limit : Z) : outcome Z :=
  let limit := if limit <=? 0 then 100000 else limit in
  _ <-c cint (limit + 1);
  if negb malloc_ok then Ret EXIT_FAILURE else
  p <-c sieve limit;
  Ret (if (limit =? 100000) && negb (count_primes p =? 9592) then EXIT_FAILURE else EXIT_SUCCESS).

Section Rand.
Context (rand : nat -> Z).

(** ** Matrix multiplication *)

Definition rand_double (n : nat) : spec_float := Dbl.div (Dbl.of_Z (rand n)) (Dbl.of_Z RAND_MAX).

(** The initialisation fills [a] and [b] in one row-major sweep, [a] first. *)
Definition matrix_a (size n i j : nat) : spec_float := rand_double (n + 2 * (i * size + j)).
Definition matrix_b (size n i j : nat) : spec_float := rand_double (n + 2 * (i * size + j) + 1).

Definition matrix_c (size n i j : nat) : spec_float :=
  foldl (fun acc k => Dbl.add acc (Dbl.mul (matrix_a size n i k) (matrix_b size n k j)))
    (S754_zero false) (seq 0 size).

Definition matrix_checksum (size n : nat) : spec_float :=
  foldl (fun acc i => foldl (fun acc j => Dbl.add acc (matrix_c size n i j)) acc (seq 0 size))
    (S754_zero false) (seq 0 size).

(** The three allocations are assumed to succeed: the code does not check. *)
Definition stress_cpu_matrix (size : Z) (n : nat) : Z * nat :=
  let size := Z.to_nat (if size <=? 0 then 64 else size) in
  (if SFltb (matrix_checksum size n) (S754_zero false) then EXIT_FAILURE else EXIT_SUCCESS,
   (n + 2 * (size * size))%nat).

(** ** Memory *)

Definition int_of_size (x : Z) : Z := to_signed 32 x.

(** One access: [checksum += buffer[idx]; buffer[idx] = checksum ^ i;] *)
Definition memory_access (buffer : list Z) (checksum i : Z) (r : Z) : outcome (list Z * Z) :=
  if zlen buffer =? 0 then UB else
  let idx := u64 r mod zlen buffer in
  v <-c aget buffer idx;
  checksum <-c cint (checksum + v);
  buffer <-c aset buffer idx (int_of_size (Z.lxor (u64 checksum) i));
  Ret (buffer, checksum).

Fixpoint memory_loop (iterations : nat) (i : Z) (n : nat) (buffer : list Z) (checksum : Z)
  : outcome (Z * nat) :=
  match iterations with
  | O => Ret (checksum, n)
  | S iterations =>
      r <-c memory_access buffer checksum i (rand n);
      memory_loop iterations (i + 1) (S n) r.1 r.2
  end.

Definition stress_cpu_memory (malloc_ok : bool) (size_mb : Z) (n : nat) : outcome (Z * nat) :=
  let size_mb := if size_mb <=? 0 then 16 else size_mb in
  kb <-c cint (size_mb * 1024);
  b <-c cint (kb * 1024);
  let num_ints := Z.to_nat (u64 b / 4) in
  if negb malloc_ok then Ret (EXIT_FAILURE, n) else
  r <-c memory_loop (num_ints / 4) 0 (n + num_ints) (rand <$> seq n num_ints) 0;
  Ret (if r.1 =? 0x12345678 then EXIT_FAILURE else EXIT_SUCCESS, r.2).

(** ** Hash rounds *)

Definition hash_init : list Z :=
  [0x6a09e667; 0xbb67ae85; 0x3c6ef372; 0xa54ff53a; 0x510e527f; 0x9b05688c; 0x1f83d9ab; 0x5be0cd19].

(** [(w << 1) | (w >> 31)] *)
Definition rotl1 (w : Z) : Z := Z.lor (u32 (Z.shiftl w 1)) (Z.shiftr w 31).

Definition hash_step (data hash : list Z) (i : nat) : list Z :=
  let w := Z.lxor (rotl1 (nth (i mod 16) data 0)) (nth (i mod 8) hash 0) in
  let temp := u32 (u32 (nth 7 hash 0 + w) + Z.of_nat i) in
  [temp; nth 0 hash 0; nth 1 hash 0; nth 2 hash 0; u32 (nth 3 hash 0 + temp);
   nth 4 hash 0; nth 5 hash 0; nth 6 hash 0].

Definition hash_round (st : list Z * list Z) : list Z * list Z :=
  let '(data, hash) := st in
  let hash := foldl (hash_step data) hash (seq 0 64) in
  (imap (fun i d => Z.lxor d (nth (i mod 8) hash 0)) data, hash).

Definition final_hash (hash : list Z) : Z := foldl Z.lxor 0 hash.

Definition crypto_state (rounds : Z) (n : nat) : list Z * list Z :=
  Nat.iter (Z.to_nat (if rounds <=? 0 then 1000 else rounds)) hash_round
    (u32 <$> (rand <$> seq n 16), hash_init).

Definition stress_cpu_crypto (rounds : Z) (n : nat) : Z * nat :=
  (if final_hash (crypto_state rounds n).2 =? 0 then EXIT_FAILURE else EXIT_SUCCESS, (n + 16)%nat).

(** ** Mixed *)

Definition ret {A} (r : A) : outcome A := Ret r.
Definition fibonacci_result : outcome Z :=
  match stress_cpu_fibonacci 100 with Some (r, _) => Ret r | None => UB end.

Definition stress_cpu_mixed (malloc_ok : bool) (intensity : Z) (n : nat) : outcome (Z * nat) :=
  let intensity := if intensity <=? 0 then 10 else intensity in
  match intensity mod 4 with
  | 0 =>
      s <-c cint (8 + intensity);
      let '(r, n) := stress_cpu_matrix s n in
      Ret (Z.lor stress_cpu_nsqrt r, n)
  | 1 =>
      f <-c fibonacci_result;
      a <-c cint (100 * intensity);
      let '(r, n) := stress_cpu_crypto a n in
      Ret (Z.lor f r, n)
  | 2 =>
      m <-c stress_cpu_memory malloc_ok (1 + intensity / 10) n;
      k <-c cint (intensity * 1000);
      k <-c cint (10000 + k);
      p <-c stress_cpu_prime malloc_ok k;
      Ret (Z.lor m.1 p, m.2)
  | _ =>
      let '(r1, n) := stress_cpu_matrix 16 n in
      a <-c cint (50 * intensity);
      let '(r2, n) := stress_cpu_crypto a n in
      Ret (Z.lor (Z.lor r1 r2) stress_cpu_nsqrt, n)
  end.

(** ** Busy loop and the choice of workload *)

(** The thread CPU clock read before and then at each turn of the loop: the
    turns made, [None] while it still spins. *)
Fixpoint spin (start_ns runtime_ns : Z) (clock : list Z) : option nat :=
  match clock with
  | [] => None
  | t :: clock => if runtime_ns <=? u64 (t - start_ns) then Some 1%nat
                  else S <$> spin start_ns runtime_ns clock
  end.

Definition stress_cpu_busyloop (runtime_us : Z) (clock : list Z) : outcome (option nat) :=
  r <-c cint (runtime_us * 1000);
  let runtime_ns := u64 r in
  Ret (match clock with [] => None | start_ns :: clock => spin start_ns runtime_ns clock end).

(** [for (int i = 0; i < loop_count; i++)] around a workload. *)
Fixpoint for_each (k : nat) (i : Z) (body : Z -> nat -> outcome nat) (n : nat) : outcome nat :=
  match k with
  | O => Ret n
  | S k => n <-c body i n; for_each k (i + 1) body n
  end.

Definition ALGO_NSQRT : Z := 1.
Definition ALGO_FIBO : Z := 2.
Definition ALGO_BUSY : Z := 3.
Definition ALGO_MATRIX : Z := 4.
Definition ALGO_MEMORY : Z := 5.
Definition ALGO_CRYPTO : Z := 6.
Definition ALGO_MIXED : Z := 7.
Definition ALGO_PRIME : Z := 8.

(** The results are ignored.  [None]: the busy loop still spins. *)
Definition do_calculations (malloc_ok : bool) (algo runtime_us loop_count : Z) (clock : list Z)
    (n : nat) : outcome (option nat) :=
  let loops := Z.to_nat loop_count in
  if algo =? ALGO_NSQRT then Ret (Some n)
  else if algo =? ALGO_FIBO then
    n <-c for_each loops 0 (fun _ n => f <-c fibonacci_result; Ret n) n; Ret (Some n)
  else if algo =? ALGO_BUSY then
    r <-c stress_cpu_busyloop (to_signed 32 (u64 (runtime_us * 95) / 100)) clock;
    Ret (match r with Some _ => Some n | None => None end)
  else if algo =? ALGO_MATRIX then
    n <-c for_each loops 0 (fun i n => a <-c cint (i * 4); s <-c cint (32 + a);
                                      Ret (stress_cpu_matrix s n).2) n;
    Ret (Some n)
  else if algo =? ALGO_MEMORY then
    r <-c stress_cpu_memory malloc_ok loop_count n; Ret (Some r.2)
  else if algo =? ALGO_CRYPTO then
    a <-c cint (loop_count * 100); Ret (Some (stress_cpu_crypto a n).2)
  else if algo =? ALGO_MIXED then
    n <-c for_each loops 0 (fun i n => r <-c stress_cpu_mixed malloc_ok (i + 1) n; Ret r.2) n;
    Ret (Some n)
  else if algo =? ALGO_PRIME then
    a <-c cint (loop_count * 10000);
    r <-c stress_cpu_prime malloc_ok a;
    Ret (Some n)
  else Ret (Some n).
End Rand.

(** ** The sieve *)

(** [k] is struck out while the outer loop is below [i]. *)
Definition struck (i k : Z) : Prop := exists d, 2 <= d < i /\ d * d <= k /\ (d | k).

(** The array after the outer loop has reached [i]. *)
Definition sieved (limit i : Z) (p : list bool) : Prop :=
  zlen p = limit + 1 /\
  p !! 0%nat = Some false /\ p !! 1%nat = Some false /\
  forall k, 2 <= k <= limit -> exists b, p !! Z.to_nat k = Some b /\ (b = true <-> ~ struck i k).

#[export] Instance divide_decision a b : Decision (a | b) := Zdivide_dec a b.

(** The array during the inner loop for [i], which has reached [j]. *)
Definition clearing (limit i j : Z) (p q : list bool) : Prop :=
  zlen q = limit + 1 /\
  forall k, 0 <= k <= limit ->
    q !! Z.to_nat k = if decide ((i | k) /\ i * i <= k < j) then Some false else p !! Z.to_nat k.

Lemma aset_lookup {A} (a : list A) i x a' k :
  aset a i x = Ret a' -> 0 <= k -> a' !! Z.to_nat k = if decide (k = i) then Some x else a !! Z.to_nat k.
Proof.
  unfold aset. destruct (_ && _) eqn:E; [|done]. intros [= <-] Hk.
  apply andb_true_iff in E as [E1%Z.leb_le E2%Z.ltb_lt].
  case_decide as Hd; [subst k|].
  - apply list_lookup_insert_eq. unfold zlen in E2. lia.
  - apply list_lookup_insert_ne. lia.
Qed.

Lemma aset_zlen {A} (a : list A) i x a' : aset a i x = Ret a' -> zlen a' = zlen a.
Proof. unfold aset, zlen. case_match; [|done]. intros [= <-]. by rewrite length_insert. Qed.

Lemma clear_multiples_ok fuel limit i j p q :
  2 <= i -> i * i <= j -> (i | j) -> j - i <= limit -> limit + i <= INT_MAX ->
  limit < j + Z.of_nat fuel * i ->
  clearing limit i j p q ->
  exists q', clear_multiples fuel limit i j q = Ret q' /\
    clearing limit i (limit + 1) p q'.
Proof.
  revert j q. induction fuel as [|fuel IH]; intros j q Hi Hj Hd Hji Hov Hf [Hl Hq].
  - assert (limit < j) as Hlt by lia. cbn [clear_multiples]. rewrite (proj2 (Z.ltb_lt _ _) Hlt).
    exists q. split; [done|]. split; [done|]. intros k Hk. rewrite Hq by done.
    do 2 case_decide; auto; exfalso; naive_solver lia.
  - cbn [clear_multiples]. destruct (Z.ltb_spec limit j) as [Hlt|Hge].
    + exists q. split; [done|]. split; [done|]. intros k Hk. rewrite Hq by done.
      do 2 case_decide; auto; exfalso; naive_solver lia.
    + rewrite (aset_ok q j) by nia. cbn [obind]. rewrite cint_ok by (unfold INT_MIN, INT_MAX in *; nia).
      cbn [obind]. apply IH; try lia; [by apply Z.divide_add_r|].
      destruct (aset q j false) as [q1|] eqn:Eq; [|rewrite aset_ok in Eq by nia; done].
      pose proof Eq as Eq'. rewrite aset_ok in Eq' by nia. injection Eq' as Eq'.
      rewrite Eq'. split; [by rewrite (aset_zlen _ _ _ _ Eq)|].
      intros k Hk. rewrite (aset_lookup _ _ _ _ _ Eq) by lia. rewrite Hq by done.
      destruct (decide (k = j)) as [->|Hne].
      * rewrite decide_True by (split; [done|lia]). done.
      * assert (Hiff : (i | k) /\ i * i <= k < j + i <-> (i | k) /\ i * i <= k < j).
        { split; intros [H1 H2]; (split; [done|]); [|lia].
          destruct H1 as [a Ha], Hd as [b Hb]. assert (a < b \/ a = b \/ b < a) as [?|[?|?]] by lia; nia. }
        do 2 case_decide; auto; exfalso; tauto.
Qed.

Lemma struck_step limit i p p' b :
  2 <= i -> i * i <= limit -> sieved limit i p -> p !! Z.to_nat i = Some b ->
  (if b : bool then clearing limit i (limit + 1) p p' else p' = p) ->
  sieved limit (i + 1) p'.
Proof.
  intros Hi Hsq (Hl & H0 & H1 & Hk) Hb Hp'.
  assert (Hsplit : forall k, struck (i + 1) k <-> struck i k \/ (i * i <= k /\ (i | k))).
  { intros k. unfold struck. split.
    - intros (d & Hd & ? & ?). destruct (decide (d = i)) as [->|]; [by right|left].
      exists d. split_and!; auto; lia.
    - intros [(d & Hd & ? & ?)|[? ?]]; [exists d|exists i]; split_and!; auto; lia. }
  destruct b.
  - destruct Hp' as [Hl' Hq]. split_and!; [done| | |].
    + change 0%nat with (Z.to_nat 0). rewrite Hq, decide_False by nia. done.
    + change 1%nat with (Z.to_nat 1). rewrite Hq, decide_False by nia. done.
    + intros k Hkr. rewrite (Hq k ltac:(lia)). destruct (Hk k Hkr) as (b & Hb' & Hiff).
      case_decide as Hdec.
      * exists false. split; [done|]. rewrite Hsplit. split; [done|]. intros Hn. exfalso. apply Hn.
        right. tauto.
      * exists b. split; [done|]. rewrite Hiff, Hsplit. split; [|tauto]. intros Hn [?|[? ?]]; [done|].
        apply Hdec. split; [done|lia].
  - subst p'. split_and!; [done..|]. intros k Hkr. destruct (Hk k Hkr) as (b & Hb' & Hiff).
    exists b. split; [done|]. rewrite Hiff, Hsplit. split; [|tauto]. intros Hn [?|[Hik Hdk]]; [done|].
    destruct (Hk i ltac:(nia)) as (bi & Hbi & Hiffi). rewrite Hb in Hbi. injection Hbi as <-.
    assert (Hsi : ~ ~ struck i i) by (intros Hx; by apply Hiffi in Hx).
    apply Hsi. intros (d & Hd & Hdd & Hdi). apply Hn. exists d. split_and!; [lia..|nia|].
    by apply Z.divide_trans with i.
Qed.

Lemma sieve_loop_ok fuel limit i p :
  2 <= i -> 1 <= limit < 2147395600 -> (i - 1) * (i - 1) <= limit -> limit + 1 < Z.of_nat fuel + i ->
  sieved limit i p ->
  exists p' i', sieve_loop fuel limit i p = Ret p' /\ 2 <= i' /\ limit < i' * i' /\ sieved limit i' p'.
Proof.
  revert i p. induction fuel as [|fuel IH]; intros i p Hi Hlim Hsq Hf Hs.
  { exfalso. cbn in Hf. nia. }
  assert (Hi46 : i <= 46340) by nia. cbn [sieve_loop].
  rewrite cint_ok by (unfold INT_MIN, INT_MAX; nia). cbn [obind].
  destruct (Z.ltb_spec limit (i * i)) as [Hlt|Hge]; [by exists p, i|].
  pose proof Hs as (Hl & _ & _ & Hk).
  destruct (Hk i ltac:(nia)) as (b & Hb & _).
  rewrite (aget_ok p i b) by (done || lia). cbn [obind].
  rewrite (cint_ok (i + 1)) by (unfold INT_MIN, INT_MAX; lia).
  assert (exists p', (if b then clear_multiples (Z.to_nat limit) limit i (i * i) p else Ret p) = Ret p' /\
    sieved limit (i + 1) p') as (p' & -> & Hs').
  { destruct b.
    - destruct (clear_multiples_ok (Z.to_nat limit) limit i (i * i) p p) as (q' & Hq' & Hc);
        try lia; [by apply Z.divide_factor_l|unfold INT_MAX; lia|nia| |].
      + split; [done|]. intros k Hkr. by rewrite decide_False by lia.
      + exists q'. split; [done|]. by apply (struck_step limit i p q' true).
    - exists p. split; [done|]. by apply (struck_step limit i p p false). }
  cbn [obind]. apply IH; auto; lia.
Qed.

#[export] Instance prime_decision k : Decision (prime k) := prime_dec k.

Lemma prime_not_struck limit i k : 2 <= k <= limit -> limit < i * i -> 0 < i -> ~ struck i k <-> prime k.
Proof.
  intros Hk Hlim Hi. split.
  - intros Hn. destruct (prime_dec k) as [|Hnp]; [done|exfalso].
    destruct (not_prime_divide k ltac:(lia) Hnp) as (d & Hd & [e He]). apply Hn.
    destruct (decide (d * d <= k)).
    + exists d. split_and!; [lia|nia|done|by exists e].
    + exists e. assert (e < d) by nia. assert (2 <= e) by nia.
      split_and!; [done|nia|nia|]. exists d. lia.
  - intros Hp (d & Hd & Hdd & Hdiv). apply prime_divisors in Hdiv; [|done]. nia.
Qed.

Lemma sieve_ok limit :
  1 <= limit < 2147395600 ->
  exists p, sieve limit = Ret p /\ zlen p = limit + 1 /\
    forall k, 0 <= k <= limit -> p !! Z.to_nat k = Some (bool_decide (prime k)).
Proof.
  intros Hlim. unfold sieve. rewrite cint_ok by (unfold INT_MIN, INT_MAX; lia). cbn [obind].
  set (p0 := replicate (Z.to_nat (limit + 1)) true).
  assert (Hl0 : zlen p0 = limit + 1) by (unfold zlen, p0; rewrite length_replicate; lia).
  destruct (aset p0 1 false) as [p1|] eqn:E1; [|rewrite aset_ok in E1 by lia; done].
  pose proof (aset_zlen _ _ _ _ E1) as Hl1. cbn [obind].
  destruct (aset p1 0 false) as [p2|] eqn:E2; [|rewrite aset_ok in E2 by lia; done].
  pose proof (aset_zlen _ _ _ _ E2) as Hl2. cbn [obind].
  assert (Hp2 : forall k, 0 <= k <= limit -> p2 !! Z.to_nat k = Some (2 <=? k)).
  { intros k Hk. rewrite (aset_lookup _ _ _ _ _ E2), (aset_lookup _ _ _ _ _ E1) by lia.
    destruct (decide (k = 0)) as [->|]; [done|]. destruct (decide (k = 1)) as [->|]; [done|].
    rewrite (proj2 (Z.leb_le _ _)) by lia.
    unfold p0. apply lookup_replicate. split; [done|lia]. }
  destruct (sieve_loop_ok (Z.to_nat limit) limit 2 p2) as (p & i & Hp & Hi2 & Hi & Hs); try lia.
  - split_and!; [lia|by apply (Hp2 0); lia|by apply (Hp2 1); lia|].
    intros k Hk. rewrite (Hp2 k) by lia. exists true. rewrite (proj2 (Z.leb_le 2 k)) by lia.
    split; [done|]. split; [|done]. intros _ (d & Hd & _). lia.
  - exists p. destruct Hs as (Hl & H0 & H1 & Hk). split_and!; auto. intros k Hkr.
    destruct (decide (k < 2)).
    + rewrite bool_decide_eq_false_2 by (intros Hp'; apply prime_ge_2 in Hp'; lia).
      assert (k = 0 \/ k = 1) as [-> | ->] by lia; done.
    + destruct (Hk k ltac:(lia)) as (b & -> & Hiff).
      rewrite (prime_not_struck limit) in Hiff by lia. f_equal.
      apply eq_true_iff_eq. by rewrite Hiff, bool_decide_eq_true.
Qed.

Lemma count_primes_ok limit p :
  1 <= limit -> zlen p = limit + 1 ->
  (forall k, 0 <= k <= limit -> p !! Z.to_nat k = Some (bool_decide (prime k))) ->
  count_primes p = zlen (filter (fun k => prime k) (seqZ 2 (limit - 1))).
Proof.
  intros Hl Hlen Hp. unfold count_primes, zlen in *.
  assert (drop 2 p = (fun k => bool_decide (prime k)) <$> seqZ 2 (limit - 1)) as ->.
  { apply list_eq. intros i. rewrite lookup_drop, list_lookup_fmap.
    destruct (decide (Z.of_nat i < limit - 1)) as [Hi|Hi].
    - rewrite lookup_seqZ_lt by lia. cbn [fmap option_fmap option_map].
      replace (2 + i)%nat with (Z.to_nat (2 + Z.of_nat i)) by lia. apply Hp. lia.
    - rewrite lookup_ge_None_2 by lia. rewrite lookup_seqZ_ge by lia. done. }
  f_equal. induction (seqZ 2 (limit - 1)) as [|k l IH]; [done|]. cbn [fmap list_fmap].
  destruct (decide (prime k)) as [Hk|Hk].
  - rewrite bool_decide_eq_true_2, !filter_cons_True by done. cbn [length]. by rewrite IH.
  - rewrite bool_decide_eq_false_2, !filter_cons_False by done. done.
Qed.

(** From 46340 squared on, [i * i] overflows before it exceeds the limit. *)
Lemma sieve_overflow fuel limit i p p' :
  2147395600 <= limit -> 0 <= i -> sieve_loop fuel limit i p <> Ret p'.
Proof.
  intros Hlim. revert i p. induction fuel as [|fuel IH]; intros i p Hi; [done|]. cbn [sieve_loop].
  unfold cint at 1. destruct ((INT_MIN <=? i * i) && (i * i <=? INT_MAX)) eqn:E; [|done]. cbn [obind].
  apply andb_true_iff in E as [_ E%Z.leb_le]. unfold INT_MAX in E.
  destruct (Z.ltb_spec limit (i * i)); [assert (i <= 46340 \/ 46341 <= i) by lia; nia|].
  destruct (aget p i) as [b|]; [|done]. cbn [obind].
  destruct (if b then _ else _) as [p1|]; [|done]. cbn [obind].
  unfold cint. case_match; [|done]. cbn [obind]. apply IH. lia.
Qed.

(** ** The matrix checksum *)

Lemma matrix_checksum_nonneg rand size n :
  (forall k, 0 <= rand k) -> not_below_zero (matrix_checksum rand size n).
Proof.
  intros Hr.
  assert (Hd : forall k, not_below_zero (rand_double rand k)).
  { intros k. unfold rand_double.
    assert (exists m e, Dbl.of_Z RAND_MAX = S754_finite false m e) as (m & e & ->) by (by eexists _, _).
    apply div_nonneg, binary_normalize_nonneg, Hr. }
  assert (Hc : forall i j, not_below_zero (matrix_c rand size n i j)).
  { intros i j. unfold matrix_c. apply foldl_inv; [done|]. intros a k Ha. apply add_nonneg; [done|].
    by apply mul_nonneg; apply Hd. }
  unfold matrix_checksum. apply foldl_inv; [done|]. intros a i Ha. apply foldl_inv; [done|]. intros b j Hb.
  by apply add_nonneg.
Qed.

(** ** Words of the hash stay 32-bit *)

Lemma lxor_uword w x y : 0 <= w -> uword w x -> uword w y -> uword w (Z.lxor x y).
Proof.
  intros Hw [Hx Hx'] [Hy Hy']. assert (0 <= Z.lxor x y) as H0 by by apply Z.lxor_nonneg.
  split; [done|]. apply Z.bounded_iff_bits_nonneg; [done..|]. intros l Hl. rewrite Z.lxor_spec.
  rewrite (proj1 (Z.bounded_iff_bits_nonneg w x Hw Hx) Hx' l Hl).
  by rewrite (proj1 (Z.bounded_iff_bits_nonneg w y Hw Hy) Hy' l Hl).
Qed.

Lemma nth_Forall {A} (P : A -> Prop) l i d : Forall P l -> P d -> P (nth i l d).
Proof.
  intros Hl Hd. rewrite nth_lookup. destruct (l !! i) eqn:E; [|done]. by apply (Forall_lookup_1 _ _ _ _ Hl E).
Qed.

Definition words32 (n : nat) (l : list Z) : Prop := length l = n /\ Forall (uword 32) l.

Lemma uword0 : uword 32 0.
Proof. split; lia. Qed.

Lemma hash_step_words data hash i :
  words32 8 hash -> words32 8 (hash_step data hash i).
Proof.
  intros [Hl Hh]. split; [done|]. pose proof (fun k => nth_Forall _ hash k 0 Hh uword0) as Hn.
  unfold hash_step. repeat (constructor; [first [apply Hn|by apply wrap_range]|]). constructor.
Qed.

Lemma hash_round_words st :
  words32 16 st.1 -> words32 8 st.2 -> words32 16 (hash_round st).1 /\ words32 8 (hash_round st).2.
Proof.
  destruct st as [data hash]. cbn [fst snd]. intros [Hd Hd'] Hh. unfold hash_round.
  set (hash' := foldl (hash_step data) hash (seq 0 64)).
  assert (words32 8 hash') as [Hh1 Hh2].
  { apply foldl_inv; [done|]. intros h i. apply hash_step_words. }
  split; [|done]. cbn [fst]. split; [by rewrite length_imap|].
  apply Forall_lookup. intros i x Hx. rewrite list_lookup_imap in Hx.
  apply fmap_Some in Hx as (d & Hdi & ->). apply lxor_uword; [done|by apply (Forall_lookup_1 _ _ _ _ Hd' Hdi)|].
  by apply nth_Forall; [|apply uword0].
Qed.

Lemma crypto_words rand rounds n :
  words32 16 (crypto_state rand rounds n).1 /\ words32 8 (crypto_state rand rounds n).2.
Proof.
  unfold crypto_state. generalize (Z.to_nat (if rounds <=? 0 then 1000 else rounds)) as k.
  induction k as [|k IH].
  - split; split; cbn; try done; repeat constructor; cbn; try lia; apply wrap_range; lia.
  - cbn [Nat.iter nat_rect]. destruct IH as [H1 H2]. by apply hash_round_words.
Qed.

(** ** Loops that end, operations that overflow *)

Lemma fib_loop_more fuel f1 f2 i r k : fib_loop fuel f1 f2 i = Some r -> fib_loop (fuel + k) f1 f2 i = Some r.
Proof.
  revert f1 f2 i. induction fuel as [|fuel IH]; intros f1 f2 i Hr; [done|].
  cbn [Nat.add fib_loop] in *. case_match; [by apply IH|done].
Qed.

(** The CPU clock, if it keeps advancing, ends the busy loop. *)
Lemma spin_ends start_ns runtime_ns clock k t :
  clock !! k = Some t -> runtime_ns <= u64 (t - start_ns) ->
  exists turns, spin start_ns runtime_ns clock = Some turns /\ (turns <= S k)%nat.
Proof.
  revert k. induction clock as [|c clock IH]; intros k Hk Ht; [done|]. cbn [spin].
  destruct (Z.leb_spec runtime_ns (u64 (c - start_ns))); [exists 1%nat; split; [done|lia]|].
  destruct k as [|k]; cbn in Hk; [simplify_eq; lia|].
  destruct (IH k Hk Ht) as (n & -> & Hn). exists (S n). split; [done|lia].
Qed.

(** [runtime_us * NSEC_PER_USEC] is an [int] product. *)
Lemma busyloop_overflow runtime_us clock :
  2147483 < runtime_us -> stress_cpu_busyloop runtime_us clock = UB.
Proof. intros Hr. unfold stress_cpu_busyloop. rewrite cint_overflow by (unfold INT_MAX; lia). done. Qed.

(** [checksum += buffer[idx]] adds [int]s: two large values overflow. *)
Lemma memory_checksum_overflow malloc size_mb n :
  0 < size_mb < 2048 -> malloc = true -> stress_cpu_memory (fun _ => RAND_MAX) malloc size_mb n = UB.
Proof.
  intros Hs ->. unfold stress_cpu_memory. rewrite (proj2 (Z.leb_gt _ _)) by lia.
  rewrite !cint_ok by (unfold INT_MIN, INT_MAX; lia). cbn [obind].
  rewrite cint_ok by (unfold INT_MIN, INT_MAX; lia). cbn [obind negb].
  rewrite wrap_small by (unfold uword; lia).
  set (num := Z.to_nat (size_mb * 1024 * 1024 / 4)).
  assert (Hnum : 262144 <= Z.of_nat num).
  { unfold num. rewrite Z2Nat.id by (apply Z.div_pos; lia). apply Z.div_le_lower_bound; lia. }
  assert (Hit : (2 <= num / 4)%nat) by (apply Nat.div_le_lower_bound; lia).
  destruct (num / 4)%nat as [|[|k]]; [lia|lia|]. clear Hit.
  assert (Hacc : forall buffer i, Forall (eq RAND_MAX) buffer -> length buffer = num ->
    memory_access buffer 0 i RAND_MAX =
      Ret (<[Z.to_nat (u64 RAND_MAX mod zlen buffer) := int_of_size (Z.lxor RAND_MAX i)]> buffer, RAND_MAX)).
  { intros buffer i Hb Hl. unfold memory_access.
    assert (0 < zlen buffer) by (unfold zlen; lia). rewrite (proj2 (Z.eqb_neq _ _)) by lia.
    pose proof (Z.mod_pos_bound (u64 RAND_MAX) (zlen buffer) ltac:(done)) as Hm.
    destruct (lookup_lt_is_Some_2 buffer (Z.to_nat (u64 RAND_MAX mod zlen buffer))) as [v Hv];
      [unfold zlen in *; lia|].
    rewrite (aget_ok _ _ v) by (done || lia).
    pose proof (Forall_lookup_1 _ _ _ _ Hb Hv) as Hv'. cbn in Hv'. subst v.
    cbn [obind]. rewrite cint_ok by done. cbn [obind]. rewrite aset_ok by lia. done. }
  assert (Hb0 : Forall (eq RAND_MAX) ((fun _ : nat => RAND_MAX) <$> seq n num)).
  { apply Forall_fmap, Forall_true. done. }
  assert (Hl0 : length ((fun _ : nat => RAND_MAX) <$> seq n num) = num)
    by by rewrite length_fmap, length_seq.
  cbn [memory_loop]. rewrite Hacc by done. cbn [obind fst snd].
  set (buffer := _ <$> seq n num) in *. set (idx := Z.to_nat _).
  unfold memory_access at 1.
  assert (Hz : zlen (<[idx := int_of_size (Z.lxor RAND_MAX 0)]> buffer) = zlen buffer)
    by (unfold zlen; by rewrite length_insert).
  rewrite Hz. case_match; [done|]. unfold aget. case_match; [done|].
  fold idx. rewrite list_lookup_insert_eq.
  - cbn [obind]. rewrite cint_overflow; [done|]. vm_compute. done.
  - assert (0 < zlen buffer) by (unfold zlen; lia). unfold idx.
    pose proof (Z.mod_pos_bound (u64 RAND_MAX) (zlen buffer) ltac:(done)). unfold zlen in *. lia.
Qed.

(** ** Properties *)

(** The sieve: for every limit below 46340 squared the program stays
    within its array and within [int], marks exactly the primes, counts the
    primes up to the limit, and accepts the result (at 100000, the limit it
    checks, when there are 9592 primes); from that limit on it never returns,
    since [i * i] overflows. *)
Theorem prime_sieve_correct limit :
  0 < limit ->
  (limit < 2147395600 ->
   exists p, sieve limit = Ret p /\ zlen p = limit + 1 /\
     (forall k, 0 <= k <= limit -> p !! Z.to_nat k = Some (bool_decide (prime k))) /\
     count_primes p = zlen (filter (fun k => prime k) (seqZ 2 (limit - 1))) /\
     (stress_cpu_prime true limit = Ret EXIT_SUCCESS <->
      (limit = 100000 -> count_primes p = 9592))) /\
  (2147395600 <= limit -> forall p, sieve limit <> Ret p).
Proof.
  intros Hpos. split.
  - intros Hlim. destruct (sieve_ok limit ltac:(lia)) as (p & Hp & Hl & Hk).
    exists p. split_and!; auto; [apply count_primes_ok; auto; lia|].
    unfold stress_cpu_prime. rewrite (proj2 (Z.leb_gt _ _) Hpos).
    rewrite cint_ok by (unfold INT_MIN, INT_MAX; lia). cbn [obind negb]. rewrite Hp. cbn [obind].
    destruct (Z.eqb_spec limit 100000), (Z.eqb_spec (count_primes p) 9592); cbn [andb negb];
      (split; [|try done]); try done; try lia.
  - intros Hlim p. unfold sieve. destruct (cint (limit + 1)); [|done]. cbn [obind].
    destruct (aset _ 1 false); [|done]. cbn [obind]. destruct (aset _ 0 false); [|done]. cbn [obind].
    by apply sieve_overflow.
Qed.

Lemma prime_sieve_correct_witness :
  sieve 12 = Ret [false; false; true; true; false; true; false; true; false; false; false; true; false]
  /\ exists p, sieve 12 = Ret p /\ zlen p = 13.
Proof.
  split; [by vm_compute|].
  destruct (proj1 (prime_sieve_correct 12 ltac:(lia)) ltac:(lia)) as (p & Hp & Hl & _).
  by exists p.
Defined.

(** The workloads that check their own result never report a failure:
    the square-root iteration converges within its 56 steps for all its
    inputs, the Fibonacci loop ends after 92 additions with the expected
    number, and the matrix checksum is never below zero, whatever the random
    numbers and the size. *)
Theorem workload_checks_pass rand size n fuel :
  (forall k, 0 <= rand k) -> (92 <= fuel)%nat ->
  stress_cpu_nsqrt = EXIT_SUCCESS /\
  stress_cpu_fibonacci fuel = Some (EXIT_SUCCESS, 92) /\
  (stress_cpu_matrix rand size n).1 = EXIT_SUCCESS.
Proof.
  intros Hr Hf. split_and!.
  - by vm_compute.
  - replace fuel with (92 + (fuel - 92))%nat by lia. unfold stress_cpu_fibonacci.
    rewrite (fib_loop_more _ _ _ _ (fn_res, 92)) by by vm_compute. done.
  - unfold stress_cpu_matrix. cbn [fst]. rewrite not_below_zero_ltb; [done|].
    by apply matrix_checksum_nonneg.
Qed.

Lemma workload_checks_pass_witness :
  stress_cpu_fibonacci 100 = Some (EXIT_SUCCESS, 92) /\
  (stress_cpu_matrix (fun k => Z.of_nat k * 1000) 2 0).1 = EXIT_SUCCESS.
Proof. exact (proj2 (workload_checks_pass (fun k => Z.of_nat k * 1000) 2 0 100 ltac:(intros; cbv beta; lia) ltac:(lia))). Defined.
