(* ===== verification/RtTask.v ===== *)
(** * sample-apps: the periodic task around the workloads

    Configuration, options, statistics and one activation of sample_apps.c;
    the arrival process of cbstask.c; the helpers of sched.c.  Clock readings
    and the values of [rand] are inputs. *)
From stdpp Require Import prelude list.
From Stdlib Require Import ZArith Lia.
From S2P Require Import Prelude TtShm Workloads.
Local Open Scope Z_scope.

Definition NSEC_PER_SEC : Z := 1000000000.
Definition NSEC_PER_USEC : Z := 1000.
Definition NSEC_PER_MSEC : Z := 1000000.
Definition ULONG_MAX : Z := 18446744073709551615.

Record timespec := Timespec { tv_sec : Z; tv_nsec : Z }.

(** [ts_ns(a)]: a [long]. *)
Definition ts_ns (t : timespec) : Z := to_signed 64 (tv_sec t * NSEC_PER_SEC + tv_nsec t).

(** ** Configuration *)

Record rt_task_config_t := RtConfig {
  period_ms : Z;
  deadline_ms : Z;
  runtime_us : Z;
  priority : Z;
  enable_stats : bool;
  name : list Z;
}.

(** "rt_task" *)
Definition rt_task_name : list Z := [114; 116; 95; 116; 97; 115; 107].

Definition rt_task_init (c : rt_task_config_t) : rt_task_config_t :=
  RtConfig 100 100 50000 50 true (strncpy (name c) rt_task_name 15).

(** What [getopt_long] delivers, with the number [strtoul] or [atoi] made of
    the argument. *)
Inductive opt :=
  | OptPeriod (v : Z) | OptDeadline (v : Z) | OptRuntime (v : Z) | OptPriority (v : Z)
  | OptAlgorithm (v : Z) | OptLoops (v : Z) | OptStats | OptTimer | OptBpf | OptHelp | OptVersion
  | OptUnknown.

Record settings := Settings {
  task_config : rt_task_config_t; algo : Z; loop_cnt : Z; use_timer : bool; use_bpf : bool }.

Definition with_config (s : settings) (c : rt_task_config_t) : settings :=
  Settings c (algo s) (loop_cnt s) (use_timer s) (use_bpf s).

(** The option loop: the exit code, or the settings. *)
Fixpoint parse_options (opts : list opt) (s : settings) : Z + settings :=
  match opts with
  | [] => inr s
  | o :: opts =>
      let c := task_config s in
      match o with
      | OptPeriod v => parse_options opts (with_config s
          (RtConfig v (deadline_ms c) (runtime_us c) (priority c) (enable_stats c) (name c)))
      | OptDeadline v => parse_options opts (with_config s
          (RtConfig (period_ms c) v (runtime_us c) (priority c) (enable_stats c) (name c)))
      | OptRuntime v => parse_options opts (with_config s
          (RtConfig (period_ms c) (deadline_ms c) v (priority c) (enable_stats c) (name c)))
      | OptPriority v =>
          if (v <? 1) || (99 <? v) then inl EXIT_FAILURE else
          parse_options opts (with_config s
            (RtConfig (period_ms c) (deadline_ms c) (runtime_us c) v (enable_stats c) (name c)))
      | OptAlgorithm v =>
          if (v <? 1) || (8 <? v) then inl EXIT_FAILURE else
          parse_options opts (Settings c v (loop_cnt s) (use_timer s) (use_bpf s))
      | OptLoops v => parse_options opts (Settings c (algo s) v (use_timer s) (use_bpf s))
      | OptStats => parse_options opts (with_config s
          (RtConfig (period_ms c) (deadline_ms c) (runtime_us c) (priority c) true (name c)))
      | OptTimer => parse_options opts (Settings c (algo s) (loop_cnt s) true (use_bpf s))
      | OptBpf => parse_options opts (Settings c (algo s) (loop_cnt s) (use_timer s) true)
      | OptHelp | OptVersion => inl EXIT_SUCCESS
      | OptUnknown => inl EXIT_FAILURE
      end
  end.

(** Up to the task name; [arg] is [argv[optind]]. *)
Definition configure (opts : list opt) (arg : option (list Z)) : Z + settings :=
  let c0 := rt_task_init (RtConfig 0 0 0 0 false (replicate 16 0)) in
  match parse_options opts (Settings c0 ALGO_NSQRT 10 false false) with
  | inl e => inl e
  | inr s =>
      match arg with
      | None => inl EXIT_FAILURE
      | Some a =>
          let c := task_config s in
          let d := if (deadline_ms c =? 100) && negb (period_ms c =? 100)
                   then period_ms c else deadline_ms c in
          inr (with_config s (RtConfig (period_ms c) d (runtime_us c) (priority c) (enable_stats c)
                                (strncpy (name c) a 15)))
      end
  end.

(** The values [setup_periodic_timer] asks for. *)
Definition periodic_timer (period_ms : Z) : timespec :=
  Timespec (period_ms / 1000) ((period_ms mod 1000) * 1000000).

(** ** Statistics *)

Record rt_stats_t := RtStats {
  min_runtime_us : Z;
  max_runtime_us : Z;
  avg_runtime_us : Z;
  total_runtime_us : Z;
  deadline_misses : Z;
  iterations : Z;
  last_runtime_us : Z;
}.

Definition rt_stats_init : rt_stats_t := RtStats ULONG_MAX 0 0 0 0 0 0.

(** [None]: the division by zero when [iterations] has wrapped. *)
Definition rt_stats_update (s : rt_stats_t) (runtime : Z) (deadline_miss : bool) : outcome rt_stats_t :=
  let total := u64 (total_runtime_us s + runtime) in
  let n := u64 (iterations s + 1) in
  let mn := if runtime <? min_runtime_us s then runtime else min_runtime_us s in
  let mx := if max_runtime_us s <? runtime then runtime else max_runtime_us s in
  if n =? 0 then UB else
  Ret (RtStats mn mx (total / n) total
         (if deadline_miss then u64 (deadline_misses s + 1) else deadline_misses s) n runtime).

(** ** One activation *)

Definition add_deadline (before : timespec) (deadline_ms : Z) : timespec :=
  let sec := to_signed 64 (tv_sec before + deadline_ms / 1000) in
  let nsec := to_signed 64 (tv_nsec before + (deadline_ms mod 1000) * NSEC_PER_MSEC) in
  if NSEC_PER_SEC <=? nsec then Timespec (to_signed 64 (sec + 1)) (nsec - NSEC_PER_SEC)
  else Timespec sec nsec.

(** From the readings before and after the workload: the runtime, whether the
    deadline was missed, and the new statistics. *)
Definition activation (c : rt_task_config_t) (s : rt_stats_t) (before now : timespec)
  : outcome (Z * bool * rt_stats_t) :=
  let deadline_time := add_deadline before (deadline_ms c) in
  let runtime := u64 (Z.quot (to_signed 64 (ts_ns now - ts_ns before)) NSEC_PER_USEC) in
  let miss := ts_ns deadline_time <? ts_ns now in
  (s <-c (if enable_stats c then rt_stats_update s runtime miss else Ret s); Ret (runtime, miss, s))%c.

(** What one turn of the main loop meets: a wake-up that leads to no work, or
    an activation. *)
Inductive turn := Skip | Work (before now : timespec).

Fixpoint main_loop (c : rt_task_config_t) (s : rt_stats_t) (turns : list turn) : outcome rt_stats_t :=
  match turns with
  | [] => Ret s
  | Skip :: turns => main_loop c s turns
  | Work before now :: turns =>
      (r <-c activation c s before now; main_loop c r.2 turns)%c
  end.

(** ** cbstask.c *)

Definition get_random (r mn mx : Z) : Z := u32 (u32 r mod u32 (mx - mn + 1) + mn).

Definition inter_arrival_ns (task_mit_ms r : Z) : Z :=
  let random_pct := get_random r 0 50 in
  let extra_ms := u64 (task_mit_ms * random_pct) / 100 in
  u64 (u64 (task_mit_ms + extra_ms) * NSEC_PER_MSEC).

(** [get_cbs_event]: the sleep asked for, given the clock before the sleep. *)
Definition get_cbs_event (task_mit_ms last_wakeup_ns r now_ns : Z) : timespec :=
  let inter := inter_arrival_ns task_mit_ms r in
  let adj :=
    if last_wakeup_ns =? 0 then inter
    else
      let diff_ns := u64 (now_ns - last_wakeup_ns) in
      if diff_ns <? inter then u64 (inter - diff_ns) else 0 in
  Timespec (adj / NSEC_PER_SEC) (adj mod NSEC_PER_SEC).

(** The CPU time [do_workload] spins for. *)
Definition runtime_adjust_ns (task_wcet_ms : Z) : Z :=
  u64 (u64 (task_wcet_ms * NSEC_PER_MSEC) * 95) / 100.

Definition do_workload (task_wcet_ms : Z) (clock : list Z) : option nat :=
  match clock with [] => None | start_ns :: clock => spin start_ns (runtime_adjust_ns task_wcet_ms) clock end.

(** The wake-ups of a run: each job gives the random value, the clock before
    the sleep and the clock after it. *)
Record arrival := Arrival { ar_rand : Z; ar_now : Z; ar_wake : Z }.

Fixpoint cbs_sleeps (task_mit_ms last : Z) (l : list arrival) : list timespec :=
  match l with
  | [] => []
  | a :: l => get_cbs_event task_mit_ms last (ar_rand a) (ar_now a) :: cbs_sleeps task_mit_ms (ar_wake a) l
  end.

(** [main] of cbstask.c.  It waits for the segment of timpani-n, looking every
    millisecond; [opens] are the answers of [shm_open]. *)
Fixpoint wait_for_timpani_n (opens : list bool) : option nat :=
  match opens with
  | [] => None
  | true :: _ => Some O
  | false :: opens => S <$> wait_for_timpani_n opens
  end.

(** A job sleeps, then spins; [None] while it spins, and no job follows. *)
Fixpoint cbs_jobs (task_mit_ms task_wcet_ms last : Z) (jobs : list (arrival * list Z)) : list (timespec * option nat) :=
  match jobs with
  | [] => []
  | (a, clock) :: jobs =>
      let work := do_workload task_wcet_ms clock in
      (get_cbs_event task_mit_ms last (ar_rand a) (ar_now a), work) ::
      match work with
      | Some _ => cbs_jobs task_mit_ms task_wcet_ms (ar_wake a) jobs
      | None => []
      end
  end.

Inductive cbs_progress :=
  | CbsExit (code : Z)
  | CbsWaiting (polls : nat)
  | CbsRunning (polls : nat) (jobs : list (timespec * option nat)).

(** [mit] and [wcet] are what [atol] made of the arguments. *)
Definition cbs_main (argc mit wcet : Z) (opens : list bool) (jobs : list (arrival * list Z)) : cbs_progress :=
  if argc <? 4 then CbsExit 1 else
  match wait_for_timpani_n opens with
  | None => CbsWaiting (length opens)
  | Some polls => CbsRunning polls (cbs_jobs (u64 mit) (u64 wcet) 0 jobs)
  end.

(** ** sched.c *)

Record sched_attr := SchedAttr { attr_size : Z; attr_priority : Z; attr_policy : Z; attr_rest : list Z }.
Definition set_schedattr (size priority policy : Z) : sched_attr :=
  SchedAttr size priority policy [0; 0; 0; 0].

(** The mask of [set_affinity]: [CPU_SET] compares the CPU, as a [size_t], with
    the size of the set and leaves a set it does not reach. *)
Definition CPU_SETSIZE : Z := 1024.
Definition CPU_SET (cpu mask : Z) : Z :=
  if wrap 64 cpu <? CPU_SETSIZE then Z.lor mask (Z.shiftl 1 cpu) else mask.

(** The mask handed to the kernel, and whether an error is printed. *)
Definition set_affinity (setaffinity_ok : Z -> bool) (cpu : Z) : Z * bool :=
  let cpuset := CPU_SET cpu 0 in (cpuset, negb (setaffinity_ok cpuset)).

(** [get_process_name_by_pid]: [comm] is what [fread] delivers of at most 16
    bytes, [None] when the file cannot be opened. *)
Definition get_process_name_by_pid (comm : option (list Z)) (buf : list Z) : list Z :=
  match comm with
  | None => buf
  | Some file =>
      let data := take 16 file in
      let buf := data ++ drop (length data) buf in
      match last data with
      | Some c => if c =? 10 then <[(length data - 1)%nat := 0]> buf else buf
      | None => buf
      end
  end.

(** The set has exactly the CPU, or nothing when there is no such bit. *)
Lemma set_affinity_mask ok cpu i : INT_MIN <= cpu <= INT_MAX -> 0 <= i ->
  Z.testbit (set_affinity ok cpu).1 i = ((i =? cpu) && (cpu <? CPU_SETSIZE)).
Proof.
  intros Hc Hi. unfold set_affinity, CPU_SET, CPU_SETSIZE, INT_MIN, INT_MAX in *. cbn [fst].
  assert (Hw : wrap 64 cpu <? 1024 = (0 <=? cpu) && (cpu <? 1024)).
  { destruct (Z.leb_spec 0 cpu) as [H|H]; cbn [andb]; [by rewrite wrap_small by (unfold uword; pows; lia)|].
    apply Z.ltb_ge. unfold wrap. rewrite <- (Z_mod_plus_full cpu 1 (2 ^ 64)), Z.mod_small by (pows; lia). pows. lia. }
  rewrite Hw. destruct (Z.leb_spec 0 cpu) as [H|H]; cbn [andb].
  - destruct (Z.ltb_spec cpu 1024) as [H2|H2]; [|by rewrite Z.bits_0, andb_false_r].
    rewrite Z.lor_0_l, Z.shiftl_1_l, andb_true_r. destruct (Z.eqb_spec i cpu) as [->|Hne].
    + by apply Z.pow2_bits_true.
    + apply Z.pow2_bits_false. lia.
  - rewrite Z.bits_0, (proj2 (Z.eqb_neq i cpu)); [done|lia].
Qed.

(** ** Clock readings *)

(** A normalised reading of a clock, before the year 2106. *)
Definition clock_ok (t : timespec) : Prop := 0 <= tv_sec t < 2 ^ 32 /\ 0 <= tv_nsec t < NSEC_PER_SEC.
Definition ns (t : timespec) : Z := tv_sec t * NSEC_PER_SEC + tv_nsec t.

Lemma signed64_small x : 0 <= x < 2 ^ 63 -> to_signed 64 x = x.
Proof.
  intros H. assert (Hw : wrap 64 x = x) by (apply wrap_small; unfold uword; change (2 ^ 64) with (2 * 2 ^ 63); lia).
  rewrite <- Hw at 1. apply to_signed_wrap; [lia|]. unfold sword. change (64 - 1) with 63. lia.
Qed.

Lemma ts_ns_ok t : clock_ok t -> ts_ns t = ns t.
Proof. unfold clock_ok, NSEC_PER_SEC. intros [H1 H2]. apply signed64_small. unfold ns, NSEC_PER_SEC. pows. lia. Qed.

Lemma add_deadline_ok before d :
  clock_ok before -> 0 <= d < 2 ^ 32 ->
  let t := add_deadline before d in
  0 <= tv_nsec t < NSEC_PER_SEC /\ ts_ns t = ns before + d * NSEC_PER_MSEC.
Proof.
  unfold clock_ok, ns, add_deadline, NSEC_PER_SEC, NSEC_PER_MSEC. intros [H1 H2] Hd. cbv zeta.
  pows.
  pose proof (Z.div_mod d 1000 ltac:(lia)). pose proof (Z.mod_pos_bound d 1000 ltac:(lia)).
  assert (0 <= d / 1000 <= d) by (split; [apply Z.div_pos; lia|apply Z.div_le_upper_bound; lia]).
  rewrite (signed64_small (tv_nsec before + _)) by (pows; lia).
  rewrite (signed64_small (tv_sec before + d / 1000)) by (pows; lia).
  destruct (Z.leb_spec 1000000000 (tv_nsec before + d mod 1000 * 1000000)); cbn [tv_nsec tv_sec];
    (split; [lia|]); unfold ts_ns, NSEC_PER_SEC; cbn [tv_nsec tv_sec];
    rewrite ?(signed64_small (tv_sec before + d / 1000 + 1)) by (pows; lia); rewrite signed64_small; pows; lia.
Qed.

Definition runtime_of (before now : timespec) : Z := (ns now - ns before) / NSEC_PER_USEC.
Definition missed (d : Z) (before now : timespec) : bool := ns before + d * NSEC_PER_MSEC <? ns now.

Lemma activation_ok c s before now :
  clock_ok before -> clock_ok now -> ns before <= ns now -> 0 <= deadline_ms c < 2 ^ 32 ->
  activation c s before now =
  (s' <-c (if enable_stats c then rt_stats_update s (runtime_of before now) (missed (deadline_ms c) before now)
           else Ret s);
   Ret (runtime_of before now, missed (deadline_ms c) before now, s'))%c.
Proof.
  intros Hb Hn Hle Hd. unfold activation. destruct (add_deadline_ok before _ Hb Hd) as [_ ->].
  rewrite !ts_ns_ok by done. unfold runtime_of.
  assert (0 <= ns now - ns before < 2 ^ 63).
  { destruct Hb, Hn. unfold ns, NSEC_PER_SEC in *. pows. lia. }
  rewrite signed64_small by done. unfold NSEC_PER_USEC. rewrite Z.quot_div_nonneg by lia.
  rewrite wrap_small; [done|]. split; [apply Z.div_pos; lia|].
  apply Z.div_lt_upper_bound; pows; lia.
Qed.

(** ** Statistics of a sequence of runs *)

Definition sum (l : list Z) : Z := foldr Z.add 0 l.
Definition count_true (l : list bool) : Z := zlen (filter (eq true) l).

(** What the statistics say of the runs so far. *)
Definition summary (us : list (Z * bool)) (s : rt_stats_t) : Prop :=
  iterations s = zlen us /\ total_runtime_us s = sum us.*1 /\ deadline_misses s = count_true us.*2 /\
  (us = [] -> min_runtime_us s = ULONG_MAX /\ max_runtime_us s = 0) /\
  (us <> [] -> min_runtime_us s ∈ us.*1 /\ max_runtime_us s ∈ us.*1 /\
     avg_runtime_us s = sum us.*1 / zlen us /\ Some (last_runtime_us s) = last us.*1) /\
  forall u, u ∈ us.*1 -> min_runtime_us s <= u <= max_runtime_us s.

Lemma sum_app l k : sum (l ++ k) = sum l + sum k.
Proof. unfold sum. induction l; cbn [app foldr]; lia. Qed.

Lemma sum_nonneg l : Forall (fun x => 0 <= x) l -> 0 <= sum l.
Proof. induction 1; cbn [sum foldr]; [done|]. fold (sum l). lia. Qed.

Lemma count_true_app l k : count_true (l ++ k) = count_true l + count_true k.
Proof. unfold count_true, zlen. rewrite filter_app, length_app. lia. Qed.

Lemma count_true_range l : 0 <= count_true l <= zlen l.
Proof. unfold count_true, zlen. pose proof (length_filter (eq true) l). lia. Qed.

Lemma choose_in (b : bool) (r x : Z) l : x ∈ l -> (if b then r else x) ∈ l ++ [r].
Proof. destruct b; set_solver. Qed.

Lemma summary_update us s r b :
  summary us s -> 0 <= r <= ULONG_MAX -> Forall (fun x => 0 <= x) us.*1 ->
  sum us.*1 + r < 2 ^ 64 -> zlen us + 1 < 2 ^ 64 ->
  exists s', rt_stats_update s r b = Ret s' /\ summary (us ++ [(r, b)]) s'.
Proof.
  intros (Hi & Ht & Hm & H0 & H1 & Hall) Hr Hpos Hsum Hlen. unfold rt_stats_update.
  pose proof (zlen_nonneg us). pose proof (sum_nonneg _ Hpos).
  pose proof (count_true_range us.*2) as Hc. unfold zlen in Hc at 1. rewrite length_fmap in Hc.
  fold (zlen us) in Hc.
  rewrite Hi, Ht, Hm, !wrap_small by (unfold uword; lia).
  rewrite (proj2 (Z.eqb_neq (zlen us + 1) 0)) by lia.
  eexists. split; [done|]. unfold summary.
  cbn [iterations total_runtime_us deadline_misses min_runtime_us max_runtime_us avg_runtime_us last_runtime_us].
  rewrite !fmap_app, sum_app, count_true_app, zlen_app. cbn [fmap list_fmap fst snd].
  replace (sum [r]) with r by (cbn; lia). change (zlen [(r, b)]) with 1.
  split_and!; try done.
  - destruct b; cbn [count_true filter]; [|change (count_true [false]) with 0; lia].
    change (count_true [true]) with 1. lia.
  - by destruct us.
  - intros _.
    assert (Hin : us = [] \/ min_runtime_us s ∈ us.*1 /\ max_runtime_us s ∈ us.*1).
    { destruct us as [|u us]; [by left|right]. destruct H1 as (? & ? & _); done. }
    rewrite last_snoc. split_and!; [..|done|done].
    + destruct Hin as [E|[Hin _]]; [|by apply choose_in].
      destruct (H0 E) as [-> _]. rewrite E. apply list_elem_of_singleton.
      destruct (Z.ltb_spec r ULONG_MAX); [done|lia].
    + destruct Hin as [E|[_ Hin]]; [|by apply choose_in].
      destruct (H0 E) as [_ ->]. rewrite E. apply list_elem_of_singleton.
      destruct (Z.ltb_spec 0 r); [done|lia].
  - intros u [Hu|Hu]%elem_of_app.
    + specialize (Hall u Hu). destruct (Z.ltb_spec r (min_runtime_us s)), (Z.ltb_spec (max_runtime_us s) r); lia.
    + apply list_elem_of_singleton in Hu as ->.
      destruct (Z.ltb_spec r (min_runtime_us s)), (Z.ltb_spec (max_runtime_us s) r); lia.
Qed.

(** The runs of a sequence of turns. *)
Definition runs (d : Z) (turns : list turn) : list (Z * bool) :=
  omap (fun t => match t with
                 | Skip => None
                 | Work b n => Some (runtime_of b n, missed d b n)
                 end) turns.

Definition turn_ok (t : turn) : Prop :=
  match t with Skip => True | Work b n => clock_ok b /\ clock_ok n /\ ns b <= ns n end.

Lemma runtime_range b n : clock_ok b -> clock_ok n -> ns b <= ns n -> 0 <= runtime_of b n <= ULONG_MAX.
Proof.
  intros [Hb1 Hb2] [Hn1 Hn2] Hle. unfold runtime_of, ns, NSEC_PER_USEC, NSEC_PER_SEC, ULONG_MAX in *. pows.
  split; [apply Z.div_pos; lia|]. apply Z.div_le_upper_bound; lia.
Qed.

Lemma runs_nonneg d turns : Forall turn_ok turns -> Forall (fun x => 0 <= x) (runs d turns).*1.
Proof.
  induction 1 as [|[|b n] turns Ht Hts IH]; [constructor|done|].
  destruct Ht as (Hb & Hn & Hle). constructor; [by apply runtime_range|done].
Qed.

Lemma main_loop_summary c turns us s :
  enable_stats c = true -> 0 <= deadline_ms c < 2 ^ 32 -> Forall turn_ok turns ->
  summary us s -> Forall (fun x => 0 <= x) us.*1 ->
  sum (us.*1 ++ (runs (deadline_ms c) turns).*1) < 2 ^ 64 ->
  zlen us + zlen (runs (deadline_ms c) turns) < 2 ^ 64 ->
  exists s', main_loop c s turns = Ret s' /\ summary (us ++ runs (deadline_ms c) turns) s'.
Proof.
  intros He Hd Hts. revert us s. induction Hts as [|t turns Ht Hts IH]; intros us s Hs Hpos Hsum Hlen.
  { exists s. by rewrite app_nil_r. }
  destruct t as [|b n]; [by apply IH|]. destruct Ht as (Hb & Hn & Hle). cbn [main_loop].
  rewrite activation_ok, He by done.
  change (runs (deadline_ms c) (Work b n :: turns))
    with ((runtime_of b n, missed (deadline_ms c) b n) :: runs (deadline_ms c) turns) in *.
  set (r := runtime_of b n) in *. set (m := missed (deadline_ms c) b n) in *.
  cbn [fmap list_fmap fst snd] in Hsum. rewrite zlen_cons in Hlen.
  pose proof (zlen_nonneg (runs (deadline_ms c) turns)).
  pose proof (sum_nonneg _ (runs_nonneg (deadline_ms c) turns Hts)) as Hrest.
  rewrite sum_app in Hsum. cbn [sum foldr] in Hsum. fold (sum (runs (deadline_ms c) turns).*1) in Hsum.
  destruct (summary_update us s r m Hs) as (s' & -> & Hs'); [by apply runtime_range|done|lia|lia|].
  cbn [obind snd]. destruct (IH (us ++ [(r, m)]) s' Hs') as (s2 & -> & Hs2).
  - rewrite fmap_app. apply Forall_app. split; [done|]. repeat constructor. by apply runtime_range.
  - rewrite fmap_app, <- app_assoc, sum_app. cbn [fmap list_fmap fst snd app sum foldr].
    fold (sum (runs (deadline_ms c) turns).*1). lia.
  - rewrite zlen_app. change (zlen [(r, m)]) with 1. lia.
  - exists s2. by rewrite <- app_assoc in Hs2.
Qed.

(** ** Arrivals *)

Lemma get_random_range r : 0 <= get_random r 0 50 <= 50.
Proof.
  unfold get_random. change (u32 (50 - 0 + 1)) with 51.
  pose proof (Z.mod_pos_bound (u32 r) 51 ltac:(lia)). rewrite Z.add_0_r.
  rewrite wrap_small by (unfold uword; pows; lia). lia.
Qed.

Lemma inter_arrival_range mit r :
  0 <= mit <= 1000000000 ->
  mit * NSEC_PER_MSEC <= inter_arrival_ns mit r <= (mit + mit / 2) * NSEC_PER_MSEC.
Proof.
  intros Hm. unfold inter_arrival_ns, NSEC_PER_MSEC. pose proof (get_random_range r) as Hr.
  set (p := get_random r 0 50) in *. rewrite (wrap_small 64 (mit * p)) by (unfold uword; pows; nia).
  assert (0 <= mit * p / 100 <= mit / 2).
  { split; [apply Z.div_pos; nia|]. apply Z.div_le_lower_bound; [lia|].
    pose proof (Z.mul_div_le (mit * p) 100 ltac:(lia)). nia. }
  assert (mit / 2 <= mit) by (apply Z.div_le_upper_bound; lia).
  rewrite (wrap_small 64 (mit + _)) by (unfold uword; pows; lia).
  rewrite wrap_small by (unfold uword; pows; lia). lia.
Qed.

(** A job's clock readings: it sleeps from [ar_now], at or after the last
    wake-up, at least as long as it asks. *)
Fixpoint arrivals_ok (mit last : Z) (l : list arrival) : Prop :=
  match l with
  | [] => True
  | a :: l =>
      last <= ar_now a /\ ar_now a < 2 ^ 62 /\ 0 < ar_wake a /\
      ar_now a + ns (get_cbs_event mit last (ar_rand a) (ar_now a)) <= ar_wake a /\
      arrivals_ok mit (ar_wake a) l
  end.

(** Consecutive wake-ups are at least [d] apart. *)
Fixpoint separated (d last : Z) (l : list arrival) : Prop :=
  match l with
  | [] => True
  | a :: l => last + d <= ar_wake a /\ separated d (ar_wake a) l
  end.

Lemma cbs_event_ns mit last r now :
  0 <= mit <= 1000000000 -> 0 < last <= now -> now < 2 ^ 62 ->
  let t := get_cbs_event mit last r now in
  0 <= tv_nsec t < NSEC_PER_SEC /\
  ns t = Z.max 0 (last + inter_arrival_ns mit r - now).
Proof.
  intros Hm Hl Hn. unfold get_cbs_event. cbv zeta. pose proof (inter_arrival_range mit r Hm) as Hi.
  assert (mit / 2 <= mit) by (apply Z.div_le_upper_bound; lia).
  unfold NSEC_PER_MSEC in Hi. change (2 ^ 62) with 4611686018427387904 in Hn.
  set (inter := inter_arrival_ns mit r) in *.
  rewrite (proj2 (Z.eqb_neq last 0)) by lia. rewrite (wrap_small 64 (now - last)) by (unfold uword; pows; lia).
  assert (Hsplit : forall x, 0 <= x -> let t := Timespec (x / NSEC_PER_SEC) (x mod NSEC_PER_SEC) in
    0 <= tv_nsec t < NSEC_PER_SEC /\ ns t = x).
  { intros x Hx. unfold ns; cbn [tv_sec tv_nsec].
    pose proof (Z.mod_pos_bound x NSEC_PER_SEC ltac:(done)). pose proof (Z.div_mod x NSEC_PER_SEC ltac:(done)).
    split; lia. }
  destruct (Z.ltb_spec (now - last) inter).
  - rewrite wrap_small by (unfold uword; pows; lia).
    destruct (Hsplit (inter - (now - last)) ltac:(lia)) as [H1 H2]. split; [done|]. rewrite H2. lia.
  - destruct (Hsplit 0 ltac:(lia)) as [H1 H2]. split; [done|]. rewrite H2. lia.
Qed.

Lemma cbs_separated mit last l :
  0 <= mit <= 1000000000 -> 0 < last -> arrivals_ok mit last l ->
  separated (mit * NSEC_PER_MSEC) last l.
Proof.
  intros Hm. revert last. induction l as [|a l IH]; intros last Hl Ha; [done|].
  destruct Ha as (H1 & H2 & H3 & H4 & H5). cbn [separated].
  destruct (cbs_event_ns mit last (ar_rand a) (ar_now a) Hm ltac:(lia) H2) as [_ Hns].
  rewrite Hns in H4. pose proof (inter_arrival_range mit (ar_rand a) Hm).
  split; [lia|]. by apply IH.
Qed.

(** ** Properties *)

(** Through any number of turns of the main loop the statistics are those
    of the runs so far: their number, the deadline misses (the end is later
    than the start plus the configured deadline, exact to the nanosecond),
    the sum, mean, least, greatest and last runtime. *)
Theorem main_loop_keeps_statistics c turns :
  enable_stats c = true -> 0 <= deadline_ms c < 2 ^ 32 -> Forall turn_ok turns ->
  sum (runs (deadline_ms c) turns).*1 < 2 ^ 64 -> zlen turns < 2 ^ 64 ->
  exists s, main_loop c rt_stats_init turns = Ret s /\ summary (runs (deadline_ms c) turns) s.
Proof.
  intros He Hd Hts Hsum Hlen.
  assert (Hl : zlen (runs (deadline_ms c) turns) <= zlen turns).
  { unfold zlen. apply inj_le. unfold runs. clear. induction turns as [|[] turns IH]; cbn in *; lia. }
  apply (main_loop_summary c turns []); auto; [|change (zlen []) with 0; lia].
  split_and!; try done. intros u Hu. by apply not_elem_of_nil in Hu.
Qed.

(** The first run takes 70 us and the second, 2 s long, misses the deadline. *)
Lemma main_loop_keeps_statistics_witness :
  let c := RtConfig 100 100 50000 50 true [] in
  let turns := [Work (Timespec 5 999950000) (Timespec 6 20000); Skip;
                Work (Timespec 7 0) (Timespec 9 0)] in
  runs 100 turns = [(70, false); (2000000, true)] /\
  exists s, main_loop c rt_stats_init turns = Ret s /\ summary (runs 100 turns) s.
Proof.
  intros c turns. split; [by vm_compute|].
  apply (main_loop_keeps_statistics c turns); [done|done| |by vm_compute|by vm_compute].
  repeat constructor; cbn; try lia; done.
Defined.

(** The CBS task keeps its minimum inter-arrival time: when sleeps last at
    least as long as asked, each wake-up comes at least [task_mit_ms] after
    the one before, however long the workloads took; every interval drawn is
    between once and one and a half times that. *)
Theorem cbs_minimum_interarrival mit last l :
  0 <= mit <= 1000000000 -> 0 < last -> arrivals_ok mit last l ->
  separated (mit * NSEC_PER_MSEC) last l /\
  Forall (fun a => mit * NSEC_PER_MSEC <= inter_arrival_ns mit (ar_rand a)
                   <= (mit + mit / 2) * NSEC_PER_MSEC) l.
Proof.
  intros Hm Hl Ha. split; [by apply cbs_separated|].
  apply Forall_forall. intros a _. by apply inter_arrival_range.
Qed.

Lemma cbs_minimum_interarrival_witness :
  let l := [Arrival 20 1000500 13000000; Arrival 0 30000000 30000000] in
  cbs_sleeps 10 1000000 l = [Timespec 0 11999500; Timespec 0 0] /\
  separated (10 * NSEC_PER_MSEC) 1000000 l.
Proof.
  intros l. split; [by vm_compute|].
  refine (proj1 (cbs_minimum_interarrival 10 1000000 l _ _ _)); [lia|lia|].
  vm_compute. split_and!; done.
Defined.

(** With enough arguments the task waits for timpani-n and then runs for good:
    it is waiting, or it has seen the segment, and while every workload ends
    its jobs sleep as [cbs_sleeps] says. *)
Lemma cbs_main_runs argc mit wcet opens jobs :
  4 <= argc ->
  match cbs_main argc mit wcet opens jobs with
  | CbsExit _ => False
  | CbsWaiting n => n = length opens /\ Forall (fun o => o = false) opens
  | CbsRunning n js =>
      opens !! n = Some true /\ Forall (fun o => o = false) (take n opens) /\
      (Forall (fun j => is_Some (do_workload (u64 wcet) j.2)) jobs ->
       js.*1 = cbs_sleeps (u64 mit) 0 jobs.*1 /\ Forall (fun j => is_Some j.2) js)
  end.
Proof.
  intros Ha. unfold cbs_main. rewrite (proj2 (Z.ltb_ge argc 4)) by done.
  assert (Hw : match wait_for_timpani_n opens with
    | None => Forall (fun o => o = false) opens
    | Some n => opens !! n = Some true /\ Forall (fun o => o = false) (take n opens)
    end).
  { induction opens as [|[] opens IH]; cbn [wait_for_timpani_n]; [done|done|].
    destruct (wait_for_timpani_n opens) as [n|]; cbn [fmap option_fmap option_map]; [|by constructor].
    destruct IH as [H1 H2]. split; [done|by constructor]. }
  destruct (wait_for_timpani_n opens) as [n|]; [|by split]. destruct Hw as [H1 H2]. split_and!; [done..|].
  generalize 0. induction jobs as [|[a clock] jobs IH]; intros last Hj; [done|].
  apply Forall_cons in Hj as [Hj Hjs]. cbn [cbs_jobs cbs_sleeps fmap list_fmap fst snd] in *.
  destruct (do_workload (u64 wcet) clock) as [k|] eqn:E; [|by destruct Hj].
  destruct (IH (ar_wake a) Hjs) as [E' Hf]. split; [cbn [fst]; by f_equal|]. constructor; [by eexists|done].
Qed.

(** An explicit deadline of 100 ms is taken for the default and replaced by
    the period. *)
Lemma explicit_deadline_lost :
  match configure [OptPeriod 200; OptDeadline 100] (Some [116; 0]) with
  | inr s => deadline_ms (task_config s) = 200
  | inl _ => False
  end.
Proof. by vm_compute. Qed.

(** A comm file of up to 15 characters and a newline becomes a C string. *)
Lemma process_name_terminated comm buf :
  (length comm <= 15)%nat -> length buf = 16%nat -> Forall (fun c => c <> 0) comm ->
  c_prefix 16 (get_process_name_by_pid (Some (comm ++ [10])) buf) = comm.
Proof.
  intros Hl Hb Hc. unfold get_process_name_by_pid.
  rewrite take_ge by (rewrite length_app; cbn; lia). rewrite last_snoc. cbn [Z.eqb Pos.eqb].
  rewrite length_app. cbn [length]. replace (length comm + 1 - 1)%nat with (length comm) by lia.
  rewrite <- app_assoc, insert_app_r_alt, Nat.sub_diag by lia. cbn [app list_insert insert].
  revert Hl Hc. generalize (drop (length comm + 1) buf) as tl. clear Hb buf.
  intros tl Hl Hc. change 16%nat with (1 + 15)%nat.
  assert (forall n, (length comm <= n)%nat -> c_prefix (S n) (comm ++ 0 :: tl) = comm) as ->; [|done|lia].
  clear Hl. induction Hc as [|c comm Hc0 Hc IH]; intros n Hn; cbn in Hn |- *; [done|].
  rewrite (proj2 (Z.eqb_neq _ _) Hc0). f_equal. destruct n as [|n]; [lia|]. apply IH. lia.
Qed.
