(* ===== verification/RtMain.v ===== *)
(** * sample-apps/src/sample_apps.c: the program around the periodic task

    [main] from its options to its exit code: scheduling policy, signals, the
    source of activations (the time-triggered shared memory, a timer of its
    own or signals from outside), the loop and the reports.  The system's
    answers are inputs, one [round] for each turn of the loop; what the
    program asks of the system and prints is the list of its effects, in
    order. *)
From stdpp Require Import prelude list.
From Stdlib Require Import ZArith Lia SpecFloat.
From S2P Require Import Prelude TtShm Floats Workloads RtTask.
Local Open Scope Z_scope.

(** [__SIGRTMIN+2]. *)
Definition SIGNO_TT : Z := 34.
Definition SIGINT : Z := 2.
Definition SIGTERM : Z := 15.
Definition SCHED_EXT : Z := 7.
Definition EINTR : Z := 4.

Record sched_attr_ext := SchedAttrExt {
  ext_size : Z;
  ext_policy : Z;
  ext_flags : Z;
  ext_nice : Z;
  ext_priority : Z;
  ext_runtime : Z;
  ext_deadline : Z;
  ext_period : Z;
}.

(** Messages on the terminal that carry no value. *)
Inductive message :=
  | UsageText | VersionText | NoPriority | BpfPolicy | NoTimer | ShutdownText | WaitingForShm
  | WaitingForSignal | PerrorAttr | PerrorScheduler | PerrorCreate | PerrorSettime | PerrorSigwait.

(** The names [main] prints for the algorithm and the mode. *)
Inductive algo_name := ANsqrt | AFibonacci | ABusy | AMatrix | AMemory | ACrypto | AMixed | APrime | AUnknown.
Inductive exec_mode := BpfMode | TimerMode | SignalMode.

Inductive effect :=
  | SetName (name : list Z)
  | SetScheduler (priority : Z)
  | SetAttr (a : sched_attr_ext)
  | Sigaction (signo : Z)
  | BlockSignal (signo : Z)
  | TtschedInit
  | TimerCreate (signo : Z)
  | TimerSettime (value interval : timespec)
  | Say (m : message)
  | Banner (pr_name : list Z) (c : rt_task_config_t) (a : algo_name) (loops : Z) (m : exec_mode)
  | OtherSignal (signo : Z)
  | RunLine (iterations runtime : Z) (miss : bool) (period deadline : Z)
  | PeriodicLine (iterations avg mn mx misses : Z)
  | Report (s : rt_stats_t) (misses_pct : spec_float) (c : rt_task_config_t).

(** ** Set-up *)

(** The system's answers during the set-up: whether each call succeeds, and
    the shared memory [ttsched_init] finds. *)
Record kernel := Kernel {
  k_setattr : bool;
  k_setscheduler : bool;
  k_timer_create : bool;
  k_timer_settime : bool;
  k_fs : shm_fs;
  k_maps : bool;
}.

Definition set_sched_ext (k : kernel) : list effect * Z :=
  let attr := SchedAttrExt 48 SCHED_EXT 0 0 0 0 0 0 in
  if k_setattr k then ([SetAttr attr], 0) else ([SetAttr attr; Say PerrorAttr], -1).

Definition set_realtime_priority (k : kernel) (priority : Z) : list effect * Z :=
  if k_setscheduler k then ([SetScheduler priority], 0)
  else ([SetScheduler priority; Say PerrorScheduler], -1).

Definition setup_signal_handlers : list effect := [Sigaction SIGINT; Sigaction SIGTERM].

(** [sigint_handler]: the new value of [shutdown_requested]. *)
Definition sigint_handler : list effect * bool := ([Say ShutdownText], true).

Definition setup_periodic_timer (k : kernel) (period_ms : Z) : list effect * Z :=
  let create := TimerCreate SIGNO_TT in
  if negb (k_timer_create k) then ([create; Say PerrorCreate], -1) else
  let v := periodic_timer period_ms in
  if k_timer_settime k then ([create; TimerSettime v v], 0)
  else ([create; TimerSettime v v; Say PerrorSettime], -1).

(** What [PR_GET_NAME] gives after [PR_SET_NAME]: up to 15 characters. *)
Definition pr_name (name : list Z) : list Z :=
  let n := c_prefix 15 name in n ++ replicate (16 - length n) 0.

Definition algorithm_name (algo : Z) : algo_name :=
  if algo =? ALGO_NSQRT then ANsqrt
  else if algo =? ALGO_FIBO then AFibonacci
  else if algo =? ALGO_BUSY then ABusy
  else if algo =? ALGO_MATRIX then AMatrix
  else if algo =? ALGO_MEMORY then AMemory
  else if algo =? ALGO_CRYPTO then ACrypto
  else if algo =? ALGO_MIXED then AMixed
  else if algo =? ALGO_PRIME then APrime
  else AUnknown.

Definition mode (s : settings) : exec_mode :=
  if use_bpf s then BpfMode else if use_timer s then TimerMode else SignalMode.

Definition banner (s : settings) : list effect :=
  Banner (pr_name (name (task_config s))) (task_config s) (algorithm_name (algo s)) (loop_cnt s) (mode s)
  :: (if use_bpf s then [Say WaitingForShm] else if negb (use_timer s) then [Say WaitingForSignal] else []).

(** From the name to the loop: the effects, and the client of the shared
    memory, or the exit code. *)
Definition set_up (k : kernel) (s : settings) : list effect * (Z + client) :=
  let c := task_config s in
  let policy :=
    if use_bpf s then (set_sched_ext k).1 ++ [Say BpfPolicy]
    else let '(es, r) := set_realtime_priority k (priority c) in
         if r =? -1 then es ++ [Say NoPriority] else es in
  let es := SetName (name c) :: policy ++ setup_signal_handlers ++ [BlockSignal SIGNO_TT] in
  if use_bpf s then
    (es ++ TtschedInit :: banner s,
     inr (ttsched_init (k_fs k) (k_maps k) (pr_name (name c)) client0))
  else if use_timer s then
    let '(ts, r) := setup_periodic_timer k (period_ms c) in
    if r =? -1 then (es ++ ts ++ [Say NoTimer], inl EXIT_FAILURE)
    else (es ++ ts ++ banner s, inr client0)
  else (es ++ banner s, inr client0).

(** ** The loop *)

(** What the system answers in one turn.  [shutdown] is the flag as the loop
    test finds it; a wait on the shared memory sees it before and after the
    futex; [wait] and [wait_errno] are the result of [sigwait]. *)
Record round := Round {
  shutdown : bool;
  rd_fs : shm_fs;
  rd_fs' : shm_fs;
  rd_maps : bool;
  rd_futex : list futex_result;
  wait : Z;
  wait_errno : Z;
  wait_signal : Z;
  before : timespec;
  now : timespec;
  malloc_ok : bool;
  cpu_clock : list timespec;
}.

Record loop_state := LoopState {
  l_client : client;
  signal_received : Z;
  task_stats : rt_stats_t;
  rand_pos : nat;
}.

Inductive woken := Asleep | Again | Break | Go.

(** The head of the loop body: how the turn goes on. *)
Definition wait_activation (s : settings) (rd : round) (st : loop_state)
  : woken * loop_state * list effect :=
  if use_bpf s then
    match ttsched_wait_next_period (rd_fs rd) (rd_fs' rd) (rd_maps rd) (pr_name (name (task_config s)))
            (rd_futex rd) (l_client st) with
    | None => (Asleep, st, [])
    | Some (c, r) =>
        (if r =? 0 then Go else Again,
         LoopState c (signal_received st) (task_stats st) (rand_pos st), [])
    end
  else
    let sig := if wait rd =? 0 then wait_signal rd else signal_received st in
    let st := LoopState (l_client st) sig (task_stats st) (rand_pos st) in
    if wait rd =? -1 then
      if wait_errno rd =? EINTR then (Again, st, []) else (Break, st, [Say PerrorSigwait])
    else if negb (sig =? SIGNO_TT) then (Again, st, [OtherSignal sig])
    else (Go, st, []).

(** [get_cpu_time] of a reading. *)
Definition get_cpu_time (t : timespec) : Z := u64 (ts_ns t).

Definition run_lines (c : rt_task_config_t) (s : rt_stats_t) (runtime : Z) (miss : bool) : list effect :=
  RunLine (iterations s) runtime miss (period_ms c) (deadline_ms c)
  :: (if enable_stats c && (iterations s mod 100 =? 0)
      then [PeriodicLine (iterations s) (avg_runtime_us s) (min_runtime_us s) (max_runtime_us s)
              (deadline_misses s)]
      else []).

(** How the loop was left: still in it, or out of it. *)
Inductive leaving := StillIn | Out (st : loop_state).

Section Loop.
Context (rand : nat -> Z) (s : settings).

(** The rest of the body: [None] while the workload still spins. *)
Definition work (rd : round) (st : loop_state) : outcome (option (loop_state * list effect)) :=
  let c := task_config s in
  (r <-c do_calculations rand (malloc_ok rd) (algo s) (runtime_us c) (loop_cnt s)
           (get_cpu_time <$> cpu_clock rd) (rand_pos st);
   match r with
   | None => Ret None
   | Some n =>
       a <-c activation c (task_stats st) (before rd) (now rd);
       let '(runtime, miss, stats) := a in
       Ret (Some (LoopState (l_client st) (signal_received st) stats n, run_lines c stats runtime miss))
   end)%c.

Definition emit (es : list effect) (r : leaving * list effect) : leaving * list effect :=
  (r.1, es ++ r.2).

Fixpoint run_loop (rds : list round) (st : loop_state) : outcome (leaving * list effect) :=
  match rds with
  | [] => Ret (StillIn, [])
  | rd :: rds =>
      if shutdown rd then Ret (Out st, []) else
      match wait_activation s rd st with
      | (Asleep, _, es) => Ret (StillIn, es)
      | (Again, st, es) => (r <-c run_loop rds st; Ret (emit es r))%c
      | (Break, st, es) => Ret (Out st, es)
      | (Go, st, es) =>
          (w <-c work rd st;
           match w with
           | None => Ret (StillIn, es)
           | Some (st, es') => r <-c run_loop rds st; Ret (emit (es ++ es') r)
           end)%c
      end
  end.
End Loop.

(** ** The whole program *)

(** [100.0 * misses / iterations] in doubles. *)
Definition miss_percentage (s : rt_stats_t) : spec_float :=
  if 0 <? iterations s
  then Dbl.div (Dbl.mul (Dbl.of_Z 100) (Dbl.of_Z (deadline_misses s))) (Dbl.of_Z (iterations s))
  else Dbl.of_Z 0.

Definition rt_stats_print (s : rt_stats_t) (c : rt_task_config_t) : list effect :=
  [Report s (miss_percentage s) c].

(** What the option loop prints before it gives up. *)
Fixpoint refusal (opts : list opt) : list effect :=
  match opts with
  | [] => [Say UsageText]
  | OptVersion :: _ => [Say VersionText]
  | OptHelp :: _ | OptUnknown :: _ => [Say UsageText]
  | OptPriority v :: opts => if (v <? 1) || (99 <? v) then [] else refusal opts
  | OptAlgorithm v :: opts => if (v <? 1) || (8 <? v) then [] else refusal opts
  | _ :: opts => refusal opts
  end.

(** The exit code, [None] while the program runs, and the effects. *)
Definition sample_main (rand : nat -> Z) (k : kernel) (opts : list opt) (arg : option (list Z))
    (rds : list round) : outcome (option Z * list effect) :=
  match configure opts arg with
  | inl code => Ret (Some code, refusal opts)
  | inr s =>
      match set_up k s with
      | (es, inl code) => Ret (Some code, es)
      | (es, inr c) =>
          (r <-c run_loop rand s rds (LoopState c (-1) rt_stats_init 0);
           match r with
           | (StillIn, es') => Ret (None, es ++ es')
           | (Out st, es') =>
               let final :=
                 if enable_stats (task_config s) && (0 <? iterations (task_stats st))
                 then rt_stats_print (task_stats st) (task_config s) else [] in
               Ret (Some EXIT_SUCCESS, es ++ es' ++ final)
           end)%c
      end
  end.

(** ** What the loop prints *)

(** The runs reported line by line, and the final reports. *)
Definition printed_runs (es : list effect) : list (Z * bool) :=
  omap (fun e => match e with RunLine _ r m _ _ => Some (r, m) | _ => None end) es.
Definition reports (es : list effect) : list effect :=
  filter (fun e => match e with Report _ _ _ => true | _ => false end = true) es.

(** The run a turn amounts to when it leads to work. *)
Definition round_run (d : Z) (rd : round) : Z * bool :=
  (runtime_of (before rd) (now rd), missed d (before rd) (now rd)).

(** The answers of a turn that comes to an end: sane clock readings, a futex
    wait that returns, a workload that is defined and stops. *)
Record round_ok (rand : nat -> Z) (s : settings) (rd : round) : Prop := {
  ok_clock : turn_ok (Work (before rd) (now rd));
  ok_futex : is_Some (futex_loop (rd_futex rd));
  ok_work n : exists n', do_calculations rand (malloc_ok rd) (algo s) (runtime_us (task_config s)) (loop_cnt s)
                           (get_cpu_time <$> cpu_clock rd) n = Ret (Some n');
}.

(** Signals arrived without error and before the shutdown. *)
Definition plain (rd : round) : Prop := shutdown rd = false /\ wait rd = 0.

Lemma printed_app es es' : printed_runs (es ++ es') = printed_runs es ++ printed_runs es'.
Proof. apply omap_app. Qed.

Lemma reports_app es es' : reports (es ++ es') = reports es ++ reports es'.
Proof. apply filter_app. Qed.

Lemma run_lines_printed c s r m : printed_runs (run_lines c s r m) = [(r, m)].
Proof. unfold run_lines. by destruct (_ && _). Qed.

Lemma run_lines_reports c s r m : reports (run_lines c s r m) = [].
Proof. unfold run_lines. by destruct (_ && _). Qed.

Lemma parse_options_stats opts s s' :
  parse_options opts s = inr s' -> enable_stats (task_config s) = true -> enable_stats (task_config s') = true.
Proof.
  revert s. induction opts as [|o opts IH]; intros s; cbn [parse_options]; [by intros [= <-]|].
  destruct o; repeat case_match; try done; intros E Hst; by eapply IH; [exact E|].
Qed.

(** Statistics cannot be switched off. *)
Lemma configure_stats opts arg s : configure opts arg = inr s -> enable_stats (task_config s) = true.
Proof.
  unfold configure. destruct (parse_options _ _) as [|s0] eqn:E; [done|].
  apply parse_options_stats in E; [|done]. destruct arg; [|done]. by intros [= <-].
Qed.

(** A wait changes neither the statistics nor prints a run or a report, and
    in the modes with signals it leads to work on the signal of the period. *)
Lemma wait_activation_frame s rd st w st' es :
  wait_activation s rd st = (w, st', es) ->
  task_stats st' = task_stats st /\ printed_runs es = [] /\ reports es = [] /\
  (w = Asleep -> use_bpf s = true /\ futex_loop (rd_futex rd) = None) /\
  (use_bpf s = false -> wait rd = 0 -> w = if decide (wait_signal rd = SIGNO_TT) then Go else Again).
Proof.
  unfold wait_activation. destruct (use_bpf s).
  - destruct (ttsched_wait_next_period _ _ _ _ _ _) as [[c r]|] eqn:E; intros [= <- <- <-].
    + split_and!; try done. by destruct (r =? 0).
    + split_and!; try done. intros _. split; [done|]. revert E. unfold ttsched_wait_next_period.
      destruct (wait_prepare _ _ _ _) as [c p]. destruct p; [done|]. by destruct (futex_loop _).
  - destruct (Z.eqb_spec (wait rd) 0) as [E0|E0].
    + rewrite E0. cbn [Z.eqb]. destruct (Z.eqb_spec (wait_signal rd) SIGNO_TT); cbn [negb];
        intros [= <- <- <-]; split_and!; try done; intros _ _; by case_decide.
    + destruct (_ =? -1); [destruct (_ =? EINTR)|destruct (negb _)]; intros [= <- <- <-]; by split_and!.
Qed.

Lemma work_ok rand s rd st us :
  let d := deadline_ms (task_config s) in
  enable_stats (task_config s) = true -> 0 <= d < 2 ^ 32 -> round_ok rand s rd ->
  summary us (task_stats st) -> Forall (fun x => 0 <= x) us.*1 ->
  sum us.*1 + (round_run d rd).1 < 2 ^ 64 -> zlen us + 1 < 2 ^ 64 ->
  exists st' es, work rand s rd st = Ret (Some (st', es)) /\ printed_runs es = [round_run d rd] /\
    reports es = [] /\ summary (us ++ [round_run d rd]) (task_stats st').
Proof.
  intros d He Hd [(Hb & Hn & Hle) _ Hw] Hs Hpos Hsum Hlen. unfold work.
  destruct (Hw (rand_pos st)) as [n' ->]. cbn [obind]. rewrite activation_ok, He by done.
  destruct (summary_update us (task_stats st) _ (missed d (before rd) (now rd)) Hs
              (runtime_range _ _ Hb Hn Hle) Hpos Hsum Hlen) as (stats & E & Hs').
  unfold d in E. rewrite E. cbn [obind]. do 2 eexists. split; [done|].
  rewrite run_lines_printed, run_lines_reports. by split_and!.
Qed.

Lemma run_loop_summary rand s rds last us st :
  let d := deadline_ms (task_config s) in
  enable_stats (task_config s) = true -> 0 <= d < 2 ^ 32 ->
  Forall (round_ok rand s) rds -> shutdown last = true ->
  summary us (task_stats st) -> Forall (fun x => 0 <= x) us.*1 ->
  sum (us.*1 ++ (round_run d <$> rds).*1) < 2 ^ 64 -> zlen us + zlen rds < 2 ^ 64 ->
  exists st' es, run_loop rand s (rds ++ [last]) st = Ret (Out st', es) /\
    printed_runs es `sublist_of` (round_run d <$> rds) /\ reports es = [] /\
    summary (us ++ printed_runs es) (task_stats st') /\
    (use_bpf s = false -> Forall plain rds ->
     printed_runs es = round_run d <$> filter (fun rd => wait_signal rd = SIGNO_TT) rds).
Proof.
  intros d He Hd Hok Hlast. revert us st. induction Hok as [|rd rds Hrd Hok IH]; intros us st Hs Hpos Hsum Hlen.
  { exists st, []. cbn [app run_loop]. rewrite Hlast, app_nil_r. by split_and!. }
  assert (Hr : 0 <= (round_run d rd).1) by (destruct (ok_clock _ _ _ Hrd) as (? & ? & ?); by apply runtime_range).
  assert (Hrest : 0 <= sum (round_run d <$> rds).*1).
  { apply sum_nonneg. clear -Hok. induction Hok as [|r l Hr Hl IH]; constructor; [|done].
    destruct (ok_clock _ _ _ Hr) as (? & ? & ?). by apply runtime_range. }
  rewrite fmap_cons, fmap_cons, sum_app in Hsum. cbn [sum foldr] in Hsum.
  fold (sum us.*1) in Hsum. fold (sum (round_run d <$> rds).*1) in Hsum. rewrite zlen_cons in Hlen.
  pose proof (zlen_nonneg rds). cbn [app run_loop].
  destruct (shutdown rd) eqn:Esh.
  { exists st, []. rewrite app_nil_r. split_and!; try done; [apply sublist_nil_l|].
    intros _ [[Hf _] _]%Forall_cons. congruence. }
  destruct (wait_activation s rd st) as [[w st1] es1] eqn:Ew.
  destruct (wait_activation_frame _ _ _ _ _ _ Ew) as (Hst & Hp & Hrep & Hasleep & Hgo). rewrite <- Hst in Hs.
  destruct w.
  - destruct (Hasleep eq_refl) as [_ E]. destruct (ok_futex _ _ _ Hrd) as [? E2]. congruence.
  - destruct (IH us st1 Hs Hpos) as (st' & es & -> & H1 & H2 & H3 & H4); [rewrite sum_app; lia|lia|].
    exists st', (es1 ++ es). cbn [obind emit fst snd]. rewrite printed_app, reports_app, Hp, Hrep, H2.
    split_and!; try done; [by apply sublist_cons|].
    intros Hb [[_ H0] Hpl]%Forall_cons. specialize (Hgo Hb H0).
    rewrite filter_cons. case_decide; [done|]. by apply H4.
  - exists st1, es1. rewrite Hp, app_nil_r. split_and!; try done; [apply sublist_nil_l|].
    intros Hb [[_ H0] _]%Forall_cons. specialize (Hgo Hb H0). by case_decide.
  - destruct (work_ok rand s rd st1 us He Hd Hrd Hs Hpos) as (st2 & es2 & -> & Hp2 & Hrep2 & Hs2);
      [unfold d in *; lia|lia|].
    cbn [obind]. destruct (IH (us ++ [round_run d rd]) st2 Hs2) as (st' & es & -> & H1 & H2 & H3 & H4).
    + rewrite fmap_app. apply Forall_app. split; [done|]. by repeat constructor.
    + rewrite fmap_app, <- app_assoc, sum_app. cbn [fmap list_fmap app sum foldr].
      fold (sum (round_run d <$> rds).*1). lia.
    + rewrite zlen_app. change (zlen [round_run d rd]) with 1. lia.
    + exists st', ((es1 ++ es2) ++ es). cbn [obind emit fst snd].
      rewrite !printed_app, !reports_app, Hp, Hp2, Hrep, Hrep2, H2. cbn [app].
      split_and!; try done.
      * rewrite fmap_cons. by apply sublist_skip.
      * by rewrite <- app_assoc in H3.
      * intros Hb [[_ H0] Hpl]%Forall_cons. specialize (Hgo Hb H0).
        rewrite filter_cons. case_decide; [|done]. rewrite fmap_cons, H4; done.
Qed.

(** The set-up fails only on the timer, and prints neither runs nor reports. *)
Lemma set_up_spec (k : kernel) (s : settings) :
  printed_runs (set_up k s).1 = [] /\ reports (set_up k s).1 = [] /\
  ((mode s = TimerMode -> k_timer_create k && k_timer_settime k = true) <-> exists c, (set_up k s).2 = inr c).
Proof.
  unfold set_up, mode, banner, set_sched_ext, set_realtime_priority, setup_periodic_timer.
  destruct (use_bpf s), (use_timer s), (k_setattr k), (k_setscheduler k), (k_timer_create k), (k_timer_settime k);
    cbn; split_and!; try done; (split; [intros H; by eauto || by specialize (H eq_refl)|by intros [? ?]]).
Qed.

(** ** Properties *)

(** C31. The sample task as a whole: with readable options, a timer that can be
    set up where one is used, and turns that come to an end, it runs until
    the shutdown is requested and exits successfully.  It prints one line for
    each run, in order, with the runtime and deadline miss of the clock
    readings around the workload; driven by signals it runs exactly on those
    of the period.  The final report appears exactly when there was a run, and
    its count, misses, sum, mean and extremes are those of the printed lines. *)
Theorem sample_main_reports rand k opts arg s rds last :
  let d := deadline_ms (task_config s) in
  configure opts arg = inr s -> 0 <= d < 2 ^ 32 ->
  (mode s = TimerMode -> k_timer_create k && k_timer_settime k = true) ->
  Forall (round_ok rand s) rds -> shutdown last = true ->
  sum (round_run d <$> rds).*1 < 2 ^ 64 -> zlen rds < 2 ^ 64 ->
  exists es stats, sample_main rand k opts arg (rds ++ [last]) = Ret (Some EXIT_SUCCESS, es) /\
    printed_runs es `sublist_of` (round_run d <$> rds) /\
    (mode s <> BpfMode -> Forall plain rds ->
     printed_runs es = round_run d <$> filter (fun rd => wait_signal rd = SIGNO_TT) rds) /\
    summary (printed_runs es) stats /\
    reports es = if decide (printed_runs es = []) then []
                 else [Report stats (miss_percentage stats) (task_config s)].
Proof.
  intros d Hc Hd Hk Hok Hlast Hsum Hlen. unfold sample_main. rewrite Hc.
  pose proof (configure_stats _ _ _ Hc) as He.
  destruct (set_up_spec k s) as (Hp & Hr & Hup). destruct (proj1 Hup Hk) as [c Ec].
  destruct (set_up k s) as [es0 r]. cbn [fst snd] in *. subst r.
  destruct (run_loop_summary rand s rds last [] (LoopState c (-1) rt_stats_init 0) He Hd Hok Hlast)
    as (st & es & -> & H1 & H2 & H3 & H4); [|constructor|done|by change (zlen []) with 0|].
  { split_and!; try done. intros u Hu. by apply not_elem_of_nil in Hu. }
  cbn [obind]. eexists _, (task_stats st). split; [done|]. rewrite He.
  set (final := if true && _ then rt_stats_print _ _ else []).
  assert (printed_runs final = []) as Hf by (unfold final; by case_match).
  rewrite !printed_app, !reports_app, Hp, Hr, H2, Hf, app_nil_r. cbn [app].
  split_and!; try done.
  - intros Hm. apply H4. unfold mode in Hm. by destruct (use_bpf s).
  - unfold final. destruct H3 as [Hi _]. cbn [app] in Hi. rewrite Hi. unfold zlen. case_decide as E.
    + by rewrite E.
    + destruct (printed_runs es); [done|]. done.
Qed.

(** A task driven by signals: one run of 70 us, a signal that is not its own,
    one run of 2 s past the deadline, then the shutdown. *)
Definition no_shm : shm_fs := ShmFs ∅ None.
Definition signal_round (sig : Z) (b n : timespec) : round :=
  Round false no_shm no_shm false [FWoken] 0 0 sig b n true [].
Definition shutdown_round : round :=
  Round true no_shm no_shm false [] 0 0 0 (Timespec 0 0) (Timespec 0 0) true [].

Lemma sample_main_reports_witness :
  let k := Kernel true false true true no_shm false in
  let arg := Some [116; 49; 0] in
  let rds := [signal_round 34 (Timespec 5 999950000) (Timespec 6 20000);
              signal_round 10 (Timespec 6 0) (Timespec 6 0);
              signal_round 34 (Timespec 7 0) (Timespec 9 0)] in
  exists es stats, sample_main (fun _ => 0) k [OptLoops 2] arg (rds ++ [shutdown_round]) = Ret (Some EXIT_SUCCESS, es) /\
    printed_runs es = [(70, false); (2000000, true)] /\ reports es = [Report stats (miss_percentage stats)
      (RtConfig 100 100 50000 50 true [116; 49; 0; 0; 0; 0; 0; 0; 0; 0; 0; 0; 0; 0; 0; 0])].
Proof.
  intros k arg rds.
  destruct (sample_main_reports (fun _ => 0) k [OptLoops 2] arg
    (Settings (RtConfig 100 100 50000 50 true [116; 49; 0; 0; 0; 0; 0; 0; 0; 0; 0; 0; 0; 0; 0; 0]) 1 2 false false)
    rds shutdown_round) as (es & stats & H1 & _ & H2 & _ & H3);
    [by vm_compute|done|done| |done|by vm_compute|by vm_compute|].
  - repeat constructor; cbn; try done; try lia; eauto.
  - exists es, stats. assert (E : printed_runs es = [(70, false); (2000000, true)]).
    { rewrite H2; [by vm_compute|done|]. repeat constructor. }
    rewrite H3, E. done.
Defined.

(** A signal is waited for with [sigwait], whose failure is a positive number:
    the signal of an earlier turn is then taken for a new one. *)
Lemma sigwait_error_runs s rd st :
  use_bpf s = false -> wait rd = 22 -> signal_received st = SIGNO_TT ->
  (wait_activation s rd st).1.1 = Go.
Proof. intros H1 H2 H3. unfold wait_activation. by rewrite H1, H2, H3. Qed.
