(* ===== verification/PeerDbus.v ===== *)
(** * libtrpc/src/peer_dbus.c: the D-Bus transport

    The kernel and libsystemd are an oracle: [answer t] is the result of the
    last call of the trace [t] (newest first), negative for an error (a system
    call that fails with [errno = e] answers [-e]).  Every function returns
    its C result and the trace it extends; what is left open afterwards is
    read off the trace. *)
From stdpp Require Import prelude gmap list.
From Stdlib Require Import ZArith Lia.
From S2P Require Import Prelude.
Local Open Scope Z_scope.

Definition EINTR : Z := 4.
Definition EAGAIN : Z := 11.

(** The methods of the interface. *)
Inductive meth := TRPC_METHOD_REGISTER | TRPC_METHOD_SCHEDINFO | TRPC_METHOD_DMISS | TRPC_METHOD_SYNC.

(** What a bus is set up with between its creation and its use. *)
Inductive bus_step :=
  | SetDescription | SetTrusted | SetFd (fd : Z) | SetServer | SetAnonymous | NegotiateCreds
  | SetSender | SetAddress | StartBus | AddVtable | AttachEvent.

Inductive sockopt := SO_REUSEADDR | TCP_NODELAY | SO_KEEPALIVE | TCP_KEEPIDLE | TCP_KEEPINTVL | TCP_KEEPCNT.

Inductive call :=
  | CSocket
  | CSetsockopt (fd : Z) (o : sockopt) (v : Z)
  | CBind (fd port : Z)
  | CListen (fd : Z)
  | CAccept (fd : Z)
  | CClose (fd : Z)
  | CAddIo (fd : Z)
  | CSourceUnref
  | CRandomize
  | CBusNew
  | CBusStep (s : bus_step)
  | CBusUnref
  | CCallMethod (m : meth)
  | CReadArray
  | CReadReply
  | CEventDefault
  | CEventLoop
  | CEventUnref
  | CSleep (us : Z)
  | CErrorFree
  | CReplyUnref.

Definition trace := list call.

Section Oracle.
Context (answer : trace -> Z).

Definition M (A : Type) : Type := trace -> A * trace.
Definition ret {A} (x : A) : M A := fun t => (x, t).
Definition bind {A B} (m : M A) (k : A -> M B) : M B := fun t => let '(a, t) := m t in k a t.
Definition do_call (c : call) : M Z := fun t => (answer (c :: t), c :: t).

Local Notation "x <-- m ;; k" := (bind m (fun x => k)) (at level 100, m at next level, right associativity).

(** ** Server side *)

(** The port is converted to 16 bits. *)
Definition create_server_socket (port : Z) : M Z :=
  fd <-- do_call CSocket ;;
  if fd <? 0 then ret fd else
  r <-- do_call (CSetsockopt fd SO_REUSEADDR 1) ;;
  if r <? 0 then ret r else
  r <-- do_call (CBind fd (u16 port)) ;;
  if r <? 0 then ret r else
  r <-- do_call (CListen fd) ;;
  if r <? 0 then ret r else
  ret fd.

(** Options one by one, up to the first that fails. *)
Fixpoint set_options (fd : Z) (os : list (sockopt * Z)) : M Z :=
  match os with
  | [] => ret 0
  | (o, v) :: os => r <-- do_call (CSetsockopt fd o v) ;; if r <? 0 then ret r else set_options fd os
  end.

Definition set_server_sockopt (fd : Z) : M Z :=
  set_options fd [(TCP_NODELAY, 1); (SO_KEEPALIVE, 1); (TCP_KEEPIDLE, 60); (TCP_KEEPINTVL, 10);
                  (TCP_KEEPCNT, 3)].

(** Set-up calls on a bus, up to the first that fails: the last result. *)
Fixpoint bus_steps (ss : list bus_step) : M Z :=
  match ss with
  | [] => ret 0
  | s :: ss => r <-- do_call (CBusStep s) ;; if r <? 0 then ret r else bus_steps ss
  end.

Definition server_steps (fd : Z) : list bus_step :=
  [SetDescription; SetTrusted; SetFd fd; SetServer; SetAnonymous; NegotiateCreds; SetSender;
   StartBus; AddVtable; AttachEvent].
Definition client_steps : list bus_step :=
  [SetDescription; SetTrusted; SetAddress; StartBus; AttachEvent].

(** [true]: the bus is returned; [false]: [NULL]. *)
Definition init_bus (ss : list bus_step) : M bool :=
  r <-- do_call CBusNew ;;
  if r <? 0 then ret false else
  r <-- bus_steps ss ;;
  if r <? 0 then _ <-- do_call CBusUnref ;; ret false
  else ret true.

Definition init_dbus_server (fd : Z) : M bool :=
  r <-- do_call CRandomize ;;
  if r <? 0 then ret false else init_bus (server_steps fd).

Definition server_handler (fd : Z) : M Z :=
  connfd <-- do_call (CAccept fd) ;;
  if connfd <? 0 then
    if (- connfd =? EAGAIN) || (- connfd =? EINTR) then ret 0 else ret (-1)
  else
    dbus <-- init_dbus_server connfd ;;
    if negb dbus then ret (-1) else
    _ <-- set_server_sockopt connfd ;;
    ret 0.

(** The descriptor or -1, and whether the callbacks were installed. *)
Definition trpc_server_create (port : Z) : M (Z * bool) :=
  r <-- create_server_socket port ;;
  if r <? 0 then _ <-- do_call CSourceUnref ;; ret (-1, false) else
  let fd := r in
  r <-- do_call (CAddIo fd) ;;
  if r <? 0 then
    _ <-- do_call CSourceUnref ;;
    _ <-- do_call (CClose fd) ;;
    ret (-1, true)
  else ret (fd, true).

(** ** Client side *)

Definition init_dbus_client (serv_addr : bool) : M bool :=
  if negb serv_addr then ret false else init_bus client_steps.

Definition trpc_client_create (serv_addr : bool) : M Z :=
  dbus <-- init_dbus_client serv_addr ;;
  ret (if dbus then 0 else -1).

(** The end of every client call: free the error, and the reply if any. *)
Definition cleanup (has_reply : bool) : M unit :=
  _ <-- do_call CErrorFree ;;
  if has_reply then _ <-- do_call CReplyUnref ;; ret tt else ret tt.

(** A call of a method without results: a reply exists when it succeeded. *)
Definition client_call (m : meth) : M Z :=
  r <-- do_call (CCallMethod m) ;;
  _ <-- cleanup (negb (r <? 0)) ;;
  ret r.

Definition trpc_client_register : M Z := client_call TRPC_METHOD_REGISTER.
Definition trpc_client_dmiss : M Z := client_call TRPC_METHOD_DMISS.

(** The bytes handed to the caller; [payload] is the array in the reply,
    [wants] whether the caller passed both pointers, [alloc] whether [malloc]
    succeeds. *)
Definition trpc_client_schedinfo (payload : list Z) (wants alloc : bool) : M (Z * option (list Z)) :=
  r <-- do_call (CCallMethod TRPC_METHOD_SCHEDINFO) ;;
  if r <? 0 then _ <-- cleanup false ;; ret (r, None) else
  r <-- do_call CReadArray ;;
  if r <? 0 then _ <-- cleanup true ;; ret (r, None) else
  if negb wants then _ <-- cleanup true ;; ret (r, None) else
  if negb alloc then _ <-- cleanup true ;; ret (-1, None) else
  _ <-- cleanup true ;; ret (r, Some payload).

(** The three values of the reply are stored when it is read. *)
Definition trpc_client_sync (reply : Z * Z * Z) : M (Z * option (Z * Z * Z)) :=
  r <-- do_call (CCallMethod TRPC_METHOD_SYNC) ;;
  if r <? 0 then _ <-- cleanup false ;; ret (r, None) else
  r <-- do_call CReadReply ;;
  _ <-- cleanup true ;;
  ret (r, if r <? 0 then None else Some reply).
End Oracle.

(** ** The methods the server offers

    [read] is the result of [sd_bus_message_read]; a handler returns the reply
    it sends.  A value of type [option] is [None] when the code never set it. *)
Inductive reply :=
  | RError
  | REmpty
  | RBytes (b : list Z)
  | RSync (ack : option Z) (sec nsec : option Z).

(** [trpc_server_ops_t]: each callback may be absent. *)
Record trpc_server_ops_t := ServerOps {
  register_cb : option (list Z -> unit);
  schedinfo_cb : option (list Z -> list Z);
  dmiss_cb : option (list Z -> list Z -> unit);
  sync_cb : option (list Z -> Z * option (Z * Z));
}.

(** What the callbacks were called with. *)
Inductive callback := CbRegister (n : list Z) | CbSchedinfo (n : list Z) | CbDmiss (n t : list Z) | CbSync (n : list Z).

Definition trpc_method_register (ops : option trpc_server_ops_t) (read : option (list Z))
  : list callback * reply :=
  match read with
  | None => ([], RError)
  | Some name =>
      (match ops ≫= register_cb with Some _ => [CbRegister name] | None => [] end, REmpty)
  end.

(** [new_return] and [append] tell whether the reply can be built. *)
Definition trpc_method_schedinfo (ops : option trpc_server_ops_t) (read : option (list Z))
    (new_return append : bool) : list callback * reply :=
  match read with
  | None => ([], RError)
  | Some name =>
      let '(cbs, buf) := match ops ≫= schedinfo_cb with
                         | Some f => ([CbSchedinfo name], f name)
                         | None => ([], [])
                         end in
      (cbs, if new_return && append then RBytes buf else RError)
  end.

Definition trpc_method_dmiss (ops : option trpc_server_ops_t) (read : option (list Z * list Z))
  : list callback * reply :=
  match read with
  | None => ([], RError)
  | Some (name, task) =>
      (match ops ≫= dmiss_cb with Some _ => [CbDmiss name task] | None => [] end, REmpty)
  end.

Definition trpc_method_sync (ops : option trpc_server_ops_t) (read : option (list Z))
  : list callback * reply :=
  match read with
  | None => ([], RError)
  | Some name =>
      match ops ≫= sync_cb with
      | Some f => let '(ack, ts) := f name in ([CbSync name], RSync (Some ack) (fst <$> ts) (snd <$> ts))
      | None => ([], RSync None None None)
      end
  end.

(** ** What a trace leaves open *)

Section Resources.
Context (answer : trace -> Z).

(** The descriptors the newest bus was given: it closes them when released. *)
Fixpoint bus_fds (t : trace) : gset Z :=
  match t with
  | [] => ∅
  | c :: t' =>
      match c with
      | CBusNew => if answer t <? 0 then bus_fds t' else ∅
      | CBusStep (SetFd fd) => if answer t <? 0 then bus_fds t' else {[ fd ]} ∪ bus_fds t'
      | CBusUnref => ∅
      | _ => bus_fds t'
      end
  end.

(** The descriptors that are open. *)
Fixpoint open_fds (t : trace) : gset Z :=
  match t with
  | [] => ∅
  | c :: t' =>
      match c with
      | CSocket | CAccept _ => if answer t <? 0 then open_fds t' else {[ answer t ]} ∪ open_fds t'
      | CClose fd => open_fds t' ∖ {[ fd ]}
      | CBusUnref => open_fds t' ∖ bus_fds t'
      | _ => open_fds t'
      end
  end.

(** The first of a sequence of calls that fails. *)
Fixpoint first_fail (cs : list call) (t : trace) : option nat :=
  match cs with
  | [] => None
  | c :: cs => if answer (c :: t) <? 0 then Some 0%nat else S <$> first_fail cs (c :: t)
  end.

Definition is_bus_unref (c : call) : bool := match c with CBusUnref => true | _ => false end.
Definition is_error_free (c : call) : bool := match c with CErrorFree => true | _ => false end.
Definition is_reply_unref (c : call) : bool := match c with CReplyUnref => true | _ => false end.

(** How often a kind of call was made. *)
Fixpoint calls (p : call -> bool) (t : trace) : nat :=
  match t with [] => 0 | c :: t => (if p c then 1 else 0) + calls p t end.

Lemma set_options_keep fd os t :
  open_fds (set_options answer fd os t).2 = open_fds t /\
  bus_fds (set_options answer fd os t).2 = bus_fds t.
Proof.
  revert t. induction os as [|[o v] os IH]; intros t; [done|].
  cbn [set_options bind do_call]. case_match; [done|]. destruct (IH (CSetsockopt fd o v :: t)) as [-> ->].
  done.
Qed.
End Resources.

(** Exposes the calls of a function, and decides the next one: it fails here,
    or the rest decides. *)
Ltac expose := cbn [fmap list_fmap bus_steps first_fail]; unfold bind, do_call, ret; cbv beta iota zeta;
  cbn [fmap option_fmap option_map].
Ltac next_call :=
  match goal with
  | |- context [if ?a <? 0 then Some 0%nat else _] =>
      let E := fresh "E" in destruct (a <? 0) eqn:E; cbn [fmap option_fmap option_map negb]; cbv beta iota;
      rewrite ?E; cbv beta iota; cbn [negb]; cbv beta iota
  end.

(** ** Properties *)

(** Accepting a connection: when every set-up call succeeds the handler
    returns 0 and the connection belongs to its attached bus.  When one fails
    the handler returns -1, the bus is released exactly if it was created, and
    the connection is closed with it only if the bus had been given the
    descriptor: a failure before or in [sd_bus_set_fd] leaves it open. *)
Theorem server_handler_owns_connection answer fd t0 :
  let c := answer (CAccept fd :: t0) in
  let '(r, t1) := server_handler answer fd t0 in
  0 <= c -> c ∉ open_fds answer t0 ->
  match first_fail answer (CRandomize :: CBusNew :: (CBusStep <$> server_steps c)) (CAccept fd :: t0) with
  | None => r = 0 /\ c ∈ open_fds answer t1 /\ c ∈ bus_fds answer t1 /\ calls is_bus_unref t1 = calls is_bus_unref t0
  | Some k => r = -1 /\ (c ∈ open_fds answer t1 <-> (k <= 4)%nat) /\
      calls is_bus_unref t1 = (calls is_bus_unref t0 + if (k <=? 1)%nat then 0 else 1)%nat
  end.
Proof.
  intros c. unfold server_handler, init_dbus_server, init_bus, server_steps. expose. fold c. destruct (Z.ltb_spec c 0) as [Hneg|Hpos]; [destruct (_ || _); intros; lia|].
  apply Z.ltb_ge in Hpos as Hlt.
  assert (Hcalls : forall os t, calls is_bus_unref (set_options answer c os t).2 = calls is_bus_unref t).
  { induction os as [|[o v] os IH]; intros t; [done|]. cbn [set_options bind do_call].
    case_match; [done|]. by rewrite IH. }
  next_call; [intros _ Hc|].
  { split; [done|]. split; [|cbn [calls is_bus_unref Nat.leb]; lia]. cbn [open_fds]. fold c. rewrite Hlt. set_solver by lia. }
  next_call; [intros _ Hc|].
  { split; [done|]. split; [|cbn [calls is_bus_unref Nat.leb]; lia]. cbn [open_fds]. fold c. rewrite Hlt. set_solver by lia. }
  (* the steps before and with sd_bus_set_fd *)
  do 3 (next_call; [intros _ Hc;
    split; [done|]; split; [|cbn [calls is_bus_unref Nat.leb]; lia]; cbn [open_fds bus_fds]; fold c; rewrite ?E, ?E0, ?E1, ?E2, ?E3, Hlt;
    set_solver by lia|]).
  (* the steps after it *)
  do 7 (next_call; [intros _ Hc;
    split; [done|]; split; [|cbn [calls is_bus_unref Nat.leb]; lia]; cbn [open_fds bus_fds]; fold c; rewrite ?E3, ?E0, Hlt;
    set_solver by lia|]).
  change (0 <? 0) with false. cbv beta iota. cbn [negb]. cbv beta iota.
  match goal with |- context [set_server_sockopt answer c ?tt] => set (t := tt) end.
  destruct (set_server_sockopt answer c t) as [r t1] eqn:Es. intros _ Hc.
  unfold set_server_sockopt in Es.
  pose proof (set_options_keep answer c [(TCP_NODELAY, 1); (SO_KEEPALIVE, 1); (TCP_KEEPIDLE, 60);
    (TCP_KEEPINTVL, 10); (TCP_KEEPCNT, 3)] t) as [Ho Hb].
  pose proof (Hcalls [(TCP_NODELAY, 1); (SO_KEEPALIVE, 1); (TCP_KEEPIDLE, 60);
    (TCP_KEEPINTVL, 10); (TCP_KEEPCNT, 3)] t) as Hn.
  rewrite Es in Ho, Hb, Hn. cbn [snd] in Ho, Hb, Hn. rewrite Ho, Hb, Hn. subst t.
  split_and!; [done| | |done]; cbn [open_fds bus_fds]; fold c; rewrite ?E3, ?E0, ?Hlt; set_solver.
Qed.

(** An oracle that gives out descriptor 9 and fails [sd_bus_set_description]. *)
Definition failing_description (t : trace) : Z :=
  match t with
  | CAccept _ :: _ | CSocket :: _ => 9
  | CBusStep SetDescription :: _ => -12
  | _ => 0
  end.

Lemma server_handler_owns_connection_witness :
  let '(r, t1) := server_handler failing_description 3 [] in
  r = -1 /\ (9 ∈ open_fds failing_description t1 <-> (2 <= 4)%nat) /\ calls is_bus_unref t1 = 1%nat.
Proof.
  pose proof (server_handler_owns_connection failing_description 3 []) as H. cbv zeta in H.
  destruct (server_handler failing_description 3 []) as [r t1] eqn:E.
  specialize (H ltac:(cbn; lia) ltac:(cbn; set_solver)). exact H.
Defined.

(** Creating the server: the descriptor is returned, listening and with
    the callbacks installed, exactly when the five calls succeed, and -1
    otherwise; the socket is closed when the event source cannot be added, but
    a failure of setsockopt, bind or listen leaves it open. *)
Theorem trpc_server_create_outcome answer port t0 :
  let c := answer (CSocket :: t0) in
  let '((r, installed), t1) := trpc_server_create answer port t0 in
  c ∉ open_fds answer t0 ->
  if c <? 0 then r = -1 /\ installed = false /\ open_fds answer t1 = open_fds answer t0
  else
    match first_fail answer [CSetsockopt c SO_REUSEADDR 1; CBind c (u16 port); CListen c; CAddIo c]
            (CSocket :: t0) with
    | None => r = c /\ installed = true /\ c ∈ open_fds answer t1
    | Some k => r = -1 /\ installed = (k =? 3)%nat /\ (c ∈ open_fds answer t1 <-> (k < 3)%nat)
    end.
Proof.
  intros c. unfold trpc_server_create, create_server_socket. expose. fold c.
  destruct (c <? 0) eqn:Hc; cbv beta iota; rewrite ?Hc; cbv beta iota.
  { intros _. split_and!; [done|done|]. cbn [open_fds]. fold c. by rewrite Hc. }
  do 3 (next_call; [intros _; split_and!; [done|done|]; cbn [open_fds]; fold c; rewrite Hc;
    set_solver by lia|]).
  rewrite ?Hc. cbv beta iota.
  next_call; intros _; (split_and!; [done|done|]); cbn [open_fds]; fold c; rewrite Hc; set_solver by lia.
Qed.

Definition failing_bind (t : trace) : Z :=
  match t with CSocket :: _ => 9 | CBind _ _ :: _ => -98 | _ => 0 end.

Lemma trpc_server_create_outcome_witness :
  (let '((r, installed), t1) := trpc_server_create failing_bind 7777 [] in
   r = -1 /\ installed = false /\ (9 ∈ open_fds failing_bind t1 <-> (1 < 3)%nat)).
Proof.
  pose proof (trpc_server_create_outcome failing_bind 7777 []) as H. cbv zeta in H.
  destruct (trpc_server_create failing_bind 7777 []) as [[r installed] t1] eqn:E.
  specialize (H ltac:(cbn; set_solver)). exact H.
Defined.

(** The client's calls return the result of the method call (or of
    reading its reply), hand over the reply's data exactly on success, and
    release on every path the error once and the reply once if there is one. *)
Theorem trpc_client_calls_release answer payload wants alloc rep m t0 :
  let ok := negb (answer (CCallMethod m :: t0) <? 0) in
  (let '(r, t1) := client_call answer m t0 in
   r = answer (CCallMethod m :: t0) /\
   calls is_error_free t1 = S (calls is_error_free t0) /\
   calls is_reply_unref t1 = ((if ok then 1 else 0) + calls is_reply_unref t0)%nat) /\
  (m = TRPC_METHOD_SCHEDINFO ->
   let '((r, out), t1) := trpc_client_schedinfo answer payload wants alloc t0 in
   (out = (if (0 <=? r) && wants then Some payload else None)) /\
   (0 <= r <-> ok = true /\ 0 <= answer (CReadArray :: CCallMethod m :: t0) /\ (wants = true -> alloc = true)) /\
   calls is_error_free t1 = S (calls is_error_free t0) /\
   calls is_reply_unref t1 = ((if ok then 1 else 0) + calls is_reply_unref t0)%nat) /\
  (m = TRPC_METHOD_SYNC ->
   let '((r, out), t1) := trpc_client_sync answer rep t0 in
   (out = if r <? 0 then None else Some rep) /\
   (0 <= r <-> ok = true /\ 0 <= answer (CReadReply :: CCallMethod m :: t0)) /\
   calls is_error_free t1 = S (calls is_error_free t0) /\
   calls is_reply_unref t1 = ((if ok then 1 else 0) + calls is_reply_unref t0)%nat).
Proof.
  intros ok. split_and!.
  - unfold client_call, cleanup. expose. unfold ok.
    destruct (answer (CCallMethod m :: t0) <? 0); cbn [negb]; cbv beta iota zeta; by split_and!.
  - intros ->. unfold trpc_client_schedinfo, cleanup. expose. unfold ok.
    destruct (Z.ltb_spec (answer (CCallMethod TRPC_METHOD_SCHEDINFO :: t0)) 0); cbn [negb]; cbv beta iota zeta.
    { rewrite (proj2 (Z.leb_gt _ _)) by done. split_and!; try done; lia. }
    destruct (Z.ltb_spec (answer (CReadArray :: CCallMethod TRPC_METHOD_SCHEDINFO :: t0)) 0); cbv beta iota zeta.
    { rewrite (proj2 (Z.leb_gt _ _)) by done. split_and!; try done; lia. }
    destruct wants, alloc; cbn [negb]; cbv beta iota zeta; rewrite ?(proj2 (Z.leb_le 0 _)) by done;
      split_and!; try done; lia.
  - intros ->. unfold trpc_client_sync, cleanup. expose. unfold ok.
    destruct (Z.ltb_spec (answer (CCallMethod TRPC_METHOD_SYNC :: t0)) 0); cbn [negb]; cbv beta iota zeta.
    { rewrite (proj2 (Z.ltb_lt _ 0)) by done. split_and!; try done; lia. }
    destruct (Z.ltb_spec (answer (CReadReply :: CCallMethod TRPC_METHOD_SYNC :: t0)) 0); split_and!; try done; lia.
Qed.

(** The sync reply carries values nobody set when there is no callback, or
    when the callback refuses without a time. *)
Lemma sync_reply_unset name :
  trpc_method_sync None (Some name) = ([], RSync None None None).
Proof. done. Qed.

Lemma trpc_client_calls_release_witness :
  let '((r, out), t1) := trpc_client_schedinfo (fun _ => 0) [1; 2; 3] true true [] in
  r = 0 /\ out = Some [1; 2; 3] /\ calls is_reply_unref t1 = 1%nat.
Proof.
  pose proof (proj1 (proj2 (trpc_client_calls_release (fun _ => 0) [1; 2; 3] true true (0, 0, 0)
    TRPC_METHOD_SCHEDINFO [])) eq_refl) as H.
  destruct (trpc_client_schedinfo (fun _ => 0) [1; 2; 3] true true []) as [[r out] t1] eqn:E.
  vm_compute in E. injection E as <- <- <-. split_and!; [done|apply H|apply H].
Defined.
