(* ===== verification/SchedInfoWire.v ===== *)
(** * libtrpc/test: the schedule information on the wire

    The structures of schedinfo.h, [serialize_schedinfo] and
    [schedinfo_callback] of trpc_server.c, [deserialize_schedinfo] and
    [get_schedinfo] of trpc_client.c, over the buffers of Serialize.v.  The
    return codes of the serializers are ignored, as in the programs. *)
From stdpp Require Import prelude list.
From Stdlib Require Import ZArith Lia.
From S2P Require Import Prelude Serialize PeerDbus.
Local Open Scope Z_scope.
Local Open Scope c_scope.

Record task_info := TaskInfo { t_pid : Z; t_name : list Z; t_period : Z; t_release_time : Z }.

Record sched_info := SchedInfo {
  container_id : list Z;
  container_rt_runtime : Z;
  container_rt_period : Z;
  cpumask : Z;
  container_period : Z;
  pod_period : Z;
  nr_tasks : Z;
  tasks : list task_info;
}.

Section Code.
Context `{P : Platform}.

Definition put (T : ctype) (b : option serial_buf) (v : Z) : outcome (option serial_buf) :=
  r <-c serialize_T T b v; Ret r.1.
Definition put_str (b : option serial_buf) (s : list Z) : outcome (option serial_buf) :=
  r <-c serialize_str b s; Ret r.1.
Definition put_blob (b : option serial_buf) (s : list Z) : outcome (option serial_buf) :=
  r <-c serialize_blob b s (zlen s); Ret r.1.

(** [uint32_t] fields are converted to the [int32_t] parameter. *)
Definition serialize_task (b : option serial_buf) (t : task_info) : outcome (option serial_buf) :=
  b <-c put Tint32 b (i32 (t_pid t));
  b <-c put_str b (t_name t);
  b <-c put Tint32 b (i32 (t_period t));
  put Tint32 b (i32 (t_release_time t)).

Fixpoint serialize_tasks (b : option serial_buf) (ts : list task_info) : outcome (option serial_buf) :=
  match ts with
  | [] => Ret b
  | t :: ts => b <-c serialize_task b t; serialize_tasks b ts
  end.

(** [UB] also stands for a failed assertion. *)
Definition serialize_schedinfo (sbuf : option serial_buf) (s : sched_info) : outcome (option serial_buf) :=
  match sbuf with
  | Some b => Ret (Some b)
  | None =>
      match new_serial_buf 256 with
      | None => UB
      | Some b =>
          b <-c serialize_tasks (Some b) (tasks s);
          b <-c put_blob b (container_id s);
          b <-c put Tint32 b (container_rt_runtime s);
          b <-c put Tint32 b (container_rt_period s);
          b <-c put Tint64 b (to_signed 64 (cpumask s));
          b <-c put Tint32 b (container_period s);
          b <-c put Tint32 b (pod_period s);
          put Tint32 b (i32 (nr_tasks s))
      end
  end.

(** The callback: the buffer is built once; the reply is its live part. *)
Definition schedinfo_callback (sbuf : option serial_buf) (s : sched_info)
  : outcome (option serial_buf * list Z) :=
  b <-c serialize_schedinfo sbuf s;
  match b with
  | None => UB
  | Some b => Ret (Some b, take (Z.to_nat (pos b)) (data b))
  end.

Definition get (T : ctype) (b : option serial_buf) (old : Z) : outcome (option serial_buf * Z) :=
  r <-c deserialize_T T b old; Ret (r.1.1, r.1.2).

(** [fresh] is the content of the block [malloc] returned for the entry. *)
Definition deserialize_task (b : option serial_buf) (fresh : task_info)
  : outcome (option serial_buf * task_info) :=
  r <-c get Tint32 b (t_release_time fresh);
  let '(b, release) := r in
  r <-c get Tint32 b (t_period fresh);
  let '(b, period) := r in
  r <-c deserialize_str b (t_name fresh);
  let '(b, name, _) := r in
  r <-c get Tint32 b (t_pid fresh);
  let '(b, pid) := r in
  Ret (b, TaskInfo (u32 pid) name (u32 period) (u32 release)).

(** Entries are put in front of the list. *)
Fixpoint deserialize_tasks (n : nat) (fresh : nat -> task_info) (b : option serial_buf)
    (acc : list task_info) : outcome (option serial_buf * list task_info) :=
  match n with
  | O => Ret (b, acc)
  | S n =>
      r <-c deserialize_task b (fresh n);
      deserialize_tasks n fresh r.1 (r.2 :: acc)
  end.

Definition deserialize_schedinfo (fresh : nat -> task_info) (b : option serial_buf) (old : sched_info)
  : outcome (option serial_buf * sched_info) :=
  r <-c get Tint32 b (nr_tasks old); let '(b, nr) := r in
  r <-c get Tint32 b (pod_period old); let '(b, pod) := r in
  r <-c get Tint32 b (container_period old); let '(b, cont) := r in
  r <-c get Tint64 b (cpumask old); let '(b, mask) := r in
  r <-c get Tint32 b (container_rt_period old); let '(b, rtp) := r in
  r <-c get Tint32 b (container_rt_runtime old); let '(b, rtr) := r in
  r <-c deserialize_blob b (container_id old) 64; let '(b, cid, _, _) := r in
  r <-c deserialize_tasks (Z.to_nat (u32 nr)) fresh b [];
  Ret (r.1, SchedInfo cid rtr rtp (u64 mask) cont pod (u32 nr) r.2).

(** [get_schedinfo], given what the call returned: the code and the result. *)
Definition get_schedinfo (fresh : nat -> task_info) (old : sched_info) (r : Z * option (list Z))
  : outcome (Z * sched_info) :=
  let '(ret, buf) := r in
  if ret <? 0 then Ret (ret, old) else
  match buf with
  | None => UB
  | Some bytes =>
      match make_serial_buf bytes (zlen bytes) with
      | None => Ret (-1, old)
      | Some b => s <-c deserialize_schedinfo fresh (Some b) old; Ret (0, s.2)
      end
  end.
End Code.

(** ** The test programs around it *)

Definition CONTAINER_ID : list Z :=
  [99; 99; 53; 99; 48; 100; 52; 98; 97; 56; 101; 49; 48; 53; 54; 56;
   100; 102; 50; 53; 102; 54; 55; 98; 54; 102; 51; 57; 54; 100; 97; 54;
   53; 99; 50; 54; 49; 53; 97; 52; 101; 54; 100; 100; 54; 102; 50; 102;
   48; 97; 100; 53; 53; 52; 101; 57; 52; 54; 53; 102; 98; 98; 53; 53].

(** [init_schedinfo]: [fresh i] is the content of the block allocated for
    entry [i]; "hello" and the digit are written with their NUL. *)
Definition init_task (fresh : task_info) (i : Z) : task_info :=
  TaskInfo i ([104; 101; 108; 108; 111; 48 + i; 0] ++ drop 7 (t_name fresh)) (20000 * i) i.

Definition init_schedinfo (fresh : Z -> task_info) (s : sched_info) : sched_info :=
  SchedInfo (CONTAINER_ID ++ drop 64 (container_id s)) 800000 1000000 0xffffffff 1000000 1000000 4
    (foldl (fun ts i => init_task (fresh i) i :: ts) [] [1; 2; 3; 4]).

(** [sync_callback]: the static counter, the answer, and the time if given. *)
Definition sync_callback (sync_count now_sec now_nsec : Z) : Z * (Z * option (Z * Z)) :=
  (sync_count + 1, if sync_count <? 2 then (0, None) else (1, Some (now_sec, now_nsec))).

(** [wait_for_sync] on the outcomes of its calls: the result and the number of
    calls made; [None] while it still polls. *)
Fixpoint wait_for_sync (calls : list (Z * Z)) : option (Z * nat) :=
  match calls with
  | [] => None
  | (ret, ack) :: calls =>
      if ret <? 0 then Some (ret, 1%nat)
      else if ack =? 0 then (fun r => (r.1, S r.2)) <$> wait_for_sync calls
      else Some (0, 1%nat)
  end.

(** The acknowledgements of the first [n] calls. *)
Fixpoint acks (n : nat) (sync_count : Z) : list (Z * Z) :=
  match n with
  | O => []
  | S n => let '(c, (ack, _)) := sync_callback sync_count 0 0 in (0, ack) :: acks n c
  end.

(** ** Round trip *)

(** The array [a] holds the C string [s]. *)
Definition cstr (a s : list Z) : Prop := exists tl, a = s ++ 0 :: tl /\ Forall (fun c => c <> 0) s.

Definition valid_task (t : task_info) : Prop :=
  uword 32 (t_pid t) /\ uword 32 (t_period t) /\ uword 32 (t_release_time t) /\
  length (t_name t) = 16%nat /\ exists s, cstr (t_name t) s.

Record valid (s : sched_info) : Prop := {
  v_tasks : Forall valid_task (tasks s);
  v_nr : nr_tasks s = zlen (tasks s);
  v_few : zlen (tasks s) < 2 ^ 32;
  v_cid : length (container_id s) = 64%nat;
  v_rtr : sword 32 (container_rt_runtime s);
  v_rtp : sword 32 (container_rt_period s);
  v_mask : uword 64 (cpumask s);
  v_cont : sword 32 (container_period s);
  v_pod : sword 32 (pod_period s);
}.

(** Equal up to what follows the NUL of a name. *)
Definition same_task (t t' : task_info) : Prop :=
  t_pid t' = t_pid t /\ t_period t' = t_period t /\ t_release_time t' = t_release_time t /\
  forall s, cstr (t_name t) s -> cstr (t_name t') s.

Definition same_info (s s' : sched_info) : Prop :=
  container_id s' = container_id s /\ container_rt_runtime s' = container_rt_runtime s /\
  container_rt_period s' = container_rt_period s /\ cpumask s' = cpumask s /\
  container_period s' = container_period s /\ pod_period s' = pod_period s /\
  nr_tasks s' = nr_tasks s /\ Forall2 same_task (tasks s) (tasks s').

(** An allocator that does not run out. *)
Definition total_alloc (A : Allocator) : Prop :=
  (forall n, 0 <= n -> is_Some (malloc n)) /\ forall old n, 0 <= n -> is_Some (realloc old n).

Lemma wrap_to_signed w x : 0 < w -> wrap w (to_signed w x) = wrap w x.
Proof.
  intros Hw. unfold to_signed. case_match; [by apply wrap_idem; lia|].
  unfold wrap at 1. rewrite <- (Z.mod_add _ 1) by (apply Z.pow_nonzero; lia).
  replace (wrap w x - 2 ^ w + 1 * 2 ^ w) with (wrap w x) by lia. apply wrap_idem. lia.
Qed.

Lemma strlen_cstr a s : cstr a s -> strlen a = Ret (zlen s).
Proof.
  intros (tl & -> & Hs). induction Hs as [|c s Hc Hs IH]; [done|].
  cbn [app strlen]. rewrite (proj2 (Z.eqb_neq c 0) Hc), IH. cbn [obind]. by rewrite zlen_cons.
Qed.

Section Push.
Context `{P : Platform} {L : AllocatorLaws platform_alloc} (Htot : total_alloc platform_alloc).

(** [b'] is [b] with [src] appended. *)
Definition pushed (b : serial_buf) (src : list Z) (b' : serial_buf) : Prop :=
  wf_buf b' /\ live b' = live b ++ src /\ size b' <= 2 ^ 60.

Definition room (b : serial_buf) (n : Z) : Prop := wf_buf b /\ size b <= 2 ^ 60 /\ pos b + n <= 2 ^ 59.

Lemma room_pushed b src b' n : room b (zlen src + n) -> pushed b src b' -> room b' n.
Proof.
  intros (Hw & Hs & Hp) (Hw' & Hl & Hs'). split_and!; auto.
  rewrite <- (zlen_live b' Hw'), Hl, zlen_app, (zlen_live b Hw). lia.
Qed.

Lemma pushed_trans b1 s1 b2 s2 b3 : pushed b1 s1 b2 -> pushed b2 s2 b3 -> pushed b1 (s1 ++ s2) b3.
Proof. intros (? & H1 & ?) (? & H2 & ?). split_and!; auto. by rewrite H2, H1, app_assoc. Qed.

Lemma reserve_total b n b' : reserve_space (Some b) n <> (b', -1).
Proof.
  unfold reserve_space. case_match; [|done].
  destruct (proj2 Htot (data b) (if u64 (size b * 2) <? u64 (pos b + n) then u64 (u64 (size b * 2) + n)
    else u64 (size b * 2))) as [d ->]; [|done]. case_match; apply wrap_range; lia.
Qed.

Lemma serialize_T_total T b v b' : serialize_T T (Some b) v <> Ret (b', -1).
Proof.
  unfold serialize_T. pose proof (reserve_total b (Z.of_nat (sizeof T))) as Ht.
  destruct (reserve_space _ _) as [b1 r] eqn:E. destruct (Z.eqb_spec r 0) as [->|Hr]; cbn [negb].
  - destruct b1; [|done]. by destruct (mem_write _ _ _).
  - exfalso. unfold reserve_space in E. case_match; [|by simplify_eq].
    case_match; [by simplify_eq|]. apply (Ht b1). simplify_eq. done.
Qed.

Lemma serialize_blob_total b t n b' : serialize_blob (Some b) t n <> Ret (b', -1).
Proof.
  unfold serialize_blob. pose proof (reserve_total b (u64 (n + 4))) as Ht.
  destruct (reserve_space _ _) as [b1 r] eqn:E. destruct (Z.eqb_spec r 0) as [->|Hr]; cbn [negb].
  - destruct b1; [|done]. destruct (mem_read _ _ _); [|done]. cbn [obind].
    destruct (mem_write _ _ _); [|done]. cbn [obind]. by destruct (mem_write _ _ _).
  - exfalso. unfold reserve_space in E. case_match; [|by simplify_eq].
    case_match; [by simplify_eq|]. apply (Ht b1). simplify_eq. done.
Qed.

Lemma room_roomy b n : room b n -> roomy (size b).
Proof. intros ([_ ?] & ? & _). unfold roomy. pows. lia. Qed.

Lemma put_ok T b v :
  room b (Z.of_nat (sizeof T)) ->
  exists b', put T (Some b) v = Ret (Some b') /\ pushed b (be_bytes (sizeof T) v) b'.
Proof.
  intros Hr. pose proof (room_roomy _ _ Hr). destruct Hr as (Hw & Hs & Hp). unfold put.
  destruct (serialize_T_spec T b v Hw) as [E|(b' & -> & Hw' & Hl & Hsz)]; [done|by apply serialize_T_total in E|].
  exists b'. cbn. split; [done|]. split_and!; auto. lia.
Qed.

Lemma put_blob_ok b t :
  room b (zlen t + 4) -> zlen t < 2 ^ 32 ->
  exists b', put_blob (Some b) t = Ret (Some b') /\ pushed b (t ++ be_bytes 4 (zlen t)) b'.
Proof.
  intros Hr Ht. pose proof (room_roomy _ _ Hr). destruct Hr as (Hw & Hs & Hp). unfold put_blob.
  pose proof (zlen_nonneg t).
  destruct (serialize_blob_spec b t (zlen t) Hw) as [E|(b' & -> & Hw' & Hl & Hsz)];
    [done|unfold uword; lia|lia|by apply serialize_blob_total in E|].
  exists b'. cbn. split; [done|]. split_and!; auto; [|lia].
  rewrite Hl. unfold zlen. by rewrite Nat2Z.id, take_ge.
Qed.

Lemma put_str_ok b a s :
  room b (zlen s + 4) -> zlen s < 2 ^ 32 -> cstr a s ->
  exists b', put_str (Some b) a = Ret (Some b') /\ pushed b (s ++ be_bytes 4 (zlen s)) b'.
Proof.
  intros Hr Ht Hc. pose proof (room_roomy _ _ Hr). destruct Hr as (Hw & Hs & Hp). unfold put_str, serialize_str.
  rewrite (strlen_cstr a s Hc). cbn [obind]. pose proof (zlen_nonneg s).
  rewrite wrap_small by (unfold uword; lia).
  destruct Hc as (tl & -> & _).
  assert (zlen s <= zlen (s ++ 0 :: tl)) by (rewrite zlen_app; pose proof (zlen_nonneg (0 :: tl)); lia).
  destruct (serialize_blob_spec b (s ++ 0 :: tl) (zlen s) Hw) as [E|(b' & -> & Hw' & Hl & Hsz)];
    [done|unfold uword; lia|lia|by apply serialize_blob_total in E|].
  exists b'. cbn. split; [done|]. split_and!; auto; [|lia].
  rewrite Hl. unfold zlen. by rewrite Nat2Z.id, take_app_length.
Qed.

Definition task_wire (t : task_info) (s : list Z) : list Z :=
  be_bytes 4 (i32 (t_pid t)) ++ (s ++ be_bytes 4 (zlen s)) ++
  be_bytes 4 (i32 (t_period t)) ++ be_bytes 4 (i32 (t_release_time t)).

Lemma zlen_task_wire t s : zlen (task_wire t s) = zlen s + 16.
Proof. unfold task_wire. rewrite !zlen_app, !zlen_be_bytes. lia. Qed.

Lemma serialize_task_ok b t s :
  room b (zlen s + 16) -> zlen s < 16 -> cstr (t_name t) s ->
  exists b', serialize_task (Some b) t = Ret (Some b') /\ pushed b (task_wire t s) b'.
Proof.
  intros Hr Hs Hc. unfold serialize_task. pose proof (zlen_nonneg s).
  destruct (put_ok Tint32 b (i32 (t_pid t))) as (b1 & -> & H1); [destruct Hr as (?&?&?); split_and!; auto; cbn; lia|].
  cbn [obind]. assert (Hr1 : room b1 (zlen s + 12)).
  { eapply room_pushed; [|done]. rewrite zlen_be_bytes. by replace (_ + _) with (zlen s + 16) by (cbn; lia). }
  destruct (put_str_ok b1 (t_name t) s) as (b2 & -> & H2); [destruct Hr1 as (?&?&?); split_and!; auto; lia|pows; lia|done|].
  cbn [obind]. assert (Hr2 : room b2 8).
  { eapply room_pushed; [|done]. rewrite zlen_app, zlen_be_bytes. by replace (_ + _) with (zlen s + 12) by (cbn; lia). }
  destruct (put_ok Tint32 b2 (i32 (t_period t))) as (b3 & -> & H3); [destruct Hr2 as (?&?&?); split_and!; auto; cbn; lia|].
  cbn [obind]. assert (Hr3 : room b3 4) by (eapply room_pushed; [|done]; by rewrite zlen_be_bytes).
  destruct (put_ok Tint32 b3 (i32 (t_release_time t)) Hr3) as (b4 & -> & H4).
  exists b4. split; [done|]. unfold task_wire.
  eapply pushed_trans; [done|]. eapply pushed_trans; [done|]. by eapply pushed_trans.
Qed.
End Push.

Definition tasks_wire (ts : list task_info) (ss : list (list Z)) : list Z := concat (zip_with task_wire ts ss).

Definition named (t : task_info) (s : list Z) : Prop := valid_task t /\ cstr (t_name t) s.

Lemma cstr_short t s : named t s -> zlen s < 16.
Proof.
  intros [(_ & _ & _ & Hl & _) (tl & Hn & _)]. rewrite Hn, length_app in Hl. cbn in Hl. unfold zlen. lia.
Qed.

Lemma cstr_unique a s s' : cstr a s -> cstr a s' -> s = s'.
Proof.
  intros (tl & -> & Hs) (tl' & Heq & Hs'). revert s' Hs' Heq.
  induction Hs as [|c s Hc Hs IH]; intros [|c' s'] Hs' Heq; [done| | |].
  - injection Heq as Hc' _. apply Forall_cons in Hs' as [? _]. congruence.
  - injection Heq as Hc' _. congruence.
  - apply Forall_cons in Hs' as [_ Hs']. injection Heq as <- Heq. f_equal. by apply IH.
Qed.

Lemma tasks_wire_length ts ss :
  Forall2 named ts ss -> 0 <= zlen (tasks_wire ts ss) <= 32 * zlen ts.
Proof.
  unfold tasks_wire. induction 1 as [|t s ts ss Ht _ IH]; [done|]. cbn [zip_with concat].
  rewrite zlen_app, zlen_task_wire, zlen_cons. pose proof (cstr_short t s Ht). pose proof (zlen_nonneg s). lia.
Qed.

Lemma tasks_wire_snoc ts ss t s :
  length ts = length ss -> tasks_wire (ts ++ [t]) (ss ++ [s]) = tasks_wire ts ss ++ task_wire t s.
Proof.
  intros Hl. unfold tasks_wire. rewrite zip_with_app by done. rewrite concat_app. cbn. by rewrite app_nil_r.
Qed.

Section Run.
Context `{P : Platform} {L : AllocatorLaws platform_alloc} (Htot : total_alloc platform_alloc).

Lemma serialize_tasks_ok b ts ss :
  room b (zlen (tasks_wire ts ss)) -> Forall2 named ts ss ->
  exists b', serialize_tasks (Some b) ts = Ret (Some b') /\ pushed b (tasks_wire ts ss) b'.
Proof.
  intros Hr Hn. revert b Hr. induction Hn as [|t s ts ss Ht Hts IH]; intros b Hr; cbn [serialize_tasks].
  { exists b. split; [done|]. destruct Hr as (? & ? & ?). split_and!; auto. cbn. by rewrite app_nil_r. }
  pose proof (tasks_wire_length ts ss Hts). pose proof (cstr_short t s Ht).
  unfold tasks_wire in Hr. cbn [zip_with concat] in Hr. fold (tasks_wire ts ss) in Hr.
  rewrite zlen_app, zlen_task_wire in Hr.
  destruct (serialize_task_ok Htot b t s) as (b1 & -> & H1);
    [destruct Hr as (?&?&?); split_and!; auto; lia|done|apply Ht|].
  cbn [obind]. destruct (IH b1) as (b2 & -> & H2); [eapply room_pushed; [by rewrite zlen_task_wire|done]|].
  exists b2. split; [done|]. by eapply pushed_trans.
Qed.
End Run.

Section Pop.
Context `{P : Platform} {L : AllocatorLaws platform_alloc}.

Lemma get_ok T b v old st :
  wf_buf b -> in_type T v -> live b = st ++ be_bytes (sizeof T) v ->
  exists b', get T (Some b) old = Ret (Some b', v) /\ wf_buf b' /\ live b' = st.
Proof.
  intros Hw Hv Hl. destruct (deserialize_T_spec T b v old st Hw Hv Hl) as (b' & E & Hw' & Hl' & _).
  exists b'. unfold get. by rewrite E.
Qed.

Lemma deserialize_str_ok b a s st :
  wf_buf b -> zlen s < 16 -> Forall (fun c => c <> 0) s -> length a = 16%nat ->
  live b = st ++ s ++ be_bytes 4 (zlen s) ->
  exists b' a', deserialize_str (Some b) a = Ret (Some b', a', 0) /\ cstr a' s /\ wf_buf b' /\ live b' = st.
Proof.
  intros Hw Hs Hz Ha Hl. unfold deserialize_str. pose proof (zlen_nonneg s).
  destruct (deserialize_blob_spec b a 0 s st Hw ltac:(pows; lia) Hl) as (b' & -> & Hw' & Hl' & _).
  { unfold zlen in *. lia. }
  cbn [obind negb Z.eqb].
  assert (Hlen : zlen (s ++ drop (length s) a) = 16).
  { rewrite zlen_app. unfold zlen in *. rewrite length_drop. lia. }
  rewrite mem_write_ok by (rewrite ?Hlen; unfold zlen in *; cbn; lia). cbn [obind].
  eexists _, _. split; [done|]. split; [|done]. eexists. split; [|done].
  unfold zlen at 1. rewrite Nat2Z.id, take_app_length. done.
Qed.

Lemma deserialize_task_ok b st t s fresh :
  wf_buf b -> named t s -> length (t_name fresh) = 16%nat -> live b = st ++ task_wire t s ->
  exists b' t', deserialize_task (Some b) fresh = Ret (Some b', t') /\ same_task t t' /\
    wf_buf b' /\ live b' = st.
Proof.
  intros Hw Hn Hf Hl. pose proof (cstr_short t s Hn) as Hs. destruct Hn as [(H1 & H2 & H3 & H4 & _) Hc].
  unfold task_wire in Hl. rewrite !app_assoc in Hl. unfold deserialize_task.
  destruct (get_ok Tint32 b (i32 (t_release_time t)) (t_release_time fresh) _ Hw
    (to_signed_range 32 _ ltac:(lia)) Hl) as (b1 & -> & Hw1 & Hl1). cbn [obind].
  destruct (get_ok Tint32 b1 (i32 (t_period t)) (t_period fresh) _ Hw1
    (to_signed_range 32 _ ltac:(lia)) Hl1) as (b2 & -> & Hw2 & Hl2). cbn [obind].
  rewrite <- app_assoc in Hl2. pose proof Hc as (tl & Htl & Hz).
  rewrite <- !app_assoc in Hl2.
  destruct (deserialize_str_ok b2 (t_name fresh) s (st ++ be_bytes 4 (i32 (t_pid t))) Hw2 Hs Hz Hf)
    as (b3 & a & -> & Ha & Hw3 & Hl3); [by rewrite <- app_assoc|]. cbn [obind].
  destruct (get_ok Tint32 b3 (i32 (t_pid t)) (t_pid fresh) st Hw3
    (to_signed_range 32 _ ltac:(lia)) Hl3) as (b4 & -> & Hw4 & Hl4). cbn [obind].
  eexists b4, _. split; [done|]. split; [|done].
  unfold same_task. cbn [t_pid t_name t_period t_release_time].
  rewrite !wrap_to_signed, !wrap_small by (done || lia). split_and!; try done.
  intros s' Hs'. by rewrite (cstr_unique _ _ _ Hs' Hc).
Qed.

Lemma deserialize_tasks_ok fresh ts ss b st acc :
  (forall n, length (t_name (fresh n)) = 16%nat) ->
  wf_buf b -> Forall2 named ts ss -> live b = st ++ tasks_wire ts ss ->
  exists b' ts', deserialize_tasks (length ts) fresh (Some b) acc = Ret (Some b', ts' ++ acc) /\
    Forall2 same_task ts ts' /\ wf_buf b' /\ live b' = st.
Proof.
  intros Hf. revert ss b acc. induction ts as [|t ts IH] using rev_ind; intros ss b acc Hw Hn Hl.
  { apply Forall2_nil_inv_l in Hn as ->. exists b, []. split_and!; auto. cbn in Hl. by rewrite app_nil_r in Hl. }
  apply Forall2_app_inv_l in Hn as (ss1 & ss2 & Hn1 & Hn2 & ->).
  apply Forall2_cons_inv_l in Hn2 as (s & ss3 & Hts & Hn3 & ->). apply Forall2_nil_inv_l in Hn3 as ->.
  rewrite (tasks_wire_snoc ts ss1 t s (Forall2_length _ _ _ Hn1)), app_assoc in Hl.
  rewrite length_app, Nat.add_comm. cbn [length Nat.add deserialize_tasks].
  destruct (deserialize_task_ok b _ t s (fresh (length ts)) Hw Hts (Hf _) Hl) as (b1 & t' & -> & Hst & Hw1 & Hl1).
  cbn [obind fst snd].
  destruct (IH ss1 b1 (t' :: acc) Hw1 Hn1 Hl1) as (b2 & ts' & -> & Hts' & Hw2 & Hl2).
  exists b2, (ts' ++ [t']). rewrite <- app_assoc. split_and!; auto. apply Forall2_app; auto.
Qed.
End Pop.

Definition info_wire (s : sched_info) (ss : list (list Z)) : list Z :=
  tasks_wire (tasks s) ss ++ (container_id s ++ be_bytes 4 (zlen (container_id s))) ++
  be_bytes 4 (container_rt_runtime s) ++ be_bytes 4 (container_rt_period s) ++
  be_bytes 8 (to_signed 64 (cpumask s)) ++ be_bytes 4 (container_period s) ++
  be_bytes 4 (pod_period s) ++ be_bytes 4 (i32 (nr_tasks s)).

Lemma valid_named s : valid s -> exists ss, Forall2 named (tasks s) ss.
Proof.
  intros [Ht _ _ _ _ _ _ _ _]. induction Ht as [|t ts Hv Hts (ss & IH)]; [by exists []|].
  pose proof Hv as (_ & _ & _ & _ & n & Hn). exists (n :: ss). by constructor.
Qed.

Section Whole.
Context `{P : Platform} {L : AllocatorLaws platform_alloc}.

Lemma put_next T v src b0 b1 n :
  total_alloc platform_alloc -> room b0 n -> pushed b0 src b1 -> zlen src + 8 <= n ->
  exists b2, put T (Some b1) v = Ret (Some b2) /\ pushed b0 (src ++ be_bytes (sizeof T) v) b2.
Proof.
  intros Htot Hr Hp Hn. assert (Hs : (Z.of_nat (sizeof T)) <= 8) by (destruct T; cbn; lia).
  assert (Hr' : room b0 (zlen src + 8)) by (destruct Hr as (?&?&?); split_and!; auto; lia).
  pose proof (room_pushed _ _ _ _ Hr' Hp) as (Hw & Hsz & Hpos).
  destruct (put_ok Htot T b1 v) as (b2 & -> & H2); [split_and!; auto; lia|].
  exists b2. split; [done|]. by eapply pushed_trans.
Qed.

Lemma serialize_schedinfo_ok s ss :
  total_alloc platform_alloc -> valid s -> Forall2 named (tasks s) ss ->
  exists b, serialize_schedinfo None s = Ret (Some b) /\ wf_buf b /\ live b = info_wire s ss.
Proof.
  intros Htot Hv Hn. unfold serialize_schedinfo, new_serial_buf.
  destruct (proj1 Htot SIZEOF_SERIAL_BUF ltac:(done)) as [m ->]. change (256 <=? 0) with false. cbv iota.
  destruct (proj1 Htot 256 ltac:(done)) as [d Hd]. rewrite Hd. cbv iota.
  set (b0 := SerialBuf d 0 256).
  assert (Hw0 : wf_buf b0) by (split; cbn [b0 data size pos]; [exact (malloc_size _ _ Hd)|lia]).
  pose proof (tasks_wire_length _ _ Hn) as Hlen. pose proof (v_few s Hv) as Hfew.
  pose proof (v_cid s Hv) as Hcid.
  assert (Hcz : zlen (container_id s) = 64) by (unfold zlen; lia).
  set (w := tasks_wire (tasks s) ss) in *. pows.
  assert (Hr0 : room b0 (zlen w + 1000)).
  { split_and!; [done|cbn [b0 size]; pows; lia|]. cbn [b0 pos]. pows. lia. }
  destruct (serialize_tasks_ok Htot b0 (tasks s) ss) as (b1 & -> & H1); [|done|].
  { destruct Hr0 as (? & ? & ?). split_and!; auto. fold w. lia. }
  cbn [obind]. fold w in H1.
  destruct (put_blob_ok Htot b1 (container_id s)) as (b2 & -> & H2); [|pows; lia|].
  { eapply room_pushed; [|done]. destruct Hr0 as (? & ? & ?). split_and!; auto. lia. }
  cbn [obind]. pose proof (pushed_trans _ _ _ _ _ H1 H2) as H12. clear H1 H2 b1.
  destruct (put_next Tint32 (container_rt_runtime s) _ b0 b2 _ Htot Hr0 H12) as (b3 & -> & H3);
    [rewrite !zlen_app, !zlen_be_bytes; cbn [sizeof]; lia|].
  cbn [obind].
  destruct (put_next Tint32 (container_rt_period s) _ b0 b3 _ Htot Hr0 H3) as (b4 & -> & H4);
    [rewrite !zlen_app, !zlen_be_bytes; cbn [sizeof]; lia|].
  cbn [obind].
  destruct (put_next Tint64 (to_signed 64 (cpumask s)) _ b0 b4 _ Htot Hr0 H4) as (b5 & -> & H5);
    [rewrite !zlen_app, !zlen_be_bytes; cbn [sizeof]; lia|].
  cbn [obind].
  destruct (put_next Tint32 (container_period s) _ b0 b5 _ Htot Hr0 H5) as (b6 & -> & H6);
    [rewrite !zlen_app, !zlen_be_bytes; cbn [sizeof]; lia|].
  cbn [obind].
  destruct (put_next Tint32 (pod_period s) _ b0 b6 _ Htot Hr0 H6) as (b7 & -> & H7);
    [rewrite !zlen_app, !zlen_be_bytes; cbn [sizeof]; lia|].
  cbn [obind].
  destruct (put_next Tint32 (i32 (nr_tasks s)) _ b0 b7 _ Htot Hr0 H7) as (b8 & -> & H8);
    [rewrite !zlen_app, !zlen_be_bytes; cbn [sizeof]; lia|].
  exists b8. split; [done|]. destruct H8 as (Hw8 & Hl8 & _). split; [done|].
  rewrite Hl8. unfold live at 1. cbn [b0 pos]. change (Z.to_nat 0) with 0%nat. cbn [take app].
  unfold info_wire. fold w. cbn [sizeof]. by rewrite <- !app_assoc.
Qed.

Lemma deserialize_schedinfo_ok fresh s ss b old :
  (forall n, length (t_name (fresh n)) = 16%nat) -> length (container_id old) = 64%nat ->
  valid s -> Forall2 named (tasks s) ss -> wf_buf b -> live b = info_wire s ss ->
  exists b' s', deserialize_schedinfo fresh (Some b) old = Ret (Some b', s') /\ same_info s s' /\ pos b' = 0.
Proof.
  intros Hf Hold [Ht Hnr Hfew Hcid Hrtr Hrtp Hmask Hcont Hpod] Hn Hw Hl.
  unfold info_wire in Hl. rewrite !app_assoc in Hl. unfold deserialize_schedinfo.
  destruct (get_ok Tint32 b _ (nr_tasks old) _ Hw (to_signed_range 32 _ ltac:(lia)) Hl)
    as (b1 & -> & Hw1 & Hl1). cbn [obind].
  destruct (get_ok Tint32 b1 _ (pod_period old) _ Hw1 Hpod Hl1) as (b2 & -> & Hw2 & Hl2). cbn [obind].
  destruct (get_ok Tint32 b2 _ (container_period old) _ Hw2 Hcont Hl2) as (b3 & -> & Hw3 & Hl3). cbn [obind].
  destruct (get_ok Tint64 b3 _ (cpumask old) _ Hw3 (to_signed_range 64 _ ltac:(lia)) Hl3)
    as (b4 & -> & Hw4 & Hl4). cbn [obind].
  destruct (get_ok Tint32 b4 _ (container_rt_period old) _ Hw4 Hrtp Hl4) as (b5 & -> & Hw5 & Hl5). cbn [obind].
  destruct (get_ok Tint32 b5 _ (container_rt_runtime old) _ Hw5 Hrtr Hl5) as (b6 & -> & Hw6 & Hl6). cbn [obind].
  rewrite <- app_assoc in Hl6.
  destruct (deserialize_blob_spec b6 (container_id old) 64 (container_id s) (tasks_wire (tasks s) ss) Hw6)
    as (b7 & -> & Hw7 & Hl7 & _); [unfold zlen; rewrite Hcid; pows; lia|done|unfold zlen; lia|]. cbn [obind].
  rewrite wrap_to_signed by lia. assert (Hu : u32 (nr_tasks s) = zlen (tasks s)).
  { rewrite Hnr. apply wrap_small. pose proof (zlen_nonneg (tasks s)). unfold uword. lia. }
  rewrite Hu. unfold zlen at 1. rewrite Nat2Z.id.
  destruct (deserialize_tasks_ok fresh (tasks s) ss b7 [] [] Hf Hw7 Hn Hl7) as (b8 & ts' & -> & Hts & Hw8 & Hl8).
  cbn [obind fst snd]. eexists b8, _. split; [done|].
  split.
  - unfold same_info. cbn [container_id container_rt_runtime container_rt_period cpumask container_period
      pod_period nr_tasks tasks].
    rewrite wrap_to_signed, wrap_small by (done || lia). rewrite app_nil_r.
    rewrite drop_ge by lia. rewrite app_nil_r. split_and!; auto.
  - rewrite <- (zlen_live b8 Hw8), Hl8. done.
Qed.
End Whole.

Lemma arena_total : total_alloc arena_allocator.
Proof. split; intros *; cbn; intros Hn; rewrite (proj2 (Z.leb_le 0 n) Hn); by eexists. Qed.

(** ** Properties *)

(** C25. A node gets the orchestrator's schedule: the reply the server's
    callback builds, sent by the method handler and received by the client
    call, is decoded into the same information - every field, the tasks in
    their order with their names - on platforms of any byte order. *)
Theorem schedinfo_delivered (P1 P2 : Platform)
    (L1 : AllocatorLaws (@platform_alloc P1)) (L2 : AllocatorLaws (@platform_alloc P2))
    s old fresh answer t0 name ops :
  total_alloc (@platform_alloc P1) -> total_alloc (@platform_alloc P2) ->
  valid s -> length (container_id old) = 64%nat ->
  (forall n, length (t_name (fresh n)) = 16%nat) -> (forall t, 0 <= answer t) ->
  exists b payload s',
    @schedinfo_callback P1 None s = Ret (Some b, payload) /\
    (schedinfo_cb ops = Some (fun _ => payload) ->
     trpc_method_schedinfo (Some ops) (Some name) true true = ([CbSchedinfo name], RBytes payload)) /\
    @get_schedinfo P2 fresh old (trpc_client_schedinfo answer payload true true t0).1 = Ret (0, s') /\
    same_info s s'.
Proof.
  intros Ht1 Ht2 Hv Hold Hf Hans. destruct (valid_named s Hv) as (ss & Hn).
  destruct (@serialize_schedinfo_ok P1 L1 s ss Ht1 Hv Hn) as (b & Hb & Hw & Hl).
  exists b, (live b). unfold schedinfo_callback. rewrite Hb. cbn [obind].
  assert (Hneg : forall t, (answer t <? 0) = false) by (intros t; apply Z.ltb_ge, Hans).
  assert (Hcl : (trpc_client_schedinfo answer (live b) true true t0).1
                = (answer (CReadArray :: CCallMethod TRPC_METHOD_SCHEDINFO :: t0), Some (live b))).
  { unfold trpc_client_schedinfo, cleanup. expose. rewrite !Hneg. cbv beta iota. cbn [negb]. done. }
  rewrite Hcl. unfold get_schedinfo. rewrite Hneg. unfold make_serial_buf.
  destruct (proj1 Ht2 SIZEOF_SERIAL_BUF ltac:(done)) as [m ->].
  set (r := SerialBuf (live b) (zlen (live b)) (zlen (live b))).
  assert (Hwr : wf_buf r) by (split; cbn [r data pos size]; [done|pose proof (zlen_nonneg (live b)); lia]).
  assert (Hlr : live r = info_wire s ss).
  { unfold live at 1. cbn [r data pos]. unfold zlen. rewrite Nat2Z.id, take_ge by done. done. }
  destruct (@deserialize_schedinfo_ok P2 fresh s ss r old Hf Hold Hv Hn Hwr Hlr) as (b' & s' & E & Hs' & _).
  exists s'. split_and!; [done| |by rewrite E|done].
  intros Hcb. unfold trpc_method_schedinfo. cbn [mbind option_bind]. by rewrite Hcb.
Qed.

Definition blank_task : task_info := TaskInfo 0 (replicate 16 165) 0 0.
Definition blank_info : sched_info := SchedInfo (replicate 64 0) 0 0 0 0 0 0 [].
Definition example_info : sched_info := init_schedinfo (fun _ => blank_task) blank_info.

(** The node gets its acknowledgement with the third call. *)
Lemma third_sync_acknowledged n : (3 <= n)%nat -> wait_for_sync (acks n 0) = Some (0, 3%nat).
Proof. intros Hn. destruct n as [|[|[|n]]]; try lia. done. Qed.

Lemma schedinfo_delivered_witness :
  exists b payload s',
    @schedinfo_callback x86 None example_info = Ret (Some b, payload) /\
    length payload = 184%nat /\
    @get_schedinfo s390 (fun _ => blank_task) blank_info
      (trpc_client_schedinfo (fun _ => 0) payload true true []).1 = Ret (0, s') /\
    same_info example_info s'.
Proof.
  assert (Hcs : forall p, 0 < p < 9 -> valid_task (init_task blank_task p)).
  { intros p Hp. unfold valid_task, uword; cbn [t_pid t_period t_release_time t_name init_task]. pows.
    split_and!; try lia; [done|]. exists [104; 101; 108; 108; 111; 48 + p], (replicate 9 165).
    split; [done|]. repeat constructor; lia. }
  assert (Hv : valid example_info).
  { split; try done. cbn [tasks example_info init_schedinfo foldl].
    repeat (apply Forall_cons; split; [apply Hcs; lia|]). done. }
  destruct (schedinfo_delivered x86 s390 arena_laws arena_laws example_info
    blank_info (fun _ => blank_task) (fun _ => 0) [] []
    (ServerOps None None None None) arena_total arena_total Hv eq_refl (fun _ => eq_refl)
    (fun _ => Z.le_refl 0)) as (b & payload & s' & H1 & _ & H3 & H4).
  exists b, payload, s'. split_and!; [exact H1| |exact H3|exact H4].
  assert (exists b0 p0, @schedinfo_callback x86 None example_info = Ret (b0, p0) /\ length p0 = 184%nat)
    as (b0 & p0 & E & Hp) by (eexists _, _; split; vm_compute; reflexivity).
  rewrite E in H1. injection H1 as _ <-. exact Hp.
Defined.
