(* ===== verification/TrpcPeers.v ===== *)
(** * libtrpc/test: the two programs

    [main] of trpc_server.c and trpc_client.c over the transport of PeerDbus.v
    and the wire format of SchedInfoWire.v: the calls they make, in order, and
    their exit codes. *)
From stdpp Require Import prelude list gmap.
From Stdlib Require Import ZArith Lia.
From S2P Require Import Prelude Serialize PeerDbus SchedInfoWire.
Local Open Scope Z_scope.

Local Notation "x <-- m ;; k" := (bind m (fun x => k)) (at level 100, m at next level, right associativity).

Definition SERVER_PORT : Z := 7777.

(** [return ret < 0 ? EXIT_FAILURE : EXIT_SUCCESS]. *)
Definition exit_code (r : Z) : Z := if r <? 0 then 1 else 0.

Section Programs.
Context (answer : trace -> Z).

(** ** trpc_server.c *)

(** The label [out]. *)
Definition server_out (fd r : Z) : M Z :=
  _ <-- do_call answer CSourceUnref ;;
  _ <-- do_call answer CEventUnref ;;
  if 0 <=? fd then _ <-- do_call answer (CClose fd) ;; ret (exit_code r) else ret (exit_code r).

(** [arg] is [atoi(argv[1])]. *)
Definition server_main (arg : option Z) : M Z :=
  let port := match arg with Some p => u32 p | None => SERVER_PORT end in
  r <-- do_call answer CEventDefault ;;
  if r <? 0 then server_out (-1) r else
  r <-- trpc_server_create answer (to_signed 32 port) ;;
  let r := r.1 in
  if r <? 0 then server_out (-1) r else
  let fd := r in
  r <-- do_call answer CEventLoop ;;
  server_out fd r.

(** ** trpc_client.c *)

Definition register_to_server : M Z := trpc_client_register answer.
Definition report_dmiss : M Z := trpc_client_dmiss answer.

(** [wait_for_sync] with the replies to come; [None] while it still polls. *)
Fixpoint sync_loop (replies : list (Z * Z * Z)) : M (option Z) :=
  match replies with
  | [] => ret None
  | rep :: replies =>
      r <-- trpc_client_sync answer rep ;;
      match r with
      | (_, Some (ack, _, _)) =>
          if negb (ack =? 0) then ret (Some 0) else
          _ <-- do_call answer (CSleep 500000) ;; sync_loop replies
      | (r, None) => ret (Some r)
      end
  end.

Definition client_out (fd r : Z) : M Z :=
  _ <-- do_call answer CEventUnref ;;
  if 0 <=? fd then _ <-- do_call answer (CClose fd) ;; ret (exit_code r) else ret (exit_code r).

(** How a run ends: it polls for the synchronisation, it has performed an
    undefined access, or it exits with a code and what is in [sched_info]. *)
Inductive ending := Polls | Crashes | Exits (code : Z) (info : sched_info).

Context `{P : Platform} (fresh : nat -> task_info).

(** [payload] is what the reply carries, [alloc] whether it can be copied. *)
Definition client_main (payload : list Z) (alloc : bool) (replies : list (Z * Z * Z)) (info : sched_info)
  : M ending :=
  r <-- do_call answer CEventDefault ;;
  if r <? 0 then c <-- client_out (-1) r ;; ret (Exits c info) else
  r <-- trpc_client_create answer true ;;
  if r <? 0 then c <-- client_out (-1) r ;; ret (Exits c info) else
  let fd := r in
  r <-- register_to_server ;;
  if r <? 0 then c <-- client_out fd r ;; ret (Exits c info) else
  r <-- trpc_client_schedinfo answer payload true alloc ;;
  match get_schedinfo fresh info r with
  | UB => ret Crashes
  | Ret (r, info) =>
      if r <? 0 then c <-- client_out fd r ;; ret (Exits c info) else
      r <-- sync_loop replies ;;
      match r with
      | None => ret Polls
      | Some r =>
          if r <? 0 then c <-- client_out fd r ;; ret (Exits c info) else
          r <-- report_dmiss ;;
          if r <? 0 then c <-- client_out fd r ;; ret (Exits c info) else
          r <-- do_call answer CEventLoop ;;
          c <-- client_out fd r ;; ret (Exits c info)
      end
  end.
End Programs.

(** ** The protocol *)

(** The methods called, newest first. *)
Definition methods (t : trace) : list meth :=
  omap (fun c => match c with CCallMethod m => Some m | _ => None end) t.

(** Register, fetch the schedule, ask [n] times for the synchronisation,
    report. *)
Definition protocol (n : nat) : list meth :=
  TRPC_METHOD_REGISTER :: TRPC_METHOD_SCHEDINFO :: replicate n TRPC_METHOD_SYNC ++ [TRPC_METHOD_DMISS].

(** A computation that calls only the methods [ms]. *)
Definition calls_methods {A} (m : M A) (t : trace) (ms : list meth) : Prop :=
  methods (m t).2 = rev ms ++ methods t.

Lemma client_call_methods answer m t : calls_methods (client_call answer m) t [m].
Proof. unfold calls_methods, client_call, cleanup. expose. by destruct (_ <? 0). Qed.

Lemma schedinfo_methods answer payload wants alloc t :
  calls_methods (trpc_client_schedinfo answer payload wants alloc) t [TRPC_METHOD_SCHEDINFO].
Proof.
  unfold calls_methods, trpc_client_schedinfo, cleanup. expose.
  destruct (_ <? 0); [done|]. destruct (_ <? 0); [done|]. by destruct wants, alloc.
Qed.

Lemma bus_steps_methods answer ss t : calls_methods (bus_steps answer ss) t [].
Proof.
  unfold calls_methods. revert t. induction ss as [|s ss IH]; intros t; [done|].
  cbn [bus_steps]. unfold bind, do_call. destruct (_ <? 0); [done|]. by rewrite IH.
Qed.

Lemma client_create_methods answer b t : calls_methods (trpc_client_create answer b) t [].
Proof.
  unfold calls_methods, trpc_client_create, init_dbus_client, init_bus. destruct b; [|done]. cbn [negb]. expose.
  destruct (_ <? 0); [done|]. pose proof (bus_steps_methods answer client_steps (CBusNew :: t)) as H.
  unfold calls_methods in H. destruct (bus_steps _ _ _) as [r t']. cbn [snd] in H. by destruct (r <? 0).
Qed.

Lemma out_methods answer fd r t : calls_methods (client_out answer fd r) t [].
Proof. unfold calls_methods, client_out. expose. by destruct (0 <=? fd). Qed.

Lemma out_code answer fd r t : (client_out answer fd r t).1 = exit_code r.
Proof. unfold client_out. expose. by destruct (0 <=? fd). Qed.

Lemma sync_methods answer rep t : calls_methods (trpc_client_sync answer rep) t [TRPC_METHOD_SYNC].
Proof. unfold calls_methods, trpc_client_sync, cleanup. expose. by destruct (_ <? 0). Qed.

Lemma sync_result answer rep t :
  let '((r, out), _) := trpc_client_sync answer rep t in out = if r <? 0 then None else Some rep.
Proof.
  unfold trpc_client_sync, cleanup. expose.
  destruct (answer (CCallMethod TRPC_METHOD_SYNC :: t) <? 0) eqn:E; [by rewrite E|done].
Qed.

(** The loop only asks for the synchronisation, and a run it ends without an
    error has asked at least once. *)
Lemma sync_loop_methods answer replies t :
  exists n, (n <= length replies)%nat /\
    calls_methods (sync_loop answer replies) t (replicate n TRPC_METHOD_SYNC) /\
    forall r, (sync_loop answer replies t).1 = Some r -> (1 <= n)%nat.
Proof.
  revert t. induction replies as [|rep replies IH]; intros t; [by exists 0%nat|].
  unfold calls_methods. cbn [sync_loop]. unfold bind.
  pose proof (sync_methods answer rep t) as Hm. unfold calls_methods in Hm.
  destruct (trpc_client_sync answer rep t) as [[r out] t1]. cbn [snd] in Hm.
  destruct out as [[[ack sec] nsec]|].
  - destruct (negb (ack =? 0)).
    + exists 1%nat. cbn [length]. split_and!; [lia|done|lia].
    + unfold do_call. destruct (IH (CSleep 500000 :: t1)) as (n & Hn & Hc & _). exists (S n).
      cbn [length]. split_and!; [lia| |lia]. etrans; [exact Hc|]. cbn [replicate rev methods omap list_omap].
      fold (methods t1). rewrite Hm, <- app_assoc. done.
  - exists 1%nat. cbn [length]. split_and!; [lia|done|lia].
Qed.

(** Leaving calls no method and gives the code of the result. *)
Lemma leave_spec answer fd r info t :
  exists t', bind (client_out answer fd r) (fun c => ret (Exits c info)) t = (Exits (exit_code r) info, t') /\
    methods t' = methods t.
Proof.
  unfold bind. pose proof (out_methods answer fd r t) as Hm. pose proof (out_code answer fd r t) as Hc.
  unfold calls_methods in Hm. destruct (client_out answer fd r t) as [c t']. cbn in *. subst c. by exists t'.
Qed.

Lemma exit_code_0 r : exit_code r = 0 <-> (r <? 0) = false.
Proof. unfold exit_code. by destruct (r <? 0). Qed.

Lemma schedinfo_data answer payload alloc t :
  let '((r, out), _) := trpc_client_schedinfo answer payload true alloc t in
  out = if r <? 0 then None else Some payload.
Proof.
  unfold trpc_client_schedinfo, cleanup. expose.
  destruct (answer (CCallMethod _ :: t) <? 0) eqn:E1; cbv beta iota; [by rewrite E1|].
  destruct (answer (CReadArray :: _) <? 0) eqn:E2; cbv beta iota; [by rewrite E2|].
  destruct alloc; cbn [negb]; cbv beta iota; [by rewrite E2|done].
Qed.

Lemma get_schedinfo_code `{P : Platform} fresh info r payload c i :
  (r <? 0) = false -> get_schedinfo fresh info (r, Some payload) = Ret (c, i) -> (c <? 0) = false ->
  get_schedinfo fresh info (0, Some payload) = Ret (0, i).
Proof.
  intros Hr. unfold get_schedinfo. rewrite Hr. cbn [Z.ltb Z.compare].
  destruct (make_serial_buf _ _); [|by intros [= <- <-]].
  destruct (deserialize_schedinfo _ _ _); cbn; [|done]. by intros [= <- <-].
Qed.

(** The methods called so far, and what a successful exit needs. *)
Definition follows `{P : Platform} (fresh : nat -> task_info) (payload : list Z) (info : sched_info)
    (replies : list (Z * Z * Z)) (r : ending * trace) : Prop :=
  exists n, (n <= length replies)%nat /\ rev (methods r.2) `prefix_of` protocol n /\
    forall i, r.1 = Exits 0 i ->
      rev (methods r.2) = protocol n /\ (1 <= n)%nat /\
      get_schedinfo fresh info (0, Some payload) = Ret (0, i).

Lemma follows_early `{P : Platform} fresh payload info replies n e t :
  (n <= length replies)%nat -> rev (methods t) `prefix_of` protocol n ->
  (forall i, e <> Exits 0 i) -> follows fresh payload info replies (e, t).
Proof. intros Hn Hp He. exists n. split_and!; [done|done|]. intros i Hi. by destruct (He i). Qed.

(** A failure after a prefix of the protocol. *)
Lemma follows_leave `{P : Platform} answer fresh payload info replies n fd r i t :
  (r <? 0) = true -> (n <= length replies)%nat -> rev (methods t) `prefix_of` protocol n ->
  follows fresh payload info replies (bind (client_out answer fd r) (fun c => ret (Exits c i)) t).
Proof.
  intros Hr Hn Hp. destruct (leave_spec answer fd r i t) as (t' & -> & Hm).
  apply (follows_early _ _ _ _ n); [done|by rewrite Hm|].
  intros i' [= He _]. apply exit_code_0 in He. congruence.
Qed.

(** The last two steps. *)
Lemma client_end_follows `{P : Platform} answer fresh payload info replies n i t fd :
  (n <= length replies)%nat -> (1 <= n)%nat ->
  rev (methods t) = TRPC_METHOD_REGISTER :: TRPC_METHOD_SCHEDINFO :: replicate n TRPC_METHOD_SYNC ->
  get_schedinfo fresh info (0, Some payload) = Ret (0, i) ->
  follows fresh payload info replies
    ((r <-- report_dmiss answer ;;
      if r <? 0 then c <-- client_out answer fd r ;; ret (Exits c i) else
      r <-- do_call answer CEventLoop ;;
      c <-- client_out answer fd r ;; ret (Exits c i)) t).
Proof.
  intros Hn H1 Hm Hi. unfold bind at 1.
  pose proof (client_call_methods answer TRPC_METHOD_DMISS t) as Hd. unfold calls_methods in Hd.
  unfold report_dmiss, trpc_client_dmiss. destruct (client_call answer TRPC_METHOD_DMISS t) as [r t1].
  cbn [snd rev app] in Hd.
  assert (Hp : rev (methods t1) = protocol n) by (rewrite Hd; cbn [rev]; by rewrite Hm).
  destruct (r <? 0) eqn:Er; [apply (follows_leave _ _ _ _ _ n); [done|done|by rewrite Hp]|].
  unfold bind at 1, do_call at 1. destruct (leave_spec answer fd (answer (CEventLoop :: t1)) i (CEventLoop :: t1))
    as (t' & -> & Hm'). exists n. cbn [fst snd]. rewrite Hm'. change (methods (CEventLoop :: t1)) with (methods t1).
  rewrite Hp. split_and!; try done. by intros i' [= _ <-].
Qed.

(** Unfolds the first step of a sequence, with what it calls. *)
Ltac step H :=
  unfold bind at 1; let Hm := fresh "Hm" in pose proof H as Hm; unfold calls_methods in Hm;
  match type of Hm with methods (snd ?x) = _ =>
    let r := fresh "r" in let t := fresh "t" in destruct x as [r t] end;
  cbn [snd rev app] in Hm.

(** With every call answered and the schedule decoded, the loop ends at the
    first acknowledgement. *)
Lemma sync_loop_acked answer replies t :
  (forall t, 0 <= answer t) -> Exists (fun rep => rep.1.1 <> 0) replies ->
  (sync_loop answer replies t).1 = Some 0.
Proof.
  intros Ha Hex. revert t. induction replies as [|[[ack sec] nsec] replies IH]; intros t; [by apply Exists_nil in Hex|].
  assert (E : (trpc_client_sync answer (ack, sec, nsec) t).1.2 = Some (ack, sec, nsec)).
  { unfold trpc_client_sync, cleanup. expose. by rewrite !(proj2 (Z.ltb_ge _ _) (Ha _)). }
  cbn [sync_loop]. unfold bind. destruct (trpc_client_sync _ _ _) as [[r out] t1]. cbn in E. subst out.
  destruct (Z.eqb_spec ack 0); [|done]. cbn [negb]. unfold do_call. apply IH.
  apply Exists_cons in Hex as [?|]; [done|done].
Qed.

(** A transport that answers every call. *)
Section Answered.
Context (answer : trace -> Z) (answered : forall t, 0 <= answer t).

Lemma answer_sign t : (answer t <? 0) = false.
Proof using answered. apply Z.ltb_ge, answered. Qed.

Lemma create_answered t : (trpc_client_create answer true t).1 = 0.
Proof using answered.
  unfold trpc_client_create, init_dbus_client, init_bus, client_steps. cbn [negb bus_steps]. expose.
  by rewrite !answer_sign.
Qed.

Lemma call_answered m t : ((client_call answer m t).1 <? 0) = false.
Proof using answered.
  unfold client_call, cleanup. expose. rewrite !answer_sign. cbn [negb]. cbv beta iota. apply answer_sign.
Qed.

Lemma schedinfo_answered payload t :
  exists r, (trpc_client_schedinfo answer payload true true t).1 = (r, Some payload) /\ (r <? 0) = false.
Proof using answered.
  unfold trpc_client_schedinfo, cleanup. expose. rewrite !answer_sign. cbn [negb]. cbv beta iota.
  eexists. split; [done|apply answer_sign].
Qed.
End Answered.

Lemma client_main_follows `{P : Platform} answer fresh payload alloc replies info :
  follows fresh payload info replies (client_main answer fresh payload alloc replies info []).
Proof.
  unfold client_main. unfold bind at 1, do_call at 1.
  destruct (_ <? 0) eqn:E0; [apply (follows_leave _ _ _ _ _ 0); [done|lia|by eexists]|].
  step (client_create_methods answer true [CEventDefault]).
  destruct (r <? 0) eqn:E1; [apply (follows_leave _ _ _ _ _ 0); [done|lia|rewrite Hm; by eexists]|].
  change (register_to_server answer) with (client_call answer TRPC_METHOD_REGISTER).
  step (client_call_methods answer TRPC_METHOD_REGISTER t).
  assert (H1 : rev (methods t0) = [TRPC_METHOD_REGISTER]) by (by rewrite Hm0, Hm).
  destruct (r0 <? 0) eqn:E2; [apply (follows_leave _ _ _ _ _ 0); [done|lia|rewrite H1; by eexists]|].
  pose proof (schedinfo_data answer payload alloc t0) as Hdata.
  step (schedinfo_methods answer payload true alloc t0). destruct r1 as [r1 out]. subst out.
  assert (H2 : rev (methods t1) = [TRPC_METHOD_REGISTER; TRPC_METHOD_SCHEDINFO]) by (by rewrite Hm1; cbn [rev]; rewrite H1).
  assert (Hpre : rev (methods t1) `prefix_of` protocol 0) by (rewrite H2; by eexists).
  destruct (get_schedinfo fresh info (r1, _)) as [[c i]|] eqn:Eg; [|by apply (follows_early _ _ _ _ 0); [lia| |]].
  destruct (c <? 0) eqn:Ec; [by apply (follows_leave _ _ _ _ _ 0); [|lia|]|].
  destruct (r1 <? 0) eqn:Er; [by cbn in Eg; rewrite Er in Eg; injection Eg as <- <-; congruence|].
  apply (get_schedinfo_code fresh info r1) in Eg; [|done|done].
  destruct (sync_loop_methods answer replies t1) as (n & Hn & Hc & H3).
  revert H3. step Hc. intros H3.
  assert (Hs : rev (methods t2) = TRPC_METHOD_REGISTER :: TRPC_METHOD_SCHEDINFO :: replicate n TRPC_METHOD_SYNC).
  { rewrite Hm2, rev_app_distr, H2, rev_involutive. done. }
  assert (Hpre' : rev (methods t2) `prefix_of` protocol n) by (rewrite Hs; by eexists).
  destruct r2 as [r2|]; [|by apply (follows_early _ _ _ _ n)].
  destruct (r2 <? 0) eqn:E3; [by apply (follows_leave _ _ _ _ _ n)|].
  apply (client_end_follows answer fresh payload info replies n i t2); [done|by eapply H3|done|done].
Qed.

Lemma client_main_completes `{P : Platform} answer fresh payload replies info i :
  (forall t, 0 <= answer t) -> Exists (fun rep => rep.1.1 <> 0) replies ->
  get_schedinfo fresh info (0, Some payload) = Ret (0, i) ->
  (client_main answer fresh payload true replies info []).1 = Exits 0 i.
Proof.
  intros Ha Hack Hi. unfold client_main.
  pose proof (answer_sign answer Ha) as Hneg. unfold bind at 1, do_call at 1. rewrite Hneg.
  unfold bind at 1. pose proof (create_answered answer Ha [CEventDefault]) as Hc.
  destruct (trpc_client_create _ _ _) as [r t]. cbn in Hc. subst r. cbn [Z.ltb Z.compare].
  change (register_to_server answer) with (client_call answer TRPC_METHOD_REGISTER).
  change (report_dmiss answer) with (client_call answer TRPC_METHOD_DMISS).
  unfold bind at 1. pose proof (call_answered answer Ha TRPC_METHOD_REGISTER t) as Hr.
  destruct (client_call _ _ t) as [r t1]. cbn [fst] in Hr. rewrite Hr.
  unfold bind at 1. destruct (schedinfo_answered answer Ha payload t1) as (r1 & Hs & Hr1).
  destruct (trpc_client_schedinfo _ _ _ _ t1) as [x t2]. cbn [fst] in Hs. subst x.
  replace (get_schedinfo fresh info (r1, Some payload)) with (get_schedinfo fresh info (0, Some payload))
    by (cbn; by rewrite Hr1).
  rewrite Hi. cbn [Z.ltb Z.compare]. unfold bind at 1.
  pose proof (sync_loop_acked answer replies t2 Ha Hack) as Hl.
  destruct (sync_loop answer replies t2) as [x t3]. cbn [fst] in Hl. subst x. cbn [Z.ltb Z.compare].
  unfold bind at 1. pose proof (call_answered answer Ha TRPC_METHOD_DMISS t3) as Hd.
  destruct (client_call _ _ t3) as [r3 t4]. cbn [fst] in Hd. rewrite Hd.
  unfold bind at 1, do_call at 1.
  destruct (leave_spec answer 0 (answer (CEventLoop :: t4)) i (CEventLoop :: t4)) as (t' & -> & _).
  unfold exit_code. by rewrite Hneg.
Qed.

(** ** Properties *)

(** C30. The client program follows the protocol: against any server it
    registers, fetches the schedule, asks for the synchronisation until it is
    acknowledged, and reports, in this order and stopping at the first failure;
    an exit with success means that every step was done and that the schedule
    held is the one in the reply; and with answers to every call, a schedule
    that decodes and an acknowledgement among the replies it does exit with
    success. *)
Theorem client_main_protocol `{P : Platform} answer fresh payload alloc replies info :
  let run := client_main answer fresh payload alloc replies info [] in
  follows fresh payload info replies run /\
  ((forall t, 0 <= answer t) -> alloc = true -> Exists (fun rep => rep.1.1 <> 0) replies ->
   forall i, get_schedinfo fresh info (0, Some payload) = Ret (0, i) -> run.1 = Exits 0 i).
Proof.
  intros run. split; [apply client_main_follows|].
  intros Ha -> Hack i Hi. by apply client_main_completes.
Qed.

(** The example schedule, acknowledged with the third call. *)
Lemma client_main_protocol_witness :
  exists payload i,
    (client_main (P := s390) (fun _ => 0) (fun _ => blank_task) payload true
      [(0, 0, 0); (0, 0, 0); (1, 5, 6)] blank_info []).1 = Exits 0 i /\
    nr_tasks i = 4.
Proof.
  destruct (@schedinfo_callback x86 None example_info) as [[b payload]|] eqn:E; vm_compute in E; [|done].
  exists payload. injection E as _ <-. eexists.
  split.
  - eapply (client_main_protocol (P := s390) (fun _ => 0) (fun _ => blank_task)); [done|done| |by vm_compute].
    by do 2 right; left.
  - done.
Defined.

(** [trpc_client_create] returns 0 and not a descriptor: the program closes
    its standard input at the end. *)
Lemma client_closes_stdin `{P : Platform} fresh payload replies info :
  get_schedinfo fresh info (0, Some payload) = Ret (-1, info) ->
  CClose 0 ∈ (client_main (fun _ => 0) fresh payload true replies info []).2.
Proof.
  intros E. unfold client_main, trpc_client_create, init_dbus_client, init_bus, register_to_server,
    trpc_client_register, client_call, trpc_client_schedinfo, cleanup, client_steps. cbn [negb bus_steps].
  expose. cbn [Z.ltb Z.compare negb]. cbv beta iota. rewrite E. cbn [Z.ltb Z.compare]. unfold client_out. expose.
  cbn. set_solver.
Qed.

(** The server closes its socket on the way out when it was created. *)
Lemma server_main_closes answer arg :
  let '(code, t) := server_main answer arg [] in
  code = 0 -> exists fd, head t = Some (CClose fd) /\ 0 <= fd /\ fd ∉ open_fds answer t.
Proof.
  unfold server_main. unfold bind at 1, do_call at 1.
  destruct (_ <? 0) eqn:E0; [unfold server_out, exit_code; expose; by rewrite E0|].
  unfold bind at 1. destruct (trpc_server_create _ _ _) as [[fd b] t]. cbn [fst].
  destruct (Z.ltb_spec fd 0) as [Hfd|Hfd].
  { unfold server_out, exit_code. expose. by rewrite (proj2 (Z.ltb_lt _ _) Hfd). }
  unfold bind at 1, do_call at 1. unfold server_out. expose. rewrite (proj2 (Z.leb_le _ _) Hfd).
  intros _. exists fd. cbn [head open_fds]. split_and!; [done|done|set_solver].
Qed.
