(* ===== verification/Tlog.v ===== *)
(** * timpani-o/src/tlog.h: the logger

    The singleton's settings and what its two methods write.  A call carries
    the broken-down local time the clock gave; the streams are texts.  Every
    method holds the lock while it writes, so calls are taken one after the
    other. *)
From Stdlib Require Import Ascii.
From stdpp Require Import prelude gmap strings list pretty.
From Stdlib Require Import ZArith Lia.
From S2P Require Import Prelude Text.
Local Open Scope Z_scope.

Inductive LogLevel := NONE | ERROR | WARN | INFO | DEBUG.

(** The values of the enumeration. *)
Definition level_value (l : LogLevel) : Z :=
  match l with NONE => -1 | ERROR => 0 | WARN => 1 | INFO => 2 | DEBUG => 3 end.

(** [out_stream_] names one of the streams. *)
Record Logger := MkLogger {
  cur_log_level_ : LogLevel;
  out_stream_ : nat;
  print_filename_ : bool;
  full_timestamp_ : bool;
}.

(** [std::cout] is stream 0. *)
Definition Logger0 : Logger := MkLogger INFO 0 false false.

Definition SetLogLevel (level : LogLevel) (g : Logger) : Logger :=
  MkLogger level (out_stream_ g) (print_filename_ g) (full_timestamp_ g).
Definition SetOutputStream (os : nat) (g : Logger) : Logger :=
  MkLogger (cur_log_level_ g) os (print_filename_ g) (full_timestamp_ g).
Definition SetPrintFileName (enable : bool) (g : Logger) : Logger :=
  MkLogger (cur_log_level_ g) (out_stream_ g) enable (full_timestamp_ g).
Definition SetFullTimestamp (enable : bool) (g : Logger) : Logger :=
  MkLogger (cur_log_level_ g) (out_stream_ g) (print_filename_ g) enable.

(** Local time with its milliseconds. *)
Record local_time := LocalTime {
  year : Z; month : Z; mday : Z; hour : Z; minute : Z; second : Z; millis : Z }.

(** [setfill('0') << setw(k)], and the two-digit fields of [put_time]. *)
Definition pad (k : nat) (n : Z) : text :=
  let t := chars (pretty n) in replicate (k - length t) "0"%char ++ t.

Definition GetCurTimestamp (g : Logger) (t : local_time) : text :=
  (if full_timestamp_ g
   then chars (pretty (year t)) ++ "-"%char :: pad 2 (month t) ++ "-"%char :: pad 2 (mday t) ++ [" "%char] else [])
  ++ pad 2 (hour t) ++ ":"%char :: pad 2 (minute t) ++ ":"%char :: pad 2 (second t)
  ++ "."%char :: pad 3 (millis t).

Definition LogLevelToStr (l : LogLevel) : Ascii.ascii :=
  match l with ERROR => "E" | WARN => "W" | INFO => "I" | DEBUG => "D" | NONE => "U" end%char.

Definition is_separator (c : Ascii.ascii) : bool := (code c =? 47) || (code c =? 92).

(** The pointer scan: [base] is what follows the last separator so far. *)
Fixpoint base_from (base rest : text) : text :=
  match rest with
  | [] => base
  | c :: rest => base_from (if is_separator c then rest else base) rest
  end.
Definition GetBaseFileName (file_path : text) : text := base_from file_path file_path.

Abbreviation streams := (gmap nat text).
Definition contents (ss : streams) (o : nat) : text := default [] (ss !! o).
Definition write (o : nat) (t : text) (ss : streams) : streams := <[o := contents ss o ++ t]> ss.

Definition NL : Ascii.ascii := Ascii.ascii_of_nat 10.

(** "[file:line] " *)
Definition place (file : text) (line : Z) : text :=
  "["%char :: GetBaseFileName file ++ ":"%char :: chars (pretty line) ++ ["]"; " "]%char.

Definition head (g : Logger) (t : local_time) (level : LogLevel) : text :=
  GetCurTimestamp g t ++ [" "; "["; LogLevelToStr level; "]"; " "]%char.

(** [Log]: [args] are the texts of the arguments. *)
Definition Log (g : Logger) (t : local_time) (level : LogLevel) (file : text) (line : Z) (args : list text)
    (ss : streams) : streams :=
  if level_value (cur_log_level_ g) <? level_value level then ss else
  write (out_stream_ g)
    (head g t level ++ (if print_filename_ g then place file line else []) ++ concat args ++ [NL]) ss.

(** Up to the first NUL, as a [char *] is printed. *)
Fixpoint c_text (t : text) : text :=
  match t with [] => [] | c :: t => if code c =? 0 then [] else c :: c_text t end.

(** [Logf]: [formatted] is what [vsnprintf] makes of the arguments, [None] on
    its error. *)
Definition Logf (g : Logger) (t : local_time) (level : LogLevel) (file : text) (line : Z)
    (formatted : option text) (ss : streams) : streams :=
  if level_value (cur_log_level_ g) <? level_value level then ss else
  match formatted with
  | None => ss
  | Some buffer => write (out_stream_ g) (head g t level ++ place file line ++ c_text buffer ++ [NL]) ss
  end.

(** ** Sequences of calls *)

Inductive entry :=
  | Stream (t : local_time) (level : LogLevel) (file : text) (line : Z) (args : list text)
  | Format (t : local_time) (level : LogLevel) (file : text) (line : Z) (formatted : option text).

Definition log (g : Logger) (e : entry) (ss : streams) : streams :=
  match e with
  | Stream t l f n args => Log g t l f n args ss
  | Format t l f n fm => Logf g t l f n fm ss
  end.
Definition log_all (g : Logger) (es : list entry) (ss : streams) : streams :=
  foldl (fun ss e => log g e ss) ss es.

(** The line an entry amounts to when its level is admitted. *)
Definition entry_level (e : entry) : LogLevel :=
  match e with Stream _ l _ _ _ | Format _ l _ _ _ => l end.
Definition admitted (g : Logger) (e : entry) : Prop :=
  level_value (entry_level e) <= level_value (cur_log_level_ g).
#[export] Instance admitted_dec g e : Decision (admitted g e).
Proof. unfold admitted. apply _. Defined.

Definition line_of (g : Logger) (e : entry) : option text :=
  match e with
  | Stream t l f n args =>
      Some (head g t l ++ (if print_filename_ g then place f n else []) ++ concat args)
  | Format t l f n fm => (fun b => head g t l ++ place f n ++ c_text b) <$> fm
  end.
Definition lines (g : Logger) (es : list entry) : list text :=
  omap (line_of g) (filter (admitted g) es).

(** No line break in the file name or the text. *)
Definition one_line (e : entry) : Prop :=
  match e with
  | Stream _ _ f _ args => NL ∉ f /\ Forall (fun a => NL ∉ a) args
  | Format _ _ f _ fm => NL ∉ f /\ match fm with Some b => NL ∉ b | None => True end
  end.

(** ** File names *)

(** [b] is the file name at the end of the path [p]. *)
Definition base_name (p b : text) : Prop :=
  exists d, p = d ++ b /\ Forall (fun c => is_separator c = false) b /\
    (d = [] \/ exists d' c, d = d' ++ [c] /\ is_separator c = true).

Lemma base_from_spec pre rest :
  Forall (fun c => is_separator c = false) pre -> base_name (pre ++ rest) (base_from (pre ++ rest) rest).
Proof.
  revert pre. induction rest as [|c rest IH]; intros pre Hpre; cbn [base_from].
  { exists []. rewrite app_nil_r. by split_and!; [| |left]. }
  destruct (is_separator c) eqn:Ec.
  - destruct (IH [] ltac:(constructor)) as (d & Hd & Hb & He). cbn [app] in *.
    exists (pre ++ c :: d). rewrite <- app_assoc. cbn [app]. rewrite <- Hd. split_and!; [done..|]. right.
    destruct He as [->|(d' & c' & -> & Hc')]; [by exists pre, c|].
    exists (pre ++ c :: d'), c'. by rewrite <- app_assoc.
  - specialize (IH (pre ++ [c])). rewrite <- app_assoc in IH. apply IH, Forall_app. by repeat constructor.
Qed.

Lemma GetBaseFileName_spec p : base_name p (GetBaseFileName p).
Proof. apply (base_from_spec []). constructor. Qed.

(** ** Lines *)

Definition clean (t : text) : Prop := NL ∉ t.

Lemma clean_app a b : clean a -> clean b -> clean (a ++ b).
Proof. unfold clean. rewrite elem_of_app. tauto. Qed.
Lemma clean_cons c t : c <> NL -> clean t -> clean (c :: t).
Proof. unfold clean. rewrite elem_of_cons. naive_solver. Qed.
Lemma clean_nil : clean [].
Proof. apply not_elem_of_nil. Qed.
Lemma clean_pretty (n : Z) : clean (chars (pretty n)).
Proof. apply pretty_not_elem. left. by vm_compute. Qed.
Lemma clean_pad k n : clean (pad k n).
Proof.
  apply clean_app; [|apply clean_pretty]. intros H. by apply elem_of_replicate in H as [H _].
Qed.
Lemma clean_letter l : LogLevelToStr l <> NL.
Proof. by destruct l. Qed.
Lemma clean_concat ts : Forall clean ts -> clean (concat ts).
Proof. induction 1; cbn [concat]; [apply clean_nil|by apply clean_app]. Qed.
Lemma clean_c_text t : clean t -> clean (c_text t).
Proof.
  unfold clean. induction t as [|c t IH]; cbn [c_text]; [done|]. intros Ht.
  destruct (code c =? 0); [apply not_elem_of_nil|]. set_solver.
Qed.
Lemma clean_base p : clean p -> clean (GetBaseFileName p).
Proof. destruct (GetBaseFileName_spec p) as (d & E & _). unfold clean. rewrite E at 1. set_solver. Qed.

Create HintDb clean.
#[export] Hint Resolve clean_app clean_cons clean_nil clean_pretty clean_pad clean_letter clean_concat
  clean_c_text clean_base : clean.
#[export] Hint Extern 1 (_ <> NL) => discriminate : clean.

Lemma clean_head g t l : clean (head g t l).
Proof. unfold head, GetCurTimestamp. destruct (full_timestamp_ g); auto 20 with clean. Qed.
Lemma clean_place f n : clean f -> clean (place f n).
Proof. unfold place. auto 20 with clean. Qed.
#[export] Hint Resolve clean_head clean_place : clean.

Lemma line_clean g e t : one_line e -> line_of g e = Some t -> clean t.
Proof.
  destruct e as [tm l f n args|tm l f n [b|]]; cbn; [|intros [Hf Hb] [= <-]; auto 20 with clean|done].
  intros [Hf Ha] [= <-]. destruct (print_filename_ g); auto 20 with clean.
Qed.

Lemma getlines_concat ls :
  Forall clean ls -> getlines NL [] (concat ((fun l => l ++ [NL]) <$> ls)) = ls.
Proof.
  induction 1 as [|l ls Hl Hls IH]; [done|]. cbn [fmap list_fmap concat].
  rewrite <- app_assoc. cbn [app]. rewrite getlines_line by done. cbn [rev app]. by rewrite IH.
Qed.

Lemma contents_write o o' t ss :
  contents (write o t ss) o' = if decide (o = o') then contents ss o' ++ t else contents ss o'.
Proof.
  unfold contents, write. case_decide as E; [subst|].
  - by rewrite lookup_insert_eq.
  - by rewrite lookup_insert_ne.
Qed.

(** An entry as text: nothing, or its line. *)
Definition written (g : Logger) (e : entry) : text :=
  concat ((fun l => l ++ [NL]) <$> lines g [e]).

Lemma log_contents g e ss o :
  contents (log g e ss) o = if decide (out_stream_ g = o) then contents ss o ++ written g e else contents ss o.
Proof.
  unfold written, lines. destruct e as [t l f n args|t l f n fm]; cbn [log]; unfold Log, Logf;
    destruct (Z.ltb_spec (level_value (cur_log_level_ g)) (level_value l)).
  1, 3: rewrite filter_cons_False by (unfold admitted; cbn; lia); cbn; rewrite app_nil_r; by case_decide.
  all: rewrite filter_cons_True by (unfold admitted; cbn; lia); cbn [filter list_filter omap list_omap line_of].
  - rewrite contents_write. cbn. by rewrite app_nil_r, <- !app_assoc.
  - destruct fm as [b|]; cbn [fmap option_fmap option_map list_fmap concat app];
      [|rewrite app_nil_r; by case_decide].
    rewrite contents_write. by rewrite app_nil_r, <- !app_assoc.
Qed.

Lemma lines_app g es es' : lines g (es ++ es') = lines g es ++ lines g es'.
Proof. unfold lines. by rewrite filter_app, omap_app. Qed.

Lemma log_all_contents g es ss o :
  contents (log_all g es ss) o =
  if decide (out_stream_ g = o) then contents ss o ++ concat ((fun l => l ++ [NL]) <$> lines g es)
  else contents ss o.
Proof.
  unfold log_all. revert ss. induction es as [|e es IH]; intros ss; cbn [foldl].
  { cbn. rewrite app_nil_r. by case_decide. }
  rewrite IH, log_contents. change (e :: es) with ([e] ++ es). rewrite lines_app, fmap_app, concat_app.
  case_decide; [|done]. by rewrite <- app_assoc.
Qed.

Lemma lines_clean g es : Forall one_line es -> Forall clean (lines g es).
Proof.
  intros H. apply Forall_forall. intros t (e & He & Ht)%list_elem_of_omap.
  apply list_elem_of_filter in He as [_ He]. rewrite Forall_forall in H. by eapply line_clean; [apply H|].
Qed.

(** Admitting more levels keeps every line. *)
Lemma lines_level g l es :
  level_value (cur_log_level_ g) <= level_value l ->
  lines g es `sublist_of` lines (SetLogLevel l g) es.
Proof.
  intros Hl. unfold lines. induction es as [|e es IH]; [done|]. rewrite !filter_cons.
  change (line_of (SetLogLevel l g)) with (line_of g) in *.
  destruct (decide (admitted g e)) as [H|H].
  - rewrite decide_True by (unfold admitted in *; cbn; lia). cbn [omap list_omap].
    destruct (line_of g e); [by apply sublist_skip|done].
  - destruct (decide (admitted (SetLogLevel l g) e)); [|done]. cbn [omap list_omap].
    destruct (line_of g e); [by apply sublist_cons|done].
Qed.

(** ** Properties *)

(** The logger writes exactly one line for each call whose level is
    admitted and whose formatting succeeded, in order, to the stream set and
    to no other; a larger level keeps all lines of a smaller one; and the file
    named in a line is the part of the path after its last separator. *)
Theorem log_output_lines g es ss o :
  Forall one_line es -> contents ss (out_stream_ g) = [] ->
  getlines NL [] (contents (log_all g es ss) (out_stream_ g)) = lines g es /\
  (o <> out_stream_ g -> contents (log_all g es ss) o = contents ss o) /\
  (forall l, level_value (cur_log_level_ g) <= level_value l ->
     lines g es `sublist_of`
     getlines NL [] (contents (log_all (SetLogLevel l g) es ss) (out_stream_ g))) /\
  (forall p, base_name p (GetBaseFileName p)).
Proof.
  intros Hone H0. split_and!.
  - rewrite log_all_contents, decide_True, H0 by done. by apply getlines_concat, lines_clean.
  - intros Ho. by rewrite log_all_contents, decide_False.
  - intros l Hl. rewrite log_all_contents, decide_True, H0 by done.
    cbn [app]. rewrite getlines_concat by (by apply lines_clean). by apply lines_level.
  - apply GetBaseFileName_spec.
Qed.

Definition noon : local_time := LocalTime 2026 1 2 12 0 5 7.
Lemma log_output_lines_witness :
  let es := [Stream noon INFO (chars "src/main.cpp") 10 [chars "ready "; chars "3"];
             Stream noon DEBUG (chars "src/main.cpp") 11 [chars "hidden"];
             Format noon ERROR (chars "a/b\c.cpp") 7 (Some (chars "failed"))] in
  getlines NL [] (contents (log_all Logger0 es ∅) 0) =
  [chars "12:00:05.007 [I] ready 3"; chars "12:00:05.007 [E] [c.cpp:7] failed"].
Proof.
  intros es. destruct (log_output_lines Logger0 es ∅ 0%nat) as (H & _).
  - repeat constructor; try (by apply (bool_decide_unpack _); vm_compute).
  - done.
  - etrans; [exact H|]. by vm_compute.
Defined.
