(* ===== verification/NodeConfig.v ===== *)
(** * timpani-o/src/node_config.cpp: the nodes and their CPUs

    The line-by-line reader of the YAML file.  A result [Ret None] is an
    exception, [UB] an access outside a string.  The content of the file is
    an argument, [None] when it cannot be opened. *)
From Stdlib Require Import Ascii.
From stdpp Require Import prelude gmap strings list pretty.
From Stdlib Require Import ZArith Lia.
From Stdlib Require String.
From S2P Require Import Prelude Text.
Local Open Scope Z_scope.
Local Open Scope c_scope.

Record NodeConfig := Node {
  name : string;
  available_cpus : list Z;
  max_memory_mb : Z;
  architecture : string;
  location : string;
  description : string;
}.
Definition new_config : NodeConfig := (Node "" [] 4096 "" "" "")%string.

Record NodeConfigManager := Manager { nodes : gmap string NodeConfig; loaded : bool }.
Definition new_manager : NodeConfigManager := Manager ∅ false.

Definition QUOTE : Ascii.ascii := Ascii.ascii_of_nat 34.
Definition NEWLINE : Ascii.ascii := Ascii.ascii_of_nat 10.

(** ** CPU lists *)

(** The bracket or quote test: both ends are read only when needed. *)
Definition enclosed (a b : Ascii.ascii) (t : text) : outcome bool :=
  f <-c front t;
  if bool_decide (f = a) then l <-c back t; Ret (bool_decide (l = b)) else Ret false.

Definition parse_cpu (token : text) : list Z :=
  match trim token with
  | [] => []
  | t => match stoi t with Some cpu => [cpu] | None => [] end
  end.

Definition ParseCpuList (cpu_str : text) : outcome (list Z) :=
  b <-c enclosed "["%char "]"%char cpu_str;
  let clean_str := if b then strip cpu_str else cpu_str in
  Ret (getlines ","%char [] clean_str ≫= parse_cpu).

(** ** Lines *)

(** The variables of the loop. *)
Record reader := Reader {
  current_node : text;
  current_config : NodeConfig;
  in_nodes_section : bool;
  in_node_definition : bool;
  read_nodes : gmap string NodeConfig;
}.

Definition with_name (n : string) (c : NodeConfig) : NodeConfig :=
  Node n (available_cpus c) (max_memory_mb c) (architecture c) (location c) (description c).

(** Saving the current node, also after the last line. *)
Definition save_node (r : reader) : reader :=
  if in_node_definition r && negb (bool_decide (current_node r = []))
  then let n := of_chars (current_node r) in
       let c := with_name n (current_config r) in
       Reader (current_node r) c (in_nodes_section r) (in_node_definition r) (<[n := c]> (read_nodes r))
  else r.

Definition set_config (c : NodeConfig) (r : reader) : reader :=
  Reader (current_node r) c (in_nodes_section r) (in_node_definition r) (read_nodes r).

Definition unquote (value : text) : outcome text :=
  q <-c enclosed QUOTE QUOTE value;
  if q then Ret (strip value) else
  q <-c enclosed "'"%char "'"%char value;
  Ret (if q then strip value else value).

Definition set_property (key : string) (value : text) (c : NodeConfig) : outcome (option NodeConfig) :=
  let v := of_chars value in
  if decide (key = "available_cpus"%string) then
    cpus <-c ParseCpuList value;
    Ret (Some (Node (name c) cpus (max_memory_mb c) (architecture c) (location c) (description c)))
  else if decide (key = "max_memory_mb"%string) then
    match stoi value with
    | None => Ret None
    | Some m => Ret (Some (Node (name c) (available_cpus c) m (architecture c) (location c) (description c)))
    end
  else Ret (Some (
    if decide (key = "architecture"%string)
    then Node (name c) (available_cpus c) (max_memory_mb c) v (location c) (description c)
    else if decide (key = "location"%string)
    then Node (name c) (available_cpus c) (max_memory_mb c) (architecture c) v (description c)
    else if decide (key = "description"%string)
    then Node (name c) (available_cpus c) (max_memory_mb c) (architecture c) (location c) v
    else c)).

Definition spaces (n : nat) : text := replicate n " "%char.

(** A property line. *)
Definition read_property (line : text) (r : reader) : outcome (option reader) :=
  match find ":"%char line with
  | None => Ret (Some r)
  | Some (key, value) =>
      value <-c unquote (trim value);
      c <-c set_property (of_chars key) value (current_config r);
      Ret (match c with None => None | Some c => Some (set_config c r) end)
  end.

(** One turn of the loop. *)
Definition read_line (original_line : text) (r : reader) : outcome (option reader) :=
  let line := trim original_line in
  match line with
  | [] => Ret (Some r)
  | c :: _ =>
      if bool_decide (c = "#"%char) then Ret (Some r)
      else if bool_decide (line = chars "nodes:"%string) then
        Ret (Some (Reader (current_node r) (current_config r) true (in_node_definition r) (read_nodes r)))
      else if negb (in_nodes_section r) then Ret (Some r)
      else
        match starts_with (spaces 2) original_line && negb (starts_with (spaces 4) original_line), find ":"%char line with
        | true, Some (before, _) =>
            let r := save_node r in
            Ret (Some (Reader before new_config (in_nodes_section r) true (read_nodes r)))
        | _, _ =>
            if negb (in_node_definition r) then Ret (Some r)
            else if starts_with (spaces 4) original_line then read_property line r
            else Ret (Some r)
        end
  end.

Fixpoint read_lines (ls : list text) (r : reader) : outcome (option reader) :=
  match ls with
  | [] => Ret (Some r)
  | l :: ls =>
      r <-c read_line l r;
      match r with None => Ret None | Some r => read_lines ls r end
  end.

(** [nodes] is what the manager holds already. *)
Definition ParseNodeSection (yaml_content : text) (ns : gmap string NodeConfig)
  : outcome (option (gmap string NodeConfig)) :=
  r <-c read_lines (getlines NEWLINE [] yaml_content) (Reader [] new_config false false ns);
  Ret (match r with None => None | Some r => Some (read_nodes (save_node r)) end).

(** ** The manager *)

Definition GetDefaultNodeConfig : NodeConfig :=
  (Node "default_node" [0; 1; 2; 3] 4096 "aarch64" "default_location" "Default node configuration")%string.

(** The manager afterwards and the result; [Ret None] is an exception. *)
Definition LoadFromFile (file : option text) (m : NodeConfigManager) : outcome (option (NodeConfigManager * bool)) :=
  match file with
  | None => Ret (Some (Manager ∅ false, false))
  | Some content =>
      ns <-c ParseNodeSection content ∅;
      Ret (match ns with
           | None => None
           | Some ns =>
               let ns := if decide (ns = ∅) then {["default_node"%string := GetDefaultNodeConfig]} else ns in
               Some (Manager ns true, true)
           end)
  end.

Definition GetNodeConfig (m : NodeConfigManager) (node_name : string) : option NodeConfig := nodes m !! node_name.

Definition GetAvailableCpus (m : NodeConfigManager) (node_name : string) : list Z :=
  match GetNodeConfig m node_name with
  | Some config => available_cpus config
  | None => [0; 1; 2; 3]
  end.
Definition IsLoaded (m : NodeConfigManager) : bool := loaded m.

(** ** A file in the layout of the shipped examples *)

Definition comma_list (xs : list Z) : text :=
  match xs with
  | [] => []
  | x :: xs => chars (pretty x) ++ (xs ≫= fun y => ","%char :: " "%char :: chars (pretty y))
  end.
Definition cpu_text (xs : list Z) : text := "["%char :: comma_list xs ++ ["]"%char].
Definition quoted (s : string) : text := QUOTE :: chars s ++ [QUOTE].
Definition property (key : string) (value : text) : text := spaces 4 ++ chars key ++ ":"%char :: " "%char :: value.

Definition node_lines (c : NodeConfig) : list text :=
  [spaces 2 ++ chars (name c) ++ [":"%char];
   property "available_cpus" (cpu_text (available_cpus c));
   property "max_memory_mb" (chars (pretty (max_memory_mb c)));
   property "architecture" (quoted (architecture c));
   property "location" (quoted (location c));
   property "description" (quoted (description c))].
Definition file_lines (cs : list NodeConfig) : list text := chars "nodes:" :: (cs ≫= node_lines).
Definition unlines (ls : list text) : text := ls ≫= fun l => l ++ [NEWLINE].

(** Names and texts that the format can carry. *)
Definition name_ok (n : string) : Prop :=
  trimmed (chars n) /\ ":"%char ∉ chars n /\ NEWLINE ∉ chars n /\ n <> "nodes"%string /\
  match chars n with [] => False | c :: _ => c <> "#"%char end.
Definition config_ok (c : NodeConfig) : Prop :=
  name_ok (name c) /\ Forall (fun x => INT_MIN <= x <= INT_MAX) (available_cpus c) /\
  INT_MIN <= max_memory_mb c <= INT_MAX /\
  Forall (fun s => NEWLINE ∉ chars s) [architecture c; location c; description c].

(** *** CPU lists *)

Lemma strip_enclosed a b t : strip (a :: t ++ [b]) = t.
Proof. unfold strip. by rewrite rev_app_distr; cbn; rewrite rev_involutive. Qed.

Lemma enclosed_yes a b t : enclosed a b (a :: t ++ [b]) = Ret true.
Proof.
  unfold enclosed. cbn [front obind]. rewrite bool_decide_eq_true_2 by done. unfold back.
  rewrite app_comm_cons, rev_app_distr. cbn. by rewrite bool_decide_eq_true_2.
Qed.

Lemma enclosed_no a b c t : c <> a -> enclosed a b (c :: t) = Ret false.
Proof. intros H. unfold enclosed. cbn [front obind]. by rewrite bool_decide_eq_false_2. Qed.

Lemma parse_cpu_pretty b x :
  Forall (fun c => is_blank c = true) b -> INT_MIN <= x <= INT_MAX -> parse_cpu (b ++ chars (pretty x)) = [x].
Proof.
  intros Hb Hx. unfold parse_cpu. rewrite trim_trimmed by (done || apply pretty_trimmed).
  destruct (pretty_codes x) as [_ Hne]. destruct (chars (pretty x)) as [|c t] eqn:E; [done|].
  by rewrite <- E, (stoi_pretty x Hx).
Qed.

Lemma comma_tokens (x : Z) (xs : list Z) (cur : text) :
  getlines ","%char cur (chars (pretty x) ++ (xs ≫= fun y => ","%char :: " "%char :: chars (pretty y)))
  = (rev cur ++ chars (pretty x)) :: ((fun y => " "%char :: chars (pretty y)) <$> xs).
Proof.
  assert (Hc : forall y : Z, ","%char ∉ chars (pretty y)) by (intros y; apply pretty_not_elem; vm_compute; by left).
  revert x cur. induction xs as [|y xs IH]; intros x cur; cbn [mbind list_bind fmap list_fmap].
  - rewrite app_nil_r, getlines_last by done. destruct (pretty_codes x) as [_ Hne].
    destruct (rev cur ++ chars (pretty x)) eqn:E; [|done]. by apply app_eq_nil in E as [_ ?].
  - cbn [app]. rewrite getlines_line by done. f_equal. cbn [getlines].
    rewrite decide_False by done. rewrite IH. done.
Qed.

Lemma ParseCpuList_print xs :
  Forall (fun x => INT_MIN <= x <= INT_MAX) xs -> ParseCpuList (cpu_text xs) = Ret xs.
Proof.
  intros Hxs. unfold ParseCpuList, cpu_text. rewrite enclosed_yes. cbn [obind]. rewrite strip_enclosed. f_equal.
  destruct xs as [|x xs]; [done|]. apply Forall_cons in Hxs as [Hx Hxs]. unfold comma_list.
  rewrite comma_tokens. cbn [rev app mbind list_bind].
  pose proof (parse_cpu_pretty [] x ltac:(constructor) Hx) as Ex. cbn [app] in Ex. rewrite Ex. cbn [app]. f_equal.
  induction Hxs as [|y xs Hy _ IH]; [done|]. cbn [fmap list_fmap mbind list_bind].
  pose proof (parse_cpu_pretty [" "%char] y ltac:(by repeat constructor) Hy) as Ey. cbn [app] in Ey. rewrite Ey.
  cbn [app]. by f_equal.
Qed.

(** *** Lines *)

Lemma getlines_unlines ls :
  Forall (fun l => NEWLINE ∉ l) ls -> getlines NEWLINE [] (unlines ls) = ls.
Proof.
  induction 1 as [|l ls Hl _ IH]; [done|]. unfold unlines in *. cbn [mbind list_bind].
  rewrite <- app_assoc. cbn [app]. rewrite getlines_line by done. by rewrite IH.
Qed.

Lemma spaces_blank n : Forall (fun c => is_blank c = true) (spaces n).
Proof. by apply Forall_replicate. Qed.

(** A value as it stands in a property line. *)
Definition value_ok (v : text) : Prop := v <> [] /\ trimmed v.

Lemma read_property_line r key v v' c :
  chars key <> [] -> Forall (fun c => 97 <= code c <= 122 \/ code c = 95) (chars key) -> value_ok v ->
  in_nodes_section r = true -> in_node_definition r = true ->
  unquote v = Ret v' -> set_property key v' (current_config r) = Ret (Some c) ->
  read_line (property key v) r = Ret (Some (set_config c r)).
Proof.
  intros Hk Hkc [Hv [Hv1 Hv2]] Hn Hd Hu Hs. unfold read_line.
  assert (Hkeys : forall x, x ∈ chars key -> is_blank x = false /\ x <> ":"%char /\ x <> "#"%char).
  { intros x Hx. rewrite Forall_forall in Hkc. specialize (Hkc x Hx). cbn in Hkc. unfold is_blank.
    rewrite (proj2 (Z.eqb_neq _ 32)), (proj2 (Z.eqb_neq _ 9)) by lia. split; [done|].
    split; intros ->; vm_compute in Hkc; destruct Hkc as [[]|]; done. }
  set (line := chars key ++ ":"%char :: " "%char :: v).
  assert (Ht : trim (property key v) = line).
  { apply trim_trimmed; [apply spaces_blank|]. unfold line. split.
    - destruct (chars key) as [|x k]; [done|]. apply Hkeys. by left.
    - rewrite rev_app_distr. cbn [rev]. rewrite <- !app_assoc. destruct (rev v) as [|x t] eqn:E; [|exact Hv2].
      apply (f_equal (@rev _)) in E. rewrite rev_involutive in E. done. }
  rewrite Ht. cbv zeta.
  assert (Hf : find ":"%char line = Some (chars key, " "%char :: v)).
  { apply find_app. intros Hin. by destruct (Hkeys _ Hin) as (_ & ? & _). }
  assert (Hnn : line <> chars "nodes:").
  { intros E. rewrite E in Hf. cbn in Hf. injection Hf as _ Hv'. done. }
  destruct line as [|x line'] eqn:El; [by destruct (chars key)|].
  assert (Hx : x <> "#"%char).
  { destruct (chars key) as [|y k] eqn:Ek; [done|]. unfold line in El. injection El as -> _. apply Hkeys. by left. }
  rewrite (bool_decide_eq_false_2 _ Hx), (bool_decide_eq_false_2 _ Hnn), Hn, Hd. cbn [negb].
  unfold property. rewrite (starts_with_app (spaces 4)), andb_false_r.
  unfold read_property. rewrite Hf. change (" "%char :: v) with ([" "%char] ++ v).
  rewrite trim_trimmed by (by repeat constructor).
  rewrite Hu. cbn [obind]. by rewrite of_chars_chars, Hs.
Qed.

(** A line that starts a node. *)
Lemma read_node_line r n :
  name_ok n -> in_nodes_section r = true ->
  read_line (spaces 2 ++ chars n ++ [":"%char]) r
  = Ret (Some (Reader (chars n) new_config true true (read_nodes (save_node r)))).
Proof.
  intros ((Ht1 & Ht2) & Hcol & Hnl & Hnn & Hh) Hsec. unfold read_line.
  destruct (chars n) as [|x t] eqn:En; [done|].
  assert (Ht : trim (spaces 2 ++ (x :: t) ++ [":"%char]) = (x :: t) ++ [":"%char]).
  { apply trim_trimmed; [apply spaces_blank|]. split; [exact Ht1|]. rewrite rev_app_distr. done. }
  assert (Hf : find ":"%char ((x :: t) ++ [":"%char]) = Some (x :: t, [])) by (by apply find_app).
  rewrite Ht. cbv zeta. cbn [app] in *. rewrite (bool_decide_eq_false_2 _ Hh).
  rewrite bool_decide_eq_false_2.
  2:{ intros E. apply Hnn. rewrite <- (of_chars_chars n), En. change (chars "nodes:") with (chars "nodes" ++ [":"%char]) in E.
      rewrite app_comm_cons in E. apply app_inj_2 in E as [-> _]; done. }
  rewrite Hsec. cbn [negb]. rewrite Hf.
  assert (Hsp : starts_with (spaces 4) (spaces 2 ++ x :: t ++ [":"%char]) = false).
  { cbn in Ht1. cbn. rewrite !bool_decide_eq_true_2 by done. cbn [andb].
    rewrite bool_decide_eq_false_2; [done|]. intros <-. done. }
  rewrite Hsp, (starts_with_app (spaces 2)). cbn [negb andb].
  f_equal. f_equal. f_equal. unfold save_node. by destruct (_ && _).
Qed.

Lemma quoted_ok s : value_ok (quoted s) /\ unquote (quoted s) = Ret (chars s).
Proof.
  unfold quoted, unquote. rewrite enclosed_yes. cbn [obind]. rewrite strip_enclosed. split; [|done].
  split; [done|]. split; [done|]. rewrite app_comm_cons, rev_app_distr. done.
Qed.

Lemma number_ok (n : Z) : value_ok (chars (pretty n)) /\ unquote (chars (pretty n)) = Ret (chars (pretty n)).
Proof.
  pose proof (pretty_codes n) as [Hc Hne]. split; [split; [done|apply pretty_trimmed]|].
  destruct (chars (pretty n)) as [|c t]; [done|]. apply Forall_cons in Hc as [Hc _].
  unfold unquote. rewrite enclosed_no by (intros ->; vm_compute in Hc; by destruct Hc).
  cbn [obind]. rewrite enclosed_no by (intros ->; vm_compute in Hc; by destruct Hc). done.
Qed.

Lemma cpu_text_ok xs : value_ok (cpu_text xs) /\ unquote (cpu_text xs) = Ret (cpu_text xs).
Proof.
  unfold cpu_text. split.
  - split; [done|]. split; [done|]. rewrite app_comm_cons, rev_app_distr. done.
  - unfold unquote. rewrite enclosed_no by done. cbn [obind]. by rewrite enclosed_no.
Qed.

Ltac key_codes :=
  repeat (apply Forall_cons; split; [first [left; split; by vm_compute|right; reflexivity]|]); apply Forall_nil_2.

Lemma read_node_lines r c rest :
  config_ok c -> in_nodes_section r = true ->
  exists c', with_name (name c) c' = c /\
    read_lines (node_lines c ++ rest) r
    = read_lines rest (Reader (chars (name c)) c' true true (read_nodes (save_node r))).
Proof.
  intros (Hn & Hcpus & Hmem & Htexts) Hsec.
  exists (with_name "" c). split; [by destruct c|].
  unfold node_lines. cbn [app read_lines]. rewrite read_node_line by done. cbn [obind].
  destruct (cpu_text_ok (available_cpus c)) as [Hv1 Hu1]. destruct (number_ok (max_memory_mb c)) as [Hv2 Hu2].
  destruct (quoted_ok (architecture c)) as [Hv3 Hu3]. destruct (quoted_ok (location c)) as [Hv4 Hu4].
  destruct (quoted_ok (description c)) as [Hv5 Hu5].
  erewrite read_property_line;
    [|done|key_codes|exact Hv1|done|done|exact Hu1|unfold set_property; rewrite decide_True by done;
      rewrite (ParseCpuList_print _ Hcpus); reflexivity].
  cbn [obind]. erewrite read_property_line;
    [|done|key_codes|exact Hv2|done|done|exact Hu2|unfold set_property; rewrite decide_False, decide_True by done;
      rewrite (stoi_pretty _ Hmem); reflexivity].
  cbn [obind]. erewrite read_property_line; [|done|key_codes|exact Hv3|done|done|exact Hu3|reflexivity].
  cbn [obind]. erewrite read_property_line; [|done|key_codes|exact Hv4|done|done|exact Hu4|reflexivity].
  cbn [obind]. erewrite read_property_line; [|done|key_codes|exact Hv5|done|done|exact Hu5|reflexivity].
  cbn [obind]. unfold set_config, with_name, new_config. cbn [current_node current_config in_nodes_section
    in_node_definition read_nodes available_cpus max_memory_mb architecture location description name].
  by rewrite !of_chars_chars.
Qed.

Lemma read_file_lines cs r :
  Forall config_ok cs -> in_nodes_section r = true ->
  exists r', read_lines (cs ≫= node_lines) r = Ret (Some r') /\
    read_nodes (save_node r') = foldl (fun m c => <[name c := c]> m) (read_nodes (save_node r)) cs.
Proof.
  intros Hcs. revert r. induction Hcs as [|c cs Hc _ IH]; intros r Hsec; [by exists r|].
  cbn [mbind list_bind]. destruct (read_node_lines r c (cs ≫= node_lines) Hc Hsec) as (c' & Hc' & ->).
  set (r1 := Reader _ _ _ _ _). destruct (IH r1) as (r' & -> & E); [done|]. exists r'. split; [done|].
  rewrite E. cbn [foldl]. f_equal. unfold save_node at 1, r1. cbn [in_node_definition current_node].
  destruct Hc as ((_ & _ & _ & _ & Hne) & _). destruct (chars (name c)) as [|x t] eqn:En; [done|].
  rewrite bool_decide_eq_false_2 by done. cbn [negb andb read_nodes current_config]. rewrite <- En, of_chars_chars.
  by rewrite Hc'.
Qed.

(** *** What the format carries *)

Lemma newline_app l k : NEWLINE ∉ l -> NEWLINE ∉ k -> NEWLINE ∉ l ++ k.
Proof. rewrite elem_of_app. tauto. Qed.

Lemma comma_list_newline xs : NEWLINE ∉ comma_list xs.
Proof.
  assert (Hp : forall y : Z, NEWLINE ∉ chars (pretty y)) by (intros y; apply pretty_not_elem; by left; vm_compute).
  destruct xs as [|x xs]; [apply not_elem_of_nil|]. apply newline_app; [done|].
  induction xs as [|y xs IH]; [apply not_elem_of_nil|]. cbn [mbind list_bind]. apply newline_app; [|done].
  by rewrite !not_elem_of_cons.
Qed.

Lemma property_newline key v : NEWLINE ∉ chars key -> NEWLINE ∉ v -> NEWLINE ∉ property key v.
Proof.
  intros Hk Hv. unfold property. apply newline_app; [intros H%elem_of_replicate_inv; done|].
  apply newline_app; [done|]. by rewrite !not_elem_of_cons.
Qed.

Lemma file_lines_newline cs : Forall config_ok cs -> Forall (fun l => NEWLINE ∉ l) (file_lines cs).
Proof.
  intros Hcs. constructor; [by apply (bool_decide_unpack _); vm_compute|].
  assert (Hq : forall s, NEWLINE ∉ chars s -> NEWLINE ∉ quoted s).
  { intros s Hs. unfold quoted. apply not_elem_of_cons. split; [done|]. apply newline_app; [done|].
    by apply (bool_decide_unpack _); vm_compute. }
  induction Hcs as [|c cs ((_ & _ & Hn & _) & _ & _ & Ht) _ IH]; [constructor|].
  rewrite !Forall_cons in Ht. destruct Ht as (Ha & Hl & Hd & _).
  cbn [mbind list_bind]. apply Forall_app. split; [|done]. unfold node_lines.
  repeat (apply Forall_cons; split); [..|constructor].
  2-6: apply property_newline; [by apply (bool_decide_unpack _); vm_compute|].
  - apply newline_app; [intros H%elem_of_replicate_inv; done|]. apply newline_app; [done|]. by apply (bool_decide_unpack _); vm_compute.
  - unfold cpu_text. apply not_elem_of_cons. split; [done|]. apply newline_app; [apply comma_list_newline|].
    by apply (bool_decide_unpack _); vm_compute.
  - apply pretty_not_elem; by left; vm_compute.
  - by apply Hq.
  - by apply Hq.
  - by apply Hq.
Qed.

(** C29. Configuration round trip: a file in the layout of the shipped
    examples, written for any nodes with distinct names, is read back to
    exactly these nodes: their CPUs in order, memory and texts.  The CPUs the
    scheduler then asks for are those of the file, and [0, 1, 2, 3] for a
    node the file does not name. *)
Theorem LoadFromFile_roundtrip cs m :
  Forall config_ok cs -> NoDup (name <$> cs) -> cs <> [] ->
  exists m', LoadFromFile (Some (unlines (file_lines cs))) m = Ret (Some (m', true)) /\ IsLoaded m' = true /\
    (forall c, c ∈ cs -> GetNodeConfig m' (name c) = Some c /\ GetAvailableCpus m' (name c) = available_cpus c) /\
    (forall n, n ∉ name <$> cs -> GetNodeConfig m' n = None /\ GetAvailableCpus m' n = [0; 1; 2; 3]).
Proof.
  intros Hcs Hnd Hne. unfold LoadFromFile, ParseNodeSection.
  rewrite getlines_unlines by (by apply file_lines_newline). unfold file_lines. cbn [read_lines].
  set (r0 := Reader [] new_config false false ∅).
  assert (E0 : read_line (chars "nodes:") r0 = Ret (Some (Reader [] new_config true false ∅))) by reflexivity.
  rewrite E0. cbn [obind].
  destruct (read_file_lines cs (Reader [] new_config true false ∅)) as (r & -> & Er); [done|done|].
  cbn [obind]. rewrite Er. unfold save_node. cbn [in_node_definition andb read_nodes].
  set (ns := foldl _ ∅ cs).
  assert (Hns : (forall c, c ∈ cs -> ns !! name c = Some c) /\ (forall n, n ∉ name <$> cs -> ns !! n = None)).
  { unfold ns. clear -Hnd. induction cs as [|c cs IH] using rev_ind; [split; [set_solver|done]|].
    rewrite fmap_app, NoDup_app in Hnd. destruct Hnd as (Hnd & Hd & _). destruct (IH Hnd) as [IH1 IH2].
    rewrite foldl_app. cbn [foldl]. split.
    - intros c' [Hc'| ->%list_elem_of_singleton]%elem_of_app; [|by rewrite lookup_insert_eq].
      rewrite lookup_insert_ne; [by apply IH1|]. intros E. apply (Hd (name c')).
      + apply list_elem_of_fmap. by exists c'.
      + cbn. rewrite E. by left.
    - intros n Hn. rewrite fmap_app, not_elem_of_app in Hn. destruct Hn as [Hn1 Hn2].
      rewrite lookup_insert_ne; [by apply IH2|]. intros <-. apply Hn2. by left. }
  destruct Hns as [Hin Hout]. rewrite decide_False.
  2:{ intros E. destruct cs as [|c cs']; [done|]. specialize (Hin c ltac:(by left)). rewrite E, lookup_empty in Hin. done. }
  eexists. split; [reflexivity|]. split; [done|]. unfold GetAvailableCpus, GetNodeConfig. cbn [nodes].
  split; intros x Hx; [rewrite (Hin x Hx)|rewrite (Hout x Hx)]; done.
Qed.

Definition node01 : NodeConfig :=
  (Node "node01" [2; 3] 4096 "aarch64" "front_sensor_unit" "Autonomous driving: perception")%string.
Lemma LoadFromFile_roundtrip_witness :
  exists m', LoadFromFile (Some (unlines (file_lines [node01]))) new_manager = Ret (Some (m', true)) /\
    GetNodeConfig m' "node01"%string = Some node01 /\ GetAvailableCpus m' "other"%string = [0; 1; 2; 3].
Proof.
  destruct (LoadFromFile_roundtrip [node01] new_manager) as (m' & E & _ & Hin & Hout).
  - apply Forall_cons. split; [|constructor]. split_and!.
    + repeat split; by (apply (bool_decide_unpack _); vm_compute).
    + repeat (apply Forall_cons; split; [by vm_compute|]). constructor.
    + by vm_compute.
    + by vm_compute.
    + repeat (apply Forall_cons; split; [by apply (bool_decide_unpack _); vm_compute|]). constructor.
  - apply NoDup_singleton.
  - done.
  - exists m'. split; [exact E|]. split; [apply (Hin node01); by left|].
    apply (Hout "other"%string). by apply (bool_decide_unpack _); vm_compute.
Defined.

(** A property without a value reads the front of an empty string. *)
Lemma empty_value_undefined :
  LoadFromFile (Some (unlines [chars "nodes:"; chars "  n:"; chars "    location:"]%string)) new_manager = UB.
Proof. vm_compute. reflexivity. Qed.

(** A memory size that is not a number ends the program with an exception. *)
Lemma bad_memory_throws :
  LoadFromFile (Some (unlines [chars "nodes:"; chars "  n:"; chars "    max_memory_mb: 4GB"; chars "    max_memory_mb: lots"]%string))
    new_manager = Ret None.
Proof. vm_compute. reflexivity. Qed.

(** A node called "nodes" is taken for the section header. *)
Lemma node_called_nodes_lost :
  (exists m', LoadFromFile (Some (unlines [chars "nodes:"; chars "  nodes:"; chars "    available_cpus: [5]"]%string)) new_manager
    = Ret (Some (m', true)) /\ GetAvailableCpus m' "nodes"%string = [0; 1; 2; 3]).
Proof. eexists. split; [vm_compute; reflexivity|reflexivity]. Qed.
