(* ===== verification/Messages.v ===== *)
(** * timpani-o/proto/node_control.proto: the messages between the two daemons

    The records the generated classes hold; a [oneof] is an inductive type
    with a case for the field that is not set.  [repeated] fields are lists,
    [string] fields [string]s. *)
From stdpp Require Import prelude gmap strings list.
From Stdlib Require Import ZArith.
Local Open Scope Z_scope.

(** ** Schedule tables *)

Inductive ExecutionModel := TIME_TRIGGERED | EVENT_DRIVEN | DATA_FLOW.

Record TtSlot := TtSlot_ {
  m_workload : string; m_task : string; m_offset : Z; m_duration : Z; m_deadline : Z; m_cpu : Z;
  m_limit : Z; m_workload_hash : Z; m_task_hash : Z }.
Record CbsConfig := CbsConfig_ {
  b_workload : string; b_task : string; b_budget : Z; b_period : Z; b_deadline : Z; b_limit : Z;
  b_workload_hash : Z; b_task_hash : Z }.

Record LayerConfig := Layer {
  layer_index : Z; model : ExecutionModel; l_tt_slots : list TtSlot; l_cbs_entries : list CbsConfig }.
Record CpuSetSpec := CpuSet { cpus : list Z; isolated : bool }.

(** [cpuset] is [None] when the field is not set. *)
Record PartitionConfig := Partition {
  partition_id : string; cpuset : option CpuSetSpec; layers : list LayerConfig }.
Record HierarchicalScheduleTable := Table {
  table_id : string; node_id : string; hyperperiod_us : Z; epoch_ns : Z;
  partitions : list PartitionConfig }.

(** All slots and entries of a table, in order. *)
Definition table_layers (t : HierarchicalScheduleTable) : list LayerConfig := partitions t ≫= layers.
Definition table_slots (t : HierarchicalScheduleTable) : list TtSlot := table_layers t ≫= l_tt_slots.
Definition table_entries (t : HierarchicalScheduleTable) : list CbsConfig := table_layers t ≫= l_cbs_entries.

(** ** Updates, which no handler reads *)

Inductive ScheduleTableUpdate_update :=
  | update_add (new_partitions : list PartitionConfig)
  | update_remove (workload_ids : list string)
  | update_modify (modified_partitions : list PartitionConfig)
  | update_not_set.
Record ScheduleTableUpdate := Update { up_table_id : string; update : ScheduleTableUpdate_update }.

(** ** From the orchestrator to a node *)

Inductive RecoveryAction := ACTION_STOP | ACTION_RESTART.
Record RecoverySignal := Recovery { r_workload : string; action : RecoveryAction }.

Inductive ControlCommand :=
  | full_table (t : HierarchicalScheduleTable)
  | table_update (u : ScheduleTableUpdate)
  | shutdown (grace_period_ms : Z)
  | recovery (r : RecoverySignal)
  | command_not_set.

(** ** From a node to the orchestrator *)

Inductive FaultType := UNKNOWN | DMISS | BUDGET_EXCEED | WATCHDOG.
Record FaultInfo := Fault {
  f_workload : string; f_task : string; f_node : string; fault_type : FaultType; timestamp_ns : Z;
  f_dmiss_count : Z; f_workload_hash : Z; f_task_hash : Z; f_limit : Z }.

(** The fields that are set; the others keep their default. *)
Record NodeReady := Ready {
  cpu_count : Z; memory_mb : Z; kernel_version : string; preempt_rt : bool; sched_ext : bool }.

Inductive NodeEvent_event :=
  | ready (r : NodeReady)
  | status (active_workloads : Z)
  | fault (f : FaultInfo)
  | applied (table_id : string) (success : bool) (error : string)
  | event_not_set.
Record NodeEvent := Event { ev_node : string; event : NodeEvent_event }.

#[export] Instance FaultType_eq_dec : EqDecision FaultType.
Proof. solve_decision. Defined.
#[export] Instance ExecutionModel_eq_dec : EqDecision ExecutionModel.
Proof. solve_decision. Defined.
#[export] Instance TtSlot_eq_dec : EqDecision TtSlot.
Proof. solve_decision. Defined.
#[export] Instance CbsConfig_eq_dec : EqDecision CbsConfig.
Proof. solve_decision. Defined.
#[export] Instance LayerConfig_eq_dec : EqDecision LayerConfig.
Proof. solve_decision. Defined.
#[export] Instance CpuSetSpec_eq_dec : EqDecision CpuSetSpec.
Proof. solve_decision. Defined.
#[export] Instance PartitionConfig_eq_dec : EqDecision PartitionConfig.
Proof. solve_decision. Defined.
#[export] Instance HierarchicalScheduleTable_eq_dec : EqDecision HierarchicalScheduleTable.
Proof. solve_decision. Defined.
#[export] Instance RecoveryAction_eq_dec : EqDecision RecoveryAction.
Proof. solve_decision. Defined.
