(* ===== verification/NodeClient.v ===== *)
(** * timpani-n/src/grpc/node_client.cpp: the node's stream to the orchestrator

    A session is what one [NodeStream] hands over: the commands [Read] returns
    before it fails or the client is stopped.  The callbacks work on a state
    of their own, which contains the client ([HasClient]): they may send
    events.  An exception in a callback is [None].  [Write] calls are recorded
    in order; the code ignores their result. *)
From stdpp Require Import prelude gmap strings list.
From Stdlib Require Import ZArith Lia.
From S2P Require Import Prelude Text Messages.
Local Open Scope Z_scope.

(** ** The client *)

Record client := Client {
  server_address_ : string;
  node_id_ : string;
  running_ : bool;
  connected_ : bool;
  stream_ : bool;
  written : list NodeEvent;
}.

(** [hostname] is what [gethostname] leaves in the buffer, if it succeeds. *)
Definition NodeClient (server_address node_id_override : string) (hostname : option string) : client :=
  let id := if decide (node_id_override <> ""%string) then node_id_override
            else match hostname with
                 | Some h => if decide (h <> ""%string) then h else "unknown-node"%string
                 | None => "unknown-node"%string
                 end in
  Client server_address id false false false [].

Definition set_running (r : bool) (c : client) : client :=
  Client (server_address_ c) (node_id_ c) r (connected_ c) (stream_ c) (written c).
Definition set_connected (b : bool) (c : client) : client :=
  Client (server_address_ c) (node_id_ c) (running_ c) b (stream_ c) (written c).
(** [stream_ = stub_->NodeStream(...); connected_ = true] *)
Definition open_stream (c : client) : client :=
  Client (server_address_ c) (node_id_ c) (running_ c) true true (written c).
Definition write (e : NodeEvent) (c : client) : client :=
  Client (server_address_ c) (node_id_ c) (running_ c) (connected_ c) (stream_ c) (written c ++ [e]).

Definition connect (c : client) : client := set_running true c.
(** [disconnect] joins the thread. *)
Definition disconnect (c : client) : client := set_running false c.

Definition send (e : NodeEvent_event) (c : client) : client :=
  if negb (connected_ c) then c
  else if stream_ c then write (Event (node_id_ c) e) c else c.

(** [cpu_count] is [hardware_concurrency()], [release] what [uname] gives. *)
Definition send_ready (cpu_count : Z) (release : string) : client -> client :=
  send (ready (Ready cpu_count 4096 release false false)).
Definition send_status : client -> client := send (status 1).
Definition send_fault (f : FaultInfo) : client -> client := send (fault f).
Definition send_table_applied (table_id : string) (success : bool) (error : string) : client -> client :=
  send (applied table_id success error).

(** ** The stream thread *)

(** What the callbacks' state promises: the client is a part of it. *)
Class HasClient (S : Type) := {
  client_of : S -> client;
  on_client : (client -> client) -> S -> S;
  client_of_on : forall f s, client_of (on_client f s) = f (client_of s);
}.

(** A callback that is not set is [None]. *)
Record callbacks (S : Type) := Callbacks {
  table_callback_ : option (HierarchicalScheduleTable -> S -> option S);
  update_callback_ : option (ScheduleTableUpdate -> S -> option S);
  shutdown_callback_ : option (Z -> S -> option S);
  recovery_callback_ : option (RecoverySignal -> S -> option S);
}.
Arguments Callbacks {S}.
Arguments table_callback_ {S}.
Arguments update_callback_ {S}.
Arguments shutdown_callback_ {S}.
Arguments recovery_callback_ {S}.

(** [running_] after the last [Read], and after the pause that follows. *)
Record session := Session {
  commands : list ControlCommand;
  running_after : bool;
  running_later : bool;
}.

Section Stream.
Context {S : Type} `{!HasClient S} (cb : callbacks S) (cpu_count : Z) (release : string).

Definition call {A} (f : option (A -> S -> option S)) (a : A) (s : S) : option S :=
  match f with Some f => f a s | None => Some s end.

(** The body of the inner loop. *)
Definition dispatch (s : S) (command : ControlCommand) : option S :=
  match command with
  | full_table t => call (table_callback_ cb) t s
  | table_update u => call (update_callback_ cb) u s
  | shutdown g => call (shutdown_callback_ cb) g s
  | recovery r => call (recovery_callback_ cb) r s
  | command_not_set => Some s
  end.

Definition run_session (ses : session) (s : S) : option S :=
  let s := on_client open_stream s in
  let s := on_client (send_ready cpu_count release) s in
  s ← fold_opt dispatch s (commands ses);
  Some (on_client (set_connected false) s).

(** The new state and the pauses in seconds; without further sessions the
    thread is still in its last pause. *)
Fixpoint reconnect (sessions : list session) (backoff : Z) (s : S) : option (S * list Z) :=
  match sessions with
  | [] => Some (s, [])
  | ses :: sessions =>
      s ← run_session ses s;
      let backoff := match commands ses with [] => backoff | _ :: _ => 1 end in
      if negb (running_after ses) then Some (s, []) else
      '(s, pauses) ← (if running_later ses then reconnect sessions (Z.min (backoff * 2) 30) s
                      else Some (s, []));
      Some (s, backoff :: pauses)
  end.
Definition reconnect_loop (sessions : list session) (s : S) : option (S * list Z) := reconnect sessions 1 s.

(** ** Properties *)

(** The pauses of a client that is not stopped: they depend on the sessions
    only by whether a command was read. *)
Fixpoint pauses_of (sessions : list session) (backoff : Z) : list Z :=
  match sessions with
  | [] => []
  | ses :: sessions =>
      let backoff := match commands ses with [] => backoff | _ :: _ => 1 end in
      backoff :: pauses_of sessions (Z.min (backoff * 2) 30)
  end.

Definition goes_on (ses : session) : Prop := running_after ses = true /\ running_later ses = true.

Lemma reconnect_runs sessions b s :
  Forall goes_on sessions ->
  reconnect sessions b s =
    (fun s => (s, pauses_of sessions b)) <$> fold_opt (fun s ses => run_session ses s) s sessions.
Proof.
  intros Hs. revert b s. induction Hs as [|ses sessions [Ha Hl] Hs IH]; intros b s; [done|].
  cbn [reconnect fold_opt pauses_of]. destruct (run_session ses s) as [s1|]; [|done]. cbn [mbind option_bind].
  rewrite Ha, Hl. cbn [negb]. rewrite IH.
  by destruct (fold_opt (fun s ses => run_session ses s) s1 sessions).
Qed.

(** Doubling [k] times. *)
Lemma pauses_quiet sessions b i :
  (forall j ses, (j <= i)%nat -> sessions !! j = Some ses -> commands ses = []) ->
  (i < length sessions)%nat -> 1 <= b <= 30 ->
  pauses_of sessions b !! i = Some (Z.min (b * 2 ^ Z.of_nat i) 30).
Proof.
  revert b i. induction sessions as [|ses sessions IH]; intros b i Hq Hi Hb; [cbn in Hi; lia|].
  cbn [pauses_of]. rewrite (Hq 0%nat ses) by (done || lia). destruct i as [|i].
  { cbn [lookup list_lookup]. f_equal. lia. }
  cbn [lookup list_lookup]. rewrite IH.
  - f_equal. rewrite Nat2Z.inj_succ, Z.pow_succ_r by lia.
    assert (1 <= 2 ^ Z.of_nat i) by (pose proof (Z.pow_pos_nonneg 2 (Z.of_nat i)); lia). nia.
  - intros j ses' Hj Hl. apply (Hq (Datatypes.S j)); [lia|done].
  - cbn in Hi. lia.
  - lia.
Qed.

(** The pause after session [i]: doubled for every session without a command
    since the last one with a command, or since the first. *)
Lemma pauses_since sessions b i j :
  (j <= i < length sessions)%nat ->
  (forall k ses, (j < k <= i)%nat -> sessions !! k = Some ses -> commands ses = []) ->
  (j = 0%nat /\ b = 1 \/ exists ses, sessions !! j = Some ses /\ commands ses <> []) ->
  pauses_of sessions b !! i = Some (Z.min (2 ^ Z.of_nat (i - j)) 30).
Proof.
  revert b i j. induction sessions as [|ses sessions IH]; intros b i j [Hji Hi] Hq Hj; [cbn in Hi; lia|].
  cbn [pauses_of]. destruct j as [|j].
  - set (b' := match commands ses with [] => b | _ :: _ => 1 end).
    assert (b' = 1) as ->.
    { unfold b'. destruct Hj as [[_ ->]|(x & [= ->] & Hne)]; by destruct (commands _). }
    destruct i as [|i]; [done|]. cbn [lookup list_lookup]. rewrite pauses_quiet.
    + f_equal. replace (Datatypes.S i - 0)%nat with (Datatypes.S i) by lia.
      rewrite Nat2Z.inj_succ, Z.pow_succ_r by lia.
      assert (1 <= 2 ^ Z.of_nat i) by (pose proof (Z.pow_pos_nonneg 2 (Z.of_nat i)); lia). lia.
    + intros k ses' Hk Hl. apply (Hq (Datatypes.S k)); [lia|done].
    + cbn in Hi. lia.
    + lia.
  - destruct i as [|i]; [lia|]. cbn [lookup list_lookup]. rewrite (IH _ i j).
    + do 4 f_equal.
    + cbn in Hi. lia.
    + intros k ses' Hk Hl. apply (Hq (Datatypes.S k)); [lia|done].
    + right. destruct Hj as [[? _]|(x & Hx & Hne)]; [done|]. by exists x.
Qed.

Lemma reconnect_one ses s s' : run_session ses s = Some s' -> exists pauses, reconnect_loop [ses] s = Some (s', pauses).
Proof.
  intros E. unfold reconnect_loop. cbn [reconnect]. rewrite E. cbn [mbind option_bind].
  destruct (running_after ses), (running_later ses); cbn; eauto.
Qed.

Lemma fold_total {A B} (f : A -> B -> option A) l :
  (forall a b, is_Some (f a b)) -> forall a, is_Some (fold_opt f a l).
Proof. intros Hf. induction l as [|b l IH]; intros a; cbn [fold_opt]; [done|]. destruct (Hf a b) as [a' ->]. apply IH. Qed.

(** A session starts with the ready event, the client being connected. *)
Lemma session_starts_ready ses s :
  let opened := on_client (send_ready cpu_count release) (on_client open_stream s) in
  written (client_of opened) =
    written (client_of s) ++ [Event (node_id_ (client_of s)) (ready (Ready cpu_count 4096 release false false))] /\
  connected_ (client_of opened) = true /\
  run_session ses s = on_client (set_connected false) <$> fold_opt dispatch opened (commands ses).
Proof. cbv zeta. rewrite !client_of_on. split_and!; [done|done|]. unfold run_session. by destruct (fold_opt _ _ _). Qed.

(** C33. The stream thread of a client that is not stopped, with callbacks that
    do not throw: it goes through the sessions one after the other, and
    each announces the node before the callbacks see its commands, in their
    order.  The pause after session [i] is one second if the session had a
    command or is the first, and doubles for each session without one that
    follows, up to 30 seconds. *)
Theorem stream_thread_reconnects sessions s :
  Forall goes_on sessions -> (forall s c, is_Some (dispatch s c)) ->
  exists s' pauses, reconnect_loop sessions s = Some (s', pauses) /\
    length pauses = length sessions /\
    (forall i j, (j <= i < length sessions)%nat ->
       (j = 0%nat \/ exists ses, sessions !! j = Some ses /\ commands ses <> []) ->
       (forall k ses, (j < k <= i)%nat -> sessions !! k = Some ses -> commands ses = []) ->
       pauses !! i = Some (Z.min (2 ^ Z.of_nat (i - j)) 30)) /\
    (forall i ses, sessions !! i = Some ses -> exists si opened s'',
       fold_opt (fun s ses => run_session ses s) s (take i sessions) = Some si /\
       written (client_of opened) =
         written (client_of si) ++ [Event (node_id_ (client_of si)) (ready (Ready cpu_count 4096 release false false))] /\
       fold_opt dispatch opened (commands ses) = Some s'' /\
       connected_ (client_of opened) = true /\ run_session ses si = Some (on_client (set_connected false) s'')).
Proof.
  intros Hs Hd. unfold reconnect_loop. rewrite reconnect_runs by done.
  assert (Hrun : forall s ses, is_Some (run_session ses s)).
  { intros s0 ses. destruct (session_starts_ready ses s0) as (_ & _ & ->).
    destruct (fold_total dispatch (commands ses) Hd (on_client (send_ready cpu_count release) (on_client open_stream s0)))
      as [x ->]. by eexists. }
  destruct (fold_total _ sessions Hrun s) as [s' ->]. exists s', (pauses_of sessions 1). split_and!; [done| | |].
  - clear. generalize 1. induction sessions as [|ses sessions IH]; intros b; cbn [pauses_of length]; [done|]. by rewrite IH.
  - intros i j Hij Hj Hq. apply pauses_since; [done|done|]. destruct Hj as [->|Hj]; auto.
  - intros i ses Hi. destruct (fold_total _ (take i sessions) Hrun s) as [si Hsi].
    destruct (session_starts_ready ses si) as (Hw & Hc & Hr).
    destruct (fold_total dispatch (commands ses) Hd (on_client (send_ready cpu_count release) (on_client open_stream si)))
      as [s'' Hs'']. rewrite Hs'' in Hr. eauto 10.
Qed.
End Stream.

#[export] Program Instance client_has_client : HasClient client := {| client_of c := c; on_client f c := f c |}.
Next Obligation. done. Qed.

Definition example_callbacks : callbacks client :=
  Callbacks (Some (fun t c => Some (send_table_applied (table_id t) true ""%string c))) None (Some (fun _ c => Some c)) None.
Definition example_sessions : list session :=
  [Session [] true true; Session [] true true;
   Session [full_table (Table "t"%string "n"%string 1000 0 []); command_not_set] true true; Session [] true true].

Lemma stream_thread_reconnects_witness :
  exists s', reconnect_loop example_callbacks 8 "6.8"%string example_sessions (NodeClient "o"%string "n"%string None)
             = Some (s', [1; 2; 1; 2]) /\ (length (written s') = 5)%nat.
Proof.
  destruct (stream_thread_reconnects example_callbacks 8 "6.8"%string example_sessions (NodeClient "o"%string "n"%string None))
    as (s' & pauses & E & _).
  - repeat constructor.
  - by intros s [].
  - exists s'. split; [|by vm_compute in E; injection E as <- _].
    rewrite E. f_equal. by vm_compute in E; injection E as _ <-.
Defined.

(** What a fault report becomes while the stream is down: nothing. *)
Lemma disconnected_drops e c : connected_ c = false -> send e c = c.
Proof. intros H. unfold send. by rewrite H. Qed.
