(* ===== verification/GlobalScheduler.v ===== *)
(** * timpani-o/src/global_scheduler.cpp: the schedule generator

    The five-step pipeline that turns classified tasks into the table of a
    node.  Strings are [string]; utilizations are doubles; [uint32_t] and
    [uint64_t] arithmetic wraps as in the source.  The generated protobuf
    messages are the records of the last section.  Texts of errors and logs
    are left out.  [UB] stands for a search that does not end. *)
From stdpp Require Import prelude gmap strings list sorting pretty.
From Stdlib Require Import ZArith SpecFloat Lia.
From Stdlib Require String Ascii.
From S2P Require Import Prelude Floats Text Messages.
Local Open Scope Z_scope.
Local Open Scope c_scope.

(** ** Tasks and schedules *)

Inductive Mechanism := TT | CBS.
#[export] Instance Mechanism_eq_dec : EqDecision Mechanism.
Proof. solve_decision. Defined.

Record ClassifiedTask := Task {
  workload_id : string;
  task_id : string;
  mechanism : Mechanism;
  period_us : Z;
  wcet_us : Z;
  deadline_us : Z;
  max_dmiss : Z;
  assigned_cpu : Z;
}.

Definition assign_cpu (cpu : Z) (t : ClassifiedTask) : ClassifiedTask :=
  Task (workload_id t) (task_id t) (mechanism t) (period_us t) (wcet_us t) (deadline_us t)
    (max_dmiss t) cpu.

Record TtSlotPlacement := Slot {
  s_workload : string; s_task : string; offset_us : Z; duration_us : Z; s_deadline : Z;
  s_max_dmiss : Z; s_cpu : Z }.

Record GapInterval := Gap { start_us : Z; end_us : Z; length_us : Z }.

Record CbsAllocation := Cbs {
  c_workload : string; c_task : string; budget_us : Z; c_period : Z; c_deadline : Z;
  c_max_dmiss : Z; c_cpu : Z }.

Inductive InfeasibleReason :=
  | NonHarmonicPeriod | TtSlotConflict | NoCbsBandwidth | SafetyCbsExceeded | NoCbsCpu
  | UtilizationExceeded.

Record InfeasibleError := Infeasible { reason : InfeasibleReason; err_cpu : Z; err_task : string }.

Record PerCpuSchedule := PerCpu {
  tt_slots : list TtSlotPlacement;
  gaps : list GapInterval;
  cbs_allocations : list CbsAllocation;
  u_tt : spec_float;
  u_cbs : spec_float;
}.

Definition zero : spec_float := S754_zero false.
Definition empty_schedule : PerCpuSchedule := PerCpu [] [] [] zero zero.

Definition U_OVERHEAD : spec_float := S754_finite false 5764607523034235 (-58).  (* 0.02 *)
Definition U_BOUND : spec_float := S754_finite false 7205759403792794 (-53).     (* 0.80 *)

(** ** Mathematics *)

(** [gcd]: the loop, with fuel; 129 turns are enough for 64-bit numbers. *)
Fixpoint gcd_loop (fuel : nat) (a b : Z) : option Z :=
  match fuel with
  | O => None
  | S fuel => if b =? 0 then Some a else gcd_loop fuel b (a mod b)
  end.
Definition gcd (a b : Z) : Z := default 0 (gcd_loop 129 a b).

Definition lcm (a b : Z) : Z := if (a =? 0) || (b =? 0) then 0 else u64 (a / gcd a b * b).

Definition calculate_hyperperiod (periods : list Z) : Z :=
  match periods with
  | [] => 0
  | p :: ps => foldl lcm p ps
  end.

(** The nested loops over the sorted distinct periods. *)
Fixpoint pairs_divide (l : list Z) : bool :=
  match l with
  | [] => true
  | x :: l => forallb (fun y => y mod x =? 0) l && pairs_divide l
  end.

Definition validate_harmonic (periods : list Z) : bool :=
  if (length periods <=? 1)%nat then true
  else pairs_divide (merge_sort Z.le (elements (list_to_set periods : gset Z))).

Fixpoint fnv_loop (hash : Z) (s : list Z) : Z :=
  match s with
  | [] => hash
  | c :: s => if c =? 0 then hash else fnv_loop (u64 (Z.lxor hash c * 1099511628211)) s
  end.
Definition fnv1a_hash (s : string) : Z := fnv_loop 14695981039346656037 (bytes_of s).

(** ** Utilizations *)

Definition ratio (wcet period : Z) : spec_float := Dbl.div (Dbl.of_Z wcet) (Dbl.of_Z period).
Definition util (t : ClassifiedTask) : spec_float :=
  if 0 <? period_us t then ratio (wcet_us t) (period_us t) else zero.

(** ** Step 2: CPUs *)

(** [tt_workload_groups[tt_tasks[i].workload_id].push_back(i)] for each [i]. *)
Definition workload_groups (tts : list ClassifiedTask) : gmap string (list nat) :=
  foldl (fun m (it : nat * ClassifiedTask) =>
           <[workload_id it.2 := default [] (m !! workload_id it.2) ++ [it.1]]> m)
    ∅ (imap pair tts).

Definition add_u_tt (u : spec_float) (s : PerCpuSchedule) : PerCpuSchedule :=
  PerCpu (tt_slots s) (gaps s) (cbs_allocations s) (Dbl.add (u_tt s) u) (u_cbs s).
Definition add_u_cbs (u : spec_float) (s : PerCpuSchedule) : PerCpuSchedule :=
  PerCpu (tt_slots s) (gaps s) (cbs_allocations s) (u_tt s) (Dbl.add (u_cbs s) u).

(** The loop over the TT workloads. *)
Fixpoint assign_tt (cpus : list Z) (groups : list (string * list nat)) (cpu_idx : nat)
    (tts : list ClassifiedTask) (m : gmap Z PerCpuSchedule)
  : list ClassifiedTask * gmap Z PerCpuSchedule :=
  match groups with
  | [] => (tts, m)
  | (_, idxs) :: groups =>
      let cpu_idx := if (length cpus <=? cpu_idx)%nat then (length cpus - 1)%nat else cpu_idx in
      let cpu := nth cpu_idx cpus 0 in
      let tts := foldl (fun tts i => alter (assign_cpu cpu) i tts) tts idxs in
      let wl_util := foldl (fun u i => match tts !! i with
                                       | Some t => if 0 <? period_us t then Dbl.add u (util t) else u
                                       | None => u
                                       end) zero idxs in
      assign_tt cpus groups (S cpu_idx) tts (alter (add_u_tt wl_util) cpu m)
  end.

Definition residual (s : PerCpuSchedule) : spec_float :=
  Dbl.sub (Dbl.sub (Dbl.sub U_BOUND (u_tt s)) (u_cbs s)) U_OVERHEAD.

(** The CPU with most residual capacity: [-1] when none has enough. *)
Definition best_cpu (cpus : list Z) (us : spec_float) (m : gmap Z PerCpuSchedule) : Z :=
  (foldl (fun (best : Z * spec_float) cpu =>
            let r := residual (default empty_schedule (m !! cpu)) in
            if SFleb us r && SFltb best.2 r then (cpu, r) else best)
     (-1, Dbl.of_Z (-1)) cpus).1.

(** The loop over the CBS tasks; [None] is the return of [false]. *)
Fixpoint assign_cbs (cpus : list Z) (idxs : list nat) (cbss : list ClassifiedTask)
    (m : gmap Z PerCpuSchedule) : option (list ClassifiedTask * gmap Z PerCpuSchedule) :=
  match idxs with
  | [] => Some (cbss, m)
  | i :: idxs =>
      match cbss !! i with
      | None => assign_cbs cpus idxs cbss m
      | Some t =>
          let us := util t in
          let best := best_cpu cpus us m in
          if best <? 0 then None
          else assign_cbs cpus idxs (alter (assign_cpu best) i cbss) (alter (add_u_cbs us) best m)
      end
  end.

(** [available] is what the node configuration gives, [[]] without one. *)
Definition usable_cpus (available : list Z) : list Z :=
  match available with [] => [2; 3] | _ => available end.

Section Scheduler.
Context `{!StdSort}.

Definition assign_cpus (available : list Z) (tts cbss : list ClassifiedTask)
  : option (list ClassifiedTask * list ClassifiedTask * gmap Z PerCpuSchedule) :=
  let cpus := std_sort id (usable_cpus available) in
  let m := foldl (fun m cpu => <[cpu := empty_schedule]> m) ∅ cpus in
  let '(tts, m) := assign_tt cpus (ascending string_le (workload_groups tts)) 0 tts m in
  let lt a b := match cbss !! a, cbss !! b with
                | Some x, Some y => SFltb (util y) (util x)
                | _, _ => false
                end in
  match assign_cbs cpus (std_sort_lt lt (seq 0 (length cbss))) cbss m with
  | None => None
  | Some (cbss, m) => Some (tts, cbss, m)
  end.

(** ** Step 3: TT slots *)

(** The occupied intervals are [start, end). *)
Definition conflict (candidate duration : Z) (occ : Z * Z) : bool :=
  (candidate <? occ.2) && (occ.1 <? u32 (candidate + duration)).

Fixpoint find_free_slot (fuel : nat) (occupied : list (Z * Z)) (candidate duration deadline_end : Z)
  : outcome Z :=
  if u32 (candidate + duration) <=? deadline_end then
    match List.find (conflict candidate duration) occupied with
    | None => Ret (to_signed 32 candidate)
    | Some occ =>
        match fuel with
        | O => UB
        | S fuel => find_free_slot fuel occupied occ.2 duration deadline_end
        end
    end
  else Ret (-1).

(** The frame of job [k]. *)
Definition frame_start (t : ClassifiedTask) (k : nat) : Z := u32 (u64 (Z.of_nat k * period_us t)).
Definition frame_end (t : ClassifiedTask) (hp : Z) (k : nat) : Z :=
  let e := u32 (frame_start t k + deadline_us t) in
  if hp <? e then u32 hp else e.

Definition place_slot (cpu : Z) (t : ClassifiedTask) (offset : Z) : TtSlotPlacement :=
  Slot (workload_id t) (task_id t) (u32 offset) (wcet_us t) (deadline_us t) (max_dmiss t) cpu.

Definition interval (s : TtSlotPlacement) : Z * Z := (offset_us s, u32 (offset_us s + duration_us s)).

(** The jobs one after the other; slots and occupied intervals grow together. *)
Fixpoint place_jobs (cpu hp : Z) (t : ClassifiedTask) (ks : list nat)
    (slots : list TtSlotPlacement) (occupied : list (Z * Z))
  : outcome (InfeasibleError + list TtSlotPlacement * list (Z * Z)) :=
  match ks with
  | [] => Ret (inr (slots, occupied))
  | k :: ks =>
      o <-c find_free_slot (length occupied) occupied (frame_start t k) (wcet_us t) (frame_end t hp k);
      if o <? 0 then Ret (inl (Infeasible TtSlotConflict cpu (task_id t)))
      else
        let s := place_slot cpu t o in
        place_jobs cpu hp t ks (slots ++ [s]) (occupied ++ [interval s])
  end.

Fixpoint place_tasks (cpu hp : Z) (ts : list ClassifiedTask)
    (slots : list TtSlotPlacement) (occupied : list (Z * Z))
  : outcome (InfeasibleError + list TtSlotPlacement) :=
  match ts with
  | [] => Ret (inr slots)
  | t :: ts =>
      if period_us t =? 0 then place_tasks cpu hp ts slots occupied else
      r <-c place_jobs cpu hp t (seq 0 (Z.to_nat (hp / period_us t))) slots occupied;
      match r with
      | inl e => Ret (inl e)
      | inr (slots, occupied) => place_tasks cpu hp ts slots occupied
      end
  end.

Definition with_slots (s : PerCpuSchedule) (l : list TtSlotPlacement) : PerCpuSchedule :=
  PerCpu l (gaps s) (cbs_allocations s) (u_tt s) (u_cbs s).

Definition place_tt_slots (cpu : Z) (tts : list ClassifiedTask) (hp : Z) (sched : PerCpuSchedule)
  : outcome (InfeasibleError + PerCpuSchedule) :=
  if hp =? 0 then Ret (inl (Infeasible TtSlotConflict cpu ""%string)) else
  r <-c place_tasks cpu hp (std_sort deadline_us tts) (tt_slots sched) [];
  match r with
  | inl e => Ret (inl e)
  | inr slots => Ret (inr (with_slots sched (std_sort offset_us slots)))
  end.

(** ** Step 4: gaps and budgets *)

Fixpoint gaps_from (cursor : Z) (slots : list TtSlotPlacement) (hp : Z) : list GapInterval :=
  match slots with
  | [] => if cursor <? u32 hp then [Gap cursor (u32 hp) (u32 (u32 hp - cursor))] else []
  | s :: slots =>
      let g := if cursor <? offset_us s
               then [Gap cursor (offset_us s) (u32 (offset_us s - cursor))] else [] in
      let slot_end := u32 (offset_us s + duration_us s) in
      g ++ gaps_from (if cursor <? slot_end then slot_end else cursor) slots hp
  end.
Definition compute_gaps (slots : list TtSlotPlacement) (hp : Z) : list GapInterval := gaps_from 0 slots hp.

Definition place_cbs (cpu : Z) (t : ClassifiedTask) : CbsAllocation :=
  Cbs (workload_id t) (task_id t) (wcet_us t) (period_us t) (deadline_us t) (max_dmiss t) cpu.

Fixpoint allocate_loop (cpu : Z) (u_avail u_alloc : spec_float) (ts : list ClassifiedTask)
    (allocs : list CbsAllocation) : InfeasibleError + list CbsAllocation * spec_float :=
  match ts with
  | [] => inr (allocs, u_alloc)
  | t :: ts =>
      let us := util t in
      if SFltb u_avail (Dbl.add u_alloc us) then inl (Infeasible SafetyCbsExceeded cpu (task_id t))
      else allocate_loop cpu u_avail (Dbl.add u_alloc us) ts (allocs ++ [place_cbs cpu t])
  end.

(** The gaps only decide a warning. *)
Definition allocate_cbs_budgets (cpu : Z) (cbss : list ClassifiedTask) (sched : PerCpuSchedule)
  : InfeasibleError + PerCpuSchedule :=
  let u_avail := Dbl.sub (Dbl.sub U_BOUND (u_tt sched)) U_OVERHEAD in
  if SFleb u_avail zero then inl (Infeasible NoCbsBandwidth cpu ""%string) else
  match allocate_loop cpu u_avail zero (std_sort_lt (fun a b => SFltb (util b) (util a)) cbss)
          (cbs_allocations sched) with
  | inl e => inl e
  | inr (allocs, u) => inr (PerCpu (tt_slots sched) (gaps sched) allocs (u_tt sched) u)
  end.
End Scheduler.

(** ** Step 5: the table (messages of node_control.proto) *)

Definition tt_message (s : TtSlotPlacement) : TtSlot :=
  TtSlot_ (s_workload s) (s_task s) (offset_us s) (duration_us s) (s_deadline s) (u32 (s_cpu s))
    (s_max_dmiss s) (fnv1a_hash (s_workload s)) (fnv1a_hash (s_task s)).
Definition cbs_message (a : CbsAllocation) : CbsConfig :=
  CbsConfig_ (c_workload a) (c_task a) (budget_us a) (c_period a) (c_deadline a) (c_max_dmiss a)
    (fnv1a_hash (c_workload a)) (fnv1a_hash (c_task a)).

Definition build_partition (cs : Z * PerCpuSchedule) : option PartitionConfig :=
  let '(cpu, s) := cs in
  match tt_slots s, cbs_allocations s with
  | [], [] => None
  | _, _ => Some (Partition ("isolated-"%string +:+ pretty cpu) (Some (CpuSet [u32 cpu] true))
                    [Layer 1 TIME_TRIGGERED (tt_message <$> tt_slots s) (cbs_message <$> cbs_allocations s)])
  end.

(** [now_ns] is the wall clock. *)
Definition build_table (node : string) (now_ns : Z) (scheds : list (Z * PerCpuSchedule)) (hp : Z)
  : HierarchicalScheduleTable :=
  Table "table_v1"%string node (u32 hp) (u64 now_ns) (omap build_partition scheds).

(** ** The pipeline *)

Section Pipeline.
Context `{!StdSort}.

Definition on_cpu (cpu : Z) (ts : list ClassifiedTask) : list ClassifiedTask :=
  filter (fun t => assigned_cpu t = cpu) ts.
Definition periods_of (ts : list ClassifiedTask) : list Z := filter (fun p => 0 < p) (period_us <$> ts).

(** Step 3 for one CPU. *)
Definition place_cpu (tts : list ClassifiedTask) (cs : Z * PerCpuSchedule)
  : outcome (InfeasibleError + Z * PerCpuSchedule) :=
  let '(cpu, s) := cs in
  let cpu_tt := on_cpu cpu tts in
  match cpu_tt with
  | [] => Ret (inr (cpu, s))
  | _ =>
      let periods := periods_of cpu_tt in
      if negb (validate_harmonic periods) then Ret (inl (Infeasible NonHarmonicPeriod cpu ""%string)) else
      r <-c place_tt_slots cpu cpu_tt (calculate_hyperperiod periods) s;
      Ret (match r with inl e => inl e | inr s => inr (cpu, s) end)
  end.

(** Step 4 for one CPU. *)
Definition budget_cpu (cbss : list ClassifiedTask) (hp : Z) (cs : Z * PerCpuSchedule)
  : outcome (InfeasibleError + Z * PerCpuSchedule) :=
  let '(cpu, s) := cs in
  let hp := if hp =? 0 then 10000 else hp in
  let s := PerCpu (tt_slots s) (compute_gaps (tt_slots s) hp) (cbs_allocations s) (u_tt s) (u_cbs s) in
  match on_cpu cpu cbss with
  | [] => Ret (inr (cpu, s))
  | cpu_cbs => Ret (match allocate_cbs_budgets cpu cpu_cbs s with inl e => inl e | inr s => inr (cpu, s) end)
  end.

(** A loop over the CPUs that returns at the first error. *)
Fixpoint each_cpu (f : Z * PerCpuSchedule -> outcome (InfeasibleError + Z * PerCpuSchedule))
    (l : list (Z * PerCpuSchedule)) : outcome (InfeasibleError + list (Z * PerCpuSchedule)) :=
  match l with
  | [] => Ret (inr [])
  | cs :: l =>
      r <-c f cs;
      match r with
      | inl e => Ret (inl e)
      | inr cs =>
          r <-c each_cpu f l;
          Ret (match r with inl e => inl e | inr l => inr (cs :: l) end)
      end
  end.

Definition generate_schedule (node : string) (available : list Z) (now_ns : Z) (tasks : list ClassifiedTask)
  : outcome (HierarchicalScheduleTable + InfeasibleError) :=
  match tasks with
  | [] => Ret (inl (build_table node now_ns [] 10000))
  | _ =>
      let tts := filter (fun t => mechanism t = TT) tasks in
      let cbss := filter (fun t => mechanism t <> TT) tasks in
      match assign_cpus available tts cbss with
      | None => Ret (inr (Infeasible UtilizationExceeded (-1) ""%string))
      | Some (tts, cbss, m) =>
          r <-c each_cpu (place_cpu tts) (ascending Z.le m);
          match r with
          | inl e => Ret (inr e)
          | inr scheds =>
              let all_periods := periods_of tts in
              let global_hp := match all_periods with [] => 0 | _ => calculate_hyperperiod all_periods end in
              r <-c each_cpu (budget_cpu cbss global_hp) scheds;
              Ret (match r with
                   | inl e => inr e
                   | inr scheds => inl (build_table node now_ns scheds global_hp)
                   end)
          end
      end
  end.
End Pipeline.

(** ** Mathematics: what the loops compute *)

Lemma gcd_loop_spec n fuel a b :
  0 <= a -> 0 <= b < 2 ^ Z.of_nat n -> (2 * n + 1 <= fuel)%nat -> gcd_loop fuel a b = Some (Z.gcd a b).
Proof.
  revert fuel a b. induction n as [|n IH]; intros fuel a b Ha Hb Hf.
  - destruct fuel as [|fuel]; [lia|]. cbn in Hb. assert (b = 0) as -> by lia. cbn.
    by rewrite Z.gcd_0_r_nonneg.
  - destruct fuel as [|[|fuel]]; [lia|lia|]. cbn [gcd_loop].
    destruct (Z.eqb_spec b 0) as [->|Hb0]; [by rewrite Z.gcd_0_r_nonneg|].
    pose proof (Z.mod_pos_bound a b ltac:(lia)) as Hr.
    assert (Hg : Z.gcd a b = Z.gcd b (a mod b)) by (by rewrite Z.gcd_comm, <- Z.gcd_mod, Z.gcd_comm by lia).
    destruct (Z.eqb_spec (a mod b) 0) as [E|Hr0].
    { by rewrite Hg, E, Z.gcd_0_r_nonneg by lia. }
    set (r := a mod b) in *. rewrite Hg.
    assert (Hg2 : Z.gcd b r = Z.gcd r (b mod r)) by (by rewrite Z.gcd_comm, <- Z.gcd_mod, Z.gcd_comm by lia).
    rewrite Hg2. apply IH; [lia| |lia].
    pose proof (Z.mod_pos_bound b r ltac:(lia)). pose proof (Z.div_mod b r ltac:(lia)).
    rewrite Nat2Z.inj_succ, Z.pow_succ_r in Hb by lia. split; [lia|].
    assert (1 <= b / r) by (apply Z.div_le_lower_bound; lia). nia.
Qed.

Lemma gcd_spec a b : 0 <= a -> uword 64 b -> gcd a b = Z.gcd a b.
Proof. intros Ha Hb. unfold gcd. by rewrite (gcd_loop_spec 64) by (done || lia). Qed.

Lemma lcm_spec a b : 0 < a -> 0 < b < 2 ^ 64 -> Z.lcm a b < 2 ^ 64 -> lcm a b = Z.lcm a b.
Proof.
  intros Ha Hb Hl. unfold lcm. rewrite (proj2 (Z.eqb_neq a 0)), (proj2 (Z.eqb_neq b 0)) by lia. cbn [orb].
  rewrite gcd_spec by (unfold uword; lia).
  assert (Hg : 0 < Z.gcd a b) by (pose proof (Z.gcd_nonneg a b); pose proof (Z.gcd_eq_0_l a b); lia).
  assert (Heq : a / Z.gcd a b * b = Z.lcm a b).
  { rewrite Z.lcm_comm. unfold Z.lcm. rewrite (Z.gcd_comm b a), Z.mul_comm. symmetry. apply Z.abs_eq.
    apply Z.mul_nonneg_nonneg; [lia|]. apply Z.div_pos; lia. }
  rewrite Heq. apply wrap_small. split; [apply Z.lcm_nonneg|done].
Qed.

Definition lcm_list (l : list Z) : Z := match l with [] => 0 | p :: ps => foldl Z.lcm p ps end.

Lemma foldl_lcm_divide a ps : (a | foldl Z.lcm a ps) /\ Forall (fun p => (p | foldl Z.lcm a ps)) ps.
Proof.
  revert a. induction ps as [|p ps IH]; intros a; [split; [done|constructor]|].
  cbn [foldl]. destruct (IH (Z.lcm a p)) as [H1 H2]. split; [|constructor; [|done]].
  - etrans; [apply Z.divide_lcm_l|done].
  - etrans; [apply Z.divide_lcm_r|done].
Qed.

Lemma foldl_lcm_pos a ps : 0 < a -> Forall (fun p => 0 < p) ps -> 0 < foldl Z.lcm a ps.
Proof.
  revert a. induction ps as [|p ps IH]; intros a Ha Hps; [done|].
  apply Forall_cons in Hps as [Hp Hps]. cbn [foldl]. apply IH; [|done].
  pose proof (Z.lcm_nonneg a p). pose proof (Z.lcm_eq_0 a p). lia.
Qed.

Lemma hyperperiod_lcm ps :
  Forall (fun p => 0 < p < 2 ^ 64) ps -> lcm_list ps < 2 ^ 64 -> calculate_hyperperiod ps = lcm_list ps.
Proof.
  destruct ps as [|a ps]; [done|]. cbn [calculate_hyperperiod lcm_list].
  intros [Ha Hps]%Forall_cons. revert a Ha. induction Hps as [|p ps Hp Hps IH]; intros a Ha Hl; [done|].
  cbn [foldl] in *.
  assert (Hlp : 0 < Z.lcm a p).
  { pose proof (Z.lcm_nonneg a p). pose proof (Z.lcm_eq_0 a p). lia. }
  assert (Hle : Z.lcm a p <= foldl Z.lcm (Z.lcm a p) ps).
  { apply Z.divide_pos_le; [|apply foldl_lcm_divide].
    apply foldl_lcm_pos; [done|]. eapply Forall_impl; [done|]. cbn. lia. }
  rewrite lcm_spec by lia. apply IH; [lia|done].
Qed.

(** Periods of which each divides or is divided by each other. *)
Definition harmonic (ps : list Z) : Prop := forall p q, p ∈ ps -> q ∈ ps -> (p | q) \/ (q | p).

Lemma pairs_divide_spec l :
  StronglySorted Z.le l -> Forall (fun p => 0 < p) l -> pairs_divide l = true <-> harmonic l.
Proof.
  intros Hs. induction Hs as [|x l Hs IH Hx]; intros Hpos.
  { split; [|done]. intros _ p q Hp. by apply not_elem_of_nil in Hp. }
  apply Forall_cons in Hpos as [Hx0 Hpos]. cbn [pairs_divide].
  rewrite andb_true_iff, forallb_forall, (IH Hpos). split.
  - intros [Hd Hh] p q [->|Hp]%elem_of_cons [->|Hq]%elem_of_cons; [by left| | |auto].
    + left. apply list_elem_of_In in Hq. specialize (Hd q Hq). apply Z.eqb_eq in Hd.
      by apply Z.mod_divide; [lia|].
    + right. apply list_elem_of_In in Hp. specialize (Hd p Hp). apply Z.eqb_eq in Hd.
      by apply Z.mod_divide; [lia|].
  - intros Hh. split; [|intros p q Hp Hq; apply Hh; by right].
    intros y Hy. apply list_elem_of_In in Hy. apply Z.eqb_eq, Z.mod_divide; [lia|].
    pose proof (proj1 (Forall_forall _ _) Hx y Hy) as Hxy. pose proof (proj1 (Forall_forall _ _) Hpos y Hy) as Hy0.
    destruct (Hh x y) as [?|Hyx]; [set_solver|set_solver|done|].
    apply Z.divide_pos_le in Hyx; [|done]. cbn in *. by assert (x = y) as -> by lia.
Qed.

Lemma validate_harmonic_spec ps :
  Forall (fun p => 0 < p) ps -> validate_harmonic ps = true <-> harmonic ps.
Proof.
  intros Hpos. unfold validate_harmonic. destruct (Nat.leb_spec (length ps) 1) as [Hl|Hl].
  { split; [|done]. intros _ p q Hp Hq. destruct ps as [|x [|]]; cbn in Hl; [set_solver| |lia].
    assert (p = x /\ q = x) as [-> ->] by set_solver. by left. }
  set (l := merge_sort Z.le _).
  assert (Hin : forall p, p ∈ l <-> p ∈ ps).
  { intros p. unfold l. rewrite merge_sort_Permutation, elem_of_elements. apply elem_of_list_to_set. }
  rewrite pairs_divide_spec.
  - unfold harmonic. by setoid_rewrite Hin.
  - apply Sorted_StronglySorted; [intros a b c; lia|]. apply (Sorted_merge_sort Z.le).
  - apply Forall_forall. intros p Hp%Hin. by apply (proj1 (Forall_forall _ _) Hpos).
Qed.

(** Harmonic periods need no product: the hyperperiod is the longest. *)
Lemma harmonic_hyperperiod ps :
  ps <> [] -> Forall (fun p => 0 < p < 2 ^ 64) ps -> harmonic ps ->
  calculate_hyperperiod ps ∈ ps /\ Forall (fun p => (p | calculate_hyperperiod ps)) ps.
Proof.
  intros Hne Hpos Hh.
  assert (Hl : lcm_list ps ∈ ps /\ 0 < lcm_list ps).
  { destruct ps as [|a ps]; [done|]. clear Hne. cbn [lcm_list].
    apply Forall_cons in Hpos as [Ha Hps]. revert a Ha Hh.
    induction Hps as [|p ps Hp Hps IH]; intros a Ha Hh; [set_solver by lia|]. cbn [foldl].
    assert (Hlcm : Z.lcm a p = a \/ Z.lcm a p = p).
    { destruct (Hh a p) as [H|H]; [set_solver|set_solver| |].
      - right. apply Z.divide_lcm_eq_r; [lia|done].
      - left. rewrite Z.lcm_comm. apply Z.divide_lcm_eq_r; [lia|done]. }
    destruct (IH (Z.lcm a p)) as [H1 H2]; [lia| |].
    - intros x y Hx Hy. apply Hh; destruct Hlcm as [E|E]; rewrite E in *; set_solver.
    - split; [|done]. destruct Hlcm as [E|E]; rewrite E in *; set_solver. }
  destruct Hl as [Hl Hlp]. pose proof (proj1 (Forall_forall _ _) Hpos _ Hl) as Hb. cbn in Hb.
  rewrite (hyperperiod_lcm ps Hpos) by lia. split; [done|].
  destruct ps as [|a ps]; [done|]. cbn [lcm_list]. destruct (foldl_lcm_divide a ps). by constructor.
Qed.

Lemma foldl_lcm_least a ps M : (a | M) -> Forall (fun p => (p | M)) ps -> (foldl Z.lcm a ps | M).
Proof.
  revert a. induction ps as [|p ps IH]; intros a Ha Hps; [done|].
  apply Forall_cons in Hps as [Hp Hps]. cbn [foldl]. apply IH; [|done]. by apply Z.lcm_least.
Qed.

(** Hyperperiods: for positive 64-bit periods whose least common multiple
    fits 64 bits, the hyperperiod is that multiple.  Periods pass the
    harmonic check exactly when of every two one divides the other; then
    nothing overflows: the hyperperiod is the longest period. *)
Lemma hyperperiod_correct ps :
  ps <> [] -> Forall (fun p => 0 < p < 2 ^ 64) ps ->
  (lcm_list ps < 2 ^ 64 ->
   Forall (fun p => (p | calculate_hyperperiod ps)) ps /\
   forall M, Forall (fun p => (p | M)) ps -> (calculate_hyperperiod ps | M)) /\
  (validate_harmonic ps = true <-> harmonic ps) /\
  (validate_harmonic ps = true ->
   calculate_hyperperiod ps ∈ ps /\ Forall (fun p => p <= calculate_hyperperiod ps) ps).
Proof.
  intros Hne Hpos.
  assert (Hval : validate_harmonic ps = true <-> harmonic ps).
  { apply validate_harmonic_spec. eapply Forall_impl; [exact Hpos|]. cbn. lia. }
  split_and!; [|done|].
  - intros Hl. rewrite hyperperiod_lcm by done. destruct ps as [|a ps]; [done|]. cbn [lcm_list]. split.
    + destruct (foldl_lcm_divide a ps). by constructor.
    + intros M [Ha HM]%Forall_cons. by apply foldl_lcm_least.
  - intros Hh%Hval. destruct (harmonic_hyperperiod ps Hne Hpos Hh) as [Hin Hdiv]. split; [done|].
    pose proof (proj1 (Forall_forall _ _) Hpos _ Hin) as Hb. cbn in Hb.
    eapply Forall_impl; [exact Hdiv|]. cbn. intros p Hp. apply Z.divide_pos_le; [lia|done].
Qed.

Lemma hyperperiod_example :
  calculate_hyperperiod [10; 40; 20] = 40 /\ validate_harmonic [10; 40; 20] = true /\
  calculate_hyperperiod [6; 10] = 30 /\ validate_harmonic [6; 10] = false /\
  (validate_harmonic [10; 40; 20] = true <-> harmonic [10; 40; 20]).
Proof.
  split_and!; [reflexivity|reflexivity|reflexivity|reflexivity|].
  apply (hyperperiod_correct [10; 40; 20]); [done|].
  repeat (apply Forall_cons; split; [lia|]). constructor.
Defined.

(** ** First fit *)

(** [x, x + d) and [o.1, o.2) overlap. *)
Definition overlaps (x d : Z) (o : Z * Z) : Prop := x < o.2 /\ o.1 < x + d.

(** The candidate only grows, to the end of an interval it conflicts with, so
    no interval is jumped twice: the search ends, whatever wraps. *)
Lemma find_free_slot_ends fuel (occ : list (Z * Z)) (c d e : Z) :
  (length (filter (fun o : Z * Z => (c < o.2)%Z) occ) <= fuel)%nat -> exists r, find_free_slot fuel occ c d e = Ret r.
Proof.
  revert c. induction fuel as [|fuel IH]; intros c Hf; cbn [find_free_slot];
    (case_match; [|by eexists]); (destruct (List.find _ _) as [o|] eqn:E; [|by eexists]);
    apply find_some in E as [Hin Hc]; apply andb_true_iff in Hc as [Hc%Z.ltb_lt _];
    apply list_elem_of_In in Hin.
  - exfalso. apply Nat.le_0_r, length_zero_iff_nil in Hf.
    assert (o ∈ filter (fun o : Z * Z => c < o.2) occ) as Hi by (by apply list_elem_of_filter).
    rewrite Hf in Hi. by apply not_elem_of_nil in Hi.
  - apply IH. apply Nat.lt_succ_r. eapply Nat.lt_le_trans; [|exact Hf]. clear Hf IH.
    apply list_elem_of_split in Hin as (l1 & l2 & ->).
    rewrite !filter_app, !length_app, !filter_cons, decide_False, decide_True by lia.
    assert (Hm : forall l : list (Z * Z),
      (length (filter (fun p : Z * Z => (o.2 < p.2)%Z) l) <= length (filter (fun p : Z * Z => (c < p.2)%Z) l))%nat).
    { induction l as [|p l IHl]; [done|]. rewrite !filter_cons.
      destruct (decide (o.2 < p.2)); [rewrite decide_True by lia; cbn [length]; lia|].
      case_decide; cbn [length]; lia. }
    pose proof (Hm l1). pose proof (Hm l2). cbn [length]. lia.
Qed.

Section FirstFit.
Context (occ : list (Z * Z)) (d e : Z).
Hypothesis Hocc : Forall (fun o : Z * Z => 0 <= o.1 /\ o.2 < 2 ^ 31) occ.
Hypothesis Hd : 0 <= d < 2 ^ 31.
Hypothesis He : e < 2 ^ 31.

Lemma conflict_spec (c : Z) (o : Z * Z) : 0 <= c < 2 ^ 31 -> conflict c d o = true <-> overlaps c d o.
Proof using Hd.
  intros Hc. unfold conflict, overlaps. rewrite wrap_small by (unfold uword; pows; lia).
  by rewrite andb_true_iff, !Z.ltb_lt.
Qed.

Lemma find_free_slot_spec fuel (c r : Z) :
  0 <= c < 2 ^ 31 -> find_free_slot fuel occ c d e = Ret r ->
  (r = -1 /\ (forall x, c <= x -> x + d <= e -> exists o, o ∈ occ /\ overlaps x d o)) \/
  (c <= r /\ r + d <= e /\ (forall o, o ∈ occ -> ~ overlaps r d o) /\
   (forall x, c <= x < r -> exists o, o ∈ occ /\ overlaps x d o)).
Proof using Hocc Hd He.
  revert c. induction fuel as [|fuel IH]; intros c Hc; cbn [find_free_slot];
    rewrite wrap_small by (unfold uword; pows; lia); (destruct (Z.leb_spec (c + d) e) as [Hle|Hle];
      [|intros [= <-]; left; split; [done|]; intros x; lia]);
    (destruct (List.find _ _) as [o|] eqn:E;
      [|intros [= <-]; right; unfold to_signed; rewrite wrap_small by (unfold uword; pows; lia);
        rewrite (proj2 (Z.ltb_lt _ _)) by lia; split_and!;
        [lia|lia|intros o Ho Hov|intros x; lia];
        apply list_elem_of_In, (find_none _ _ E) in Ho; by apply conflict_spec in Hov; [congruence|]]).
  - done.
  - apply find_some in E as [Hin Hconf]. apply conflict_spec in Hconf as Hov; [|done].
    apply list_elem_of_In in Hin. pose proof (proj1 (Forall_forall _ _) Hocc o Hin) as Hb.
    unfold overlaps in Hov. intros HF. cbn in Hb.
    assert (Hskip : forall x, c <= x < o.2 -> exists o, o ∈ occ /\ overlaps x d o).
    { intros x Hx. exists o. split; [done|]. unfold overlaps. lia. }
    apply IH in HF as [[-> Hno]|(Hr & Hre & Hfree & Hfirst)]; [| |lia].
    + left. split; [done|]. intros x Hx Hxe. destruct (decide (x < o.2)); [apply Hskip; lia|]. apply Hno; lia.
    + right. split_and!; [lia|done|done|]. intros x Hx. destruct (decide (x < o.2)); [apply Hskip; lia|].
      apply Hfirst; lia.
Qed.
End FirstFit.

(** C37. First fit: the search for a slot always ends.  When nothing wraps,
    it yields the least position from the start of the frame at which the
    slot ends within the frame and overlaps nothing occupied; it answers -1
    only when every such position overlaps something occupied. *)
Theorem find_free_slot_first_fit (occ : list (Z * Z)) (c d e : Z) :
  Forall (fun o : Z * Z => 0 <= o.1 /\ o.2 < 2 ^ 31) occ ->
  0 <= c < 2 ^ 31 -> 0 <= d < 2 ^ 31 -> e < 2 ^ 31 ->
  exists r, find_free_slot (length occ) occ c d e = Ret r /\
    ((r = -1 /\ (forall x, c <= x -> x + d <= e -> exists o, o ∈ occ /\ overlaps x d o)) \/
     (c <= r /\ r + d <= e /\ (forall o, o ∈ occ -> ~ overlaps r d o) /\
      (forall x, c <= x < r -> exists o, o ∈ occ /\ overlaps x d o))).
Proof.
  intros Hocc Hc Hd He. destruct (find_free_slot_ends (length occ) occ c d e) as [r Hr];
    [apply length_filter|]. exists r. split; [done|]. by apply find_free_slot_spec in Hr.
Qed.

Lemma find_free_slot_first_fit_witness :
  find_free_slot 3 [(0, 10); (25, 30); (12, 20)] 0 4 40 = Ret 20 /\
  find_free_slot 3 [(0, 10); (25, 30); (12, 20)] 0 4 23 = Ret (-1) /\
  exists r, find_free_slot 3 [(0, 10); (25, 30); (12, 20)] 0 4 40 = Ret r /\
    ((r = -1 /\ (forall x, 0 <= x -> x + 4 <= 40 -> exists o, o ∈ [(0, 10); (25, 30); (12, 20)] /\ overlaps x 4 o)) \/
     (0 <= r /\ r + 4 <= 40 /\ (forall o, o ∈ [(0, 10); (25, 30); (12, 20)] -> ~ overlaps r 4 o) /\
      (forall x, 0 <= x < r -> exists o, o ∈ [(0, 10); (25, 30); (12, 20)] /\ overlaps x 4 o))).
Proof.
  split_and!; [reflexivity|reflexivity|].
  apply (find_free_slot_first_fit [(0, 10); (25, 30); (12, 20)] 0 4 40); [|lia..].
  repeat (apply Forall_cons; split; [cbn; lia|]). constructor.
Defined.

(** ** Placement *)

(** A job is a task and the number of its release. *)
Abbreviation job := (ClassifiedTask * nat)%type (only parsing).

Definition slot_end (s : TtSlotPlacement) : Z := offset_us s + duration_us s.
Definition disjoint_slots (a b : TtSlotPlacement) : Prop := slot_end a <= offset_us b \/ slot_end b <= offset_us a.

(** Job [k] of [t] may run from its release to its deadline, or to the end of
    the hyperperiod. *)
Definition release (j : job) : Z := Z.of_nat j.2 * period_us j.1.
Definition latest (hp : Z) (j : job) : Z := release j + deadline_us j.1 `min` (hp - release j).

Definition jobs_of (hp : Z) (t : ClassifiedTask) : list job :=
  if decide (period_us t = 0) then [] else pair t <$> seq 0 (Z.to_nat (hp / period_us t)).

Definition placed_ok (cpu hp : Z) (p : job * TtSlotPlacement) : Prop :=
  p.2 = place_slot cpu p.1.1 (offset_us p.2) /\
  0 <= release p.1 <= offset_us p.2 /\ slot_end p.2 <= latest hp p.1.

(** Every position of job [j] overlaps one of [slots]. *)
Definition no_room (hp : Z) (slots : list TtSlotPlacement) (j : job) : Prop :=
  forall x, release j <= x -> x + wcet_us j.1 <= latest hp j ->
    exists s, s ∈ slots /\ overlaps x (wcet_us j.1) (offset_us s, slot_end s).

Definition task_ok (t : ClassifiedTask) : Prop :=
  0 <= period_us t /\ 0 <= wcet_us t < 2 ^ 31 /\ 0 <= deadline_us t < 2 ^ 31.

Section Placement.
Context (cpu hp : Z).
Hypothesis Hhp : 0 < hp < 2 ^ 31.

(** What the loops keep: every slot placed so far is a correct placement of
    its job, and the occupied intervals are the slots. *)
Record placing (placed : list (job * TtSlotPlacement)) (slots : list TtSlotPlacement)
    (occ : list (Z * Z)) : Prop := {
  pl_slots : slots = placed.*2;
  pl_occ : occ = interval <$> slots;
  pl_ok : Forall (placed_ok cpu hp) placed;
  pl_disjoint : StronglySorted disjoint_slots slots;
}.

Lemma job_release_bound t k :
  0 < period_us t -> (k < Z.to_nat (hp / period_us t))%nat -> 0 <= release (t, k) < hp.
Proof using Hhp.
  intros Hp Hk. unfold release. cbn [fst snd].
  assert (Z.of_nat k < hp / period_us t) by lia.
  assert (Z.of_nat k * period_us t < hp / period_us t * period_us t) by nia.
  pose proof (Z.mul_div_le hp (period_us t) Hp). nia.
Qed.

Lemma frame_spec t k :
  task_ok t -> 0 < period_us t -> (k < Z.to_nat (hp / period_us t))%nat ->
  frame_start t k = release (t, k) /\ frame_end t hp k = latest hp (t, k).
Proof using Hhp.
  intros (_ & _ & Hd) Hp Hk. pose proof (job_release_bound t k Hp Hk) as Hr.
  assert (frame_start t k = release (t, k)) as E.
  { unfold frame_start. unfold release in *. cbn [fst snd] in *.
    rewrite !(wrap_small 64) by (unfold uword; pows; lia). apply wrap_small. unfold uword; pows; lia. }
  split; [done|]. unfold frame_end. rewrite E, wrap_small by (unfold uword; pows; lia).
  rewrite wrap_small by (unfold uword; pows; lia).
  unfold latest. cbn [fst]. destruct (Z.ltb_spec hp (release (t, k) + deadline_us t)); lia.
Qed.

Lemma placed_interval p :
  placed_ok cpu hp p -> task_ok p.1.1 -> interval p.2 = (offset_us p.2, slot_end p.2).
Proof using Hhp.
  intros (E & Hr & Hl) (_ & Hw & _). unfold interval, slot_end in *. rewrite wrap_small; [done|].
  assert (duration_us p.2 = wcet_us p.1.1) as Ew by (by rewrite E). rewrite Ew in *.
  unfold latest in Hl. unfold uword. pows. lia.
Qed.

Lemma placed_occupied placed slots occ s :
  placing placed slots occ -> Forall (fun p => task_ok p.1.1) placed -> s ∈ slots ->
  0 <= offset_us s /\ slot_end s <= hp /\ interval s = (offset_us s, slot_end s).
Proof using Hhp.
  intros [-> _ Hok _] Hts (p & -> & Hp)%list_elem_of_fmap.
  rewrite Forall_forall in Hok, Hts. pose proof (Hok p Hp) as H. pose proof (Hts p Hp) as Ht.
  rewrite (placed_interval p H Ht). destruct H as (_ & Hr & Hl). unfold latest in Hl.
  split_and!; [lia|lia|done].
Qed.

Lemma slot_of_job placed slots occ t k :
  placing placed slots occ -> Forall (fun p => task_ok p.1.1) placed ->
  task_ok t -> 0 < period_us t -> (k < Z.to_nat (hp / period_us t))%nat ->
  exists r, find_free_slot (length occ) occ (frame_start t k) (wcet_us t) (frame_end t hp k) = Ret r /\
    ((r < 0 /\ no_room hp slots (t, k)) \/
     (0 <= r /\ placing (placed ++ [((t, k), place_slot cpu t r)]) (slots ++ [place_slot cpu t r])
                  (occ ++ [interval (place_slot cpu t r)]))).
Proof using Hhp.
  intros Hpl Hts Ht Hp Hk. pose proof (job_release_bound t k Hp Hk) as Hrel.
  destruct (frame_spec t k Ht Hp Hk) as [-> ->].
  destruct (find_free_slot_ends (length occ) occ (release (t, k)) (wcet_us t) (latest hp (t, k))) as [r Hr];
    [apply length_filter|]. exists r. split; [done|].
  assert (Hocc : forall o, o ∈ occ <-> exists s, s ∈ slots /\ o = (offset_us s, slot_end s)).
  { intros o. rewrite (pl_occ _ _ _ Hpl), list_elem_of_fmap. split.
    - intros (s & -> & Hs). exists s. split; [done|]. by eapply placed_occupied.
    - intros (s & Hs & ->). exists s. split; [|done]. symmetry. by eapply placed_occupied. }
  destruct Ht as (Ht1 & Hw & Hd).
  apply find_free_slot_spec in Hr as [[-> Hno]|(Hr1 & Hr2 & Hfree & _)];
    [| | |lia|unfold latest; cbn [fst]; lia|lia].
  - left. split; [lia|]. intros x H1 H2. destruct (Hno x H1 H2) as (o & Ho & Hov).
    apply Hocc in Ho as (s & Hs & ->). by exists s.
  - right. split; [lia|].
    assert (Hoff : offset_us (place_slot cpu t r) = r).
    { cbn. apply wrap_small. unfold latest in Hr2. unfold uword. pows. lia. }
    split.
    + by rewrite fmap_app, (pl_slots _ _ _ Hpl).
    + by rewrite fmap_app, (pl_occ _ _ _ Hpl).
    + apply Forall_app. split; [apply Hpl|]. constructor; [|constructor].
      unfold placed_ok, slot_end. cbn [fst snd]. rewrite Hoff. split_and!; [done|lia|done|done].
    + apply StronglySorted_app_2; [|apply Hpl|by repeat constructor].
      intros s s' Hs ->%list_elem_of_singleton.
      unfold disjoint_slots, slot_end at 2. rewrite Hoff. cbn [place_slot duration_us].
      pose proof (Hfree (offset_us s, slot_end s)) as Hn. unfold overlaps in Hn. cbn [fst snd] in Hn.
      destruct (decide (slot_end s <= r)); [by left|]. right.
      destruct (decide (r + wcet_us t <= offset_us s)); [done|].
      exfalso. apply Hn; [apply Hocc; by eexists|lia].
  - apply Forall_forall. intros o (s & Hs & ->)%Hocc. cbn [fst snd].
    destruct (placed_occupied _ _ _ _ Hpl Hts Hs) as (? & ? & _). lia.
Qed.

(** The jobs of one task. *)
Lemma place_jobs_spec t ks placed slots occ :
  placing placed slots occ -> Forall (fun p => task_ok p.1.1) placed ->
  task_ok t -> 0 < period_us t -> Forall (fun k => (k < Z.to_nat (hp / period_us t))%nat) ks ->
  exists r, place_jobs cpu hp t ks slots occ = Ret r /\
    match r with
    | inr (slots', occ') => exists more, more.*1 = pair t <$> ks /\ placing (placed ++ more) slots' occ'
    | inl err => exists k more slots' occ', err = Infeasible TtSlotConflict cpu (task_id t) /\ k ∈ ks /\
        Forall (fun p => p.1 ∈ pair t <$> ks) more /\ placing (placed ++ more) slots' occ' /\
        no_room hp slots' (t, k)
    end.
Proof using Hhp.
  revert placed slots occ. induction ks as [|k ks IH]; intros placed slots occ Hpl Hts Ht Hp Hks.
  { exists (inr (slots, occ)). split; [done|]. exists []. by rewrite app_nil_r. }
  apply Forall_cons in Hks as [Hk Hks]. cbn [place_jobs].
  destruct (slot_of_job _ _ _ t k Hpl Hts Ht Hp Hk) as (r & -> & [[Hr Hno]|[Hr Hpl']]); cbn [obind].
  - rewrite (proj2 (Z.ltb_lt _ _) Hr). eexists. split; [done|]. exists k, [], slots, occ.
    rewrite app_nil_r. split_and!; [done|by left|constructor|done|done].
  - rewrite (proj2 (Z.ltb_ge _ _) Hr).
    destruct (IH _ _ _ Hpl') as (r' & -> & Hr'); [|done..|].
    { apply Forall_app. split; [done|]. by constructor. }
    exists r'. split; [done|]. destruct r' as [err|[slots' occ']].
    + destruct Hr' as (k' & more & slots' & occ' & -> & Hk' & Hin & Hpl'' & Hno).
      exists k', ((t, k, place_slot cpu t r) :: more), slots', occ'. rewrite <- app_assoc in Hpl''.
      split_and!; [done|by right| |done|done].
      constructor; [by left|]. eapply Forall_impl; [exact Hin|]. intros p Hq. by right.
    + destruct Hr' as (more & Hm & Hpl''). exists ((t, k, place_slot cpu t r) :: more).
      rewrite <- app_assoc in Hpl''. split; [|done]. cbn. by rewrite Hm.
Qed.

Lemma elem_of_jobs_of t k :
  0 <= period_us t -> (t, k) ∈ jobs_of hp t <-> 0 < period_us t /\ (k < Z.to_nat (hp / period_us t))%nat.
Proof using.
  intros Hp. unfold jobs_of. case_decide as E.
  - split; [by intros ?%not_elem_of_nil|lia].
  - rewrite list_elem_of_fmap. setoid_rewrite elem_of_seq. split.
    + intros (k' & [= <-] & Hk). lia.
    + intros [_ Hk]. exists k. split; [done|lia].
Qed.

Lemma elem_of_jobs ts (j : job) : j ∈ ts ≫= jobs_of hp -> j.1 ∈ ts.
Proof using.
  intros (t & Hj & Ht)%list_elem_of_bind. unfold jobs_of in Hj. case_decide; [by apply not_elem_of_nil in Hj|].
  by apply list_elem_of_fmap in Hj as (k & -> & _).
Qed.

(** The tasks in order of deadline. *)
Lemma place_tasks_spec ts placed slots occ :
  placing placed slots occ -> Forall (fun p => task_ok p.1.1) placed -> Forall task_ok ts ->
  StronglySorted (fun a b => deadline_us a <= deadline_us b) ts ->
  Forall (fun p => Forall (fun t => deadline_us p.1.1 <= deadline_us t) ts) placed ->
  exists r, place_tasks cpu hp ts slots occ = Ret r /\
    match r with
    | inr slots' => exists more occ', more.*1 = ts ≫= jobs_of hp /\ placing (placed ++ more) slots' occ'
    | inl err => exists j more slots' occ', err = Infeasible TtSlotConflict cpu (task_id j.1) /\
        j ∈ ts ≫= jobs_of hp /\
        Forall (fun p => p.1 ∈ ts ≫= jobs_of hp) more /\ 
        Forall (fun p => deadline_us p.1.1 <= deadline_us j.1) (placed ++ more) /\
        placing (placed ++ more) slots' occ' /\ no_room hp slots' j
    end.
Proof using Hhp.
  revert placed slots occ. induction ts as [|t ts IH]; intros placed slots occ Hpl Hts Hok Hs Hdl.
  { exists (inr slots). split; [done|]. exists [], occ. by rewrite app_nil_r. }
  apply Forall_cons in Hok as [Ht Hok]. apply StronglySorted_cons in Hs as [Hfst Hs].
  cbn [place_tasks]. destruct (Z.eqb_spec (period_us t) 0) as [E|E].
  { destruct (IH placed slots occ) as (r & -> & Hr); [done..| |].
    { eapply Forall_impl; [exact Hdl|]. by intros p [_ ?]%Forall_cons. }
    exists r. split; [done|]. cbn [mbind list_bind]. unfold jobs_of at 1 3 5. by rewrite decide_True. }
  assert (Hp : 0 < period_us t) by (destruct Ht; lia).
  assert (Hj : jobs_of hp t = pair t <$> seq 0 (Z.to_nat (hp / period_us t)))
    by (unfold jobs_of; by rewrite decide_False).
  destruct (place_jobs_spec t (seq 0 (Z.to_nat (hp / period_us t))) placed slots occ)
    as (r & -> & Hr); [done..| |].
  { apply Forall_forall. intros k [_ ?]%elem_of_seq. lia. }
  cbn [obind]. rewrite <- Hj in Hr. destruct r as [err|[slots1 occ1]].
  - destruct Hr as (k & more & slots' & occ' & -> & Hk & Hin & Hpl' & Hno).
    eexists. split; [done|]. exists (t, k), more, slots', occ'. cbn [mbind list_bind].
    split_and!; [done| | | |done|done].
    + apply elem_of_app. left. rewrite Hj. apply list_elem_of_fmap. eauto.
    + eapply Forall_impl; [exact Hin|]. intros p ?. apply elem_of_app. by left.
    + apply Forall_app. split; eapply Forall_impl; [exact Hdl| |exact Hin|].
      * by intros p [? _]%Forall_cons.
      * intros p Hq. rewrite Hj in Hq. apply list_elem_of_fmap in Hq as (k' & -> & _). cbn. lia.
  - destruct Hr as (more1 & Hm1 & Hpl1).
    assert (Hmt : Forall (fun p => p.1.1 = t) more1).
    { apply Forall_forall. intros p Hq.
      assert (p.1 ∈ jobs_of hp t) as Hq' by (rewrite <- Hm1; apply list_elem_of_fmap; by exists p).
      rewrite Hj in Hq'. by apply list_elem_of_fmap in Hq' as (k' & -> & _). }
    destruct (IH (placed ++ more1) slots1 occ1) as (r & -> & Hr); [done| |done|done| |].
    { apply Forall_app. split; [done|]. eapply Forall_impl; [exact Hmt|]. by intros p ->. }
    { apply Forall_app. split; eapply Forall_impl; [exact Hdl| |exact Hmt|].
      - by intros p [_ ?]%Forall_cons.
      - by intros p ->. }
    exists r. split; [done|]. cbn [mbind list_bind]. destruct r as [err|slots'].
    + destruct Hr as (j & more & slots' & occ' & -> & Hjin & Hin & Hdl' & Hpl' & Hno).
      exists j, (more1 ++ more), slots', occ'. rewrite app_assoc.
      split_and!; [done|apply elem_of_app; by right| |done|done|done].
      apply Forall_app. split.
      * apply Forall_forall. intros p Hq. apply elem_of_app. left. rewrite <- Hm1.
        apply list_elem_of_fmap. by exists p.
      * eapply Forall_impl; [exact Hin|]. intros p ?. apply elem_of_app. by right.
    + destruct Hr as (more & occ' & Hm & Hpl'). exists (more1 ++ more), occ'. rewrite app_assoc.
      split; [|done]. by rewrite fmap_app, Hm1, Hm.
Qed.
End Placement.

(** What a placement promises: in order of offset, slots that do not
    overlap, one for each job, within the window of its job. *)
Definition feasible (cpu hp : Z) (tts : list ClassifiedTask) (slots : list TtSlotPlacement) : Prop :=
  StronglySorted (fun a b => offset_us a <= offset_us b /\ disjoint_slots a b) slots /\
  exists placed, placed.*1 ≡ₚ tts ≫= jobs_of hp /\ placed.*2 ≡ₚ slots /\ Forall (placed_ok cpu hp) placed.

(** The reason of a refusal: a job for which correctly placed jobs of tasks
    with no later deadline leave no position. *)
Definition infeasible (cpu hp : Z) (tts : list ClassifiedTask) (err : InfeasibleError) : Prop :=
  exists j placed, err = Infeasible TtSlotConflict cpu (task_id j.1) /\ j ∈ tts ≫= jobs_of hp /\
    Forall (fun p => placed_ok cpu hp p /\ p.1 ∈ tts ≫= jobs_of hp /\ deadline_us p.1.1 <= deadline_us j.1) placed /\
    no_room hp placed.*2 j.

#[export] Instance disjoint_slots_sym : Symmetric disjoint_slots.
Proof. intros a b. unfold disjoint_slots. tauto. Qed.

Section PlacementResult.
Context `{!StdSort, !StdSortLaws}.

Lemma place_tt_slots_ok cpu tts hp sched :
  0 < hp < 2 ^ 31 -> tt_slots sched = [] -> Forall task_ok tts ->
  exists r, place_tt_slots cpu tts hp sched = Ret r /\
    match r with
    | inr sched' => sched' = with_slots sched (tt_slots sched') /\ feasible cpu hp tts (tt_slots sched')
    | inl err => infeasible cpu hp tts err
    end.
Proof.
  intros Hhp Hno Hts. unfold place_tt_slots. rewrite (proj2 (Z.eqb_neq hp 0)) by lia. rewrite Hno.
  pose proof (std_sort_perm deadline_us tts) as Hperm.
  destruct (place_tasks_spec cpu hp Hhp (std_sort deadline_us tts) [] [] []) as (r & -> & Hr).
  { split; constructor. }
  { constructor. }
  { by rewrite Hperm. }
  { apply std_sort_sorted. }
  { constructor. }
  cbn [obind]. destruct r as [err|slots]; (eexists; split; [done|]); cbn beta iota.
  - destruct Hr as (j & more & slots' & occ' & -> & Hj & Hin & Hdl & Hpl & Hnr). cbn [app] in *.
    rewrite (pl_slots _ _ _ _ _ Hpl) in Hnr. exists j, more.
    split_and!; [done|by rewrite <- Hperm| |done].
    pose proof (pl_ok _ _ _ _ _ Hpl) as Hok. rewrite Forall_forall in Hin, Hdl, Hok |- *.
    intros p Hp. split_and!; [by apply Hok|rewrite <- Hperm; by apply Hin|by apply Hdl].
  - destruct Hr as (more & occ' & Hm & Hpl). cbn [app] in *. split; [done|]. cbn [with_slots tt_slots].
    pose proof (std_sort_perm offset_us slots) as Hps. split.
    + apply StronglySorted_and; [apply std_sort_sorted|].
      eapply StronglySorted_perm; [apply _|symmetry; exact Hps|apply Hpl].
    + exists more. rewrite Hps, Hm, Hperm, (pl_slots _ _ _ _ _ Hpl). split_and!; [done|done|apply Hpl].
Qed.
End PlacementResult.

(** ** Gaps *)

Definition in_gap (x : Z) (g : GapInterval) : Prop := start_us g <= x < end_us g.
Definition in_slot (x : Z) (s : TtSlotPlacement) : Prop := offset_us s <= x < slot_end s.

Definition slot_ok (hp : Z) (s : TtSlotPlacement) : Prop :=
  0 <= offset_us s /\ 0 <= duration_us s /\ slot_end s <= hp.

Lemma gaps_from_spec hp slots cursor :
  hp < 2 ^ 32 -> 0 <= cursor <= hp -> Forall (slot_ok hp) slots ->
  StronglySorted (fun a b => offset_us a <= offset_us b) slots ->
  let gs := gaps_from cursor slots hp in
  Forall (fun g => cursor <= start_us g /\ start_us g < end_us g <= hp /\ length_us g = end_us g - start_us g) gs /\
  StronglySorted (fun a b => end_us a <= start_us b) gs /\
  forall x, cursor <= x < hp -> Exists (in_gap x) gs <-> ~ Exists (in_slot x) slots.
Proof.
  intros Hhp. revert cursor. induction slots as [|s slots IH]; intros cursor Hc Hok Hs; cbn [gaps_from].
  - rewrite (wrap_small 32 hp) by (unfold uword; lia). destruct (Z.ltb_spec cursor hp) as [Hlt|Hge].
    + rewrite wrap_small by (unfold uword; lia). split_and!.
      * constructor; [|constructor]. cbn. lia.
      * by repeat constructor.
      * intros x Hx. rewrite Exists_nil, Exists_cons, Exists_nil. unfold in_gap. cbn. lia.
    + split_and!; [constructor|constructor|]. intros x; lia.
  - apply Forall_cons in Hok as [(Ho & Hd & He) Hok]. apply StronglySorted_cons in Hs as [Hfst Hs].
    change (offset_us s + duration_us s) with (slot_end s). unfold slot_end in He.
    rewrite (wrap_small 32 (slot_end s)) by (unfold uword, slot_end; lia).
    set (cursor' := if cursor <? slot_end s then slot_end s else cursor).
    assert (Hc' : cursor' = cursor `max` slot_end s) by (unfold cursor'; destruct (Z.ltb_spec cursor (slot_end s)); lia).
    unfold slot_end in Hc'. destruct (IH cursor') as (H1 & H2 & H3); [lia|done|done|].
    rewrite Forall_forall in Hfst. clearbody cursor'.
    assert (Hearly : forall x, Exists (in_gap x) (gaps_from cursor' slots hp) -> ~ x < cursor').
    { intros x (g & Hg & Hx)%Exists_exists. rewrite Forall_forall in H1. specialize (H1 g Hg).
      unfold in_gap in Hx. lia. }
    destruct (Z.ltb_spec cursor (offset_us s)) as [Hlt|Hge].
    + rewrite wrap_small by (unfold uword; lia). cbn [app]. split_and!.
      * constructor; [cbn; lia|]. eapply Forall_impl; [exact H1|]. cbn. lia.
      * constructor; [done|]. eapply Forall_impl; [exact H1|]. cbn. lia.
      * intros x Hx. rewrite !Exists_cons. unfold in_gap at 1, in_slot at 1, slot_end. cbn [start_us end_us].
        destruct (decide (x < offset_us s)) as [Hxs|Hxs].
        { split; [|intros _; left; lia]. intros _ [?|Hex]; [lia|].
          apply Exists_exists in Hex as (s' & Hin & Hin'). specialize (Hfst s' Hin). cbn in Hfst.
          unfold in_slot in Hin'. lia. }
        destruct (decide (x < cursor')) as [Hxc|Hxc].
        { split; [|intros Hn; exfalso; apply Hn; left; lia]. by intros [?|?%Hearly]; [lia|]. }
        rewrite H3 by lia. split; [intros [?|?]; [lia|]; intros [?|?]; [lia|done]|].
        intros Hn. right. intros ?. apply Hn. by right.
    + cbn [app]. split_and!.
      * eapply Forall_impl; [exact H1|]. cbn. lia.
      * done.
      * intros x Hx. rewrite Exists_cons. unfold in_slot at 1, slot_end.
        destruct (decide (x < cursor')) as [Hxc|Hxc].
        { split; [|intros Hn; exfalso; apply Hn; left; lia]. by intros ?%Hearly. }
        rewrite H3 by lia. split; [intros Hn [?|?]; [lia|done]|intros Hn ?; apply Hn; by right].
Qed.

(** The gaps are the complement of the slots: for slots in order of
    offset within the hyperperiod, the gaps come out in ascending order,
    none is empty, each knows its length, and an instant of the hyperperiod
    is in a gap exactly when it is in no slot. *)
Lemma compute_gaps_complement slots hp :
  0 <= hp < 2 ^ 32 -> Forall (slot_ok hp) slots ->
  StronglySorted (fun a b => offset_us a <= offset_us b) slots ->
  let gs := compute_gaps slots hp in
  Forall (fun g => 0 <= start_us g < end_us g /\ end_us g <= hp /\ length_us g = end_us g - start_us g) gs /\
  StronglySorted (fun a b => end_us a <= start_us b) gs /\
  forall x, 0 <= x < hp -> Exists (in_gap x) gs <-> ~ Exists (in_slot x) slots.
Proof.
  intros Hhp Hok Hs. destruct (gaps_from_spec hp slots 0) as (H1 & H2 & H3); [lia|lia|done|done|].
  split_and!; [|done|done]. eapply Forall_impl; [exact H1|]. cbn. lia.
Qed.

Definition two_slots : list TtSlotPlacement :=
  [Slot "w"%string "a"%string 5 10 100 0 2; Slot "w"%string "b"%string 20 5 100 0 2].
Lemma gaps_example :
  compute_gaps two_slots 40 = [Gap 0 5 5; Gap 15 20 5; Gap 25 40 15] /\
  (Exists (in_gap 17) (compute_gaps two_slots 40) <-> ~ Exists (in_slot 17) two_slots).
Proof.
  split; [reflexivity|]. apply (compute_gaps_complement two_slots 40); [lia| | |lia].
  - repeat (apply Forall_cons; split; [unfold slot_ok, slot_end; cbn; lia|]). constructor.
  - repeat constructor; cbn; lia.
Defined.

(** ** Step 3 on one CPU *)

Lemma periods_of_pos ts : Forall (fun p => 0 < p) (periods_of ts).
Proof. apply Forall_forall. intros p Hp. by apply list_elem_of_filter in Hp as [? _]. Qed.

Lemma periods_of_bounds ts :
  Forall (fun t => period_us t < 2 ^ 31) ts -> Forall (fun p => 0 < p < 2 ^ 31) (periods_of ts).
Proof.
  intros Hts. apply Forall_forall. intros p [H1 (t & -> & Ht)%list_elem_of_fmap]%list_elem_of_filter.
  split; [done|]. by apply (proj1 (Forall_forall _ _) Hts).
Qed.

Section OneCpu.
Context {sort : StdSort} {sort_laws : StdSortLaws}.
Context (tts : list ClassifiedTask).
Hypothesis Hok : Forall task_ok tts.
Hypothesis Hbound : Forall (fun t => period_us t < 2 ^ 31) tts.

Abbreviation mine cpu := (on_cpu cpu tts).
Abbreviation hyper cpu := (calculate_hyperperiod (periods_of (mine cpu))).

(** Step 3 keeps the rest of the schedule of the CPU. *)
Definition cpu_feasible (cpu : Z) (slots : list TtSlotPlacement) : Prop :=
  (mine cpu = [] /\ slots = []) \/
  (harmonic (periods_of (mine cpu)) /\ hyper cpu ∈ periods_of (mine cpu) /\
   Forall (fun p => (p | hyper cpu)) (periods_of (mine cpu)) /\
   feasible cpu (hyper cpu) (mine cpu) slots).

Definition cpu_infeasible (cpu : Z) (err : InfeasibleError) : Prop :=
  (err = Infeasible NonHarmonicPeriod cpu ""%string /\ ~ harmonic (periods_of (mine cpu))) \/
  (err = Infeasible TtSlotConflict cpu ""%string /\ mine cpu <> [] /\ periods_of (mine cpu) = []) \/
  (harmonic (periods_of (mine cpu)) /\ infeasible cpu (hyper cpu) (mine cpu) err).

Lemma on_cpu_Forall (P : ClassifiedTask -> Prop) cpu ts : Forall P ts -> Forall P (on_cpu cpu ts).
Proof. rewrite !Forall_forall. intros HP t [_ Ht]%list_elem_of_filter. auto. Qed.

Lemma place_cpu_ok cpu s :
  tt_slots s = [] ->
  exists r, place_cpu tts (cpu, s) = Ret r /\
    match r with
    | inr (cpu', s') => cpu' = cpu /\ s' = with_slots s (tt_slots s') /\ cpu_feasible cpu (tt_slots s')
    | inl err => cpu_infeasible cpu err
    end.
Proof using Hok Hbound sort_laws.
  intros Hs. unfold place_cpu, cpu_feasible, cpu_infeasible.
  destruct (mine cpu) as [|t0 ts0] eqn:Emine.
  { eexists. split; [done|]. cbn beta iota. split_and!; [done|by destruct s|by left]. }
  rewrite <- Emine in *. pose proof (periods_of_pos (mine cpu)) as Hpos.
  pose proof (validate_harmonic_spec _ Hpos) as Hval.
  destruct (validate_harmonic (periods_of (mine cpu))) eqn:Eval; cbn [negb].
  2:{ eexists. split; [done|]. left. split; [done|]. rewrite <- Hval. done. }
  assert (Hh : harmonic (periods_of (mine cpu))) by (by apply Hval).
  destruct (decide (periods_of (mine cpu) = [])) as [E|E].
  { rewrite E. unfold place_tt_slots. cbn. eexists. split; [done|]. right. left. split_and!; [done| |done].
    by rewrite Emine. }
  pose proof (periods_of_bounds _ (on_cpu_Forall _ cpu _ Hbound)) as Hpb.
  destruct (harmonic_hyperperiod (periods_of (mine cpu))) as [Hin Hdiv]; [done| |done|].
  { eapply Forall_impl; [exact Hpb|]. cbn. intros. pows. lia. }
  pose proof (proj1 (Forall_forall _ _) Hpb _ Hin) as Hhp. cbn in Hhp.
  destruct (place_tt_slots_ok cpu (mine cpu) (hyper cpu) s Hhp Hs (on_cpu_Forall _ cpu _ Hok)) as (r & -> & Hr).
  cbn [obind]. eexists. split; [done|]. destruct r as [err|s']; cbn beta iota.
  - right. by right.
  - destruct Hr as [E' Hf]. split_and!; [done|done|]. by right.
Qed.
End OneCpu.

(** C14. Step 3 on one CPU, for periods, execution times and deadlines below
    2^31 us.  It always answers.  A success keeps the rest of the schedule;
    the periods are harmonic, the hyperperiod is the longest of them, and the
    slots are exactly one per job of the hyperperiod, each within the window
    of its job, in order of offset and without overlap.  A refusal is for
    one of three reasons: periods that are not harmonic, a CPU of which every
    task has period 0, or a job for which correctly placed jobs of no later
    deadline leave no position. *)
Theorem place_cpu_correct `{!StdSort, !StdSortLaws} tts cpu s :
  Forall task_ok tts -> Forall (fun t => period_us t < 2 ^ 31) tts -> tt_slots s = [] ->
  exists r, place_cpu tts (cpu, s) = Ret r /\
    match r with
    | inr (cpu', s') => cpu' = cpu /\ s' = with_slots s (tt_slots s') /\ cpu_feasible tts cpu (tt_slots s')
    | inl err => cpu_infeasible tts cpu err
    end.
Proof. intros. by apply place_cpu_ok. Qed.

Definition three_tasks : list ClassifiedTask :=
  [Task "w" "slow" TT 40 10 40 1 2; Task "w" "fast" TT 20 5 15 1 2; Task "v" "other" TT 30 5 30 1 3]%string.
Lemma place_cpu_correct_witness :
  place_cpu (H := stable_sort) three_tasks (2, empty_schedule)
  = Ret (inr (2, with_slots empty_schedule
      [Slot "w" "fast" 0 5 15 1 2; Slot "w" "slow" 5 10 40 1 2; Slot "w" "fast" 20 5 15 1 2]%string)) /\
  cpu_feasible three_tasks 2
    [Slot "w" "fast" 0 5 15 1 2; Slot "w" "slow" 5 10 40 1 2; Slot "w" "fast" 20 5 15 1 2]%string.
Proof.
  split; [vm_compute; reflexivity|].
  destruct (@place_cpu_correct stable_sort stable_sort_laws three_tasks 2 empty_schedule) as (r & E & Hr).
  - repeat (apply Forall_cons; split; [unfold task_ok; cbn; lia|]). constructor.
  - repeat (apply Forall_cons; split; [cbn; lia|]). constructor.
  - reflexivity.
  - vm_compute in E. injection E as <-. apply Hr.
Defined.

(** ** Step 2 *)

(** [t'] is [t] with a CPU of [cpus]. *)
Definition assigned (cpus : list Z) (t t' : ClassifiedTask) : Prop :=
  t' = assign_cpu (assigned_cpu t') t /\ assigned_cpu t' ∈ cpus.

Lemma assign_cpu_twice a b t : assign_cpu a (assign_cpu b t) = assign_cpu a t.
Proof. done. Qed.

(** The groups: under each workload, the indices of its tasks. *)
Lemma workload_groups_spec tts w i :
  (exists idxs, workload_groups tts !! w = Some idxs /\ i ∈ idxs) <->
  exists t, tts !! i = Some t /\ workload_id t = w.
Proof.
  unfold workload_groups. revert w i.
  induction tts as [|t tts IH] using rev_ind; intros w i; cbn [foldl].
  { cbn. rewrite lookup_empty. naive_solver. }
  rewrite imap_app, foldl_app. cbn [imap foldl fst snd]. rewrite Nat.add_0_r.
  set (m := foldl _ ∅ _) in *. rewrite lookup_insert. case_decide as E.
  - subst w. split.
    + intros (idxs & [= <-] & [Hi|Hi%list_elem_of_singleton]%elem_of_app).
      * destruct (m !! workload_id t) as [l|] eqn:El; [|by apply not_elem_of_nil in Hi].
        destruct (proj1 (IH (workload_id t) i)) as (t' & Ht' & ?); [eauto|].
        exists t'. split; [|done]. by apply lookup_app_l_Some.
      * subst i. exists t. split; [|done]. apply list_lookup_middle. lia.
    + intros (t' & Ht' & Hw). eexists. split; [done|]. apply elem_of_app.
      apply lookup_app_Some in Ht' as [Ht'|[Hlen Ht']].
      * left. destruct (proj2 (IH (workload_id t) i)) as (l & -> & Hi); [eauto|]. done.
      * right. apply list_elem_of_singleton. destruct (i - length tts)%nat as [|n] eqn:Ei; [lia|done].
  - rewrite IH. split; intros (t' & Ht' & Hw); exists t'; (split; [|done]).
    + by apply lookup_app_l_Some.
    + apply lookup_app_Some in Ht' as [Ht'|[Hlen Ht']]; [done|].
      destruct (i - length tts)%nat; [|done]. by injection Ht' as ->.
Qed.

Lemma foldl_alter_lookup {A} (f : A -> A) (idxs : list nat) (l : list A) (i : nat) :
  (forall x, f (f x) = f x) ->
  foldl (fun l k => alter f k l) l idxs !! i = (if decide (i ∈ idxs) then f <$> l !! i else l !! i).
Proof.
  intros Hf. revert l. induction idxs as [|k idxs IH]; intros l; [done|]. cbn [foldl]. rewrite IH.
  destruct (decide (i = k)) as [->|Hne].
  - rewrite list_lookup_alter_eq, (decide_True (P := k ∈ k :: idxs)) by (by left).
    case_decide; [|done]. destruct (l !! k); cbn; by rewrite ?Hf.
  - rewrite list_lookup_alter_ne by done. destruct (decide (i ∈ idxs)).
    + by rewrite decide_True by (by right).
    + by rewrite decide_False by (by intros [?|?]%elem_of_cons).
Qed.

(** Nothing is placed yet. *)
Definition blank (m : gmap Z PerCpuSchedule) : Prop :=
  map_Forall (fun _ s => tt_slots s = [] /\ gaps s = [] /\ cbs_allocations s = []) m.

Lemma blank_alter f c m :
  (forall s, tt_slots (f s) = tt_slots s /\ gaps (f s) = gaps s /\ cbs_allocations (f s) = cbs_allocations s) ->
  blank m -> blank (alter f c m).
Proof.
  intros Hf Hm k s. rewrite lookup_alter_Some. intros [(-> & s' & Hk & ->)|[_ Hk]]; [|by apply (Hm k)].
  destruct (Hf s') as (-> & -> & ->). by apply (Hm k).
Qed.

Definition put_workload (f : string -> Z) (ws : list string) (t : ClassifiedTask) : ClassifiedTask :=
  if decide (workload_id t ∈ ws) then assign_cpu (f (workload_id t)) t else t.

Lemma assign_tt_spec cpus groups idx tts m tts' m' :
  cpus <> [] -> NoDup groups.*1 ->
  (forall w l, (w, l) ∈ groups -> forall i, i ∈ l <-> exists t, tts !! i = Some t /\ workload_id t = w) ->
  assign_tt cpus groups idx tts m = (tts', m') -> blank m ->
  (exists f, (forall w, f w ∈ cpus) /\ tts' = put_workload f groups.*1 <$> tts) /\
  dom m' = dom m /\ blank m'.
Proof.
  intros Hne. revert idx tts m. induction groups as [|[w l] groups IH]; intros idx tts m Hnd Hg Ha Hb.
  { injection Ha as <- <-. split; [|done]. destruct cpus as [|c cpus]; [done|].
    exists (fun _ => c). split; [by left|]. rewrite <- (list_fmap_id tts) at 1. by apply list_fmap_ext. }
  cbn [assign_tt] in Ha. set (idx' := if (length cpus <=? idx)%nat then _ else _) in Ha.
  set (cpu := nth idx' cpus 0) in Ha. set (tts1 := foldl _ tts l) in Ha.
  cbn [fmap list_fmap fst] in Hnd. apply NoDup_cons in Hnd as [Hw Hnd].
  assert (Hcpu : cpu ∈ cpus).
  { apply list_elem_of_In, nth_In. unfold idx'. destruct cpus; [done|]. cbn [length].
    destruct (Nat.leb_spec (S (length cpus)) idx); lia. }
  assert (E1 : tts1 = put_workload (fun _ => cpu) [w] <$> tts).
  { apply list_eq. intros i. unfold tts1. rewrite foldl_alter_lookup, list_lookup_fmap by done.
    pose proof (Hg w l (list_elem_of_here _ _) i) as Hi. unfold put_workload.
    destruct (tts !! i) as [t|] eqn:Et; cbn; [|by case_decide]. f_equal.
    destruct (decide (i ∈ l)) as [Hil|Hil].
    - apply Hi in Hil as (t' & [= ->] & <-). by rewrite decide_True by (by left).
    - rewrite decide_False; [done|]. intros Hwt%list_elem_of_singleton. apply Hil, Hi. eauto. }
  assert (Hwid : forall t, workload_id (put_workload (fun _ => cpu) [w] t) = workload_id t).
  { intros t. unfold put_workload. by case_decide. }
  apply IH in Ha as [(f & Hf & ->) [Hdom Hb']]; [|done| |].
  1:{ split; [|split; [by rewrite Hdom, dom_alter_L|done]].
      exists (fun w' => if decide (w' = w) then cpu else f w'). split; [intros w'; by case_decide|].
      rewrite E1, <- list_fmap_compose. apply list_fmap_ext. intros _ t _. cbn [compose fmap list_fmap fst].
      unfold put_workload at 1 3. rewrite Hwid. unfold put_workload.
      destruct (decide (workload_id t = w)) as [->|Hne'].
      - rewrite (decide_False (P := w ∈ groups.*1)) by done. by rewrite !decide_True by (by left).
      - rewrite (decide_False (P := workload_id t ∈ [w])) by (by intros ?%list_elem_of_singleton).
        destruct (decide (workload_id t ∈ groups.*1)); [by rewrite decide_True by (by right)|].
        by rewrite decide_False by (by intros [?|?]%elem_of_cons). }
  1:{ intros w' l' Hin i. rewrite (Hg w' l') by (by right). rewrite E1, list_lookup_fmap.
    destruct (tts !! i) as [t|]; cbn; [|naive_solver]. split; intros (t' & [= <-] & Hw').
    - eexists. split; [done|]. by rewrite Hwid.
    - exists t. by rewrite Hwid in Hw'. }
  by apply blank_alter.
Qed.

(** The best CPU is one of the CPUs with enough residual capacity. *)
Lemma best_cpu_spec cpus us m :
  best_cpu cpus us m = -1 \/
  (best_cpu cpus us m ∈ cpus /\ SFleb us (residual (default empty_schedule (m !! best_cpu cpus us m))) = true).
Proof.
  unfold best_cpu. set (f := fun (best : Z * spec_float) cpu => _).
  assert (H : forall l best, l ⊆ cpus ->
    (best.1 = -1 \/ (best.1 ∈ cpus /\ SFleb us (residual (default empty_schedule (m !! best.1))) = true)) ->
    let r := (foldl f best l).1 in
    r = -1 \/ (r ∈ cpus /\ SFleb us (residual (default empty_schedule (m !! r))) = true)); [|apply H; [done|by left]].
  induction l as [|c l IH]; intros best Hl Hb; [done|]. cbn [foldl]. apply IH; [set_solver|].
  unfold f at 1. cbv zeta. destruct (_ && _) eqn:E; [|unfold f; cbv zeta; rewrite E; done].
  apply andb_true_iff in E as [E1 E2]. right. unfold f. cbv zeta. rewrite E1, E2. cbn [fst andb]. split; [set_solver|done].
Qed.

Lemma assign_cbs_spec cpus idxs cbss m cbss' m' :
  assign_cbs cpus idxs cbss m = Some (cbss', m') -> blank m ->
  Forall2 (fun t t' => t' = assign_cpu (assigned_cpu t') t /\ (assigned_cpu t' = assigned_cpu t \/ assigned_cpu t' ∈ cpus)) cbss cbss' /\
  (forall i t', i ∈ idxs -> cbss' !! i = Some t' -> assigned_cpu t' ∈ cpus) /\
  dom m' = dom m /\ blank m'.
Proof.
  revert cbss m. induction idxs as [|i idxs IH]; intros cbss m Ha Hb.
  { injection Ha as <- <-. split_and!; [|set_solver|done|done].
    apply Forall_Forall2_diag, Forall_forall. intros [] _. split; [done|by left]. }
  cbn [assign_cbs] in Ha. destruct (cbss !! i) as [t|] eqn:Et.
  2:{ destruct (IH _ _ Ha Hb) as (H1 & H2 & H3 & H4). split_and!; [done| |done|done].
      intros k t' [->|Hk]%elem_of_cons Ht'; [|by eapply H2].
      destruct (Forall2_lookup_r _ _ _ _ _ H1 Ht') as (? & ? & _). congruence. }
  destruct (Z.ltb_spec (best_cpu cpus (util t) m) 0) as [|Hbest]; [done|].
  destruct (best_cpu_spec cpus (util t) m) as [?|[Hin _]]; [lia|].
  destruct (IH _ _ Ha) as (H1 & H2 & H3 & H4); [by apply blank_alter|].
  rewrite dom_alter_L in H3. split_and!; [| |done|done].
  - apply Forall2_same_length_lookup_2; [by rewrite <- (Forall2_length _ _ _ H1), length_alter|].
    intros k x y Hx Hy. destruct (Forall2_lookup_r _ _ _ _ _ H1 Hy) as (x' & Hx' & Ey & Hc).
    destruct (decide (k = i)) as [->|Hki].
    + rewrite list_lookup_alter_eq, Hx in Hx'. injection Hx' as <-. split; [exact Ey|].
      right. destruct Hc as [->|?]; [exact Hin|done].
    + rewrite list_lookup_alter_ne in Hx' by done. rewrite Hx in Hx'. injection Hx' as <-. done.
  - intros k t' [->|Hk]%elem_of_cons Ht'; [|by eapply H2].
    destruct (Forall2_lookup_r _ _ _ _ _ H1 Ht') as (x' & Hx' & Ey & Hc).
    rewrite list_lookup_alter_eq, Et in Hx'. injection Hx' as <-. destruct Hc as [->|?]; [exact Hin|done].
Qed.

Section Assignment.
Context {sort : StdSort} {sort_laws : StdSortLaws}.

Lemma assign_cpus_spec available tts cbss tts' cbss' m :
  assign_cpus available tts cbss = Some (tts', cbss', m) ->
  let cpus := usable_cpus available in
  (exists f, (forall w, f w ∈ cpus) /\ tts' = (fun t => assign_cpu (f (workload_id t)) t) <$> tts) /\
  Forall2 (assigned cpus) cbss cbss' /\
  (forall c, c ∈ dom m <-> c ∈ cpus) /\ blank m.
Proof using sort_laws.
  unfold assign_cpus. set (cpus := std_sort id (usable_cpus available)).
  set (m0 := foldl _ ∅ cpus).
  assert (Hcpus : forall c, c ∈ cpus <-> c ∈ usable_cpus available).
  { intros c. unfold cpus. by rewrite std_sort_perm. }
  assert (Hne : cpus <> []).
  { intros E. unfold cpus in E. pose proof (std_sort_perm id (usable_cpus available)) as Hp.
    rewrite E in Hp. apply Permutation_nil in Hp. by destruct available. }
  assert (Hm0 : (forall c, c ∈ dom m0 <-> c ∈ cpus) /\ blank m0).
  { unfold m0. clear -sort. induction cpus as [|c cpus IH] using rev_ind; [split; [set_solver|apply map_Forall_empty]|].
    rewrite foldl_app. cbn [foldl]. destruct IH as [IH1 IH2]. split.
    - intros c'. rewrite dom_insert, elem_of_union, IH1, elem_of_singleton, elem_of_app, list_elem_of_singleton. tauto.
    - by apply map_Forall_insert_2. }
  destruct Hm0 as [Hdom0 Hb0].
  destruct (assign_tt cpus (ascending string_le (workload_groups tts)) 0 tts m0) as [tts1 m1] eqn:Ett.
  pose proof (fun w l => elem_of_ascending string_le (workload_groups tts) w l) as Hasc.
  apply assign_tt_spec in Ett as ((f & Hf & ->) & Hdom1 & Hb1); [|done|apply NoDup_ascending_keys| |done].
  2:{ intros w l Hin%Hasc i. rewrite <- workload_groups_spec. split; [eauto|].
      intros (l' & Hl' & Hi). rewrite Hin in Hl'. by injection Hl' as <-. }
  set (idxs := std_sort_lt _ _).
  assert (Hidx : forall i, i ∈ idxs <-> (i < length cbss)%nat).
  { intros i. unfold idxs. rewrite std_sort_lt_perm, elem_of_seq. lia. }
  destruct (assign_cbs cpus idxs cbss m1) as [[cbss1 m2]|] eqn:Ecbs; [|done].
  apply assign_cbs_spec in Ecbs as (H1 & H2 & Hdom2 & Hb2); [|done].
  intros [= <- <- <-]. split_and!.
  - exists f. split; [intros w; by apply Hcpus|]. apply list_fmap_ext. intros i t Ht.
    unfold put_workload. rewrite decide_True; [done|]. apply list_elem_of_fmap.
    destruct (proj2 (workload_groups_spec tts (workload_id t) i)) as (l & Hl & _); [eauto|].
    exists (workload_id t, l). split; [done|]. by apply Hasc.
  - apply Forall2_same_length_lookup_2; [by apply Forall2_length in H1|]. intros i t t' Ht Ht'.
    destruct (Forall2_lookup_lr _ _ _ _ _ _ H1 Ht Ht') as [E _]. split; [done|].
    apply Hcpus. apply (H2 i); [|done]. apply Hidx. by apply lookup_lt_Some in Ht.
  - intros c. by rewrite Hdom2, Hdom1, Hdom0.
  - done.
Qed.
End Assignment.

(** ** Step 4 *)

(** The utilizations added one after the other. *)
Definition usum (ts : list ClassifiedTask) : spec_float := foldl (fun u t => Dbl.add u (util t)) zero ts.
Definition cbs_bandwidth (s : PerCpuSchedule) : spec_float := Dbl.sub (Dbl.sub U_BOUND (u_tt s)) U_OVERHEAD.

Lemma allocate_loop_spec cpu avail done_ ts allocs :
  match allocate_loop cpu avail (usum done_) ts allocs with
  | inr (allocs', u) => allocs' = allocs ++ (place_cbs cpu <$> ts) /\ u = usum (done_ ++ ts) /\
      forall ts1 t ts2, ts = ts1 ++ t :: ts2 -> SFltb avail (usum (done_ ++ ts1 ++ [t])) = false
  | inl err => exists ts1 t ts2, ts = ts1 ++ t :: ts2 /\ err = Infeasible SafetyCbsExceeded cpu (task_id t) /\
      SFltb avail (usum (done_ ++ ts1 ++ [t])) = true /\
      forall l t' r, ts1 = l ++ t' :: r -> SFltb avail (usum (done_ ++ l ++ [t'])) = false
  end.
Proof.
  revert done_ allocs. induction ts as [|t ts IH]; intros done_ allocs; cbn [allocate_loop].
  { rewrite !app_nil_r. split_and!; [done|done|]. intros [|] ? ? ?; discriminate. }
  assert (Hstep : Dbl.add (usum done_) (util t) = usum (done_ ++ [t])) by (unfold usum; by rewrite foldl_app).
  rewrite Hstep. destruct (SFltb avail (usum (done_ ++ [t]))) eqn:E.
  { exists [], t, ts. split_and!; [done|done|done|]. intros [|] ? ? ?; discriminate. }
  specialize (IH (done_ ++ [t]) (allocs ++ [place_cbs cpu t])).
  destruct (allocate_loop _ _ _ _ _) as [err|[allocs' u]].
  - destruct IH as (ts1 & t' & ts2 & -> & -> & H & Hpre). exists (t :: ts1), t', ts2. rewrite <- app_assoc in H.
    split_and!; [done|done|done|]. intros [|x l] u r [= -> ->]; [done|].
    specialize (Hpre l u r eq_refl). by rewrite <- app_assoc in Hpre.
  - destruct IH as (-> & -> & H). rewrite <- !app_assoc. split_and!; [done|done|].
    intros [|t' ts1] t'' ts2 [= -> ->]; [done|]. specialize (H ts1 t'' ts2 eq_refl). by rewrite <- app_assoc in H.
Qed.

Section Budgets.
Context {sort : StdSort} {sort_laws : StdSortLaws}.

(** The order in which a CPU's tasks get their budgets. *)
Definition allocation_order (cbss : list ClassifiedTask) : list ClassifiedTask :=
  std_sort_lt (fun a b => SFltb (util b) (util a)) cbss.

(** C38. Budgets: the tasks of a CPU are served in the order [std::sort] gives
    them by decreasing utilization.  When the bandwidth left by the TT tasks is
    not positive the error says so and names no task.  Otherwise each task gets
    one budget, of its execution time in its period, and their sum is recorded,
    when no sum of the utilizations of the first tasks in this order exceeds
    the bandwidth; else the error names the first task at which the sum does. *)
Theorem allocate_cbs_budgets_admits cpu cbss s :
  let ts := allocation_order cbss in
  let exceeds l := SFltb (cbs_bandwidth s) (usum l) in
  ts ≡ₚ cbss /\
  match allocate_cbs_budgets cpu cbss s with
  | inr s' => SFleb (cbs_bandwidth s) zero = false /\
      s' = PerCpu (tt_slots s) (gaps s) (cbs_allocations s ++ (place_cbs cpu <$> ts)) (u_tt s) (usum ts) /\
      forall l t r, ts = l ++ t :: r -> exceeds (l ++ [t]) = false
  | inl err =>
      (err = Infeasible NoCbsBandwidth cpu ""%string /\ SFleb (cbs_bandwidth s) zero = true) \/
      SFleb (cbs_bandwidth s) zero = false /\ exists ts1 t ts2, ts = ts1 ++ t :: ts2 /\
        err = Infeasible SafetyCbsExceeded cpu (task_id t) /\ exceeds (ts1 ++ [t]) = true /\
        forall l t' r, ts1 = l ++ t' :: r -> exceeds (l ++ [t']) = false
  end.
Proof using sort_laws.
  intros ts exceeds. split; [apply std_sort_lt_perm|].
  unfold allocate_cbs_budgets. fold (cbs_bandwidth s). destruct (SFleb _ _) eqn:E; [by left|].
  fold (allocation_order cbss). fold ts.
  pose proof (allocate_loop_spec cpu (cbs_bandwidth s) [] ts (cbs_allocations s)) as H. cbn [app] in H.
  change (usum []) with zero in H. destruct (allocate_loop _ _ _ _ _) as [err|[allocs u]].
  - destruct H as (ts1 & t & ts2 & Ets & -> & Hlt & Hpre). right. split; [done|]. by exists ts1, t, ts2.
  - destruct H as (-> & -> & H). by split_and!.
Qed.

Lemma budget_cpu_spec cbss hp cpu s r :
  budget_cpu cbss hp (cpu, s) = Ret (inr r) ->
  r.1 = cpu /\ tt_slots r.2 = tt_slots s /\
  gaps r.2 = compute_gaps (tt_slots s) (if hp =? 0 then 10000 else hp) /\
  cbs_allocations r.2 ≡ₚ cbs_allocations s ++ (place_cbs cpu <$> on_cpu cpu cbss).
Proof using sort_laws.
  unfold budget_cpu. destruct (on_cpu cpu cbss) as [|t ts] eqn:E.
  { intros [= <-]. cbn [fst snd tt_slots gaps cbs_allocations fmap list_fmap]. by rewrite app_nil_r. }
  rewrite <- E. unfold allocate_cbs_budgets. destruct (SFleb _ _); [done|].
  set (l := std_sort_lt _ _). cbn [u_tt cbs_allocations].
  pose proof (allocate_loop_spec cpu (Dbl.sub (Dbl.sub U_BOUND (u_tt s)) U_OVERHEAD) [] l (cbs_allocations s)) as H.
  change (usum []) with zero in H. destruct (allocate_loop _ _ _ _ _) as [err|[allocs u]]; [done|].
  destruct H as (-> & _). intros [= <-]. cbn [fst snd tt_slots gaps cbs_allocations].
  split_and!; [done|done|done|]. unfold l. by rewrite std_sort_lt_perm.
Qed.
End Budgets.

(** ** The pipeline *)

Lemma each_cpu_inr f l l' :
  each_cpu f l = Ret (inr l') -> Forall2 (fun cs cs' => f cs = Ret (inr cs')) l l'.
Proof.
  revert l'. induction l as [|cs l IH]; intros l'; cbn [each_cpu]; [intros [= <-]; constructor|].
  destruct (f cs) as [[e|cs']|] eqn:E; cbn [obind]; [done| |done].
  destruct (each_cpu f l) as [[e|l1]|]; cbn [obind]; [done| |done].
  intros [= <-]. constructor; [done|by apply IH].
Qed.

Lemma each_cpu_ends f l : (forall cs, exists r, f cs = Ret r) -> exists r, each_cpu f l = Ret r.
Proof.
  intros Hf. induction l as [|cs l [r IH]]; cbn [each_cpu]; [by eexists|].
  destruct (Hf cs) as ([e|cs'] & ->); cbn [obind]; [by eexists|]. rewrite IH. by eexists.
Qed.

Lemma place_jobs_ends cpu hp t ks slots occ : exists r, place_jobs cpu hp t ks slots occ = Ret r.
Proof.
  revert slots occ. induction ks as [|k ks IH]; intros slots occ; cbn [place_jobs]; [by eexists|].
  destruct (find_free_slot_ends (length occ) occ (frame_start t k) (wcet_us t) (frame_end t hp k)) as [r ->];
    [apply length_filter|]. cbn [obind]. case_match; [by eexists|apply IH].
Qed.

Lemma place_tasks_ends cpu hp ts slots occ : exists r, place_tasks cpu hp ts slots occ = Ret r.
Proof.
  revert slots occ. induction ts as [|t ts IH]; intros slots occ; cbn [place_tasks]; [by eexists|].
  case_match; [apply IH|].
  destruct (place_jobs_ends cpu hp t (seq 0 (Z.to_nat (hp / period_us t))) slots occ) as [[e|[? ?]] ->];
    cbn [obind]; [by eexists|apply IH].
Qed.

Section Generate.
Context {sort : StdSort} {sort_laws : StdSortLaws}.

Lemma place_cpu_ends tts cs : exists r, place_cpu tts cs = Ret r.
Proof using.
  destruct cs as [cpu s]. unfold place_cpu, place_tt_slots. repeat case_match; try (by eexists); cbn [obind].
  all: match goal with |- context [place_tasks ?a ?b ?c ?d ?e] => destruct (place_tasks_ends a b c d e) as [[|] ->] end;
    by eexists.
Qed.

Lemma generate_schedule_ends node available now tasks :
  exists r, generate_schedule node available now tasks = Ret r.
Proof using.
  unfold generate_schedule. destruct tasks as [|t tasks]; [by eexists|].
  destruct (assign_cpus _ _ _) as [[[tts cbss] m]|]; [|by eexists].
  destruct (each_cpu_ends (place_cpu tts) (ascending Z.le m) (place_cpu_ends tts)) as [[e|scheds] ->];
    cbn [obind]; [by eexists|].
  match goal with |- context [each_cpu ?f scheds] =>
    destruct (each_cpu_ends f scheds) as [[e|l] ->]; [|by eexists..] end.
  intros [cpu s]. unfold budget_cpu. case_match; by eexists.
Qed.

(** C39. The schedule generator always answers, with a table or an error,
    whatever the tasks: also when the sums of the slot search wrap around. *)
Theorem generate_schedule_returns node available now tasks :
  exists r, generate_schedule node available now tasks = Ret r.
Proof using. apply generate_schedule_ends. Qed.
Abbreviation tt_of tasks := (filter (fun t => mechanism t = TT) tasks).
Abbreviation cbs_of tasks := (filter (fun t => mechanism t <> TT) tasks).

(** The TT tasks, each on the CPU [f] gives its workload. *)
Definition on_workload_cpu (f : string -> Z) (tasks : list ClassifiedTask) : list ClassifiedTask :=
  (fun t => assign_cpu (f (workload_id t)) t) <$> tt_of tasks.

Lemma StronglySorted_keys (m : gmap Z PerCpuSchedule) : StronglySorted Z.lt (ascending Z.le m).*1.
Proof using.
  pose proof (Sorted_ascending Z.le m) as Hs. pose proof (NoDup_ascending_keys Z.le m) as Hnd.
  apply Sorted_StronglySorted in Hs; [|intros a b c; unfold key_le; lia].
  induction Hs as [|x l Hs IH Hx]; [constructor|]. cbn [fmap list_fmap] in *.
  apply NoDup_cons in Hnd as [Hn Hnd]. constructor; [by apply IH|].
  apply Forall_fmap, Forall_forall. intros y Hy. pose proof (proj1 (Forall_forall _ _) Hx y Hy) as Hle.
  unfold key_le in Hle. cbn. assert (x.1 <> y.1); [|lia].
  intros E. apply Hn. rewrite E. apply list_elem_of_fmap. by exists y.
Qed.

(** What steps 3 and 4 leave in the schedule of a CPU. *)
Definition finished (cbss tts : list ClassifiedTask) (cs : Z * PerCpuSchedule) : Prop :=
  (exists s s1, tt_slots s = [] /\ place_cpu tts (cs.1, s) = Ret (inr s1) /\ tt_slots cs.2 = tt_slots s1.2) /\
  cbs_allocations cs.2 ≡ₚ place_cbs cs.1 <$> on_cpu cs.1 cbss.

Lemma place_cpu_keeps tts cpu s r :
  place_cpu tts (cpu, s) = Ret (inr r) -> r.1 = cpu /\ cbs_allocations r.2 = cbs_allocations s.
Proof using.
  unfold place_cpu. destruct (on_cpu cpu tts); [by intros [= <-]|].
  destruct (negb _); [done|]. unfold place_tt_slots. destruct (_ =? 0); [done|].
  match goal with |- context [place_tasks ?a ?b ?c ?d ?e] => destruct (place_tasks_ends a b c d e) as [[|] ->] end;
    cbn [obind]; [done|]. by intros [= <-].
Qed.

(** The steps of a successful run. *)
Lemma generate_steps node available now tasks table :
  tasks <> [] -> generate_schedule node available now tasks = Ret (inl table) ->
  exists f cbss scheds,
    (forall w, f w ∈ usable_cpus available) /\
    Forall2 (assigned (usable_cpus available)) (cbs_of tasks) cbss /\
    StronglySorted Z.lt scheds.*1 /\ (forall c, c ∈ scheds.*1 <-> c ∈ usable_cpus available) /\
    Forall (finished cbss (on_workload_cpu f tasks)) scheds /\
    table = build_table node now scheds (calculate_hyperperiod (periods_of (on_workload_cpu f tasks))).
Proof using sort_laws.
  intros Hne Hg. destruct tasks as [|t0 tasks0]; [done|]. unfold generate_schedule in Hg.
  set (tasks := t0 :: tasks0) in *. clearbody tasks. clear t0 tasks0.
  destruct (assign_cpus _ _ _) as [[[tts cbss] m]|] eqn:Ea; [|done].
  apply assign_cpus_spec in Ea as ((f & Hf & ->) & Hcbs & Hdom & Hb).
  fold (on_workload_cpu f tasks) in Hg. set (tts := on_workload_cpu f tasks) in *.
  destruct (each_cpu (place_cpu tts) _) as [[e|scheds1]|] eqn:E1; cbn [obind] in Hg; [done| |done].
  set (hp := match periods_of tts with [] => 0 | _ => _ end) in Hg.
  assert (Ehp : hp = calculate_hyperperiod (periods_of tts)) by (unfold hp; by destruct (periods_of tts)).
  destruct (each_cpu _ scheds1) as [[e|scheds]|] eqn:E2; cbn [obind] in Hg; [done| |done].
  injection Hg as <-. apply each_cpu_inr in E1, E2.
  assert (Hall : Forall2 (fun cs cs' => cs'.1 = cs.1 /\ finished cbss tts cs') (ascending Z.le m) scheds).
  { apply Forall2_same_length_lookup_2.
    { by rewrite (Forall2_length _ _ _ E1), (Forall2_length _ _ _ E2). }
    intros i [c s] [c2 s2] Hi Hi2. destruct (Forall2_lookup_l _ _ _ _ _ E1 Hi) as (cs1 & Hi1 & Hp).
    pose proof (Forall2_lookup_lr _ _ _ _ _ _ E2 Hi1 Hi2) as Hbud.
    destruct (place_cpu_keeps _ _ _ _ Hp) as [Hc1 Hcb]. destruct cs1 as [c1 s1]. cbn [fst snd] in *. subst c1.
    apply budget_cpu_spec in Hbud as (Hc2 & Hts & _ & Hcbs2). cbn [fst snd] in *. subst c2.
    apply list_elem_of_lookup_2, elem_of_ascending in Hi.
    destruct (Hb c s Hi) as (Hs1 & _ & Hs3). split; [done|]. split; cbn [fst snd].
    - exists s, (c, s1). by split_and!.
    - by rewrite Hcbs2, Hcb, Hs3. }
  assert (Hkeys : scheds.*1 = (ascending Z.le m).*1).
  { clear -Hall. induction Hall as [|x y l l' [E _] _ IH]; [done|]. cbn [fmap list_fmap]. by f_equal. }
  exists f, cbss, scheds. rewrite Hkeys. split_and!; [done|done|apply StronglySorted_keys| | |by rewrite Ehp].
  - intros c. rewrite <- Hdom, elem_of_dom, list_elem_of_fmap. split.
    + intros ([c' s] & -> & Hin%elem_of_ascending). by exists s.
    + intros [s Hs]. exists (c, s). split; [done|]. by apply elem_of_ascending.
  - apply Forall_forall. intros cs' Hin. apply list_elem_of_lookup in Hin as [i Hi].
    destruct (Forall2_lookup_r _ _ _ _ _ Hall Hi) as (cs & _ & _ & H). exact H.
Qed.

Lemma on_workload_cpu_Forall (P : ClassifiedTask -> Prop) f tasks :
  (forall c t, P t -> P (assign_cpu c t)) -> Forall P tasks -> Forall P (on_workload_cpu f tasks).
Proof using.
  intros HP H. apply Forall_fmap, Forall_forall. intros t [_ Ht]%list_elem_of_filter.
  apply HP. by apply (proj1 (Forall_forall _ _) H).
Qed.

(** The slots of a finished CPU are a feasible placement. *)
Lemma finished_feasible f cbss tasks scheds :
  Forall task_ok tasks -> Forall (fun t => period_us t < 2 ^ 31) tasks ->
  Forall (finished cbss (on_workload_cpu f tasks)) scheds ->
  Forall (fun cs => cpu_feasible (on_workload_cpu f tasks) cs.1 (tt_slots cs.2)) scheds.
Proof using sort_laws.
  intros Hok Hb Hfin. eapply Forall_impl; [exact Hfin|].
  intros [cpu s2] [(s & [cpu1 s1] & Hs0 & Hp & Ht) _]. cbn [fst snd] in *.
  destruct (place_cpu_ok (on_workload_cpu f tasks)) with (cpu := cpu) (s := s) as (r & Hr & Hr'); [| |done|].
  - by apply on_workload_cpu_Forall.
  - by apply on_workload_cpu_Forall.
  - rewrite Hp in Hr. injection Hr as <-. rewrite Ht. apply Hr'.
Qed.

(** C11. A table is a schedule.  For tasks with periods, execution times and
    deadlines below 2^31 us, a table that the generator returns comes from
    one schedule per usable CPU, in ascending order: each workload has all
    its TT tasks on one usable CPU, and on each CPU the slots are a feasible
    placement of every job of the hyperperiod of that CPU. *)
Theorem generate_schedule_feasible node available now tasks table :
  tasks <> [] -> Forall task_ok tasks -> Forall (fun t => period_us t < 2 ^ 31) tasks ->
  generate_schedule node available now tasks = Ret (inl table) ->
  exists f scheds,
    (forall w, f w ∈ usable_cpus available) /\
    StronglySorted Z.lt scheds.*1 /\ (forall c, c ∈ scheds.*1 <-> c ∈ usable_cpus available) /\
    Forall (fun cs => cpu_feasible (on_workload_cpu f tasks) cs.1 (tt_slots cs.2)) scheds /\
    partitions table = omap build_partition scheds.
Proof using sort_laws.
  intros Hne Hok Hb Hg. destruct (generate_steps _ _ _ _ _ Hne Hg) as (f & cbss & scheds & Hf & _ & Hs & Hk & Hfin & ->).
  exists f, scheds. split_and!; [done|done|done|by eapply finished_feasible|done].
Qed.

Lemma on_cpu_partition keys ts :
  NoDup keys -> Forall (fun t => assigned_cpu t ∈ keys) ts -> keys ≫= (fun c => on_cpu c ts) ≡ₚ ts.
Proof using.
  intros Hnd. induction ts as [|t ts IH]; intros Hin.
  { clear Hnd Hin. by induction keys as [|c keys IHk]. }
  apply Forall_cons in Hin as [Ht Hin]. transitivity (t :: (keys ≫= (fun c => on_cpu c ts))); [|by rewrite IH].
  clear IH Hin. induction Hnd as [|c keys Hc Hnd IHk]; [by apply not_elem_of_nil in Ht|].
  cbn [mbind list_bind]. unfold on_cpu at 1. rewrite filter_cons. case_decide as E.
  - cbn [app]. apply perm_skip. apply Permutation_app; [done|]. apply reflexive_eq.
    apply Forall_bind_ext, Forall_forall. intros c' Hc'. unfold on_cpu. rewrite filter_cons, decide_False; [done|].
    congruence.
  - rewrite IHk; [|by apply elem_of_cons in Ht as [?|?]]. symmetry. apply Permutation_middle.
Qed.

Lemma cbs_entries_of_partition cs :
  default [] ((fun p => layers p ≫= l_cbs_entries) <$> build_partition cs) = cbs_message <$> cbs_allocations cs.2.
Proof using.
  destruct cs as [c s]. unfold build_partition. cbn [snd].
  destruct (tt_slots s), (cbs_allocations s); cbn; by rewrite ?app_nil_r.
Qed.

(** C15. No CBS task is lost: the CBS entries of the table a run returns are,
    over all its partitions, exactly one for each CBS task, with the task's
    execution time as budget in its period. *)
Theorem every_cbs_task_budgeted node available now tasks table :
  generate_schedule node available now tasks = Ret (inl table) ->
  table_entries table ≡ₚ (fun t => cbs_message (place_cbs 0 t)) <$> cbs_of tasks.
Proof using sort_laws.
  intros Hg. destruct (decide (length tasks = 0%nat)) as [->%length_zero_iff_nil|Hne].
  { by injection Hg as <-. }
  assert (Hne' : tasks <> []) by (by intros ->).
  destruct (generate_steps _ _ _ _ _ Hne' Hg) as (f & cbss & scheds & _ & Hcbs & Hs & Hk & Hfin & ->).
  unfold table_entries, table_layers. cbn [build_table partitions].
  assert (E : (omap build_partition scheds ≫= layers) ≫= l_cbs_entries
              ≡ₚ (fun t => cbs_message (place_cbs 0 t)) <$> (scheds.*1 ≫= (fun c => on_cpu c cbss))).
  { clear -Hfin. induction Hfin as [|cs scheds [_ Hc] _ IH]; [done|]. cbn [omap list_omap fmap list_fmap mbind list_bind].
    rewrite fmap_app, <- IH. pose proof (cbs_entries_of_partition cs) as Hp.
    assert (Hm : cbs_message <$> cbs_allocations cs.2 ≡ₚ (fun t => cbs_message (place_cbs 0 t)) <$> on_cpu cs.1 cbss).
    { rewrite Hc. by rewrite <- list_fmap_compose. }
    destruct (build_partition cs) as [p|]; cbn [fmap option_fmap option_map default from_option id] in Hp;
      [cbn [mbind list_bind]; by rewrite bind_app, Hp, Hm|].
    rewrite <- Hm, <- Hp. done. }
  rewrite E, on_cpu_partition.
  - apply reflexive_eq. clear -Hcbs. induction Hcbs as [|t t' l l' [Ht _] _ IH]; [done|].
    cbn [fmap list_fmap]. rewrite IH. f_equal. by rewrite Ht.
  - clear -Hs. induction Hs as [|x l Hs IH Hx]; constructor; [|done].
    intros Hin. pose proof (proj1 (Forall_forall _ _) Hx x Hin). lia.
  - apply Forall_forall. intros t' [i Hi]%list_elem_of_lookup.
    destruct (Forall2_lookup_r _ _ _ _ _ Hcbs Hi) as (t & _ & _ & Hin). by apply Hk.
Qed.
End Generate.

(** ** Runs *)

Definition run (tasks : list ClassifiedTask) := @generate_schedule stable_sort "node"%string [] 7 tasks.
Definition slots_of (table : HierarchicalScheduleTable) : list (string * Z * Z * Z) :=
  (fun s => (m_task s, m_cpu s, m_offset s, m_duration s)) <$> table_slots table.

Definition mixed_tasks : list ClassifiedTask :=
  [Task "w" "slow" TT 40 10 40 1 0; Task "c" "server" CBS 100 20 100 1 0; Task "w" "fast" TT 20 5 15 1 0]%string.
Definition mixed_table : HierarchicalScheduleTable :=
  match run mixed_tasks with Ret (inl t) => t | _ => build_table "node"%string 7 [] 0 end.

Lemma generate_schedule_feasible_witness :
  slots_of mixed_table = [("fast"%string, 2, 0, 5); ("slow"%string, 2, 5, 10); ("fast"%string, 2, 20, 5)] /\
  exists (f : string -> Z) (scheds : list (Z * PerCpuSchedule)),
    (forall w, f w ∈ [2; 3]) /\ partitions mixed_table = omap build_partition scheds.
Proof.
  split; [vm_compute; reflexivity|].
  destruct (@generate_schedule_feasible stable_sort stable_sort_laws "node"%string [] 7 mixed_tasks mixed_table)
    as (f & scheds & Hf & _ & _ & _ & Hp).
  - done.
  - repeat (apply Forall_cons; split; [unfold task_ok; cbn; lia|]). constructor.
  - repeat (apply Forall_cons; split; [cbn; lia|]). constructor.
  - vm_compute. reflexivity.
  - exists f, scheds. by split.
Defined.

Lemma every_cbs_task_budgeted_witness :
  table_entries mixed_table ≡ₚ
  [cbs_message (Cbs "c"%string "server"%string 20 100 100 1 3)].
Proof.
  apply (@every_cbs_task_budgeted stable_sort stable_sort_laws "node"%string [] 7 mixed_tasks mixed_table).
  vm_compute. reflexivity.
Defined.

Definition two_servers : list ClassifiedTask :=
  [Task "c" "small" CBS 100 10 100 1 2; Task "c" "large" CBS 100 60 100 1 2]%string.
(** Two servers that fit, and two of which the second in the order does not. *)
Definition two_large : list ClassifiedTask :=
  [Task "c" "second" CBS 100 40 100 1 2; Task "c" "first" CBS 100 60 100 1 2]%string.
Lemma allocate_cbs_budgets_admits_witness :
  (exists s', @allocate_cbs_budgets stable_sort 2 two_servers empty_schedule = inr s' /\
    @allocation_order stable_sort two_servers ≡ₚ two_servers /\
    cbs_allocations s' = place_cbs 2 <$> @allocation_order stable_sort two_servers) /\
  exists ts1 t, @allocate_cbs_budgets stable_sort 2 two_large empty_schedule = inl (Infeasible SafetyCbsExceeded 2 (task_id t)) /\
    (exists ts2, @allocation_order stable_sort two_large = ts1 ++ t :: ts2) /\
    SFltb (cbs_bandwidth empty_schedule) (usum (ts1 ++ [t])) = true.
Proof.
  split.
  - destruct (@allocate_cbs_budgets_admits stable_sort stable_sort_laws 2 two_servers empty_schedule) as [Hp H].
    destruct (allocate_cbs_budgets 2 two_servers empty_schedule) as [e|s'] eqn:E; [vm_compute in E; discriminate E|].
    exists s'. split; [reflexivity|]. split; [exact Hp|]. destruct H as (_ & -> & _). reflexivity.
  - destruct (@allocate_cbs_budgets_admits stable_sort stable_sort_laws 2 two_large empty_schedule) as [_ H].
    destruct (allocate_cbs_budgets 2 two_large empty_schedule) as [e|s'] eqn:E; [|vm_compute in E; discriminate E].
    destruct H as [[-> _]|(_ & ts1 & t & ts2 & Ho & -> & Hx & _)]; [vm_compute in E; discriminate E|].
    exists ts1, t. split; [reflexivity|]. split; [by exists ts2|exact Hx].
Defined.

(** Workloads on different CPUs: the table has the hyperperiod of both, the
    slots of the first cover half of it. *)
Lemma shorter_hyperperiod_served_once :
  exists t, run [Task "a" "fast" TT 10 2 10 0 0; Task "b" "slow" TT 20 2 20 0 0]%string = Ret (inl t) /\
    hyperperiod_us t = 20 /\ slots_of t = [("fast"%string, 2, 0, 2); ("slow"%string, 3, 0, 2)].
Proof. eexists. split; [vm_compute; reflexivity|]. by split. Qed.

(** Periods are only compared on one CPU: the least common multiple over all
    CPUs may not fit the 32-bit field of the table. *)
Lemma global_hyperperiod_truncated :
  exists t, run [Task "a" "x" TT 65537 2 100 0 0; Task "b" "y" TT 65539 2 100 0 0]%string = Ret (inl t) /\
    hyperperiod_us t = 262147 /\ 2 ^ 32 < 65537 * 65539.
Proof. eexists. split; [vm_compute; reflexivity|]. by split. Qed.

(** A TT task with period 0 disappears beside another one, and is refused
    alone. *)
Lemma zero_period_dropped :
  (exists t, run [Task "a" "x" TT 100 2 100 0 0; Task "a" "y" TT 0 2 100 0 0]%string = Ret (inl t) /\
    slots_of t = [("x"%string, 2, 0, 2)]) /\
  run [Task "a" "y" TT 0 2 100 0 0]%string = Ret (inr (Infeasible TtSlotConflict 2 ""%string)).
Proof. split; [eexists; split; [vm_compute; reflexivity|done]|vm_compute; reflexivity]. Qed.

(** A free position from 2^31 us on is taken for a refusal. *)
Lemma late_position_refused :
  run [Task "a" "x" TT 1100000000 2 100 0 0; Task "a" "y" TT 3300000000 2 3300000000 0 0]%string
  = Ret (inr (Infeasible TtSlotConflict 2 "x"%string)).
Proof. vm_compute. reflexivity. Qed.
