(* ===== verification/SchedInfoService.v ===== *)
(** * timpani-o/src/schedinfo_service.cpp: workloads and tables

    The service keeps the classified tasks of each workload and one table per
    node, generated from all workloads of the node.  [now] gives the wall
    clock of each generation; the lock makes the operations atomic.  [Ret
    None] is an exception. *)
From stdpp Require Import prelude gmap strings list sorting pretty.
From Stdlib Require Import ZArith Lia.
From Stdlib Require String Ascii.
From S2P Require Import Prelude Text NodeConfig Messages GlobalScheduler.
Local Open Scope Z_scope.
Local Open Scope c_scope.

(** ** Requests (schedinfo.proto) *)

Record TaskInfo := TaskInfo_ {
  t_name : string; t_priority : Z; t_policy : Z; t_cpu_affinity : Z; t_period : Z; t_release_time : Z;
  t_runtime : Z; t_deadline : Z; t_node_id : string; t_max_dmiss : Z }.

(** Policies are numbers; an unknown one keeps its number. *)
Definition NORMAL : Z := 0.
Definition FIFO : Z := 1.
Definition RR : Z := 2.
Definition SchedPolicyToInt (policy : Z) : Z :=
  if policy =? NORMAL then 0 else if policy =? FIFO then 1 else if policy =? RR then 2 else -1.

Definition TEMPORAL_PERIODIC : Z := 0.
Definition TEMPORAL_SPORADIC : Z := 1.
Record SchedInfo := SchedInfo_ { r_workload_id : string; r_tasks : list TaskInfo; r_temporal_class : Z }.

(** ** State *)

Record WorkloadEntry := Entry { target_nodes : gset string; entry_tasks : list ClassifiedTask }.

Record service := Service {
  workload_tasks : gmap string WorkloadEntry;
  schedule_tables : gmap string HierarchicalScheduleTable;
  schedule_changed : bool;
}.
Definition SchedInfoServiceImpl : service := Service ∅ ∅ false.

Definition ConvertToClassifiedTask (workload : string) (mech : Mechanism) (g : TaskInfo) : ClassifiedTask :=
  let period := u32 (t_period g) in
  let deadline := u32 (t_deadline g) in
  Task workload (t_name g) mech period (u32 (t_runtime g))
    (if (deadline =? 0) && (0 <? period) then period else deadline) (u32 (t_max_dmiss g)) (-1).
Definition ConvertToClassifiedTasks (request : SchedInfo) (mech : Mechanism) : list ClassifiedTask :=
  ConvertToClassifiedTask (r_workload_id request) mech <$> r_tasks request.

Section Service.
Context {sort : StdSort} (config : NodeConfigManager).

(** What the generator asks of the node configuration. *)
Definition cpus_of (node : string) : list Z := if IsLoaded config then GetAvailableCpus config node else [].

(** ** Regeneration *)

Definition node_set (s : service) : gset string :=
  union_list (target_nodes <$> (ascending string_le (workload_tasks s)).*2) ∪ dom (schedule_tables s).

Definition tasks_for (workloads : gmap string WorkloadEntry) (node : string) : list ClassifiedTask :=
  ascending string_le workloads ≫= fun we => if decide (node ∈ target_nodes we.2) then entry_tasks we.2 else [].

Fixpoint generate_all (now : string -> Z) (workloads : gmap string WorkloadEntry) (ns : list string)
    (new_tables : gmap string HierarchicalScheduleTable) : outcome (option (gmap string HierarchicalScheduleTable)) :=
  match ns with
  | [] => Ret (Some new_tables)
  | node :: ns =>
      result <-c generate_schedule node (cpus_of node) (now node) (tasks_for workloads node);
      match result with
      | inr _ => Ret None
      | inl table => generate_all now workloads ns (<[node := table]> new_tables)
      end
  end.

(** [None] is the result [false], which leaves the tables. *)
Definition RegenerateAllSchedules (now : string -> Z) (s : service) : outcome (option service) :=
  r <-c generate_all now (workload_tasks s) (merge_sort string_le (elements (node_set s))) ∅;
  Ret (match r with
       | None => None
       | Some new_tables => Some (Service (workload_tasks s) new_tables (schedule_changed s))
       end).

Definition with_workloads (w : gmap string WorkloadEntry) (s : service) : service :=
  Service w (schedule_tables s) (schedule_changed s).
Definition mark_changed (s : service) : service := Service (workload_tasks s) (schedule_tables s) true.

(** ** Operations *)

Definition classify (temporal_class : Z) : option Mechanism :=
  if temporal_class =? TEMPORAL_PERIODIC then Some TT
  else if temporal_class =? TEMPORAL_SPORADIC then Some CBS else None.

Definition request_nodes (request : SchedInfo) : gset string :=
  let named := list_to_set (filter (fun n => n <> ""%string) (t_node_id <$> r_tasks request)) : gset string in
  if decide (named = ∅) then
    let all := if IsLoaded config then dom (nodes config) else ∅ in
    if decide (all = ∅) then {["default"%string]} else all
  else named.

(** The service afterwards and the status of the reply; [now1] and [now2] are
    the clocks of the two regenerations. *)
Definition AddSchedInfo (now1 now2 : string -> Z) (request : SchedInfo) (s : service) : outcome (service * Z) :=
  match classify (r_temporal_class request) with
  | None => Ret (s, -1)
  | Some mech =>
      let classified := ConvertToClassifiedTasks request mech in
      match classified with
      | [] => Ret (s, -1)
      | _ =>
          let w := r_workload_id request in
          let s := with_workloads (<[w := Entry (request_nodes request) classified]> (workload_tasks s)) s in
          r <-c RegenerateAllSchedules now1 s;
          match r with
          | Some s => Ret (mark_changed s, 0)
          | None =>
              let s := with_workloads (delete w (workload_tasks s)) s in
              r <-c RegenerateAllSchedules now2 s;
              Ret (default s r, -1)
          end
      end
  end.

(** The tables, and whether they changed since the last call. *)
Definition GetScheduleTables (s : service) : service * (gmap string HierarchicalScheduleTable * bool) :=
  (Service (workload_tasks s) (schedule_tables s) false, (schedule_tables s, schedule_changed s)).

(** The workload an identifier stands for when it is not a name: the first
    with that hash, in decimal or in hexadecimal.  [None] is the exception of a
    number that is too large. *)
Definition hash_matches (id w : string) : option bool := names_hash id (fnv1a_hash w).

Fixpoint resolve (id : string) (ws : list string) : option (option string) :=
  match ws with
  | [] => Some None
  | w :: ws =>
      match hash_matches id w with
      | None => None
      | Some true => Some (Some w)
      | Some false => resolve id ws
      end
  end.

(** The service afterwards, the resolved name and the result. *)
Definition RemoveWorkload (now : string -> Z) (id : string) (trigger_push : bool) (s : service)
  : outcome (option (service * option string * bool)) :=
  match (match workload_tasks s !! id with
         | Some _ => Some (Some id)
         | None => resolve id (ascending string_le (workload_tasks s)).*1
         end) with
  | None => Ret None
  | Some None => Ret (Some (s, None, false))
  | Some (Some w) =>
      let s := with_workloads (delete w (workload_tasks s)) s in
      r <-c RegenerateAllSchedules now s;
      Ret (Some (match r with
                 | None => (s, Some w, false)
                 | Some s => (if trigger_push then mark_changed s else s, Some w, true)
                 end))
  end.
End Service.

(** ** Tables and workloads agree *)

Section ServiceProofs.
Context {sort : StdSort} (config : NodeConfigManager).

(** Every table is the generator's answer for the present workloads of its
    node, and every node of a workload has a table. *)
Definition in_sync (s : service) : Prop :=
  (forall node table, schedule_tables s !! node = Some table ->
     exists now, generate_schedule node (cpus_of config node) now (tasks_for (workload_tasks s) node) = Ret (inl table)) /\
  (forall w e, workload_tasks s !! w = Some e -> target_nodes e ⊆ dom (schedule_tables s)).

Lemma generate_all_ends now w ns acc : exists r, generate_all config now w ns acc = Ret r.
Proof using.
  revert acc. induction ns as [|n ns IH]; intros acc; cbn [generate_all]; [by eexists|].
  destruct (generate_schedule_ends n (cpus_of config n) (now n) (tasks_for w n)) as [[t|e] ->]; cbn [obind];
    [apply IH|by eexists].
Qed.

Lemma generate_all_spec now w ns acc tables :
  generate_all config now w ns acc = Ret (Some tables) ->
  dom tables = dom acc ∪ list_to_set ns /\
  forall n t, tables !! n = Some t ->
    acc !! n = Some t \/ exists now, generate_schedule n (cpus_of config n) now (tasks_for w n) = Ret (inl t).
Proof using.
  revert acc. induction ns as [|n ns IH]; intros acc; cbn [generate_all].
  { intros [= <-]. split; [set_solver|]. by left. }
  destruct (generate_schedule n _ _ _) as [[t|e]|] eqn:E; cbn [obind]; [|done|done]. intros [Hd Ht]%IH.
  split; [rewrite Hd; set_solver|]. intros n' t' [Hn'|?]%Ht; [|by right].
  rewrite lookup_insert in Hn'. case_decide as En; [subst n'; injection Hn' as <-; right; by eexists|by left].
Qed.

Lemma generate_all_fails now w ns acc :
  generate_all config now w ns acc = Ret None ->
  exists n err, n ∈ ns /\ generate_schedule n (cpus_of config n) (now n) (tasks_for w n) = Ret (inr err).
Proof using.
  revert acc. induction ns as [|n ns IH]; intros acc; cbn [generate_all]; [done|].
  destruct (generate_schedule n _ _ _) as [[t|e]|] eqn:E; cbn [obind]; [|intros _; exists n, e; by split; [left|]|done].
  intros (n' & err & Hn & He)%IH. exists n', err. split; [by right|done].
Qed.

Lemma elem_of_node_set s node :
  node ∈ node_set s <->
  (exists w e, workload_tasks s !! w = Some e /\ node ∈ target_nodes e) \/ node ∈ dom (schedule_tables s).
Proof using.
  unfold node_set. rewrite elem_of_union, elem_of_union_list. split; (intros [H|H]; [left|by right]).
  - destruct H as (X & HX & Hn). apply list_elem_of_fmap in HX as (e & -> & He).
    apply list_elem_of_fmap in He as ([w e'] & -> & Hin). exists w, e'. split; [|done]. by apply elem_of_ascending in Hin.
  - destruct H as (w & e & Hw & Hn). exists (target_nodes e). split; [|done]. apply list_elem_of_fmap. exists e. split; [done|].
    apply list_elem_of_fmap. exists (w, e). split; [done|]. by apply elem_of_ascending.
Qed.

(** A regeneration ends; it succeeds with agreeing tables for all nodes, or
    fails because the generator refuses the workloads of some node. *)
Lemma RegenerateAllSchedules_spec now s :
  exists r, RegenerateAllSchedules config now s = Ret r /\
    match r with
    | Some s' => in_sync s' /\ workload_tasks s' = workload_tasks s /\ schedule_changed s' = schedule_changed s /\
        dom (schedule_tables s') = node_set s
    | None => exists node err, node ∈ node_set s /\
        generate_schedule node (cpus_of config node) (now node) (tasks_for (workload_tasks s) node) = Ret (inr err)
    end.
Proof using.
  unfold RegenerateAllSchedules. set (ns := merge_sort _ _).
  assert (Hns : forall n, n ∈ ns <-> n ∈ node_set s).
  { intros n. unfold ns. by rewrite merge_sort_Permutation, elem_of_elements. }
  destruct (generate_all_ends now (workload_tasks s) ns ∅) as [[tables|] E]; rewrite E; cbn [obind];
    (eexists; split; [done|]); cbn beta iota.
  - apply generate_all_spec in E as [Hd Ht]. rewrite dom_empty_L, union_empty_l_L in Hd.
    cbn [workload_tasks schedule_tables schedule_changed]. split_and!; [split; cbn [workload_tasks schedule_tables]|done|done|].
    + intros node table [Hn|?]%Ht; [by rewrite lookup_empty in Hn|done].
    + intros w e Hw n Hn. rewrite Hd. apply elem_of_list_to_set, Hns, elem_of_node_set. left. by exists w, e.
    + rewrite Hd. apply set_eq. intros n. by rewrite elem_of_list_to_set, Hns.
  - apply generate_all_fails in E as (n & err & Hn%Hns & He). by exists n, err.
Qed.

(** A request that the service can classify, with at least one task. *)
Definition valid_request (request : SchedInfo) : Prop :=
  (r_temporal_class request = TEMPORAL_PERIODIC \/ r_temporal_class request = TEMPORAL_SPORADIC) /\
  r_tasks request <> [].

Definition request_entry (request : SchedInfo) : WorkloadEntry :=
  Entry (request_nodes config request)
    (ConvertToClassifiedTasks request (default TT (classify (r_temporal_class request)))).

Lemma classify_spec request :
  (valid_request request /\ exists mech, classify (r_temporal_class request) = Some mech /\
     ConvertToClassifiedTasks request mech <> []) \/
  (~ valid_request request /\
   (classify (r_temporal_class request) = None \/
    exists mech, classify (r_temporal_class request) = Some mech /\ ConvertToClassifiedTasks request mech = [])).
Proof using.
  unfold valid_request, classify, ConvertToClassifiedTasks.
  destruct (Z.eqb_spec (r_temporal_class request) TEMPORAL_PERIODIC) as [E|E];
    [|destruct (Z.eqb_spec (r_temporal_class request) TEMPORAL_SPORADIC) as [E'|E']; [|right; tauto]];
    destruct (r_tasks request) as [|g gs]; [right|left|right|left]; split_and!; try tauto; eauto.
Qed.

(** Adding a workload always answers.  A status of 0 means that the
    request is valid, the workload is stored (replacing one of the same
    name), every table is the generator's answer for the present workloads
    and the change is announced.  A status of -1 leaves the announcement as
    it was: an invalid request changes nothing; a workload for which the
    generator refuses some node is gone afterwards, and the tables again
    agree with the workloads unless also those are refused, when they stay. *)
Lemma AddSchedInfo_outcome now1 now2 request s :
  exists s' status, AddSchedInfo config now1 now2 request s = Ret (s', status) /\
    let w := r_workload_id request in
    let added := with_workloads (<[w := request_entry request]> (workload_tasks s)) s in
    (status = 0 /\ valid_request request /\ in_sync s' /\ schedule_changed s' = true /\
       workload_tasks s' = workload_tasks added /\ dom (schedule_tables s') = node_set added) \/
    (status = -1 /\ schedule_changed s' = schedule_changed s /\
      ((~ valid_request request /\ s' = s) \/
       (valid_request request /\ workload_tasks s' = delete w (workload_tasks s) /\
        (exists node err, node ∈ node_set added /\
           generate_schedule node (cpus_of config node) (now1 node) (tasks_for (workload_tasks added) node) = Ret (inr err)) /\
        (in_sync s' \/ schedule_tables s' = schedule_tables s)))).
Proof using.
  unfold AddSchedInfo, request_entry. destruct (classify_spec request) as [[Hv (mech & Em & Hne)]|[Hv Hno]].
  2:{ exists s, (-1). split; [|right; split_and!; [done|done|by left]].
      destruct Hno as [->|(mech & -> & ->)]; done. }
  rewrite Em. cbn [default]. destruct (ConvertToClassifiedTasks request mech) as [|c cs] eqn:Ec; [done|].
  rewrite <- Ec. set (s1 := with_workloads _ s).
  destruct (RegenerateAllSchedules_spec now1 s1) as ([s2|] & -> & Hr); cbn [obind].
  - exists (mark_changed s2), 0. split; [done|]. left. destruct Hr as (Hs & Hw & _ & Hd).
    split_and!; [done|done|exact Hs|done|exact Hw|exact Hd].
  - set (s3 := with_workloads (delete _ _) s1).
    destruct (RegenerateAllSchedules_spec now2 s3) as ([s4|] & -> & Hr2); cbn [obind]; cbn [default].
    all: eexists _, (-1); (split; [reflexivity|]); right; (split; [done|]).
    + destruct Hr2 as (Hs & Hw & Hch & _). split; [exact Hch|]. right. split_and!; [done| |done|by left].
      etrans; [exact Hw|]. apply delete_insert_eq.
    + split; [done|]. right. split_and!; [done| |done|by right]. apply delete_insert_eq.
Qed.

(** The service after an operation that adds no workload: its tables were
    generated from what is left, or they stayed. *)
Definition shrunk (s s' : service) : Prop :=
  workload_tasks s' ⊆ workload_tasks s /\ (in_sync s' \/ schedule_tables s' = schedule_tables s).

Lemma shrunk_delete w s s' :
  workload_tasks s' = delete w (workload_tasks s) -> (in_sync s' \/ schedule_tables s' = schedule_tables s) -> shrunk s s'.
Proof using. intros Hw Ht. split; [|done]. rewrite Hw. apply delete_subseteq. Qed.

Lemma request_nodes_nonempty request : request_nodes config request <> ∅.
Proof using. unfold request_nodes. repeat (case_decide; [|done]). set_solver. Qed.

(** The workload an identifier stands for. *)
Definition stands_for (s : service) (id w : string) : Prop :=
  match workload_tasks s !! id with
  | Some _ => w = id
  | None => exists before after, (ascending string_le (workload_tasks s)).*1 = before ++ w :: after /\
      Forall (fun v => hash_matches id v = Some false) before /\ hash_matches id w = Some true
  end.

Lemma resolve_spec id ws :
  match resolve id ws with
  | Some (Some w) => exists before after, ws = before ++ w :: after /\
      Forall (fun v => hash_matches id v = Some false) before /\ hash_matches id w = Some true
  | Some None => Forall (fun v => hash_matches id v = Some false) ws
  | None => exists w, w ∈ ws /\ hash_matches id w = None
  end.
Proof using.
  induction ws as [|w ws IH]; cbn [resolve]; [constructor|].
  destruct (hash_matches id w) as [[]|] eqn:E; [by exists [], ws| |exists w; by split; [left|]].
  destruct (resolve id ws) as [[w'|]|].
  - destruct IH as (before & after & -> & Hb & Hw). exists (w :: before), after. split_and!; [done|by constructor|done].
  - by constructor.
  - destruct IH as (w' & Hw & He). exists w'. split; [by right|done].
Qed.

(** Removing a workload: by name, or by the decimal or hexadecimal hash of
    a name, the first in order.  On success the workload is gone, every table
    agrees with the rest, and the change is announced exactly when asked for.
    Without success nothing changes, or the generator refuses what remains
    and the tables stay.  An exception is a hexadecimal number beyond 64 bits. *)
Lemma RemoveWorkload_spec now id push s :
  exists r, RemoveWorkload config now id push s = Ret r /\
    match r with
    | Some (s', Some w, ok) => stands_for s id w /\ workload_tasks s' = delete w (workload_tasks s) /\
        if ok then in_sync s' /\ schedule_changed s' = (push || schedule_changed s)
        else schedule_tables s' = schedule_tables s /\ schedule_changed s' = schedule_changed s
    | Some (s', None, ok) => s' = s /\ ok = false /\ workload_tasks s !! id = None /\
        forall w e, workload_tasks s !! w = Some e -> hash_matches id w = Some false
    | None => workload_tasks s !! id = None /\ starts_with (chars "0x"%string) (chars id) = true /\
        stoull_hex (chars id) = None
    end.
Proof using.
  unfold RemoveWorkload, stands_for.
  assert (Hrem : forall w, exists r, (r <-c RegenerateAllSchedules config now (with_workloads (delete w (workload_tasks s)) s);
      Ret (Some (match r with
                 | None => (with_workloads (delete w (workload_tasks s)) s, Some w, false)
                 | Some s => (if push then mark_changed s else s, Some w, true)
                 end))) = Ret (Some r) /\ r.1.2 = Some w /\ workload_tasks r.1.1 = delete w (workload_tasks s) /\
      if r.2 then in_sync r.1.1 /\ schedule_changed r.1.1 = (push || schedule_changed s)
      else schedule_tables r.1.1 = schedule_tables s /\ schedule_changed r.1.1 = schedule_changed s).
  { intros w. destruct (RegenerateAllSchedules_spec now (with_workloads (delete w (workload_tasks s)) s))
      as ([s'|] & -> & Hr); cbn [obind]; eexists; (split; [reflexivity|]); cbn [fst snd]; [|done].
    destruct Hr as (Hs & Hw & Hc & _). split; [done|]. destruct push; cbn [orb]; by split. }
  destruct (workload_tasks s !! id) as [e|] eqn:Eid.
  { destruct (Hrem id) as ([[s' w'] ok] & -> & E & Hr). eexists. split; [done|]. cbn [fst snd] in *. subst w'. by split. }
  pose proof (resolve_spec id (ascending string_le (workload_tasks s)).*1) as Hres.
  destruct (resolve id _) as [[w|]|].
  - destruct (Hrem w) as ([[s' w'] ok] & -> & E & Hr). eexists. split; [done|]. cbn [fst snd] in *. subst w'. by split.
  - eexists. split; [done|]. split_and!; [done|done|done|]. intros w e Hw. rewrite Forall_forall in Hres. apply Hres.
    apply list_elem_of_fmap. exists (w, e). split; [done|]. by apply elem_of_ascending.
  - eexists. split; [done|]. destruct Hres as (w & _ & Hw). split; [done|]. unfold hash_matches, names_hash in Hw.
    destruct (bool_decide _); [done|]. destruct (starts_with _ _); [|done]. split; [done|].
    by destruct (stoull_hex (chars id)).
Qed.

End ServiceProofs.

(** ** Runs *)

Definition info (n : string) (period runtime : Z) (node : string) : TaskInfo :=
  TaskInfo_ n 0 0 0 period 0 runtime 0 node 0.
Definition add (request : SchedInfo) (s : service) : service * Z :=
  match @AddSchedInfo stable_sort new_manager (fun _ => 7) (fun _ => 8) request s with Ret r => r | UB => (s, -2) end.
Definition tasks_at (s : service) (node : string) : list string :=
  match schedule_tables s !! node with
  | Some t => m_task <$> table_slots t
  | None => []
  end.
Definition version1 : SchedInfo := SchedInfo_ "w"%string [info "a"%string 100 10 "n"%string] TEMPORAL_PERIODIC.
Definition version2 : SchedInfo := SchedInfo_ "w"%string [info "a"%string 100 200 "n"%string] TEMPORAL_PERIODIC.

(** An update that is refused removes the version that was running, and the
    change is not announced. *)
Lemma refused_update_loses_workload :
  let s1 := (GetScheduleTables (add version1 SchedInfoServiceImpl).1).1 in
  tasks_at s1 "n"%string = ["a"%string] /\
  (add version2 s1).2 = -1 /\ tasks_at (add version2 s1).1 "n"%string = [] /\
  workload_tasks (add version2 s1).1 = ∅ /\ schedule_changed (add version2 s1).1 = false.
Proof. vm_compute. done. Qed.

(** The node of a task only selects the nodes of its workload: each of them
    gets all the tasks. *)
Lemma tasks_on_every_node :
  let s1 := (add (SchedInfo_ "w"%string [info "a"%string 100 10 "n1"%string; info "b"%string 100 10 "n2"%string] TEMPORAL_PERIODIC) SchedInfoServiceImpl).1 in
  tasks_at s1 "n1"%string = ["a"%string; "b"%string] /\ tasks_at s1 "n2"%string = ["a"%string; "b"%string].
Proof. vm_compute. done. Qed.
