(* ===== verification/Faults.v ===== *)
(** * Fault reports, from the node's ring buffer to Pullpiri

    timpani-n/src/fault_monitor.cpp counts deadline misses and decides which
    events the node reports; timpani-o/src/orchestrator_service.cpp
    ([handle_fault_info]) turns a report into a fault for Pullpiri;
    timpani-o/src/fault_client.cpp sends it, with a queue for the faults that
    Pullpiri did not take.  The calls of the gRPC library are an oracle. *)
From stdpp Require Import prelude gmap strings list pretty.
From Stdlib Require Import ZArith Lia.
From S2P Require Import Prelude BpfMaps.
Local Open Scope Z_scope.

(** ** FaultMonitor *)

Module FaultMonitor.

(** [callback] tells whether a callback is set; the thread is [poll_loop]. *)
Record monitor := Monitor {
  callback : bool;
  ringbuf_fd : Z;
  task_dmiss_counts : gmap (Z * Z) Z;
  task_current_limits : gmap (Z * Z) Z;
  workload_reported : gmap Z bool;
}.

Definition FaultMonitor : monitor := Monitor false (-1) ∅ ∅ ∅.
Definition set_ringbuf_fd (fd : Z) (m : monitor) : monitor :=
  Monitor (callback m) fd (task_dmiss_counts m) (task_current_limits m) (workload_reported m).
Definition set_callback (m : monitor) : monitor :=
  Monitor true (ringbuf_fd m) (task_dmiss_counts m) (task_current_limits m) (workload_reported m).
Definition update_current_limits (limits : gmap (Z * Z) Z) (m : monitor) : monitor :=
  Monitor (callback m) (ringbuf_fd m) (task_dmiss_counts m) limits (workload_reported m).
Definition clear_state (m : monitor) : monitor := Monitor (callback m) (ringbuf_fd m) ∅ ∅ ∅.
Definition count_miss (k : Z * Z) (n : Z) (m : monitor) : monitor :=
  Monitor (callback m) (ringbuf_fd m) (<[k := n]> (task_dmiss_counts m)) (task_current_limits m)
    (workload_reported m).
Definition mark_reported (w : Z) (m : monitor) : monitor :=
  Monitor (callback m) (ringbuf_fd m) (task_dmiss_counts m) (task_current_limits m)
    (<[w := true]> (workload_reported m)).

Definition key (e : FaultEvent) : Z * Z := (fault_workload_id_hash e, fault_task_id_hash e).

(** The new state, and the arguments of the callback when it is called. *)
Definition ring_buf_callback (m : monitor) (e : FaultEvent) : monitor * option (FaultEvent * Z) :=
  let '(m, current_dmiss, should_report) :=
    if fault_type e =? FAULT_DMISS then
      let current_dmiss := u32 (default 0 (task_dmiss_counts m !! key e) + 1) in
      let m := count_miss (key e) current_dmiss m in
      match task_current_limits m !! key e with
      | Some current_limit =>
          if (0 <? current_limit) && (current_limit <? current_dmiss) then
            if default false (workload_reported m !! fault_workload_id_hash e)
            then (m, current_dmiss, false)
            else (mark_reported (fault_workload_id_hash e) m, current_dmiss, true)
          else (m, current_dmiss, false)
      | None => (m, current_dmiss, false)
      end
    else (m, 0, true) in
  (m, if should_report && callback m then Some (e, current_dmiss) else None).

(** [poll_loop]: each poll hands over the events of the ring buffer, until
    the monitor is stopped.  [rb_ok] tells whether the ring buffer is made. *)
Fixpoint poll (m : monitor) (events : list FaultEvent) : monitor * list (option (FaultEvent * Z)) :=
  match events with
  | [] => (m, [])
  | e :: events =>
      let '(m, r) := ring_buf_callback m e in
      let '(m, rs) := poll m events in
      (m, r :: rs)
  end.
Definition poll_loop (rb_ok : bool) (m : monitor) (polls : list (list FaultEvent))
  : monitor * list (option (FaultEvent * Z)) :=
  if (ringbuf_fd m <? 0) || negb rb_ok then (m, [])
  else foldl (fun mr events => let '(m, rs) := poll mr.1 events in (m, mr.2 ++ rs)) (m, []) polls.

(** *** What is reported *)

Definition is_miss (e : FaultEvent) : Prop := fault_type e = FAULT_DMISS.
Definition misses (es : list FaultEvent) (k : Z * Z) : Z :=
  zlen (filter (fun e => is_miss e /\ key e = k) es).

(** [n] misses of task [k] exceed its limit, when it has a positive one. *)
Definition over (limits : gmap (Z * Z) Z) (k : Z * Z) (n : Z) : bool :=
  match limits !! k with Some limit => (0 <? limit) && (limit <? n) | None => false end.

(** Event [i] is a miss by which its task exceeds its limit. *)
Definition exceeds (limits : gmap (Z * Z) Z) (es : list FaultEvent) (i : nat) (e : FaultEvent) : Prop :=
  es !! i = Some e /\ is_miss e /\ over limits (key e) (misses (take (S i) es) (key e)) = true.

(** The state after [es]. *)
Record after (limits : gmap (Z * Z) Z) (es : list FaultEvent) (m : monitor) : Prop := {
  af_callback : callback m = true;
  af_limits : task_current_limits m = limits;
  af_counts : forall k, default 0 (task_dmiss_counts m !! k) = misses es k;
  af_reported : forall w, default false (workload_reported m !! w) = true <->
    exists i e, exceeds limits es i e /\ fault_workload_id_hash e = w;
}.

Lemma misses_snoc es e k :
  misses (es ++ [e]) k = misses es k + (if decide (is_miss e /\ key e = k) then 1 else 0).
Proof.
  unfold misses. rewrite filter_app, zlen_app, filter_cons, filter_nil. case_decide; unfold zlen; cbn; lia.
Qed.

Lemma misses_bound es k : 0 <= misses es k <= zlen es.
Proof. unfold misses, zlen. pose proof (length_filter (fun e => is_miss e /\ key e = k) es). lia. Qed.

Lemma exceeds_snoc limits es e i e' :
  exceeds limits (es ++ [e]) i e' <->
  exceeds limits es i e' \/
  (i = length es /\ e' = e /\ is_miss e /\ over limits (key e) (misses (es ++ [e]) (key e)) = true).
Proof.
  unfold exceeds. split.
  - intros (Hi & Hm). destruct (decide (i < length es)%nat) as [Hlt|Hge].
    + left. rewrite lookup_app_l in Hi by done. rewrite take_app_le in Hm by lia. done.
    + right. apply lookup_lt_Some in Hi as Hl. rewrite length_app in Hl. cbn in Hl.
      assert (i = length es) as -> by lia. rewrite list_lookup_middle in Hi by done. injection Hi as <-.
      rewrite take_ge in Hm by (rewrite length_app; cbn; lia). done.
  - intros [(Hi & Hm)|(-> & -> & Hm)].
    + apply lookup_lt_Some in Hi as Hl. rewrite lookup_app_l by done. by rewrite take_app_le by lia.
    + rewrite list_lookup_middle by done. rewrite take_ge by (rewrite length_app; cbn; lia). done.
Qed.

(** The callback on a miss. *)
Lemma ring_buf_callback_miss m e :
  is_miss e ->
  let n := u32 (default 0 (task_dmiss_counts m !! key e) + 1) in
  let m1 := count_miss (key e) n m in
  let reported := default false (workload_reported m !! fault_workload_id_hash e) in
  ring_buf_callback m e =
  if over (task_current_limits m) (key e) n
  then if reported then (m1, None)
       else (mark_reported (fault_workload_id_hash e) m1, if callback m then Some (e, n) else None)
  else (m1, None).
Proof.
  intros Hm. unfold ring_buf_callback, over. rewrite (proj2 (Z.eqb_eq _ _) Hm).
  cbn [count_miss task_current_limits workload_reported].
  destruct (task_current_limits m !! key e) as [l|]; [|done]. destruct (_ && _); [|done].
  by destruct (default false _).
Qed.

Section Step.
Context (limits : gmap (Z * Z) Z) (es : list FaultEvent) (m : monitor) (e : FaultEvent).
Hypothesis Hafter : after limits es m.
Hypothesis Hlen : zlen es + 1 < 2 ^ 32.

Lemma next_count :
  is_miss e -> u32 (default 0 (task_dmiss_counts m !! key e) + 1) = misses (es ++ [e]) (key e).
Proof using Hafter Hlen.
  intros Hm. rewrite (af_counts _ _ _ Hafter), misses_snoc, decide_True by done. apply wrap_small.
  pose proof (misses_bound es (key e)). unfold uword. lia.
Qed.

Lemma count_miss_counts k :
  is_miss e ->
  default 0 (<[key e := misses (es ++ [e]) (key e)]> (task_dmiss_counts m) !! k) = misses (es ++ [e]) k.
Proof using Hafter.
  intros Hm. rewrite lookup_insert. case_decide as E; [by subst k|].
  rewrite misses_snoc, decide_False by (by intros [_ ?]). rewrite (af_counts _ _ _ Hafter). lia.
Qed.

(** A step that reports no new workload. *)
Lemma reported_same w :
  (is_miss e -> over limits (key e) (misses (es ++ [e]) (key e)) = true ->
   default false (workload_reported m !! fault_workload_id_hash e) = true) ->
  default false (workload_reported m !! w) = true <->
  exists i e', exceeds limits (es ++ [e]) i e' /\ fault_workload_id_hash e' = w.
Proof using Hafter.
  intros Hold. rewrite (af_reported _ _ _ Hafter). setoid_rewrite exceeds_snoc. split.
  - intros (i & e' & He & Hw). exists i, e'. split; [by left|done].
  - intros (i & e' & [He|(-> & -> & Hm & Ho)] & Hw); [by exists i, e'|]. rewrite <- Hw.
    by apply (af_reported _ _ _ Hafter), Hold.
Qed.

Lemma callback_state : after limits (es ++ [e]) (ring_buf_callback m e).1.
Proof using Hafter Hlen.
  destruct (decide (is_miss e)) as [Hm|Hm].
  2:{ unfold ring_buf_callback. rewrite (proj2 (Z.eqb_neq _ _) Hm).
      split; [apply Hafter|apply Hafter| |intros w; by apply reported_same].
      intros k. cbn [fst]. rewrite misses_snoc, decide_False by (by intros [? _]).
      rewrite (af_counts _ _ _ Hafter). lia. }
  rewrite ring_buf_callback_miss, next_count, (af_limits _ _ _ Hafter) by done. cbv zeta.
  destruct (over _ _ _) eqn:Eo; [destruct (default false _) eqn:Er|];
    (split; [apply Hafter|apply Hafter|intros k; by apply count_miss_counts|intros w]).
  - by apply reported_same.
  - cbn [fst mark_reported count_miss workload_reported]. rewrite lookup_insert. case_decide as E; cbn [default].
    + split; [|done]. intros _. exists (length es), e. split; [|done]. apply exceeds_snoc. by right.
    + unfold default in *. setoid_rewrite exceeds_snoc. pose proof (af_reported _ _ _ Hafter w) as Hrep.
      unfold default in Hrep. rewrite Hrep. split; intros (i & e' & He & Hw); exists i, e'; (split; [|done]).
      * by left.
      * destruct He as [He|(_ & -> & _)]; [done|congruence].
  - apply reported_same. intros _ E. congruence.
Qed.

Lemma callback_output e' n :
  (ring_buf_callback m e).2 = Some (e', n) <->
  e' = e /\ ((~ is_miss e /\ n = 0) \/
    (n = misses (es ++ [e]) (key e) /\ exceeds limits (es ++ [e]) (length es) e /\
     forall j e'', exceeds limits es j e'' -> fault_workload_id_hash e'' <> fault_workload_id_hash e)).
Proof using Hafter Hlen.
  assert (Hnew : exceeds limits (es ++ [e]) (length es) e <->
            is_miss e /\ over limits (key e) (misses (es ++ [e]) (key e)) = true).
  { rewrite exceeds_snoc. split; [|by right]. intros [(Hi & _)|H]; [|by destruct H as (_ & _ & H)].
    apply lookup_lt_Some in Hi. lia. }
  rewrite Hnew. clear Hnew. destruct (decide (is_miss e)) as [Hm|Hm].
  2:{ unfold ring_buf_callback. rewrite (proj2 (Z.eqb_neq _ _) Hm), (af_callback _ _ _ Hafter).
      cbn [andb snd]. naive_solver. }
  rewrite ring_buf_callback_miss, next_count, (af_limits _ _ _ Hafter), (af_callback _ _ _ Hafter) by done.
  cbv zeta. set (N := misses (es ++ [e]) (key e)).
  pose proof (af_reported _ _ _ Hafter (fault_workload_id_hash e)) as Hrep.
  destruct (over _ _ _) eqn:Eo; [|cbn [snd]; naive_solver].
  destruct (default false _) eqn:Er; cbn [snd].
  - destruct (proj1 Hrep eq_refl) as (j & e0 & He0 & Hw0). split; [done|].
    intros (_ & [[? _]|(_ & _ & Hf)]); [done|]. by destruct (Hf j e0 He0).
  - split.
    + intros [= <- <-]. split; [done|]. right. split_and!; [done|done|done|].
      intros j e0 He0 Hw. assert (false = true); [|done]. apply Hrep. by exists j, e0.
    + intros (-> & [[? _]|(-> & _)]); done.
Qed.
End Step.

Lemma poll_app m es1 es2 :
  poll m (es1 ++ es2) = ((poll (poll m es1).1 es2).1, (poll m es1).2 ++ (poll (poll m es1).1 es2).2).
Proof.
  revert m. induction es1 as [|e es1 IH]; intros m; cbn [app poll fst snd]; [by destruct (poll m es2)|].
  destruct (ring_buf_callback m e) as [m1 r]. rewrite IH. destruct (poll m1 es1) as [m2 rs]. cbn [fst snd].
  by destruct (poll m2 es2).
Qed.

Lemma length_poll m es : length (poll m es).2 = length es.
Proof.
  revert m. induction es as [|e es IH]; intros m; cbn [poll]; [done|].
  destruct (ring_buf_callback m e) as [m1 r]. specialize (IH m1). destruct (poll m1 es). cbn in *. lia.
Qed.

Lemma poll_after limits m es :
  after limits [] m -> zlen es < 2 ^ 32 -> after limits es (poll m es).1.
Proof.
  intros Hm. induction es as [|e es IH] using rev_ind; intros Hl; [done|].
  rewrite zlen_app, zlen_cons in Hl. unfold zlen at 2 in Hl. cbn in Hl. rewrite poll_app. cbn [fst].
  cbn [poll]. destruct (ring_buf_callback (poll m es).1 e) as [m1 r] eqn:E. cbn [fst].
  replace m1 with (ring_buf_callback (poll m es).1 e).1 by (by rewrite E).
  apply callback_state; [apply IH; lia|lia].
Qed.

Lemma after_new limits m :
  callback m = true -> task_current_limits m = limits -> task_dmiss_counts m = ∅ -> workload_reported m = ∅ ->
  after limits [] m.
Proof.
  intros H1 H2 H3 H4. split; [done|done| |].
  - intros k. by rewrite H3, lookup_empty.
  - intros w. rewrite H4, lookup_empty. split; [done|]. intros (i & e & (Hi & _) & _). done.
Qed.

(** C28. Fault reports.  A monitor in its initial state with given limits
    calls its callback for event [i] exactly when the event is not a deadline
    miss, or when it is the first event by which some task of its workload
    has missed more deadlines than its (positive) limit: at most one report
    of misses per workload, with the number of misses of the task. *)
Theorem monitor_reports limits m es i e e' n :
  callback m = true -> task_current_limits m = limits -> task_dmiss_counts m = ∅ -> workload_reported m = ∅ ->
  zlen es < 2 ^ 32 -> es !! i = Some e ->
  (poll m es).2 !! i = Some (Some (e', n)) <->
  e' = e /\ ((~ is_miss e /\ n = 0) \/
    (n = misses (take (S i) es) (key e) /\ exceeds limits es i e /\
     forall j e'', (j < i)%nat -> exceeds limits es j e'' ->
       fault_workload_id_hash e'' <> fault_workload_id_hash e)).
Proof.
  intros H1 H2 H3 H4 Hl Hi. pose proof (after_new limits m H1 H2 H3 H4) as H0.
  apply lookup_lt_Some in Hi as Hlt. apply take_S_r in Hi as Ht.
  assert (Hlen : zlen (take i es) + 1 < 2 ^ 32) by (unfold zlen in *; rewrite length_take; lia).
  assert (Haf : after limits (take i es) (poll m (take i es)).1) by (apply poll_after; [done|lia]).
  assert (Hout : (poll m es).2 !! i = Some (ring_buf_callback (poll m (take i es)).1 e).2).
  { rewrite <- (take_drop_middle es i e Hi) at 1. rewrite poll_app. cbn [snd].
    rewrite lookup_app_r by (rewrite length_poll, length_take; lia). rewrite length_poll, length_take.
    replace (i - i `min` length es)%nat with 0%nat by lia. cbn [poll].
    destruct (ring_buf_callback _ e) as [m1 r]. by destruct (poll m1 _). }
  assert (Hex : forall j e0, (j < i)%nat -> exceeds limits es j e0 <-> exceeds limits (take i es) j e0).
  { intros j e0 Hj. unfold exceeds. rewrite take_take, lookup_take_lt by done. by rewrite Nat.min_l by lia. }
  rewrite Hout, (inj_iff Some), (callback_output limits (take i es)) by done. rewrite <- Ht.
  assert (Hhere : exceeds limits (take (S i) es) (length (take i es)) e <-> exceeds limits es i e).
  { unfold exceeds. rewrite length_take, Nat.min_l by lia. by rewrite lookup_take_lt, take_take, Nat.min_id by lia. }
  rewrite Hhere. split; (intros [-> [?|(-> & He & Hf)]]; (split; [done|]); [by left|right]); (split_and!; [done|done|]).
  - intros j e0 Hj He0. apply (Hf j). by apply Hex.
  - intros j e0 He0. assert (Hj : (j < i)%nat).
    { destruct He0 as [Hj _]. apply lookup_lt_Some in Hj. rewrite length_take in Hj. lia. }
    apply (Hf j); [done|]. by apply Hex.
Qed.

Definition miss (w k : Z) : FaultEvent := Build_FaultEvent w k 0 0 None FAULT_DMISS.
Definition started (limits : gmap (Z * Z) Z) : monitor := update_current_limits limits (set_callback FaultMonitor).
Definition limits0 : gmap (Z * Z) Z := <[(1, 10) := 1]> (<[(1, 11) := 1]> ∅).

Lemma monitor_reports_witness :
  (poll (started limits0) [miss 1 10; miss 1 11; miss 1 10; miss 1 11]).2 = [None; None; Some (miss 1 10, 2); None] /\
  exceeds limits0 [miss 1 10; miss 1 11; miss 1 10; miss 1 11] 2 (miss 1 10).
Proof.
  split; [reflexivity|].
  destruct (proj1 (monitor_reports limits0 (started limits0) [miss 1 10; miss 1 11; miss 1 10; miss 1 11] 2
    (miss 1 10) (miss 1 10) 2 eq_refl eq_refl eq_refl eq_refl ltac:(by compute) eq_refl) ltac:(reflexivity))
    as (_ & [[Hn _]|(_ & H & _)]); [by destruct Hn|done].
Defined.

End FaultMonitor.

(** ** FaultServiceClient *)

Module FaultClient.

Inductive FaultType := UNKNOWN | DMISS.

Record FaultInfo := Fault {
  workload_id : string; node_id : string; task_name : string; type : FaultType; cumulative_dmiss : Z }.

(** The answer of Pullpiri to an RPC. *)
Record answer := Answer { status_ok : bool; reply_status : Z }.

(** [rpcs] counts the calls made, [acked] records what Pullpiri accepted. *)
Record fault_client := Client {
  initialized : bool;
  retry_queue : list FaultInfo;
  rpcs : nat;
  acked : list FaultInfo;
}.

Definition FaultServiceClient : fault_client := Client false [] 0 [].
Definition kMaxRetryQueue : nat := 1024.

Definition CreateChannel (channel_ok stub_ok : bool) : bool := channel_ok && stub_ok.
Definition Initialize (server_address : string) (channel_ok stub_ok : bool) (c : fault_client) : fault_client * bool :=
  if initialized c then (c, true) else
  if decide (server_address = ""%string) then (c, false) else
  if negb (CreateChannel channel_ok stub_ok) then (c, false) else
  (Client true (retry_queue c) (rpcs c) (acked c), true).

Section Rpc.
Context (rpc : nat -> answer).

Definition SendFaultRpc (c : fault_client) (request : FaultInfo) : fault_client * bool :=
  let a := rpc (rpcs c) in
  let c := Client (initialized c) (retry_queue c) (S (rpcs c)) (acked c) in
  if negb (status_ok a) then (c, false) else
  if negb (reply_status a =? 0) then (c, false) else
  (Client (initialized c) (retry_queue c) (rpcs c) (acked c ++ [request]), true).

Definition set_queue (q : list FaultInfo) (c : fault_client) : fault_client := Client (initialized c) q (rpcs c) (acked c).

(** The loop, along the queue. *)
Fixpoint flush (q : list FaultInfo) (c : fault_client) : fault_client * bool :=
  match q with
  | [] => (c, true)
  | pending :: q =>
      let '(c, ok) := SendFaultRpc c pending in
      if negb ok then (c, false) else flush q (set_queue q c)
  end.
Definition FlushRetryQueueLocked (c : fault_client) : fault_client * bool := flush (retry_queue c) c.

Definition EnqueueRetryLocked (request : FaultInfo) (c : fault_client) : fault_client :=
  let q := if (kMaxRetryQueue <=? length (retry_queue c))%nat then tail (retry_queue c) else retry_queue c in
  set_queue (q ++ [request]) c.

Definition NotifyFault (c : fault_client) (request : FaultInfo) : fault_client * bool :=
  if negb (initialized c) then (c, false) else
  let '(c, _) := FlushRetryQueueLocked c in
  let '(c, ok) := SendFaultRpc c request in
  if negb ok then (EnqueueRetryLocked request c, false) else (c, true).

(** [handle_fault_info] of the orchestrator: a report of node [node]. *)
Definition handle_fault_info (node : string) (f_workload f_task : string) (f_workload_hash f_task_hash : Z)
    (f_is_dmiss : bool) (f_dmiss_count : Z) (c : fault_client) : fault_client :=
  let workload := if decide (f_workload = ""%string) then pretty f_workload_hash else f_workload in
  let task := if decide (f_task = ""%string) then pretty f_task_hash else f_task in
  let ty := if f_is_dmiss then DMISS else UNKNOWN in
  (NotifyFault c (Fault workload node task ty f_dmiss_count)).1.

(** *** What a notification does *)

Definition accepted (n : nat) : bool := status_ok (rpc n) && (reply_status (rpc n) =? 0).

Lemma SendFaultRpc_spec c r :
  SendFaultRpc c r =
  (Client (initialized c) (retry_queue c) (S (rpcs c)) (if accepted (rpcs c) then acked c ++ [r] else acked c),
   accepted (rpcs c)).
Proof. unfold SendFaultRpc, accepted. by destruct (status_ok _), (reply_status _ =? 0). Qed.

(** The queue is sent up to the first fault that is not accepted. *)
Lemma flush_spec q c :
  retry_queue c = q ->
  exists sent rest, q = sent ++ rest /\
    flush q c = (Client (initialized c) rest (rpcs c + length sent + (if rest is [] then 0 else 1))
                   (acked c ++ sent), if rest is [] then true else false) /\
    (forall k, (k < length sent)%nat -> accepted (rpcs c + k) = true) /\
    (rest <> [] -> accepted (rpcs c + length sent) = false).
Proof.
  revert c. induction q as [|r q IH]; intros c Hq.
  { exists [], []. destruct c. cbn in *. subst. split_and!; [done| |intros; lia|done].
    by rewrite !Nat.add_0_r, app_nil_r. }
  cbn [flush]. rewrite SendFaultRpc_spec. destruct (accepted (rpcs c)) eqn:E; cbn [negb].
  - destruct (IH (set_queue q (Client (initialized c) (retry_queue c) (S (rpcs c)) (acked c ++ [r]))))
      as (sent & rest & -> & -> & Hs & Hr); [done|].
    cbn [set_queue initialized rpcs acked] in *. exists (r :: sent), rest. split_and!; [done| | |].
    + f_equal. f_equal; [cbn [length]; lia|by rewrite <- app_assoc].
    + intros [|k] Hk; [by rewrite Nat.add_0_r|]. cbn [length] in Hk.
      replace (rpcs c + S k)%nat with (S (rpcs c) + k)%nat by lia. apply Hs. lia.
    + intros Hne. cbn [length]. replace (rpcs c + S (length sent))%nat with (S (rpcs c) + length sent)%nat by lia. auto.
  - exists [], (r :: q). split_and!; [done| |cbn; intros; lia|].
    + cbn [length]. rewrite app_nil_r, <- Hq. f_equal. f_equal. lia.
    + intros _. by rewrite Nat.add_0_r.
Qed.

(** Notifying a fault: the waiting faults are sent first, in their order,
    up to the first that Pullpiri does not accept.  The answer is true
    exactly when Pullpiri accepted the new fault; otherwise it waits behind
    the others, and only when 1024 faults wait already the oldest is dropped.
    When Pullpiri accepts every call, nothing waits afterwards. *)
Lemma NotifyFault_keeps c r :
  initialized c = true -> (length (retry_queue c) <= kMaxRetryQueue)%nat ->
  exists sent rest, retry_queue c = sent ++ rest /\
    match NotifyFault c r with
    | (c', true) => acked c' = acked c ++ sent ++ [r] /\ retry_queue c' = rest
    | (c', false) => acked c' = acked c ++ sent /\
        retry_queue c' = (if decide (length rest = kMaxRetryQueue) then tail rest else rest) ++ [r]
    end /\
    initialized (NotifyFault c r).1 = true /\ (length (retry_queue (NotifyFault c r).1) <= kMaxRetryQueue)%nat /\
    ((forall k, (rpcs c <= k)%nat -> accepted k = true) ->
       (NotifyFault c r).2 = true /\ retry_queue (NotifyFault c r).1 = []).
Proof.
  intros Hi Hl. unfold NotifyFault, FlushRetryQueueLocked. rewrite Hi. cbn [negb].
  destruct (flush_spec (retry_queue c) c eq_refl) as (sent & rest & Hq & -> & Hs & Hr).
  exists sent, rest. split; [done|]. rewrite SendFaultRpc_spec. cbn [initialized retry_queue rpcs acked].
  set (n := (rpcs c + length sent + _)%nat). rewrite Hq, length_app in Hl.
  assert (Hall : (forall k, (rpcs c <= k)%nat -> accepted k = true) -> rest = []).
  { intros H. destruct rest as [|x rest]; [done|]. rewrite H in Hr by lia. by specialize (Hr ltac:(done)). }
  destruct (accepted n) eqn:E; cbn [negb fst snd retry_queue].
  - rewrite <- app_assoc. split_and!; [done|done|done|lia|]. intros H. split; [done|by apply Hall].
  - unfold EnqueueRetryLocked. cbn [retry_queue set_queue acked initialized].
    assert (Eq : (if (kMaxRetryQueue <=? length rest)%nat then tail rest else rest)
                 = (if decide (length rest = kMaxRetryQueue) then tail rest else rest)).
    { destruct (Nat.leb_spec kMaxRetryQueue (length rest)); case_decide; [done|lia|lia|done]. }
    rewrite Eq. split_and!; [done|done|done| |].
    + rewrite length_app. cbn [length]. case_decide as Ed; [|lia].
      destruct rest; [discriminate Ed|]; cbn [length tail] in *; lia.
    + intros H. assert (accepted n = true); [|congruence]. apply H. unfold n. lia.
Qed.
End Rpc.

Definition fault (k : string) : FaultInfo := Fault "w"%string "n"%string k DMISS 1.
Definition waiting : fault_client := Client true [fault "a"%string; fault "b"%string] 0 [].
(** The second RPC fails, the others succeed. *)
Definition second_fails (n : nat) : answer := Answer (negb (n =? 1)%nat) 0.

Lemma NotifyFault_example :
  NotifyFault second_fails waiting (fault "c"%string)
  = (Client true [fault "b"%string] 3 [fault "a"%string; fault "c"%string], true) /\
  exists sent rest, retry_queue waiting = sent ++ rest /\
    [fault "a"%string; fault "c"%string] = acked waiting ++ sent ++ [fault "c"%string].
Proof.
  split; [reflexivity|].
  destruct (NotifyFault_keeps second_fails waiting (fault "c"%string) eq_refl ltac:(by apply Nat.leb_le))
    as (sent & rest & Hq & [Ha _] & _).
  by exists sent, rest.
Defined.

(** A fault that is accepted while older ones wait overtakes them. *)
Lemma newer_fault_overtakes :
  acked (NotifyFault second_fails waiting (fault "c"%string)).1 = [fault "a"%string; fault "c"%string] /\
  acked (NotifyFault second_fails (NotifyFault second_fails waiting (fault "c"%string)).1 (fault "d"%string)).1
  = [fault "a"%string; fault "c"%string; fault "b"%string; fault "d"%string].
Proof. split; reflexivity. Qed.

End FaultClient.
