(* ===== verification/NodeMain.v ===== *)
(** * timpani-n/src/main.cpp: what the node does with the messages it gets

    [node] holds the objects of [main] and the maps its callbacks capture.
    System calls on processes are recorded in order; the process table and
    the monotonic clock are arguments, indexed by the position of the lookup
    in the handler.  An exception of the standard library is [None].
    Callbacks run under the locks the code takes, one after the other. *)
From stdpp Require Import prelude gmap strings list sorting pretty.
From Stdlib Require Import ZArith Lia.
From Stdlib Require String Ascii.
From S2P Require Import Prelude Text BpfMaps BpfSched BpfLoader TtShm TimerMaster SchedStat Messages NodeClient Faults.
Local Open Scope Z_scope.

Abbreviation monitor := Faults.FaultMonitor.monitor.

(** ** The process table *)

(** An entry of /proc: [d_type == DT_DIR], and its comm file if it opens. *)
Record proc_entry := ProcEntry { d_name : text; d_dir : bool; comm_file : option text }.

Fixpoint first_line (t : text) : text :=
  match t with [] => [] | c :: t => if decide (c = NL) then [] else c :: first_line t end.

Definition is_num (t : text) : bool := forallb (fun c => match digit c with Some _ => true | None => false end) t.

(** The entries in the order of [readdir]; [None] when [stoi] throws. *)
Fixpoint find_in (comm : text) (entries : list proc_entry) : option Z :=
  match entries with
  | [] => Some (-1)
  | e :: entries =>
      if negb (d_dir e) || negb (is_num (d_name e)) then find_in comm entries else
      match comm_file e with
      | None => find_in comm entries
      | Some f =>
          let proc_comm := first_line f in
          if bool_decide (proc_comm = take 15 comm) || bool_decide (proc_comm = comm)
          then stoi (d_name e) else find_in comm entries
      end
  end.
(** [proc] is [None] when /proc cannot be opened. *)
Definition find_pid_by_comm (comm : string) (proc : option (list proc_entry)) : option Z :=
  match proc with None => Some (-1) | Some entries => find_in (chars comm) entries end.

(** ** The state *)

Record tracked := Tracked {
  workload_to_pids : gmap string (list Z);
  workload_to_slots : gmap string (list TtSlotKey);
  workload_to_hash : gmap string Z;
  workload_to_cbs_keys : gmap string (list Z);
  workload_hash_to_id : gmap Z string;
}.
Definition nothing_tracked : tracked := Tracked ∅ ∅ ∅ ∅ ∅.

(** [sched_setaffinity] to all CPUs, [sched_setattr] to SCHED_EXT, futex wakes. *)
Inductive effect := SetAffinity (pid : Z) | SchedExt (pid : Z) | Wakes (ws : list wake).

Record node := Node {
  bpf_loader : loader;
  timer_master : master;
  fault_monitor : monitor;
  node_client : client;
  schedstat : stat_maps;
  gpdata_pid_to_task : gmap Z string;
  tracking : tracked;
  effects : list effect;
}.

Definition set_loader (l : loader) (n : node) : node :=
  Node l (timer_master n) (fault_monitor n) (node_client n) (schedstat n) (gpdata_pid_to_task n) (tracking n) (effects n).
Definition set_master (m : master) (n : node) : node :=
  Node (bpf_loader n) m (fault_monitor n) (node_client n) (schedstat n) (gpdata_pid_to_task n) (tracking n) (effects n).
Definition set_monitor (m : monitor) (n : node) : node :=
  Node (bpf_loader n) (timer_master n) m (node_client n) (schedstat n) (gpdata_pid_to_task n) (tracking n) (effects n).
Definition set_client (c : client) (n : node) : node :=
  Node (bpf_loader n) (timer_master n) (fault_monitor n) c (schedstat n) (gpdata_pid_to_task n) (tracking n) (effects n).
Definition set_gpdata (m : stat_maps) (g : gmap Z string) (n : node) : node :=
  Node (bpf_loader n) (timer_master n) (fault_monitor n) (node_client n) m g (tracking n) (effects n).
Definition set_tracking (t : tracked) (n : node) : node :=
  Node (bpf_loader n) (timer_master n) (fault_monitor n) (node_client n) (schedstat n) (gpdata_pid_to_task n) t (effects n).
Definition emit (e : effect) (n : node) : node :=
  Node (bpf_loader n) (timer_master n) (fault_monitor n) (node_client n) (schedstat n) (gpdata_pid_to_task n) (tracking n)
    (effects n ++ [e]).

(** A call on the loader: the new node and the result. *)
Definition bpf (f : loader -> loader * bool) (n : node) : node * bool :=
  let '(l, ok) := f (bpf_loader n) in (set_loader l n, ok).

#[export] Program Instance node_has_client : HasClient node :=
  {| client_of := node_client; on_client f n := set_client (f (node_client n)) n |}.
Next Obligation. done. Qed.

(** ** Eviction *)

Definition evict_pid (n : node) (pid : Z) : node := (bpf (delete_task_meta (u32 pid)) (emit (SetAffinity pid) n)).1.
Definition evict_pids (pids : list Z) (n : node) : node := foldl evict_pid n pids.
Definition delete_slots (keys : list TtSlotKey) (n : node) : node :=
  foldl (fun n key => (bpf (delete_tt_slot key) n).1) n keys.
Definition delete_cbs (keys : list Z) (n : node) : node :=
  foldl (fun n key => (bpf (delete_cbs_state key) n).1) n keys.
Definition stop_timer (h : option Z) (n : node) : node :=
  match h with Some h => set_master (remove_workload h (timer_master n)) n | None => n end.

(** *** [recovery_callback] *)

(** The name of the first hash, in ascending order, that [wid] names. *)
Fixpoint resolve (wid : string) (ids : list (Z * string)) : option string :=
  match ids with
  | [] => Some wid
  | (h, name) :: ids =>
      match names_hash wid h with
      | None => None
      | Some true => Some name
      | Some false => resolve wid ids
      end
  end.

Definition evict_workload (wid : string) (n : node) : node :=
  let t := tracking n in
  let n := evict_pids (default [] (workload_to_pids t !! wid)) n in
  let n := delete_slots (default [] (workload_to_slots t !! wid)) n in
  let n := stop_timer (workload_to_hash t !! wid) n in
  let n := delete_cbs (default [] (workload_to_cbs_keys t !! wid)) n in
  set_tracking (Tracked (delete wid (workload_to_pids t)) (delete wid (workload_to_slots t))
                  (delete wid (workload_to_hash t)) (delete wid (workload_to_cbs_keys t)) (workload_hash_to_id t)) n.

Definition recovery_callback (r : RecoverySignal) (n : node) : option node :=
  if decide (action r = ACTION_STOP) then
    wid ← match workload_to_pids (tracking n) !! r_workload r with
          | Some _ => Some (r_workload r)
          | None => resolve (r_workload r) (ascending Z.le (workload_hash_to_id (tracking n)))
          end;
    Some (evict_workload wid n)
  else Some n.

(** *** The fault callback *)

Definition to_proto_fault_type (bpf_fault_type : Z) : FaultType :=
  if bpf_fault_type =? FAULT_DMISS then DMISS
  else if bpf_fault_type =? FAULT_BUDGET_EXCEED then BUDGET_EXCEED else UNKNOWN.

Definition fault_callback (event : FaultEvent) (current_dmiss : Z) (n : node) : node :=
  let name := default ""%string (workload_hash_to_id (tracking n) !! fault_workload_id_hash event) in
  on_client (send_fault (Fault name ""%string ""%string (to_proto_fault_type (BpfMaps.fault_type event)) 0 current_dmiss
    (fault_workload_id_hash event) (fault_task_id_hash event) 0)) n.

(** An event of the ring buffer: the monitor counts it and may call back. *)
Definition handle_ring_event (event : FaultEvent) (n : node) : node :=
  let '(m, r) := FaultMonitor.ring_buf_callback (fault_monitor n) event in
  let n := set_monitor m n in
  match r with Some (e, current_dmiss) => fault_callback e current_dmiss n | None => n end.

(** ** [table_callback] *)

(** *** Forgetting the previous table *)

Definition new_workloads (t : HierarchicalScheduleTable) : gset string :=
  list_to_set (filter (fun w => w <> ""%string) ((m_workload <$> table_slots t) ++ (b_workload <$> table_entries t))).

Definition evict_absent (new : gset string) (n : node) : node :=
  foldl (fun n (wp : string * list Z) =>
           if decide (wp.1 ∈ new) then n
           else stop_timer (workload_to_hash (tracking n) !! wp.1) (evict_pids wp.2 n))
    n (ascending string_le (workload_to_pids (tracking n))).

Definition forget_table (n : node) : node :=
  let t := tracking n in
  let n := foldl (fun n ws => delete_slots ws.2 n) n (ascending string_le (workload_to_slots t)) in
  let n := foldl (fun n wk => delete_cbs wk.2 n) n (ascending string_le (workload_to_cbs_keys t)) in
  set_tracking nothing_tracked n.

(** [tracing] is [enable_plot && schedstat_monitor.is_active()], and false
    in a build without CONFIG_TRACE_BPF_EVENT. *)
Definition remove_stale_pids (tracing : bool) (n : node) : node :=
  if tracing then
    set_gpdata (foldl (fun m (pt : Z * string) => (remove_pid true pt.1 m).1) (schedstat n)
                  (ascending Z.le (gpdata_pid_to_task n))) ∅ n
  else n.

Definition slot_limit (m : gmap (Z * Z) Z) (s : TtSlot) : gmap (Z * Z) Z :=
  if 0 <? m_limit s then <[(m_workload_hash s, m_task_hash s) := m_limit s]> m else m.
Definition entry_limit (m : gmap (Z * Z) Z) (b : CbsConfig) : gmap (Z * Z) Z :=
  if 0 <? b_limit b then <[(b_workload_hash b, b_task_hash b) := b_limit b]> m else m.
Definition new_limits (t : HierarchicalScheduleTable) : gmap (Z * Z) Z :=
  foldl (fun m l => foldl entry_limit (foldl slot_limit m (l_tt_slots l)) (l_cbs_entries l)) ∅ (table_layers t).

(** *** Applying the new one *)

(** The local variables of the callback; [finds] counts the lookups in /proc. *)
Record apply := Apply {
  ap_node : node;
  ap_slot_idx : Z;
  ap_slots : list SlotEntry;
  apply_success : bool;
  apply_error : string;
  finds : nat;
}.

Definition on_node (f : node -> node) (a : apply) : apply :=
  Apply (f (ap_node a)) (ap_slot_idx a) (ap_slots a) (apply_success a) (apply_error a) (finds a).
Definition on_bpf (f : loader -> loader * bool) (a : apply) : apply * bool :=
  let '(n, ok) := bpf f (ap_node a) in (on_node (fun _ => n) a, ok).
Definition found (a : apply) : apply :=
  Apply (ap_node a) (ap_slot_idx a) (ap_slots a) (apply_success a) (apply_error a) (S (finds a)).
Definition push_slot_entry (e : SlotEntry) (a : apply) : apply :=
  Apply (ap_node a) (ap_slot_idx a) (ap_slots a ++ [e]) (apply_success a) (apply_error a) (finds a).
Definition next_slot (a : apply) : apply :=
  Apply (ap_node a) (u32 (ap_slot_idx a + 1)) (ap_slots a) (apply_success a) (apply_error a) (finds a).

Definition record_apply_error (error : string) (a : apply) : apply :=
  Apply (ap_node a) (ap_slot_idx a) (ap_slots a) false
    (String.append (if decide (apply_error a = ""%string) then ""%string else String.append (apply_error a) "; ") error)
    (finds a).
Definition record_unless (ok : bool) (error : string) (a : apply) : apply :=
  if ok then a else record_apply_error error a.

Definition track_slot (s : TtSlot) (pid : Z) (key : TtSlotKey) (t : tracked) : tracked :=
  Tracked (push_back (m_workload s) pid (workload_to_pids t)) (push_back (m_workload s) key (workload_to_slots t))
    (<[m_workload s := m_workload_hash s]> (workload_to_hash t)) (workload_to_cbs_keys t)
    (<[m_workload_hash s := m_workload s]> (workload_hash_to_id t)).
Definition track_entry (b : CbsConfig) (pid key : Z) (t : tracked) : tracked :=
  Tracked (push_back (b_workload b) pid (workload_to_pids t)) (workload_to_slots t)
    (<[b_workload b := b_workload_hash b]> (workload_to_hash t))
    (push_back (b_workload b) key (workload_to_cbs_keys t))
    (<[b_workload_hash b := b_workload b]> (workload_hash_to_id t)).
Definition retrack (f : tracked -> tracked) (n : node) : node := set_tracking (f (tracking n)) n.

(** The records written for a slot and for an entry. *)
Definition slot_meta (layer_index : Z) (s : TtSlot) : TaskMeta :=
  {| BpfMaps.workload_id_hash := m_workload_hash s; BpfMaps.task_id_hash := m_task_hash s; assigned_cpu := m_cpu s;
     slot_duration_us := m_duration s; scheduling_type := SCHED_TYPE_TT; layer := u8 layer_index;
     tt_runnable := 0; activation_ns := 0; cgroup_id := 0 |}.
Definition slot_bpf (s : TtSlot) : TtSlotBpf :=
  {| tts_workload_id_hash := m_workload_hash s; tts_task_id_hash := m_task_hash s; tts_offset_us := m_offset s;
     tts_duration_us := m_duration s; tts_deadline_us := m_deadline s; tts_cpu := m_cpu s |}.
Definition slot_entry (idx : Z) (s : TtSlot) : SlotEntry :=
  SlotEntry_ (m_cpu s) idx (u64 (m_offset s * 1000)) (u64 (m_duration s * 1000)) (m_task_hash s) (m_workload_hash s)
    (bytes_of (m_task s)).
Definition entry_meta (layer_index partition_cpu : Z) (b : CbsConfig) : TaskMeta :=
  {| BpfMaps.workload_id_hash := b_workload_hash b; BpfMaps.task_id_hash := b_task_hash b; assigned_cpu := partition_cpu;
     slot_duration_us := 0; scheduling_type := SCHED_TYPE_CBS; layer := u8 layer_index;
     tt_runnable := 0; activation_ns := 0; cgroup_id := 0 |}.
Definition entry_state (now : Z) (b : CbsConfig) : CbsState :=
  {| cbs_task_id_hash := b_task_hash b; budget_us := b_budget b; period_us := b_period b; remaining_us := b_budget b;
     exec_start_ns := 0;
     replenish_at_ns := if 0 <? b_period b then u64 (now + u64 (b_period b * 1000)) else 0;
     deadline_us := b_deadline b |}.
Definition entry_key (b : CbsConfig) : Z := Z.lxor (b_workload_hash b) (b_task_hash b).

Section Apply.
(** The process table at lookup [i], the clock after it. *)
Context (proc : nat -> option (list proc_entry)) (monotonic_now_ns : nat -> Z) (tracing : bool).

Definition trace_pid (pid : Z) (task : string) (n : node) : node :=
  if tracing then
    let '(m, ok) := add_pid true pid (schedstat n) in
    set_gpdata m (if ok then <[pid := task]> (gpdata_pid_to_task n) else gpdata_pid_to_task n) n
  else n.

(** The part of a slot that needs the task's process. *)
Definition register_slot (layer_index : Z) (s : TtSlot) (pid : Z) (a : apply) : apply :=
  if pid <? 0 then record_apply_error (String.append "TT task not found: " (m_task s)) a else
  let a := on_node (trace_pid pid (m_task s)) a in
  let '(a, ok) := on_bpf (update_task_meta (u32 pid) (slot_meta layer_index s)) a in
  if ok then on_node (emit (SchedExt pid)) a
  else record_apply_error (String.append "TT task_meta update failed: " (m_task s)) a.

(** The part that does not. *)
Definition install_slot (s : TtSlot) (pid : Z) (a : apply) : apply :=
  let a := push_slot_entry (slot_entry (ap_slot_idx a) s) a in
  let tt_key := {| key_cpu := m_cpu s; key_slot_idx := ap_slot_idx a |} in
  let '(a, ok) := on_bpf (update_tt_slot tt_key (slot_bpf s)) a in
  let a := record_unless ok (String.append "TT slot update failed: " (m_task s)) a in
  let a := if 0 <=? pid then on_node (retrack (track_slot s pid tt_key)) a else a in
  next_slot a.

Definition apply_slot (layer_index : Z) (a : apply) (s : TtSlot) : option apply :=
  pid ← find_pid_by_comm (m_task s) (proc (finds a));
  Some (install_slot s pid (register_slot layer_index s pid (found a))).

Definition register_entry (layer_index partition_cpu : Z) (b : CbsConfig) (now pid : Z) (a : apply) : apply :=
  if pid <? 0 then record_apply_error (String.append "CBS task not found: " (b_task b)) a else
  let a := on_node (trace_pid pid (b_task b)) a in
  let '(a, ok) := on_bpf (update_task_meta (u32 pid) (entry_meta layer_index partition_cpu b)) a in
  if negb ok then record_apply_error (String.append "CBS task_meta update failed: " (b_task b)) a else
  let a := on_node (emit (SchedExt pid)) a in
  let '(a, ok) := on_bpf (update_cbs_state (entry_key b) (entry_state now b)) a in
  if negb ok then record_apply_error (String.append "CBS state update failed: " (b_task b)) a else
  on_node (retrack (track_entry b pid (entry_key b))) a.

Definition apply_entry (layer_index partition_cpu : Z) (a : apply) (b : CbsConfig) : option apply :=
  pid ← find_pid_by_comm (b_task b) (proc (finds a));
  Some (register_entry layer_index partition_cpu b (monotonic_now_ns (finds a)) pid (found a)).

(** The first CPU of the partition's set, if it has one. *)
Definition partition_cpu (p : PartitionConfig) : option Z := cpuset p ≫= fun c => head (cpus c).

Definition apply_layer (p : PartitionConfig) (a : apply) (l : LayerConfig) : option apply :=
  a ← fold_opt (apply_slot (layer_index l)) a (l_tt_slots l);
  let a := match partition_cpu p, l_cbs_entries l with
           | None, _ :: _ => record_apply_error (String.append "CBS partition has empty cpuset: " (partition_id p)) a
           | _, _ => a
           end in
  fold_opt (apply_entry (layer_index l) (default 0 (partition_cpu p))) a (l_cbs_entries l).

Definition apply_partition (a : apply) (p : PartitionConfig) : option apply :=
  fold_opt (apply_layer p) a (layers p).

Definition prepare_node (t : HierarchicalScheduleTable) (n : node) : node :=
  let n := forget_table (evict_absent (new_workloads t) n) in
  let n := set_monitor (FaultMonitor.clear_state (fault_monitor n)) n in
  let n := remove_stale_pids tracing n in
  set_monitor (FaultMonitor.update_current_limits (new_limits t) (fault_monitor n)) n.

Definition table_callback `{!StdSort} (t : HierarchicalScheduleTable) (n : node) : option node :=
  a ← fold_opt apply_partition (Apply (prepare_node t n) 0 [] true ""%string 0) (partitions t);
  let n := ap_node a in
  let '(m, ws) := set_schedule_table (ap_slots a) (hyperperiod_us t) (Messages.epoch_ns t) (timer_master n) in
  let n := emit (Wakes ws) (set_master m n) in
  Some (on_client (send_table_applied (table_id t) (apply_success a) (apply_error a)) n).
End Apply.

(** ** Lookups of processes *)

Lemma digits_nonneg acc t : 0 <= acc -> 0 <= digits 10 digit acc t.
Proof.
  revert acc. induction t as [|c t IH]; intros acc Ha; cbn [digits]; [done|].
  destruct (digit c) as [d|] eqn:E; [|done]. apply IH. unfold digit in E. destruct (_ && _) eqn:E2; [|done].
  apply andb_true_iff in E2. rewrite !Z.leb_le in E2. injection E as <-. lia.
Qed.

Lemma stoi_num t pid : is_num t = true -> stoi t = Some pid -> 0 <= pid <= INT_MAX.
Proof.
  intros Hn. unfold stoi. destruct t as [|c t]; [done|]. cbn [is_num forallb] in Hn.
  apply andb_true_iff in Hn as [Hc _]. destruct (digit c) as [d|] eqn:Ed; [|done]. pose proof (digit_code _ _ Ed).
  cbn [skip_spaces]. unfold is_space.
  rewrite (proj2 (Z.eqb_neq (code c) 32)), (proj2 (Z.leb_gt (code c) 13)), andb_false_r by lia. cbn [orb sign_of].
  rewrite (proj2 (Z.eqb_neq (code c) 45)), (proj2 (Z.eqb_neq (code c) 43)), Ed by lia. cbv zeta.
  pose proof (digits_nonneg 0 (c :: t) ltac:(lia)). rewrite Z.mul_1_l.
  destruct (_ && _) eqn:E; [|done]. apply andb_true_iff in E. rewrite !Z.leb_le in E. intros [= <-]. by split; [|apply E].
Qed.

(** A pid, or -1. *)
Lemma find_pid_range comm proc pid : find_pid_by_comm comm proc = Some pid -> pid = -1 \/ 0 <= pid <= INT_MAX.
Proof.
  destruct proc as [es|]; cbn [find_pid_by_comm]; [|intros [= <-]; by left].
  generalize (chars comm). intros c. induction es as [|e es IH]; cbn [find_in]; [intros [= <-]; by left|].
  destruct (_ || _) eqn:E; [done|]. apply orb_false_iff in E as [_ E]. apply negb_false_iff in E.
  destruct (comm_file e); [|done]. cbv zeta. destruct (_ || _); [|done]. intros Hs. right. by eapply stoi_num.
Qed.
