(* ===== verification/NodeTable.v ===== *)
(** * What applying a table does to the node

    The callback of NodeMain on a table, as one pass over the table's items;
    the contents it gives the BPF maps, the timer and the tracking maps, the
    report it sends. *)
From stdpp Require Import prelude gmap strings list sorting pretty.
From Stdlib Require Import ZArith Lia.
From Stdlib Require String Ascii.
From S2P Require Import Prelude Text BpfMaps BpfSched BpfLoader TtShm TimerMaster SchedStat Messages NodeClient Faults NodeMain.
Local Open Scope Z_scope.

(** ** Items *)

Inductive item :=
  | TtItem (layer_index : Z) (s : TtSlot)
  | NoCpuset (partition_id : string)
  | CbsItem (layer_index partition_cpu : Z) (b : CbsConfig).

Definition layer_items (p : PartitionConfig) (l : LayerConfig) : list item :=
  (TtItem (layer_index l) <$> l_tt_slots l) ++
  match partition_cpu p, l_cbs_entries l with None, _ :: _ => [NoCpuset (partition_id p)] | _, _ => [] end ++
  (CbsItem (layer_index l) (default 0 (partition_cpu p)) <$> l_cbs_entries l).
Definition table_items (t : HierarchicalScheduleTable) : list item := partitions t ≫= fun p => layers p ≫= layer_items p.

Definition item_slot (it : item) : option TtSlot := match it with TtItem _ s => Some s | _ => None end.
Definition slots_of (its : list item) : list TtSlot := omap item_slot its.
Definition item_task (it : item) : option string :=
  match it with TtItem _ s => Some (m_task s) | NoCpuset _ => None | CbsItem _ _ b => Some (b_task b) end.
Definition tasks_of (its : list item) : list string := omap item_task its.

Lemma slots_of_layer p l : slots_of (layer_items p l) = l_tt_slots l.
Proof.
  unfold slots_of, layer_items. rewrite !omap_app.
  assert (E1 : omap item_slot (TtItem (layer_index l) <$> l_tt_slots l) = l_tt_slots l).
  { induction (l_tt_slots l) as [|s ss IH]; cbn; [done|]. by f_equal. }
  assert (E3 : forall i c bs, omap item_slot (CbsItem i c <$> bs) = []).
  { intros i c bs. induction bs as [|b bs IH]; done. }
  rewrite E1, E3. destruct (partition_cpu p), (l_cbs_entries l); cbn; by rewrite app_nil_r.
Qed.

Lemma slots_of_bind {A} (f : A -> list item) l : slots_of (l ≫= f) = l ≫= fun x => slots_of (f x).
Proof. induction l as [|x l IH]; [done|]. cbn. unfold slots_of in *. by rewrite omap_app, <- IH. Qed.

Lemma slots_of_table t : slots_of (table_items t) = table_slots t.
Proof.
  unfold table_items, table_slots, table_layers. rewrite slots_of_bind. induction (partitions t) as [|p ps IH]; [done|].
  cbn [mbind list_bind]. rewrite bind_app, <- IH. f_equal. rewrite slots_of_bind.
  apply list_bind_ext; [|done]. intros l. apply slots_of_layer.
Qed.

Definition item_entry (it : item) : option CbsConfig := match it with CbsItem _ _ b => Some b | _ => None end.
Definition entries_of (its : list item) : list CbsConfig := omap item_entry its.

Lemma entries_of_layer p l : entries_of (layer_items p l) = l_cbs_entries l.
Proof.
  unfold entries_of, layer_items. rewrite !omap_app.
  assert (E1 : forall i (ss : list TtSlot), omap item_entry (TtItem i <$> ss) = []).
  { intros i ss. induction ss as [|s ss IH]; done. }
  assert (E3 : forall i c (bs : list CbsConfig), omap item_entry (CbsItem i c <$> bs) = bs).
  { intros i c bs. induction bs as [|b bs IH]; cbn; [done|]. by f_equal. }
  rewrite E1, E3. destruct (partition_cpu p), (l_cbs_entries l); done.
Qed.
Lemma entries_of_bind {A} (f : A -> list item) l : entries_of (l ≫= f) = l ≫= fun x => entries_of (f x).
Proof. induction l as [|x l IH]; [done|]. cbn. unfold entries_of in *. by rewrite omap_app, <- IH. Qed.

Lemma entries_of_table t : entries_of (table_items t) = table_entries t.
Proof.
  unfold table_items, table_entries, table_layers. rewrite entries_of_bind. induction (partitions t) as [|p ps IH]; [done|].
  cbn [mbind list_bind]. rewrite bind_app, <- IH. f_equal. rewrite entries_of_bind.
  apply list_bind_ext; [|done]. intros l. apply entries_of_layer.
Qed.

Section Pass.
Context (proc : nat -> option (list proc_entry)) (now : nat -> Z) (tracing : bool).

Definition apply_item (a : apply) (it : item) : option apply :=
  match it with
  | TtItem i s => apply_slot proc tracing i a s
  | NoCpuset id => Some (record_apply_error (String.append "CBS partition has empty cpuset: " id) a)
  | CbsItem i c b => apply_entry proc now tracing i c a b
  end.

Lemma apply_layer_items p a l : apply_layer proc now tracing p a l = fold_opt apply_item a (layer_items p l).
Proof.
  unfold apply_layer, layer_items. rewrite fold_opt_app, fold_opt_fmap. cbn [apply_item].
  destruct (fold_opt _ a (l_tt_slots l)) as [a1|]; [|done]. cbn [mbind option_bind].
  rewrite fold_opt_app. destruct (partition_cpu p) as [c|], (l_cbs_entries l) as [|b bs];
    cbn [fold_opt apply_item]; rewrite ?fold_opt_fmap; done.
Qed.

Lemma fold_opt_bind {A B C} (f : A -> B -> option A) (g : A -> C -> option A) (h : C -> list B) a l :
  (forall a c, g a c = fold_opt f a (h c)) -> fold_opt g a l = fold_opt f a (l ≫= h).
Proof.
  intros Hg. revert a. induction l as [|c l IH]; intros a; [done|]. cbn [fold_opt mbind list_bind].
  rewrite fold_opt_app, Hg. destruct (fold_opt f a (h c)); [apply IH|done].
Qed.

Lemma apply_table_items a t :
  fold_opt (apply_partition proc now tracing) a (partitions t) = fold_opt apply_item a (table_items t).
Proof.
  apply fold_opt_bind. intros a1 p. unfold apply_partition. apply fold_opt_bind. apply apply_layer_items.
Qed.
End Pass.

(** ** The contents a table describes

    [pid_of] gives the process of a task, or -1. *)

Section Contents.
Context (pid_of : string -> Z) (now : nat -> Z).

Definition slot_key (i : nat) (s : TtSlot) : TtSlotKey := {| key_cpu := m_cpu s; key_slot_idx := Z.of_nat i |}.
Definition runs (task : string) : bool := 0 <=? pid_of task.

Definition tt_writes (its : list item) : list (TtSlotKey * TtSlotBpf) :=
  imap (fun i s => (slot_key i s, slot_bpf s)) (slots_of its).
Definition slot_entries (its : list item) : list SlotEntry := imap (fun i s => slot_entry (Z.of_nat i) s) (slots_of its).

Definition item_meta (it : item) : option (Z * TaskMeta) :=
  match it with
  | TtItem i s => if runs (m_task s) then Some (pid_of (m_task s), slot_meta i s) else None
  | NoCpuset _ => None
  | CbsItem i c b => if runs (b_task b) then Some (pid_of (b_task b), entry_meta i c b) else None
  end.
Definition meta_writes (its : list item) : list (Z * TaskMeta) := omap item_meta its.

(** [k] items before these looked up a process. *)
Fixpoint cbs_writes (k : nat) (its : list item) : list (Z * CbsState) :=
  match its with
  | [] => []
  | TtItem _ _ :: its => cbs_writes (S k) its
  | NoCpuset _ :: its => cbs_writes k its
  | CbsItem _ _ b :: its =>
      (if runs (b_task b) then [(entry_key b, entry_state (now k) b)] else []) ++ cbs_writes (S k) its
  end.

(** *** Tracking *)

Definition item_pid (it : item) : option (string * Z) :=
  match it with
  | TtItem _ s => if runs (m_task s) then Some (m_workload s, pid_of (m_task s)) else None
  | NoCpuset _ => None
  | CbsItem _ _ b => if runs (b_task b) then Some (b_workload b, pid_of (b_task b)) else None
  end.
Definition item_hash (it : item) : option (string * Z) :=
  match it with
  | TtItem _ s => if runs (m_task s) then Some (m_workload s, m_workload_hash s) else None
  | NoCpuset _ => None
  | CbsItem _ _ b => if runs (b_task b) then Some (b_workload b, b_workload_hash b) else None
  end.
Definition item_cbs_key (it : item) : option (string * Z) :=
  match it with
  | CbsItem _ _ b => if runs (b_task b) then Some (b_workload b, entry_key b) else None
  | _ => None
  end.
Definition slot_keys (its : list item) : list (string * TtSlotKey) :=
  omap id (imap (fun i s => if runs (m_task s) then Some (m_workload s, slot_key i s) else None) (slots_of its)).

Definition tracked_after (its : list item) : tracked :=
  Tracked (grouped (omap item_pid its)) (grouped (slot_keys its)) (writes ∅ (omap item_hash its))
    (grouped (omap item_cbs_key its)) (writes ∅ ((fun wh => (wh.2, wh.1)) <$> omap item_hash its)).

(** *** The report *)

Definition item_error (it : item) : option string :=
  match it with
  | TtItem _ s => if runs (m_task s) then None else Some (String.append "TT task not found: " (m_task s))
  | NoCpuset id => Some (String.append "CBS partition has empty cpuset: " id)
  | CbsItem _ _ b => if runs (b_task b) then None else Some (String.append "CBS task not found: " (b_task b))
  end.
Definition join (errors : list string) : string :=
  foldl (fun acc e => String.append (if decide (acc = ""%string) then ""%string else String.append acc "; ") e)
    ""%string errors.

(** ** One pass *)

Definition bpf_after (st : bpf_state) (its : list item) : bpf_state :=
  {| isolated_cpu_mask := isolated_cpu_mask st; tt_table_map := writes (tt_table_map st) (tt_writes its);
     cbs_map := writes (cbs_map st) (cbs_writes 0 its); current_slot_map := current_slot_map st;
     tt_active_until_map := tt_active_until_map st; next_tt_start_map := next_tt_start_map st;
     tt_runnable_count_map := tt_runnable_count_map st;
     task_meta_map := writes (task_meta_map st) (meta_writes its) |}.

(** Room for the table in the maps. *)
Definition room (st : bpf_state) (its : list item) : Prop :=
  (size (tt_table_map st) + length (slots_of its) <= TT_TABLE_MAP_ENTRIES)%nat /\
  (size (task_meta_map st) + length (meta_writes its) <= TASK_META_MAP_ENTRIES)%nat /\
  (size (cbs_map st) + length (cbs_writes 0 its) <= CBS_MAP_ENTRIES)%nat.

Definition after_pass (l : Z) (n : node) (st : bpf_state) (its : list item) stat gp : apply :=
  Apply (Node (Loader l (Some (bpf_after st its))) (timer_master n) (fault_monitor n) (node_client n) stat gp
           (tracked_after its) (effects n ++ (SchedExt ∘ fst <$> meta_writes its)))
    (zlen (slots_of its)) (slot_entries its) (bool_decide (omap item_error its = [])) (join (omap item_error its))
    (length (tasks_of its)).

Lemma slots_of_snoc its it : slots_of (its ++ [it]) = slots_of its ++ match item_slot it with Some s => [s] | None => [] end.
Proof. unfold slots_of. rewrite omap_app. cbn. by destruct (item_slot it). Qed.

Lemma cbs_writes_app k a b : cbs_writes k (a ++ b) = cbs_writes k a ++ cbs_writes (k + length (tasks_of a)) b.
Proof.
  revert k. induction a as [|it a IH]; intros k; cbn [app cbs_writes]; [cbn; by rewrite Nat.add_0_r|].
  destruct it; cbn [tasks_of omap list_omap item_task length]; rewrite IH, ?Nat.add_succ_r; [done..|].
  by rewrite <- app_assoc.
Qed.

Lemma join_snoc es e :
  join (es ++ [e]) = String.append (if decide (join es = ""%string) then ""%string else String.append (join es) "; ") e.
Proof. unfold join. by rewrite foldl_app. Qed.

Lemma hash_update_room {K V} `{Countable K} cap (k : K) (v : V) m :
  (size m < cap)%nat -> hash_update cap k v m = (<[k := v]> m, 0).
Proof. intros Hm. unfold hash_update. case_decide; [done|]. by rewrite decide_True by done. Qed.

(** An empty program has room for up to 2048 slots and 1024 entries. *)
Lemma length_meta_writes its : (length (meta_writes its) <= length (slots_of its) + length (entries_of its))%nat.
Proof.
  unfold meta_writes, slots_of, entries_of.
  induction its as [|it its IH]; cbn [omap list_omap length]; [lia|].
  destruct it as [i s|id|i c b]; cbn [item_meta item_slot item_entry]; [|done|]; destruct (runs _); cbn [length]; lia.
Qed.
Lemma length_cbs_writes k its : (length (cbs_writes k its) <= length (entries_of its))%nat.
Proof.
  unfold entries_of. revert k. induction its as [|it its IH]; intros k; cbn [cbs_writes omap list_omap length]; [done|].
  destruct it as [i s|id|i c b]; cbn [item_entry]; [apply IH|apply IH|]. rewrite length_app. specialize (IH (S k)).
  destruct (runs _); cbn [length]; lia.
Qed.

Lemma room_empty st its :
  tt_table_map st = ∅ -> task_meta_map st = ∅ -> cbs_map st = ∅ ->
  (length (slots_of its) <= TT_TABLE_MAP_ENTRIES)%nat -> (length (entries_of its) <= CBS_MAP_ENTRIES)%nat -> room st its.
Proof.
  intros E1 E2 E3 H1 H2. unfold room. rewrite E1, E2, E3, !map_size_empty. cbn [Nat.add].
  pose proof (length_meta_writes its). pose proof (length_cbs_writes 0 its).
  split_and!; [done| |by eapply Nat.le_trans].
  eapply Nat.le_trans; [eassumption|]. eapply Nat.le_trans; [by apply Nat.add_le_mono|].
  apply Nat.leb_le. by vm_compute.
Qed.

(** The contents grow by what the last item adds. *)
Lemma omap_snoc {A B} (f : A -> option B) l x : omap f (l ++ [x]) = omap f l ++ match f x with Some y => [y] | None => [] end.
Proof. rewrite omap_app. cbn. by destruct (f x). Qed.
Lemma imap_slots_snoc {B} (f : nat -> TtSlot -> B) its i s :
  imap f (slots_of (its ++ [TtItem i s])) = imap f (slots_of its) ++ [f (length (slots_of its)) s].
Proof. rewrite slots_of_snoc, imap_app. cbn. by rewrite Nat.add_0_r. Qed.

(** The effect of the setters on explicit states: rewriting with these keeps
    the terms small. *)
Section Setters.
Context (n : node) (i : Z) (ss : list SlotEntry) (ok : bool) (err : string) (k : nat).
Lemma on_node_eq f : on_node f (Apply n i ss ok err k) = Apply (f n) i ss ok err k. Proof. done. Qed.
Lemma found_eq : found (Apply n i ss ok err k) = Apply n i ss ok err (S k). Proof. done. Qed.
Lemma push_eq e : push_slot_entry e (Apply n i ss ok err k) = Apply n i (ss ++ [e]) ok err k. Proof. done. Qed.
Lemma next_eq : next_slot (Apply n i ss ok err k) = Apply n (u32 (i + 1)) ss ok err k. Proof. done. Qed.
Lemma record_eq e : record_apply_error e (Apply n i ss ok err k) =
  Apply n i ss false (String.append (if decide (err = ""%string) then ""%string else String.append err "; ") e) k.
Proof. done. Qed.
Context (l l' : loader) (tm tm' : master) (fm fm' : monitor) (nc nc' : client) (sm sm' : stat_maps)
  (gp gp' : gmap Z string) (t t' : tracked) (es : list effect).
Lemma set_loader_eq : set_loader l' (Node l tm fm nc sm gp t es) = Node l' tm fm nc sm gp t es. Proof. done. Qed.
Lemma set_master_eq : set_master tm' (Node l tm fm nc sm gp t es) = Node l tm' fm nc sm gp t es. Proof. done. Qed.
Lemma set_gpdata_eq : set_gpdata sm' gp' (Node l tm fm nc sm gp t es) = Node l tm fm nc sm' gp' t es. Proof. done. Qed.
Lemma retrack_eq f : retrack f (Node l tm fm nc sm gp t es) = Node l tm fm nc sm gp (f t) es. Proof. done. Qed.
Lemma emit_eq e : emit e (Node l tm fm nc sm gp t es) = Node l tm fm nc sm gp t (es ++ [e]). Proof. done. Qed.
End Setters.

Ltac setters :=
  repeat first [rewrite on_node_eq | rewrite found_eq | rewrite push_eq | rewrite next_eq | rewrite record_eq
               | rewrite set_loader_eq | rewrite set_master_eq | rewrite set_gpdata_eq | rewrite retrack_eq | rewrite emit_eq].

(** The calls succeed while there is room. *)
Lemma trace_pid_gpdata tracing pid task a :
  exists m g, on_node (trace_pid tracing pid task) a = on_node (set_gpdata m g) a.
Proof.
  unfold trace_pid, on_node. destruct tracing; [destruct (add_pid _ _ _); by do 2 eexists|].
  exists (schedstat (ap_node a)), (gpdata_pid_to_task (ap_node a)). by destruct (ap_node a).
Qed.

Lemma room_left (now0 old more cap : nat) : (now0 <= old + more -> old + (more + 1) <= cap -> now0 < cap)%nat.
Proof. lia. Qed.

Section Calls.
Context (l : Z) (st : bpf_state) (a : apply) (Hl : bpf_loader (ap_node a) = Loader l (Some st)).

Lemma update_meta_room k v :
  (size (task_meta_map st) < TASK_META_MAP_ENTRIES)%nat ->
  on_bpf (update_task_meta k v) a
  = (on_node (set_loader (Loader l (Some (with_task_meta st (<[k := v]> (task_meta_map st)))))) a, true).
Proof using Hl.
  intros Hs. unfold on_bpf, bpf, update_task_meta, on_skel. rewrite Hl. cbn [skel_].
  by rewrite hash_update_room by done.
Qed.
Lemma update_slot_room k v :
  (size (tt_table_map st) < TT_TABLE_MAP_ENTRIES)%nat ->
  on_bpf (update_tt_slot k v) a
  = (on_node (set_loader (Loader l (Some (with_tt_table st (<[k := v]> (tt_table_map st)))))) a, true).
Proof using Hl.
  intros Hs. unfold on_bpf, bpf, update_tt_slot, on_skel. rewrite Hl. cbn [skel_].
  by rewrite hash_update_room by done.
Qed.
Lemma update_cbs_room k v :
  (size (cbs_map st) < CBS_MAP_ENTRIES)%nat ->
  on_bpf (update_cbs_state k v) a
  = (on_node (set_loader (Loader l (Some (with_cbs_map st (<[k := v]> (cbs_map st)))))) a, true).
Proof using Hl.
  intros Hs. unfold on_bpf, bpf, update_cbs_state, on_skel. rewrite Hl. cbn [skel_].
  by rewrite hash_update_room by done.
Qed.
End Calls.

Lemma unsuccessful (es : list string) e : bool_decide (es ++ [e] = []) = false.
Proof. apply bool_decide_eq_false_2. by destruct es. Qed.

(** Computes the maps after one more write. *)
Ltac contents :=
  cbn [ap_slot_idx isolated_cpu_mask tt_table_map cbs_map current_slot_map tt_active_until_map next_tt_start_map
       tt_runnable_count_map task_meta_map with_task_meta with_tt_table with_cbs_map id];
  rewrite ?app_nil_r, ?fmap_app, ?length_app, ?Nat.add_1_r, ?Nat.add_0_r, ?unsuccessful, ?join_snoc;
  cbn [fmap list_fmap];
  rewrite ?writes_snoc, ?grouped_snoc; rewrite <- ?app_assoc.

Section Step.
Context (proc : nat -> option (list proc_entry)) (tracing : bool).
Context (l : Z) (n : node) (st : bpf_state) (its : list item) (stat : stat_maps) (gp : gmap Z string).

Lemma slot_step i s :
  find_pid_by_comm (m_task s) (proc (length (tasks_of its))) = Some (pid_of (m_task s)) ->
  room st (its ++ [TtItem i s]) ->
  exists stat' gp', apply_slot proc tracing i (after_pass l n st its stat gp) s
                    = Some (after_pass l n st (its ++ [TtItem i s]) stat' gp').
Proof.
  intros Hf (Htt & Hmeta & _). pose proof (find_pid_range _ _ _ Hf) as Hr.
  pose proof (writes_size (tt_table_map st) (tt_writes its)) as Hs1.
  pose proof (writes_size (task_meta_map st) (meta_writes its)) as Hs2.
  unfold tt_writes, meta_writes in Hs1, Hs2. rewrite length_imap in Hs1.
  unfold meta_writes in Hmeta. rewrite slots_of_snoc, length_app in Htt. rewrite omap_snoc, length_app in Hmeta.
  cbn [item_slot item_meta length] in Htt, Hmeta. unfold runs in *.
  unfold apply_slot. cbn [finds after_pass]. rewrite Hf. cbn [mbind option_bind].
  unfold after_pass, bpf_after, tracked_after, slot_entries, slot_keys, tt_writes, meta_writes, tasks_of.
  rewrite !imap_slots_snoc, !omap_snoc, cbs_writes_app, slots_of_snoc.
  cbn [item_slot item_meta item_pid item_hash item_cbs_key item_error item_task cbs_writes]. unfold runs.
  assert (Hidx : u32 (zlen (slots_of its) + 1) = zlen (slots_of its ++ [s])).
  { rewrite zlen_app. apply wrap_small. unfold uword, zlen, TT_TABLE_MAP_ENTRIES in *. cbn [length]. lia. }
  destruct (Z.leb_spec 0 (pid_of (m_task s))) as [Hp|Hp].
  - setters. unfold register_slot. rewrite (proj2 (Z.ltb_ge _ _) Hp).
    match goal with |- context [on_node (trace_pid tracing ?p ?w) ?m] => destruct (trace_pid_gpdata tracing p w m) as (m1 & g1 & ->) end.
    exists m1, g1. setters.
    match goal with |- context [on_bpf (update_task_meta ?k ?v) ?a] => rewrite (update_meta_room l _ a eq_refl k v) end.
    2:{ exact (room_left _ _ _ _ Hs2 Hmeta). }
    cbv iota beta. setters. unfold install_slot. cbn [ap_slot_idx]. setters.
    match goal with |- context [on_bpf (update_tt_slot ?k ?v) ?a] => rewrite (update_slot_room l _ a eq_refl k v) end.
    2:{ exact (room_left _ _ _ _ Hs1 Htt). }
    cbn [record_unless]. rewrite (proj2 (Z.leb_le _ _) Hp). setters.
    rewrite wrap_small by (unfold uword; destruct Hr; unfold INT_MAX in *; lia).
    cbn [ap_slot_idx]. rewrite Hidx. contents. done.
  - setters. unfold register_slot. rewrite (proj2 (Z.ltb_lt _ _) Hp). setters.
    exists stat, gp. unfold install_slot. cbn [ap_slot_idx]. setters.
    match goal with |- context [on_bpf (update_tt_slot ?k ?v) ?a] => rewrite (update_slot_room l _ a eq_refl k v) end.
    2:{ exact (room_left _ _ _ _ Hs1 Htt). }
    cbn [record_unless]. rewrite (proj2 (Z.leb_gt _ _) Hp). setters. cbn [ap_slot_idx]. rewrite Hidx. contents. done.
Qed.

Lemma cpuset_step id :
  Some (record_apply_error (String.append "CBS partition has empty cpuset: " id) (after_pass l n st its stat gp))
  = Some (after_pass l n st (its ++ [NoCpuset id]) stat gp).
Proof.
  unfold after_pass, bpf_after, tracked_after, slot_entries, slot_keys, tt_writes, meta_writes, tasks_of.
  rewrite slots_of_snoc, !omap_snoc, cbs_writes_app. setters.
  cbn [item_slot item_meta item_pid item_hash item_cbs_key item_error item_task cbs_writes]. contents. done.
Qed.

Lemma entry_step i c b :
  find_pid_by_comm (b_task b) (proc (length (tasks_of its))) = Some (pid_of (b_task b)) ->
  room st (its ++ [CbsItem i c b]) ->
  exists stat' gp', apply_entry proc now tracing i c (after_pass l n st its stat gp) b
                    = Some (after_pass l n st (its ++ [CbsItem i c b]) stat' gp').
Proof.
  intros Hf (_ & Hmeta & Hcbs). pose proof (find_pid_range _ _ _ Hf) as Hr.
  pose proof (writes_size (cbs_map st) (cbs_writes 0 its)) as Hs1.
  pose proof (writes_size (task_meta_map st) (meta_writes its)) as Hs2.
  unfold meta_writes in Hs2, Hmeta. rewrite cbs_writes_app, length_app in Hcbs. rewrite omap_snoc, length_app in Hmeta.
  cbn [item_meta cbs_writes] in Hcbs, Hmeta. unfold runs in *.
  unfold apply_entry. cbn [finds after_pass]. rewrite Hf. cbn [mbind option_bind].
  unfold after_pass, bpf_after, tracked_after, slot_entries, slot_keys, tt_writes, meta_writes, tasks_of.
  rewrite slots_of_snoc, !omap_snoc, cbs_writes_app.
  cbn [item_slot item_meta item_pid item_hash item_cbs_key item_error item_task cbs_writes]. unfold runs.
  destruct (Z.leb_spec 0 (pid_of (b_task b))) as [Hp|Hp].
  - setters. unfold register_entry. rewrite (proj2 (Z.ltb_ge _ _) Hp).
    match goal with |- context [on_node (trace_pid tracing ?p ?w) ?m] => destruct (trace_pid_gpdata tracing p w m) as (m1 & g1 & ->) end.
    exists m1, g1. setters.
    match goal with |- context [on_bpf (update_task_meta ?k ?v) ?a] => rewrite (update_meta_room l _ a eq_refl k v) end.
    2:{ exact (room_left _ _ _ _ Hs2 Hmeta). }
    cbn [negb]. setters.
    match goal with |- context [on_bpf (update_cbs_state ?k ?v) ?a] => rewrite (update_cbs_room l _ a eq_refl k v) end.
    2:{ exact (room_left _ _ _ _ Hs1 Hcbs). }
    cbn [negb]. setters. rewrite wrap_small by (unfold uword; destruct Hr; unfold INT_MAX in *; lia).
    contents. done.
  - setters. unfold register_entry. rewrite (proj2 (Z.ltb_lt _ _) Hp). setters. exists stat, gp. contents. done.
Qed.
End Step.

Lemma room_prefix st its it : room st (its ++ [it]) -> room st its.
Proof.
  unfold room, meta_writes. rewrite slots_of_snoc, omap_snoc, cbs_writes_app, !length_app.
  intros (H1 & H2 & H3). split_and!; (eapply Nat.le_trans; [|eassumption]); lia.
Qed.

(** The whole pass: a node that tracks nothing and whose maps have room ends
    with the contents described. *)
Lemma pass_spec proc tracing l n st its :
  bpf_loader n = Loader l (Some st) -> tracking n = nothing_tracked -> room st its ->
  (forall i w, w ∈ tasks_of its -> find_pid_by_comm w (proc i) = Some (pid_of w)) ->
  exists stat gp, fold_opt (apply_item proc now tracing) (Apply n 0 [] true ""%string 0) its
                  = Some (after_pass l n st its stat gp).
Proof.
  intros Hl Ht. induction its as [|it its IH] using rev_ind; intros Hroom Hproc.
  { exists (schedstat n), (gpdata_pid_to_task n). cbn [fold_opt]. do 2 f_equal.
    destruct n as [l0 tm fm nc sm gp0 t es]. cbn in Hl, Ht. subst l0 t. unfold after_pass. cbn [fmap list_fmap meta_writes omap list_omap effects]. rewrite app_nil_r. by destruct st. }
  destruct IH as (stat & gp & E).
  { by eapply room_prefix. }
  { intros i w Hw. apply Hproc. unfold tasks_of. rewrite omap_app. by apply elem_of_app; left. }
  rewrite fold_opt_app, E. cbn [fold_opt].
  assert (Hlast : forall w, item_task it = Some w ->
            find_pid_by_comm w (proc (length (tasks_of its))) = Some (pid_of w)).
  { intros w Hw. apply Hproc. unfold tasks_of. rewrite omap_snoc, Hw. apply elem_of_app; right; by left. }
  destruct it as [i s|id|i c b]; cbn [apply_item].
  - destruct (slot_step proc tracing l n st its stat gp i s) as (m & g & ->); [by apply Hlast|done|eauto].
  - rewrite cpuset_step. eauto.
  - destruct (entry_step proc tracing l n st its stat gp i c b) as (m & g & ->); [by apply Hlast|done|eauto].
Qed.
End Contents.

(** ** Forgetting the previous table *)

Definition with_maps (st : bpf_state) tt cbs meta : bpf_state :=
  {| isolated_cpu_mask := isolated_cpu_mask st; tt_table_map := tt; cbs_map := cbs;
     current_slot_map := current_slot_map st; tt_active_until_map := tt_active_until_map st;
     next_tt_start_map := next_tt_start_map st; tt_runnable_count_map := tt_runnable_count_map st;
     task_meta_map := meta |}.

(** A node whose program is loaded, with new BPF maps and more effects. *)
Definition changed (n : node) (l : Z) (st : bpf_state) tt cbs meta tm (es : list effect) : node :=
  Node (Loader l (Some (with_maps st tt cbs meta))) tm (fault_monitor n) (node_client n) (schedstat n)
    (gpdata_pid_to_task n) (tracking n) (effects n ++ es).

Section Forget.
Context (n : node) (l : Z) (st : bpf_state).

Lemma changed_refl : bpf_loader n = Loader l (Some st) ->
  n = changed n l st (tt_table_map st) (cbs_map st) (task_meta_map st) (timer_master n) [].
Proof.
  intros Hl. destruct n as [l0 tm fm nc sm gp t es]. cbn in Hl. subst l0. unfold changed. cbn. rewrite app_nil_r.
  by destruct st.
Qed.

Lemma evict_pids_changed pids tt cbs meta tm es :
  evict_pids pids (changed n l st tt cbs meta tm es) =
  changed n l st tt cbs (drop_keys meta (u32 <$> pids)) tm (es ++ (SetAffinity <$> pids)).
Proof.
  revert meta es. induction pids as [|p pids IH]; intros meta es; cbn [evict_pids foldl fmap list_fmap].
  { by rewrite app_nil_r. }
  change (foldl evict_pid ?a pids) with (evict_pids pids a).
  replace (evict_pid (changed n l st tt cbs meta tm es) p)
    with (changed n l st tt cbs (delete (u32 p) meta) tm (es ++ [SetAffinity p])).
  { rewrite IH, <- app_assoc. done. }
  unfold evict_pid, changed, bpf, delete_task_meta, on_skel, emit. cbn [bpf_loader skel_ fst snd at_map task_meta_map with_maps].
  rewrite hash_delete_map. unfold set_loader. cbn. by rewrite <- app_assoc.
Qed.

Lemma delete_slots_changed keys tt cbs meta tm es :
  delete_slots keys (changed n l st tt cbs meta tm es) = changed n l st (drop_keys tt keys) cbs meta tm es.
Proof.
  revert tt. induction keys as [|k keys IH]; intros tt; [done|]. cbn [delete_slots foldl].
  change (foldl (fun n key => (bpf (delete_tt_slot key) n).1) ?a keys) with (delete_slots keys a).
  replace (bpf (delete_tt_slot k) (changed n l st tt cbs meta tm es)).1
    with (changed n l st (delete k tt) cbs meta tm es); [apply IH|].
  unfold changed, bpf, delete_tt_slot, on_skel. cbn [bpf_loader skel_ fst snd at_map tt_table_map with_maps].
  by rewrite hash_delete_map.
Qed.

Lemma delete_cbs_changed keys tt cbs meta tm es :
  delete_cbs keys (changed n l st tt cbs meta tm es) = changed n l st tt (drop_keys cbs keys) meta tm es.
Proof.
  revert cbs. induction keys as [|k keys IH]; intros cbs; [done|]. cbn [delete_cbs foldl].
  change (foldl (fun n key => (bpf (delete_cbs_state key) n).1) ?a keys) with (delete_cbs keys a).
  replace (bpf (delete_cbs_state k) (changed n l st tt cbs meta tm es)).1
    with (changed n l st tt (delete k cbs) meta tm es); [apply IH|].
  unfold changed, bpf, delete_cbs_state, on_skel. cbn [bpf_loader skel_ fst snd at_map cbs_map with_maps].
  by rewrite hash_delete_map.
Qed.

Lemma stop_timer_changed h tt cbs meta tm es :
  stop_timer h (changed n l st tt cbs meta tm es) =
  changed n l st tt cbs meta (match h with Some h => remove_workload h tm | None => tm end) es.
Proof. by destruct h. Qed.

(** *** Workloads the new table does not have *)

Definition absent (new : gset string) (wps : list (string * list Z)) : list (string * list Z) :=
  filter (fun wp => wp.1 ∉ new) wps.
Definition stop_all (hs : list Z) (tm : master) : master := foldl (fun m h => remove_workload h m) tm hs.

Lemma evict_fold new wps tt cbs meta tm es :
  let gone := absent new wps in
  foldl (fun n (wp : string * list Z) =>
           if decide (wp.1 ∈ new) then n
           else stop_timer (workload_to_hash (tracking n) !! wp.1) (evict_pids wp.2 n))
    (changed n l st tt cbs meta tm es) wps
  = changed n l st tt cbs (drop_keys meta (u32 <$> (gone ≫= snd)))
      (stop_all (omap (fun wp => workload_to_hash (tracking n) !! wp.1) gone) tm)
      (es ++ (SetAffinity <$> (gone ≫= snd))).
Proof.
  cbv zeta. revert meta tm es. induction wps as [|[w pids] wps IH]; intros meta tm es; cbn [foldl].
  { cbn. by rewrite app_nil_r. }
  cbn [fst snd]. unfold absent. destruct (decide (w ∈ new)) as [Hw|Hw].
  - rewrite filter_cons_False by (cbn; by intros ?). apply IH.
  - rewrite filter_cons_True by done. cbn [mbind list_bind snd omap list_omap fst]. 
    rewrite evict_pids_changed, stop_timer_changed, IH, !fmap_app, <- drop_keys_app, <- app_assoc.
    cbn [changed tracking]. by destruct (workload_to_hash (tracking n) !! w).
Qed.

Lemma delete_slots_fold (wks : list (string * list TtSlotKey)) tt cbs meta tm es :
  foldl (fun n ws => delete_slots ws.2 n) (changed n l st tt cbs meta tm es) wks
  = changed n l st (drop_keys tt (wks ≫= snd)) cbs meta tm es.
Proof.
  revert tt. induction wks as [|[w ks] wks IH]; intros tt; [done|]. cbn [foldl mbind list_bind snd].
  by rewrite delete_slots_changed, IH, drop_keys_app.
Qed.
Lemma delete_cbs_fold (wks : list (string * list Z)) tt cbs meta tm es :
  foldl (fun n ws => delete_cbs ws.2 n) (changed n l st tt cbs meta tm es) wks
  = changed n l st tt (drop_keys cbs (wks ≫= snd)) meta tm es.
Proof.
  revert cbs. induction wks as [|[w ks] wks IH]; intros cbs; [done|]. cbn [foldl mbind list_bind snd].
  by rewrite delete_cbs_changed, IH, drop_keys_app.
Qed.
End Forget.

(** What the node tracks, in the order of its maps. *)
Definition tracked_pids (n : node) : list (string * list Z) := ascending string_le (workload_to_pids (tracking n)).
Definition evicted_pids (t : HierarchicalScheduleTable) (n : node) : list Z :=
  absent (new_workloads t) (tracked_pids n) ≫= snd.
Definition tracked_slots (n : node) : list TtSlotKey :=
  ascending string_le (workload_to_slots (tracking n)) ≫= snd.
Definition tracked_cbs (n : node) : list Z := ascending string_le (workload_to_cbs_keys (tracking n)) ≫= snd.

(** The BPF maps once the previous table is forgotten. *)
Definition cleared (t : HierarchicalScheduleTable) (n : node) (st : bpf_state) : bpf_state :=
  with_maps st (drop_keys (tt_table_map st) (tracked_slots n)) (drop_keys (cbs_map st) (tracked_cbs n))
    (drop_keys (task_meta_map st) (u32 <$> evicted_pids t n)).
Definition cleared_timer (t : HierarchicalScheduleTable) (n : node) : master :=
  stop_all (omap (fun wp => workload_to_hash (tracking n) !! wp.1) (absent (new_workloads t) (tracked_pids n)))
    (timer_master n).

Lemma prepare_node_spec tracing t n l st :
  bpf_loader n = Loader l (Some st) ->
  exists stat gp, prepare_node tracing t n =
    Node (Loader l (Some (cleared t n st))) (cleared_timer t n)
      (FaultMonitor.update_current_limits (new_limits t) (FaultMonitor.clear_state (fault_monitor n)))
      (node_client n) stat gp nothing_tracked (effects n ++ (SetAffinity <$> evicted_pids t n)).
Proof.
  intros Hl. unfold prepare_node.
  assert (E : forget_table (evict_absent (new_workloads t) n) =
    set_tracking nothing_tracked (changed n l st (drop_keys (tt_table_map st) (tracked_slots n))
      (drop_keys (cbs_map st) (tracked_cbs n)) (drop_keys (task_meta_map st) (u32 <$> evicted_pids t n))
      (cleared_timer t n) (SetAffinity <$> evicted_pids t n))).
  { unfold evict_absent. rewrite (changed_refl n l st Hl) at 1. rewrite evict_fold. unfold forget_table.
    cbn [changed tracking]. fold (changed n l st). rewrite delete_slots_fold, delete_cbs_fold. done. }
  rewrite E. unfold remove_stale_pids. destruct tracing; by do 2 eexists.
Qed.

(** ** Lookups in the slot table *)

Lemma elem_of_tt_writes its k b :
  (k, b) ∈ tt_writes its <-> exists i s, slots_of its !! i = Some s /\ k = slot_key i s /\ b = slot_bpf s.
Proof.
  unfold tt_writes. rewrite elem_of_lookup_imap. split.
  - intros (i & s & [= -> ->] & Hi). eauto.
  - intros (i & s & Hi & -> & ->). eauto.
Qed.

Lemma NoDup_tt_writes its : NoDup (tt_writes its).*1.
Proof.
  unfold tt_writes. rewrite fmap_imap. apply NoDup_alt. intros i j k Hi Hj.
  rewrite list_lookup_imap in Hi, Hj.
  destruct (slots_of its !! i) as [s|]; [|done]. destruct (slots_of its !! j) as [s'|]; [|done].
  cbn in Hi, Hj. injection Hi as <-. injection Hj as Hc. lia.
Qed.

Lemma tt_after_lookup m its k b :
  writes m (tt_writes its) !! k = Some b <->
  (exists i s, slots_of its !! i = Some s /\ k = slot_key i s /\ b = slot_bpf s) \/
  (forall i s, slots_of its !! i = Some s -> k <> slot_key i s) /\ m !! k = Some b.
Proof.
  destruct (decide (k ∈ (tt_writes its).*1)) as [Hin|Hin].
  - apply list_elem_of_fmap in Hin as ([k' b'] & -> & Hin). cbn [fst].
    rewrite (writes_NoDup m _ _ _ (NoDup_tt_writes its) Hin). pose proof Hin as (i & s & Hi & -> & ->)%elem_of_tt_writes. split.
    + intros [= <-]. left. eauto.
    + intros [(j & s' & Hj & Hk & ->)|[Hno _]]; [|by destruct (Hno i s Hi)].
      injection Hk as _ Hk. assert (i = j) as -> by lia. congruence.
  - rewrite writes_not_elem by done. 
    assert (Hno : forall i s, slots_of its !! i = Some s -> k <> slot_key i s).
    { intros i s Hi ->. apply Hin, list_elem_of_fmap. exists (slot_key i s, slot_bpf s). split; [done|].
      apply elem_of_tt_writes. eauto. }
    split; [by right|]. intros [(i & s & Hi & -> & _)|[_ ?]]; [by destruct (Hno i s Hi)|done].
Qed.

(** ** The threads *)

Lemma restart_running m : running (restart m) = running m.
Proof. unfold restart. cbn [running]. by destruct (running m) eqn:E. Qed.
Lemma stop_all_running hs m : running (stop_all hs m) = running m.
Proof.
  revert m. induction hs as [|h hs IH]; intros m; [done|]. cbn [stop_all foldl].
  change (foldl (fun m h => remove_workload h m) ?a hs) with (stop_all hs a). rewrite IH.
  unfold remove_workload. destruct (_ <? _)%nat; [|done]. by rewrite restart_running.
Qed.

Lemma restart_fields m :
  slot_table (restart m) = slot_table m /\ hyperperiod_ns (restart m) = hyperperiod_ns m /\
  TimerMaster.epoch_ns (restart m) = TimerMaster.epoch_ns m /\
  (running m = true -> cpu_threads (restart m) = spawn m).
Proof. unfold restart. cbn [running]. destruct (running m) eqn:E; (split_and!; [done..|]); [|done]. intros _. by destruct m. Qed.

Lemma set_table_fields `{!StdSort} slots hp ep m :
  let m' := (set_schedule_table slots hp ep m).1 in
  slot_table m' = std_sort offset_ns slots /\ hyperperiod_ns m' = u64 (hp * 1000) /\ TimerMaster.epoch_ns m' = ep /\
  (running m = true -> exists m0, cpu_threads m' = spawn m0 /\ slot_table m0 = std_sort offset_ns slots /\
     hyperperiod_ns m0 = u64 (hp * 1000) /\ TimerMaster.epoch_ns m0 = ep).
Proof.
  cbv zeta. unfold set_schedule_table. destruct (ttsched_shm m) as [shm|]; [destruct (publish_table _ _ _)|]; cbn [fst];
    match goal with |- context [restart ?m0] => destruct (restart_fields m0) as (H1 & H2 & H3 & H4) end;
    (split_and!; [done..|]); intros Hr; eexists; (split; [by apply H4|]); done.
Qed.

(** Each thread runs the entries of its CPU, in the table's order; there are
    none when stopped. *)
Definition threads_ok (m : master) : Prop :=
  (forall c ss hp ep, CpuThread c ss hp ep ∈ cpu_threads m ->
     ss <> [] /\ ss = filter (fun e => TimerMaster.cpu e = c) (slot_table m) /\ hp = hyperperiod_ns m /\ ep = TimerMaster.epoch_ns m) /\
  (running m = false -> cpu_threads m = []).

(** What the threads depend on. *)
Definition same_threads (m m' : master) : Prop :=
  (slot_table m', hyperperiod_ns m', TimerMaster.epoch_ns m', running m', cpu_threads m') =
  (slot_table m, hyperperiod_ns m, TimerMaster.epoch_ns m, running m, cpu_threads m).

Lemma same_threads_table m m' : same_threads m m' -> slot_table m' = slot_table m.
Proof. by intros [= -> _]. Qed.
Lemma same_threads_ok m m' : same_threads m m' -> threads_ok m -> threads_ok m'.
Proof. unfold threads_ok. by intros [= -> -> -> -> ->]. Qed.

Lemma restart_threads m : (running m = false -> cpu_threads m = []) -> threads_ok (restart m).
Proof.
  intros Hm. destruct (restart_fields m) as (Hs & Hh & He & Hth).
  assert (Hstop : running m = false -> cpu_threads (restart m) = []).
  { intros Er. unfold restart. cbn [running]. rewrite Er. by apply Hm. }
  split; [|by rewrite restart_running]. rewrite Hs, Hh, He. intros c ss hp ep Hin. destruct (running m) eqn:Er.
  - rewrite Hth in Hin by done. by apply spawn_thread in Hin.
  - rewrite Hstop in Hin by done. by apply not_elem_of_nil in Hin.
Qed.

Lemma remove_threads h m : threads_ok m -> threads_ok (remove_workload h m).
Proof. intros Hm. unfold remove_workload. destruct (_ <? _)%nat; [|done]. apply restart_threads, Hm. Qed.

Lemma stop_all_threads hs m : threads_ok m -> threads_ok (stop_all hs m).
Proof. revert m. induction hs as [|h hs IH]; intros m Hm; [done|]. apply IH. by apply remove_threads. Qed.

Lemma set_table_threads `{!StdSort} slots hp ep m :
  threads_ok m -> threads_ok (set_schedule_table slots hp ep m).1.
Proof.
  intros [_ Hm]. unfold set_schedule_table. destruct (ttsched_shm m); [destruct (publish_table _ _ _)|]; by apply restart_threads.
Qed.

Lemma fire_all_acts ss hp monos st acts :
  acts ∈ (fire_all ss hp monos st).2 -> exists e mono st0, e ∈ ss /\ acts = (fire ss hp mono st0 e).2.
Proof.
  revert st. induction monos as [|t monos IH]; intros st; cbn [fire_all]; [by intros ?%not_elem_of_nil|].
  destruct (ss !! Z.to_nat (next_slot_idx st)) as [e|] eqn:He; [|by intros ?%not_elem_of_nil].
  destruct (fire ss hp t st e) as [st' acts'] eqn:Ef. destruct (fire_all ss hp monos st') as [st'' rest] eqn:Er.
  cbn [snd]. intros [->|Hin]%elem_of_cons.
  - exists e, t, st. split; [by eapply list_elem_of_lookup_2|by rewrite Ef].
  - apply (IH st'). by rewrite Er.
Qed.

Lemma loop_acts `{!StdSort, !StdSortLaws} ss hp ep now monos acts :
  acts ∈ cpu_thread_loop ss hp ep now monos -> exists e mono st0 l, e ∈ ss /\ acts = (fire l hp mono st0 e).2.
Proof.
  unfold cpu_thread_loop. destruct (_ || _); [by intros ?%not_elem_of_nil|].
  intros (e & mono & st0 & He & ->)%fire_all_acts. exists e, mono, st0. eexists. split; [|done].
  by rewrite std_sort_perm in He.
Qed.

(** What an iteration announces and wakes belong to its slot. *)
Lemma fire_slot l hp mono st e c idx :
  UpdateCurrentSlot c idx ∈ (fire l hp mono st e).2 -> c = cpu e /\ idx = slot_idx e.
Proof.
  unfold fire. cbn [snd]. rewrite !elem_of_app, !elem_of_cons. destruct (_ <? _); set_solver.
Qed.
Lemma fire_wake l hp mono st e h : WakeTask h ∈ (fire l hp mono st e).2 -> h = TimerMaster.task_id_hash e.
Proof.
  unfold fire. cbn [snd]. rewrite !elem_of_app, !elem_of_cons. destruct (_ <? _); set_solver.
Qed.

(** ** Properties *)

Section Installed.
Context `{!StdSort, !StdSortLaws}.
Context (pid_of : string -> Z) (proc : nat -> option (list proc_entry)) (now : nat -> Z) (tracing : bool).
Context (t : HierarchicalScheduleTable) (n : node) (l : Z) (st : bpf_state).

(** The program is loaded, its maps have room for the table once the previous
    one is forgotten, and the processes of the tasks stay the same while the
    table is applied. *)
Record ready_for : Prop := {
  rf_loaded : bpf_loader n = Loader l (Some st);
  rf_room : room pid_of now (cleared t n st) (table_items t);
  rf_processes : forall i w, w ∈ tasks_of (table_items t) -> find_pid_by_comm w (proc i) = Some (pid_of w);
}.

Lemma table_callback_result :
  ready_for -> exists n' ws, table_callback proc now tracing t n = Some n' /\
    let its := table_items t in
    bpf_loader n' = Loader l (Some (bpf_after pid_of now (cleared t n st) its)) /\
    (timer_master n', ws) =
      set_schedule_table (slot_entries its) (hyperperiod_us t) (Messages.epoch_ns t) (cleared_timer t n) /\
    fault_monitor n' = FaultMonitor.update_current_limits (new_limits t) (FaultMonitor.clear_state (fault_monitor n)) /\
    tracking n' = tracked_after pid_of its /\
    node_client n' = send_table_applied (table_id t) (bool_decide (omap (item_error pid_of) its = []))
                       (join (omap (item_error pid_of) its)) (node_client n) /\
    effects n' = effects n ++ (SetAffinity <$> evicted_pids t n) ++
                 (SchedExt ∘ fst <$> meta_writes pid_of its) ++ [Wakes ws].
Proof using Type.
  intros [Hl Hroom Hproc]. unfold table_callback.
  destruct (prepare_node_spec tracing t n l st Hl) as (sm & gp & E). rewrite E, apply_table_items.
  edestruct (pass_spec pid_of now proc tracing l) as (sm' & gp' & E'); [| |exact Hroom|exact Hproc|rewrite E']; [done..|].
  cbn [mbind option_bind after_pass ap_node ap_slots timer_master apply_success apply_error].
  destruct (set_schedule_table _ _ _ _) as [m ws] eqn:Es. eexists _, ws. split; [done|].
  cbn [bpf_loader timer_master fault_monitor tracking node_client effects emit set_master on_client node_has_client set_client].
  split_and!; try done. by rewrite <- !app_assoc.
Qed.
End Installed.

(** C18. Applying a schedule table, when the program is loaded, the node's maps
    have room for the table and its processes stay while it is applied: the
    callback returns; the BPF slot table holds the table's slots, numbered in
    order over all partitions, and those slots it held that the node did not
    track (so not the table's alone: [unfound_slot_stays]); the record of a task
    is the one its last slot or entry gives, and a task the table does not have
    keeps its record unless it was evicted ([dropped_task_keeps_record]); the
    CBS states are those of the entries whose task runs, over those that were
    there and not tracked; the timer gets
    the same slots sorted by offset, the monitor the table's limits and no
    counts; and the orchestrator is told of success exactly when every task
    runs and no entry lacks a CPU, and of every failure otherwise. *)
Theorem table_callback_installs `{!StdSort, !StdSortLaws} pid_of proc now tracing t n l st :
  ready_for pid_of proc now t n l st ->
  exists n' st', table_callback proc now tracing t n = Some n' /\ bpf_loader n' = Loader l (Some st') /\
    (forall k b, tt_table_map st' !! k = Some b <->
       (exists i s, table_slots t !! i = Some s /\ k = slot_key i s /\ b = slot_bpf s) \/
       (forall i s, table_slots t !! i = Some s -> k <> slot_key i s) /\
       k ∉ tracked_slots n /\ tt_table_map st !! k = Some b) /\
    (forall pid, task_meta_map st' !! pid =
       match last (filter (fun w => w.1 = pid) (meta_writes pid_of (table_items t))) with
       | Some w => Some w.2
       | None => if decide (pid ∈ u32 <$> evicted_pids t n) then None else task_meta_map st !! pid
       end) /\
    cbs_map st' = writes (drop_keys (cbs_map st) (tracked_cbs n)) (cbs_writes pid_of now 0 (table_items t)) /\
    slot_table (timer_master n') = std_sort offset_ns (imap (fun i s => slot_entry (Z.of_nat i) s) (table_slots t)) /\
    hyperperiod_ns (timer_master n') = u64 (hyperperiod_us t * 1000) /\
    fault_monitor n' = FaultMonitor.Monitor (FaultMonitor.callback (fault_monitor n))
      (FaultMonitor.ringbuf_fd (fault_monitor n)) ∅ (new_limits t) ∅ /\
    exists success error, node_client n' = send_table_applied (table_id t) success error (node_client n) /\
      (success = true <-> forall it, it ∈ table_items t -> item_error pid_of it = None) /\
      error = join (omap (item_error pid_of) (table_items t)).
Proof.
  intros Hr. destruct (table_callback_result pid_of proc now tracing t n l st Hr)
    as (n' & ws & E & Hl & Htm & Hfm & _ & Hnc & _).
  exists n'. eexists. split; [exact E|]. split; [exact Hl|]. cbn [bpf_after tt_table_map task_meta_map cbs_map cleared with_maps].
  assert (Hm : timer_master n' = (set_schedule_table (slot_entries (table_items t)) (hyperperiod_us t)
                 (Messages.epoch_ns t) (cleared_timer t n)).1) by (by rewrite <- Htm).
  destruct (set_table_fields (slot_entries (table_items t)) (hyperperiod_us t) (Messages.epoch_ns t) (cleared_timer t n))
    as (H1 & H2 & _ & _). rewrite <- Hm in H1, H2. rewrite <- slots_of_table. split_and!.
  - intros k b. rewrite tt_after_lookup, drop_keys_lookup. case_decide; naive_solver.
  - intros pid. rewrite writes_lookup, drop_keys_lookup. by case_match.
  - done.
  - done.
  - done.
  - done.
  - do 2 eexists. split; [exact Hnc|]. split; [|done]. rewrite bool_decide_eq_true.
    generalize (table_items t). intros its. induction its as [|it its IH]; cbn [omap list_omap].
    { split; [|done]. intros _ it Hn. by apply not_elem_of_nil in Hn. }
    destruct (item_error pid_of it) as [e|] eqn:Ee.
    + split; [done|]. intros Hall. specialize (Hall it ltac:(by left)). congruence.
    + rewrite IH. split.
      * intros Hall x [->|Hx]%elem_of_cons; auto.
      * intros Hall x Hx. apply Hall. by right.
Qed.

(** *** An example: a node that runs the table of a workload "old" gets one
    with two slots, of which one has no process, and a CBS entry *)

Definition comm (name : string) : option text := Some (chars name ++ [NL]).
Definition example_proc : list proc_entry :=
  [ProcEntry (chars "self") true None; ProcEntry (chars "41") true (comm "cam"); ProcEntry (chars "77") true (comm "log")].
Definition example_pid (w : string) : Z :=
  if decide (w = "cam"%string) then 41 else if decide (w = "log"%string) then 77 else -1.
Definition example_slot (w : string) (off cpu hash : Z) : TtSlot := TtSlot_ "w" w off 100 1000 cpu 3 500 hash.
Definition example_table : HierarchicalScheduleTable :=
  Table "t1" "node" 1000 0
    [Partition "p" (Some (CpuSet [2; 3] true))
       [Layer 0 TIME_TRIGGERED [example_slot "cam" 300 2 7; example_slot "ghost" 0 2 8]
          [CbsConfig_ "w" "log" 50 1000 1000 0 500 9]]].
Definition old_key : TtSlotKey := {| key_cpu := 5; key_slot_idx := 0 |}.
Definition example_state : bpf_state :=
  with_maps (bpf_load 12) {[ old_key := slot_bpf (example_slot "prev" 0 5 1) ]} ∅
    {[ 9 := slot_meta 0 (example_slot "prev" 0 5 1) ]}.
Definition example_node : node :=
  Node (Loader 0 (Some example_state)) (start (TimerMaster None)) FaultMonitor.FaultMonitor
    (open_stream (NodeClient "o" "node" None)) (StatMaps ∅ ∅ ∅) ∅
    (Tracked {[ "old"%string := [9] ]} {[ "old"%string := [old_key] ]} {[ "old"%string := 99 ]} ∅ {[ 99 := "old"%string ]}) [].

Abbreviation example_run :=
  (@table_callback (fun _ => Some example_proc) (fun _ => 4000) false stable_sort example_table example_node).

Lemma example_ready :
  ready_for example_pid (fun _ => Some example_proc) (fun _ => 4000) example_table example_node 0 example_state.
Proof.
  split; [done| |].
  - unfold room. split_and!; apply Nat.leb_le; vm_compute; reflexivity.
  - intros i w Hw. vm_compute in Hw.
    repeat (apply elem_of_cons in Hw as [->|Hw]; [by vm_compute|]). by apply not_elem_of_nil in Hw.
Qed.

Lemma table_callback_installs_witness :
  exists n' st', example_run = Some n' /\ bpf_loader n' = Loader 0 (Some st') /\
    tt_table_map st' !! {| key_cpu := 2; key_slot_idx := 1 |} = Some (slot_bpf (example_slot "ghost" 0 2 8)) /\
    tt_table_map st' !! old_key = None /\ task_meta_map st' !! 9 = None /\
    written (node_client n') = [Event "node" (applied "t1" false "TT task not found: ghost")].
Proof.
  destruct (@table_callback_installs stable_sort stable_sort_laws example_pid (fun _ => Some example_proc) (fun _ => 4000)
    false example_table example_node 0 example_state example_ready)
    as (n' & st' & E & Hl & Htt & Hm & _ & _ & _ & _ & success & error & Hnc & Hs & He).
  exists n', st'. split; [exact E|]. split; [exact Hl|]. clear E Hl. split_and!.
  - apply Htt. left. exists 1%nat. eexists. split; [reflexivity|]. split; reflexivity.
  - destruct (tt_table_map st' !! old_key) as [b|] eqn:Eb; [|done]. apply Htt in Eb as [(i & s & Hi & Hk & _)|(_ & Hno & _)].
    + destruct i as [|[|i]]; [by injection Hi as <-|by injection Hi as <-|done].
    + exfalso. apply Hno. by left.
  - rewrite Hm. by vm_compute.
  - rewrite Hnc. destruct success.
    + exfalso. pose proof (proj1 Hs eq_refl (TtItem 0 (example_slot "ghost" 0 2 8))) as Hg.
      assert (Hin : TtItem 0 (example_slot "ghost" 0 2 8) ∈ table_items example_table) by (right; by left).
      specialize (Hg Hin). by vm_compute in Hg.
    + rewrite He. by vm_compute.
Defined.
