(* ===== verification/NodeRecovery.v ===== *)
(** * Stopping a workload on the node

    What the recovery callback of NodeMain removes, and that nothing of a
    stopped workload is left of the table the node runs. *)
From stdpp Require Import prelude gmap strings list sorting pretty.
From Stdlib Require Import ZArith Lia.
From Stdlib Require String Ascii.
From S2P Require Import Prelude Text BpfMaps BpfSched BpfLoader TtShm TimerMaster SchedStat Messages NodeClient Faults NodeMain NodeTable.
Local Open Scope Z_scope.

(** ** Names of workloads *)

Lemma names_hash_decimal h h' : names_hash (pretty h) h' = Some (bool_decide (h' = h)).
Proof.
  unfold names_hash. destruct (decide (h' = h)) as [->|Hne].
  - by rewrite !bool_decide_eq_true_2 by done.
  - rewrite (bool_decide_eq_false_2 (h' = h)) by done. rewrite bool_decide_eq_false_2 by (by intros ?%(inj pretty)).
    replace (starts_with _ _) with false; [done|]. symmetry. 
    destruct (pretty_codes h) as [Hc _]. destruct (chars (pretty h)) as [|c1 [|c2 cs]]; [done|cbn; by destruct (bool_decide _)|].
    cbn [chars String.list_ascii_of_string starts_with]. apply andb_false_iff. right. apply andb_false_iff. left.
    apply bool_decide_eq_false_2. intros <-. apply Forall_cons in Hc as [_ [Hx _]%Forall_cons]. vm_compute in Hx.
    by destruct Hx as [_ []].
Qed.

Lemma resolve_decimal h ids name :
  NoDup ids.*1 -> (h, name) ∈ ids -> resolve (pretty h) ids = Some name.
Proof.
  induction ids as [|[h' name'] ids IH]; intros Hn Hin; [by apply not_elem_of_nil in Hin|].
  cbn [resolve]. rewrite names_hash_decimal. cbn [fmap list_fmap fst] in Hn. apply NoDup_cons in Hn as [Hh Hn].
  apply elem_of_cons in Hin as [[= <- <-]|Hin]; [by rewrite bool_decide_eq_true_2 by done|].
  rewrite bool_decide_eq_false_2; [auto|]. intros ->. apply Hh. by apply (list_elem_of_fmap_2 fst) in Hin.
Qed.

(** The signal names the workload [w] of the node: by its name, or, when that
    is not tracked, by its hash in decimal. *)
Definition names_workload (n : node) (id w : string) : Prop :=
  is_Some (workload_to_pids (tracking n) !! w) /\ id = w \/
  workload_to_pids (tracking n) !! id = None /\
  exists h, id = pretty h /\ workload_hash_to_id (tracking n) !! h = Some w.

Lemma recovery_names n id w :
  names_workload n id w -> recovery_callback (Recovery id ACTION_STOP) n = Some (evict_workload w n).
Proof.
  unfold recovery_callback. cbn [action r_workload]. rewrite decide_True by done.
  intros [[[pids Hp] ->]|[Hid (h & -> & Hh)]]; [by rewrite Hp|]. rewrite Hid.
  rewrite (resolve_decimal h _ w); [done|apply NoDup_ascending_keys|by apply elem_of_ascending].
Qed.

(** ** Eviction *)

Definition pids_of (n : node) (w : string) : list Z := default [] (workload_to_pids (tracking n) !! w).
Definition slots_of_workload (n : node) (w : string) : list TtSlotKey := default [] (workload_to_slots (tracking n) !! w).
Definition cbs_of (n : node) (w : string) : list Z := default [] (workload_to_cbs_keys (tracking n) !! w).

Lemma evict_workload_spec n l st w :
  bpf_loader n = Loader l (Some st) ->
  evict_workload w n =
  let t := tracking n in
  Node (Loader l (Some (with_maps st (drop_keys (tt_table_map st) (slots_of_workload n w))
                         (drop_keys (cbs_map st) (cbs_of n w)) (drop_keys (task_meta_map st) (u32 <$> pids_of n w)))))
    (match workload_to_hash t !! w with Some h => remove_workload h (timer_master n) | None => timer_master n end)
    (fault_monitor n) (node_client n) (schedstat n) (gpdata_pid_to_task n)
    (Tracked (delete w (workload_to_pids t)) (delete w (workload_to_slots t)) (delete w (workload_to_hash t))
       (delete w (workload_to_cbs_keys t)) (workload_hash_to_id t))
    (effects n ++ (SetAffinity <$> pids_of n w)).
Proof.
  intros Hl. unfold evict_workload. cbv zeta. rewrite (f_equal (evict_pids _) (changed_refl n l st Hl)).
  rewrite evict_pids_changed, delete_slots_changed, stop_timer_changed, delete_cbs_changed. done.
Qed.

Lemma remove_workload_table h m :
  slot_table (remove_workload h m) = filter (fun e => TimerMaster.workload_id_hash e <> h) (slot_table m).
Proof.
  unfold remove_workload. destruct (Nat.ltb_spec (length (filter (fun e => TimerMaster.workload_id_hash e <> h) (slot_table m)))
    (length (slot_table m))) as [Hlt|Hge].
  - by destruct (restart_fields (Master (filter (fun e => TimerMaster.workload_id_hash e <> h) (slot_table m))
      (hyperperiod_ns m) (TimerMaster.epoch_ns m) (running m) (table_pending m) (cpu_threads m) (task_hash_to_shm_idx m)
      (ttsched_shm m))) as (-> & _).
  - revert Hge. generalize (slot_table m). intros es. induction es as [|e es IH]; [done|].
    intros Hge. destruct (decide (TimerMaster.workload_id_hash e <> h)) as [Hd|Hd].
    + rewrite filter_cons_True in Hge |- * by done. cbn in Hge. f_equal. apply IH. lia.
    + rewrite filter_cons_False in Hge by done. cbn in Hge.
      pose proof (length_filter (fun e => TimerMaster.workload_id_hash e <> h) es). lia.
Qed.

(** ** Membership in what is tracked *)

Section Tracked.
Context (pid_of : string -> Z).

Lemma tracked_slot its i s w :
  slots_of its !! i = Some s ->
  slot_key i s ∈ (filter (fun ka => ka.1 = w) (slot_keys pid_of its)).*2 <->
  m_workload s = w /\ runs pid_of (m_task s) = true.
Proof.
  intros Hi. unfold slot_keys. rewrite list_elem_of_fmap. split.
  - intros ([w' k] & Hk & [Hw Hin]%list_elem_of_filter). cbn in Hk, Hw. subst w' k.
    apply list_elem_of_omap in Hin as (o & Ho & Hid). cbn in Hid. subst o.
    apply elem_of_lookup_imap in Ho as (j & s' & E & Hj). destruct (runs pid_of (m_task s')) eqn:Er; [|done].
    injection E as -> _ Hij. assert (j = i) as -> by lia. rewrite Hi in Hj. by injection Hj as <-.
  - intros [Hw Hr]. exists (w, slot_key i s). split; [done|]. apply list_elem_of_filter. split; [done|].
    apply list_elem_of_omap. eexists. split; [|reflexivity]. apply elem_of_lookup_imap. exists i, s. split; [|done].
    by rewrite Hr, Hw.
Qed.

Lemma tracked_item {A} (f : item -> option (string * A)) its it w x :
  it ∈ its -> f it = Some (w, x) -> x ∈ (filter (fun ka => ka.1 = w) (omap f its)).*2.
Proof.
  intros Hin Hf. apply list_elem_of_fmap. exists (w, x). split; [done|]. apply list_elem_of_filter. split; [done|].
  apply list_elem_of_omap. eauto.
Qed.

(** The hash kept for a workload is the one its items agree on. *)
Lemma tracked_hash its w h it :
  it ∈ its -> item_hash pid_of it = Some (w, h) ->
  (forall it' h', it' ∈ its -> item_hash pid_of it' = Some (w, h') -> h' = h) ->
  workload_to_hash (tracked_after pid_of its) !! w = Some h.
Proof.
  intros Hin Hf Hall. cbn [tracked_after workload_to_hash]. rewrite writes_lookup.
  assert (Hm : (w, h) ∈ filter (fun kv : string * Z => kv.1 = w) (omap (item_hash pid_of) its)).
  { apply list_elem_of_filter. split; [done|]. apply list_elem_of_omap. eauto. }
  destruct (last _) as [kv|] eqn:E; [|apply last_None in E; rewrite E in Hm; by apply not_elem_of_nil in Hm].
  apply last_Some in E as [l E]. f_equal.
  assert (Hkv : kv ∈ filter (fun kv : string * Z => kv.1 = w) (omap (item_hash pid_of) its))
    by (rewrite E; apply elem_of_app; right; by left).
  apply list_elem_of_filter in Hkv as [Hw (it' & Hit' & Hi)%list_elem_of_omap]. destruct kv as [w' h']. cbn in Hw. subst w'.
  eauto.
Qed.
End Tracked.

(** ** Properties *)

(** A stop signal for a workload the node tracks, by its name or its hash
    in decimal: the callback returns; the records, slots and CBS states kept
    for the workload leave the BPF maps and nothing else does; the timer
    drops the slots with the workload's hash; its processes may run on all
    CPUs again; the node no longer tracks it, and tracks the others as
    before. *)
Theorem recovery_evicts_workload n l st id w :
  bpf_loader n = Loader l (Some st) -> names_workload n id w ->
  exists n' st', recovery_callback (Recovery id ACTION_STOP) n = Some n' /\ bpf_loader n' = Loader l (Some st') /\
    (forall pid, task_meta_map st' !! pid = if decide (pid ∈ u32 <$> pids_of n w) then None else task_meta_map st !! pid) /\
    (forall k, tt_table_map st' !! k = if decide (k ∈ slots_of_workload n w) then None else tt_table_map st !! k) /\
    (forall k, cbs_map st' !! k = if decide (k ∈ cbs_of n w) then None else cbs_map st !! k) /\
    (forall h, workload_to_hash (tracking n) !! w = Some h ->
       slot_table (timer_master n') = filter (fun e => TimerMaster.workload_id_hash e <> h) (slot_table (timer_master n))) /\
    effects n' = effects n ++ (SetAffinity <$> pids_of n w) /\ node_client n' = node_client n /\
    workload_to_pids (tracking n') = delete w (workload_to_pids (tracking n)) /\
    workload_to_slots (tracking n') = delete w (workload_to_slots (tracking n)) /\
    workload_to_cbs_keys (tracking n') = delete w (workload_to_cbs_keys (tracking n)).
Proof.
  intros Hl Hn. rewrite (recovery_names n id w Hn), (evict_workload_spec n l st w Hl). cbv zeta.
  do 2 eexists. split; [reflexivity|]. split; [reflexivity|].
  cbn [task_meta_map tt_table_map cbs_map with_maps timer_master effects node_client tracking workload_to_pids
       workload_to_slots workload_to_cbs_keys].
  split_and!; try done.
  - intros pid. apply drop_keys_lookup.
  - intros k. apply drop_keys_lookup.
  - intros k. apply drop_keys_lookup.
  - intros h ->. apply remove_workload_table.
Qed.

(** The slots a stop of the workload [w] takes away: those of its tasks that
    run. *)
Definition of_workload (pid_of : string -> Z) (w : string) (s : TtSlot) : bool :=
  bool_decide (m_workload s = w) && runs pid_of (m_task s).

(** C22. A table, then a stop signal for one of its workloads.  Of the
    workload's running tasks no slot, record or CBS state is left, and the
    timer keeps exactly the slots of the other workloads; the slots of the
    other workloads stay as the table installed them. *)
Theorem stopped_workload_is_gone `{!StdSort, !StdSortLaws} pid_of proc now tracing t n l st w h it pid :
  ready_for pid_of proc now t n l st ->
  it ∈ table_items t -> item_pid pid_of it = Some (w, pid) ->
  (forall it' w' h', it' ∈ table_items t -> item_hash pid_of it' = Some (w', h') -> w' = w <-> h' = h) ->
  exists n1 n2 st2, table_callback proc now tracing t n = Some n1 /\
    recovery_callback (Recovery w ACTION_STOP) n1 = Some n2 /\ bpf_loader n2 = Loader l (Some st2) /\
    (forall i s, table_slots t !! i = Some s ->
       tt_table_map st2 !! slot_key i s =
         if of_workload pid_of w s then None else Some (slot_bpf s)) /\
    (forall it' pid', it' ∈ table_items t -> item_pid pid_of it' = Some (w, pid') -> task_meta_map st2 !! pid' = None) /\
    (forall it' k, it' ∈ table_items t -> item_cbs_key pid_of it' = Some (w, k) -> cbs_map st2 !! k = None) /\
    slot_table (timer_master n2) = filter (fun e => TimerMaster.workload_id_hash e <> h) (slot_table (timer_master n1)).
Proof.
  intros Hr Hit Hpid Hhash.
  destruct (table_callback_result pid_of proc now tracing t n l st Hr) as (n1 & ws & E & Hl & _ & _ & Ht & _).
  set (its := table_items t) in *.
  assert (Hp : names_workload n1 w w).
  { left. split; [|done]. rewrite Ht. cbn [tracked_after workload_to_pids].
    pose proof (tracked_item (item_pid pid_of) its it w pid Hit Hpid) as Hin. rewrite <- grouped_lookup in Hin.
    destruct (grouped _ !! w); [by eexists|by apply not_elem_of_nil in Hin]. }
  exists n1. rewrite (recovery_names n1 w w Hp), (evict_workload_spec n1 l _ w Hl). cbv zeta.
  do 2 eexists. split; [exact E|]. split; [reflexivity|]. split; [reflexivity|].
  cbn [task_meta_map tt_table_map cbs_map with_maps timer_master]. unfold slots_of_workload, pids_of, cbs_of.
  rewrite Ht. cbn [tracked_after workload_to_pids workload_to_slots workload_to_cbs_keys]. rewrite !grouped_lookup.
  split_and!.
  - intros i s Hi. rewrite <- slots_of_table in Hi. rewrite drop_keys_lookup.
    pose proof (tracked_slot pid_of its i s w Hi) as Hiff.
    assert (Hof : of_workload pid_of w s = true <-> m_workload s = w /\ runs pid_of (m_task s) = true)
      by (unfold of_workload; by rewrite andb_true_iff, bool_decide_eq_true).
    clear - Hi Hiff Hof. destruct (of_workload _ _ _), (decide (slot_key i s ∈ _)) as [Hin|Hin];
      [reflexivity|by destruct Hin; tauto|assert (false = true) by tauto; done|].
    cbn [bpf_after tt_table_map]. apply tt_after_lookup. left. eauto.
  - intros it' pid' Hin Hi. rewrite drop_keys_lookup. rewrite decide_True; [done|].
    pose proof (tracked_item (item_pid pid_of) its it' w pid' Hin Hi) as Hm. apply list_elem_of_fmap. exists pid'. split; [|done].
    assert (Hrange : 0 <= pid' <= INT_MAX).
    { destruct Hr as [_ _ Hproc].
      assert (Htask : exists task, item_task it' = Some task /\ runs pid_of task = true /\ pid' = pid_of task).
      { destruct it' as [j s|id|j c b]; cbn [item_pid] in Hi; [|done|].
        - destruct (runs pid_of (m_task s)) eqn:Er; [|done]. injection Hi as _ <-. eauto.
        - destruct (runs pid_of (b_task b)) eqn:Er; [|done]. injection Hi as _ <-. eauto. }
      destruct Htask as (task & Htask & Hrun & ->).
      assert (Hf : find_pid_by_comm task (proc 0%nat) = Some (pid_of task)).
      { apply Hproc. unfold tasks_of. apply list_elem_of_omap. eauto. }
      unfold runs in Hrun. apply Z.leb_le in Hrun. destruct (find_pid_range _ _ _ Hf); [lia|done]. }
    symmetry. apply wrap_small. unfold uword, INT_MAX in *. lia.
  - intros it' k Hin Hi. rewrite drop_keys_lookup, decide_True; [done|]. by eapply (tracked_item (item_cbs_key pid_of)).
  - assert (Hh : exists h0, item_hash pid_of it = Some (w, h0)).
    { destruct it as [j s|id|j c b]; cbn [item_pid item_hash] in Hpid |- *; [|done|];
        destruct (runs pid_of _); [injection Hpid as -> _; eauto|done|injection Hpid as -> _; eauto|done]. }
    destruct Hh as [h0 Hh]. assert (h0 = h) as -> by (by apply (Hhash it w h0 Hit Hh)).
    rewrite (tracked_hash pid_of its w h it Hit Hh).
    + apply remove_workload_table.
    + intros it' h' Hin Hi. by apply (Hhash it' w h' Hin Hi).
Qed.

(** *** Examples, on the table of NodeTable *)

Lemma recovery_evicts_workload_witness :
  exists n' st', recovery_callback (Recovery "99" ACTION_STOP)
      (Node (Loader 0 (Some example_state)) (TimerMaster None) FaultMonitor.FaultMonitor (NodeClient "o" "node" None)
         (StatMaps ∅ ∅ ∅) ∅ (Tracked ∅ {[ "old"%string := [old_key] ]} ∅ ∅ {[ 7 := "x"%string; 99 := "old"%string ]}) []) = Some n' /\
    bpf_loader n' = Loader 0 (Some st') /\ tt_table_map st' !! old_key = None.
Proof.
  edestruct (recovery_evicts_workload (Node (Loader 0 (Some example_state)) (TimerMaster None) FaultMonitor.FaultMonitor
      (NodeClient "o" "node" None) (StatMaps ∅ ∅ ∅) ∅
      (Tracked ∅ {[ "old"%string := [old_key] ]} ∅ ∅ {[ 7 := "x"%string; 99 := "old"%string ]}) [])
      0 example_state "99" "old") as (n' & st' & E & Hl & _ & Htt & _).
  - reflexivity.
  - right. split; [reflexivity|]. exists 99. split; reflexivity.
  - exists n', st'. split; [exact E|]. split; [exact Hl|]. rewrite Htt. by vm_compute.
Defined.

Lemma stopped_workload_is_gone_witness :
  exists n1 n2 st2, example_run = Some n1 /\ recovery_callback (Recovery "w" ACTION_STOP) n1 = Some n2 /\
    bpf_loader n2 = Loader 0 (Some st2) /\ task_meta_map st2 !! 41 = None /\
    tt_table_map st2 !! {| key_cpu := 2; key_slot_idx := 0 |} = None /\
    tt_table_map st2 !! {| key_cpu := 2; key_slot_idx := 1 |} = Some (slot_bpf (example_slot "ghost" 0 2 8)).
Proof.
  set (cam := TtItem 0 (example_slot "cam" 300 2 7)).
  assert (Hin : cam ∈ table_items example_table) by by left.
  destruct (@stopped_workload_is_gone stable_sort stable_sort_laws example_pid (fun _ => Some example_proc) (fun _ => 4000)
    false example_table example_node 0 example_state "w" 500 cam 41 example_ready Hin)
    as (n1 & n2 & st2 & E & Er & Hl & Htt & Hm & _).
  - by vm_compute.
  - intros it' w' h' Hit Hh. vm_compute in Hit.
    repeat (apply elem_of_cons in Hit as [->|Hit]; [vm_compute in Hh; by (discriminate Hh || injection Hh as <- <-)|]).
    by apply not_elem_of_nil in Hit.
  - exists n1, n2, st2. split; [exact E|]. split; [exact Er|]. split; [exact Hl|]. clear E Er Hl. split_and!.
    + apply (Hm cam 41 Hin). by vm_compute.
    + pose proof (Htt 0%nat (example_slot "cam" 300 2 7) eq_refl) as Hc.
      etrans; [exact Hc|]. by vm_compute.
    + pose proof (Htt 1%nat (example_slot "ghost" 0 2 8) eq_refl) as Hc.
      etrans; [exact Hc|]. by vm_compute.
Defined.

(** ** Faults *)

(** A fault event only counts and reports: the BPF maps, the timer and the
    tracking stay, as the comment on the callback demands. *)
Lemma faults_never_evict e n :
  let n' := handle_ring_event e n in
  bpf_loader n' = bpf_loader n /\ timer_master n' = timer_master n /\ tracking n' = tracking n /\ effects n' = effects n.
Proof. cbv zeta. unfold handle_ring_event. destruct (FaultMonitor.ring_buf_callback _ _) as [m [[e' c]|]]; done. Qed.

(** A report made while the stream is down is lost, and the monitor takes the
    workload for reported. *)
Definition missing : FaultEvent := FaultMonitor.miss 500 7.
Definition monitored (connected : bool) : node :=
  Node BpfLoader (TimerMaster None) (FaultMonitor.started {[ (500, 7) := 1 ]})
    (Client "o" "node" true connected true []) (StatMaps ∅ ∅ ∅) ∅ (Tracked ∅ ∅ ∅ ∅ {[ 500 := "w"%string ]}) [].
Definition two_misses (n : node) : node := handle_ring_event missing (handle_ring_event missing n).

Lemma lost_fault_is_not_repeated :
  written (node_client (two_misses (monitored true))) = [Event "node" (fault (Fault "w" "" "" DMISS 0 2 500 7 0))] /\
  written (node_client (two_misses (monitored false))) = [] /\
  written (node_client (handle_ring_event missing (on_client open_stream (two_misses (monitored false))))) = [].
Proof. by vm_compute. Qed.

(** ** What stays behind *)

Definition empty_table : HierarchicalScheduleTable := Table "t2" "node" 1000 0 [].
Definition without_log : HierarchicalScheduleTable :=
  Table "t2" "node" 1000 0
    [Partition "p" (Some (CpuSet [2; 3] true)) [Layer 0 TIME_TRIGGERED [example_slot "cam" 300 2 7] []]].
Definition then_table (t : HierarchicalScheduleTable) (n : option node) : option node :=
  n ← n; @table_callback (fun _ => Some example_proc) (fun _ => 5000) false stable_sort t n.
Definition maps_of {A} (f : bpf_state -> A) (n : option node) : option A := n ← n; f <$> skel_ (bpf_loader n).

(** The slot of a task without a process is installed but not tracked: no
    later table removes it. *)
Lemma unfound_slot_stays :
  maps_of (fun st => tt_table_map st !! {| key_cpu := 2; key_slot_idx := 1 |}) (then_table empty_table example_run)
  = Some (Some (slot_bpf (example_slot "ghost" 0 2 8))).
Proof. by vm_compute. Qed.

(** A task that a table no longer has keeps its record when its workload is
    still there. *)
Lemma dropped_task_keeps_record :
  maps_of (fun st => task_meta_map st !! 77) (then_table without_log example_run)
  = Some (Some (entry_meta 0 2 (CbsConfig_ "w" "log" 50 1000 1000 0 500 9))).
Proof. by vm_compute. Qed.

(** An id that is a hexadecimal number of more than 64 bits throws, in the
    stream thread, once any table was applied. *)
Lemma long_hex_id_throws :
  (n ← example_run; recovery_callback (Recovery "0x10000000000000000" ACTION_STOP) n) = None /\ is_Some example_run.
Proof. split; [by vm_compute|]. vm_compute. by eexists. Qed.
