(* ===== verification/NodeDaemon.v ===== *)
(** * timpani-n: start-up, tracing and shutdown of the node daemon

    The options of main.cpp, the tracing side (schedstat_monitor.cpp with the
    callback main.cpp gives it), the scan of task_registry.cpp, and [main]
    itself as the sequence of its calls on the components.  What [getopt],
    libbpf and the file system deliver are arguments. *)
From stdpp Require Import prelude gmap strings list pretty.
From Stdlib Require Import ZArith Lia.
From Stdlib Require String Ascii.
From S2P Require Import Prelude Text BpfMaps BpfSched BpfLoader TtShm TimerMaster SchedStat GpdataWriter Messages NodeClient Faults NodeMain NodeTable.
Local Open Scope Z_scope.

(** ** Options *)

Record RuntimeOptions := Options {
  orchestrator_host : string; orchestrator_port : Z; node_id_override : string;
  enable_plot : bool; show_help : bool; show_version : bool }.
Definition default_options : RuntimeOptions := Options "127.0.0.1" 50060 "" false false false.

(** [strtol(text, &end, 10)]: the value, saturated at the ends of [long], and
    the text from [end]; [None] without digits, where [end == text]. *)
Fixpoint skip_digits (t : text) : text :=
  match t with [] => [] | c :: t' => match digit c with Some _ => skip_digits t' | None => t end end.
Definition strtol (t : text) : option (Z * text) :=
  let '(sign, d) := sign_of (skip_spaces t) in
  match d with
  | [] => None
  | c :: _ =>
      match digit c with
      | None => None
      | Some _ => Some (Z.max (- 2 ^ 63) (Z.min (2 ^ 63 - 1) (sign * digits 10 digit 0 d)), skip_digits d)
      end
  end.

(** [None]: the port is refused and left alone. *)
Definition parse_port (t : option text) : option Z :=
  match t with
  | None | Some [] => None
  | Some t =>
      match strtol t with
      | Some (parsed, []) => if (parsed <? 1) || (65535 <? parsed) then None else Some parsed
      | _ => None
      end
  end.

(** What [getopt] delivers for "hVn:p:l:P:gs", one after the other; the
    operands come after the options. *)
Inductive opt :=
  | OptHelp | OptVersion | OptNode (arg : option string) | OptPort (arg : option string)
  | OptCompat | OptPlot | OptUnknown.

Definition with_node (s : string) (o : RuntimeOptions) : RuntimeOptions :=
  Options (orchestrator_host o) (orchestrator_port o) s (enable_plot o) (show_help o) (show_version o).
Definition with_port (p : Z) (o : RuntimeOptions) : RuntimeOptions :=
  Options (orchestrator_host o) p (node_id_override o) (enable_plot o) (show_help o) (show_version o).
Definition with_host (h : string) (o : RuntimeOptions) : RuntimeOptions :=
  Options h (orchestrator_port o) (node_id_override o) (enable_plot o) (show_help o) (show_version o).
Definition with_plot (o : RuntimeOptions) : RuntimeOptions :=
  Options (orchestrator_host o) (orchestrator_port o) (node_id_override o) true (show_help o) (show_version o).
Definition with_help (o : RuntimeOptions) : RuntimeOptions :=
  Options (orchestrator_host o) (orchestrator_port o) (node_id_override o) (enable_plot o) true (show_version o).
Definition with_version (o : RuntimeOptions) : RuntimeOptions :=
  Options (orchestrator_host o) (orchestrator_port o) (node_id_override o) (enable_plot o) (show_help o) true.

(** [None] is the result [false]. *)
Fixpoint parse_runtime_options (opts : list opt) (operands : list string) (o : RuntimeOptions) : option RuntimeOptions :=
  match opts with
  | [] =>
      match operands with
      | [] => Some o
      | [h] => Some (with_host h o)
      | _ => None
      end
  | x :: opts =>
      match x with
      | OptHelp => Some (with_help o)
      | OptVersion => Some (with_version o)
      | OptNode arg => parse_runtime_options opts operands (with_node (default ""%string arg) o)
      | OptPort arg =>
          match parse_port (chars <$> arg) with
          | Some p => parse_runtime_options opts operands (with_port p o)
          | None => None
          end
      | OptCompat => parse_runtime_options opts operands o
      | OptPlot => parse_runtime_options opts operands (with_plot o)
      | OptUnknown => None
      end
  end.

Definition resolve_node_id (o : RuntimeOptions) (hostname : option string) : string :=
  if decide (node_id_override o <> ""%string) then node_id_override o
  else match hostname with
       | Some h => if decide (h <> ""%string) then h else "node"%string
       | None => "node"%string
       end.

(** ** SchedstatMonitor *)

(** [skel_] holds the maps of the loaded programs, [filter_fd] tells whether
    the descriptor of the filter is set; the thread runs while [running]. *)
Record stat_monitor := StatMonitor {
  sm_callback : bool; sm_skel : option stat_maps; ring_buffer : bool; filter_fd : bool; sm_running : bool }.
Definition SchedstatMonitor : stat_monitor := StatMonitor false None false false false.

(** The answers of libbpf, in the order asked for. *)
Record stat_libbpf := StatLibbpf { so_open : bool; so_load : bool; so_ring : bool; so_attach : bool; so_fd : bool }.

Definition is_active (m : stat_monitor) : bool := sm_running m && filter_fd m.

(** [traced]: built with CONFIG_TRACE_BPF_EVENT. *)
Definition stat_start (traced has_callback : bool) (k : stat_libbpf) (m : stat_monitor) : stat_monitor * bool :=
  if negb traced then (m, false)
  else if sm_running m then (m, true)
  else
    let m := StatMonitor has_callback (sm_skel m) (ring_buffer m) (filter_fd m) (sm_running m) in
    if negb has_callback then (m, false) else
    let without := StatMonitor true None (ring_buffer m) (filter_fd m) (sm_running m) in
    if negb (so_open k) then (without, false)
    else if negb (so_load k) then (without, false)
    else if negb (so_ring k) then (StatMonitor true None false (filter_fd m) (sm_running m), false)
    else if negb (so_attach k) then (StatMonitor true None false (filter_fd m) (sm_running m), false)
    else if negb (so_fd k) then (StatMonitor true None false false (sm_running m), false)
    else (StatMonitor true (Some stat_init) true true true, true).

(** The thread has ended once [stop] goes on. *)
Definition stat_stop (m : stat_monitor) : stat_monitor := StatMonitor false None false false false.

(** [poll_loop]: the records of each poll until one fails other than by a
    signal. *)
Inductive poll_result := Polled (records : list schedstat_event) | Interrupted | PollFailed.
Fixpoint poll_loop (polls : list poll_result) : list schedstat_event :=
  match polls with
  | Polled rs :: polls => rs ++ poll_loop polls
  | Interrupted :: polls => poll_loop polls
  | PollFailed :: _ => []
  | [] => []
  end.

(** The callback [main] gives it: the writer once it exists, and the names of
    the pids the table callback registered. *)
Definition schedstat_callback (fopen_ok fprintf_ok : bool) (pids : gmap Z string) (w : option writer)
    (event : schedstat_event) : option writer :=
  match w with
  | None => None
  | Some w =>
      let task_name := default ""%string (pids !! ev_pid event) in
      if decide (task_name = ""%string) then Some w else Some (write_event fopen_ok fprintf_ok event task_name w)
  end.

(** ** TaskRegistry *)

(** A thread of a process: its directory's name, and the word its comm file
    starts with.  A cgroup directory: its inode when [stat] works, the pids of
    cgroup.procs when it opens. *)
Record thread_entry := ThreadEntry { tid_name : text; comm_word : option string }.
Record cgroup_entry := CgroupEntry { ce_dir : bool; ce_inode : option Z; ce_procs : option (list Z) }.

Definition register_task (comm : string) (task_id : Z) (expected : gmap string Z) : gmap string Z :=
  <[comm := task_id]> expected.

Definition registry_meta (task_hash cgroup : Z) : TaskMeta :=
  {| BpfMaps.workload_id_hash := 0; BpfMaps.task_id_hash := task_hash; assigned_cpu := 0; slot_duration_us := 0;
     scheduling_type := 0; layer := 0; tt_runnable := 0; activation_ns := 0; cgroup_id := cgroup |}.

Section Scan.
Context (expected : gmap string Z) (threads_of : Z -> option (list thread_entry)).

Definition scan_thread (inode : Z) (l : loader) (t : thread_entry) : option loader :=
  match comm_word t with
  | None => Some l
  | Some comm_name =>
      match expected !! comm_name with
      | None => Some l
      | Some h => tid ← stoi (tid_name t); Some (update_task_meta (u32 tid) (registry_meta h inode) l).1
      end
  end.

Definition scan_process (inode : Z) (l : loader) (pid : Z) : option loader :=
  match threads_of pid with None => Some l | Some ts => fold_opt (scan_thread inode) l ts end.

Definition scan_cgroup (l : loader) (e : cgroup_entry) : option loader :=
  if negb (ce_dir e) then Some l else
  match ce_inode e, ce_procs e with
  | Some inode, Some pids => fold_opt (scan_process inode) l pids
  | _, _ => Some l
  end.

(** [base] is None when /sys/fs/cgroup does not exist; the result is None when
    [stoi] throws. *)
Definition scan_cgroups (base : option (list cgroup_entry)) (l : loader) : option loader :=
  match base with None => Some l | Some es => fold_opt scan_cgroup l es end.
End Scan.

(** ** main *)

(** The build: CONFIG_TRACE_BPF_EVENT, and what the machine reports. *)
Record machine := Machine {
  traced : bool; hostname : option string; hardware_concurrency : Z; uts_release : string;
  cpuset_knob : option text; cgroup_tree : option (list cgroup); loader_libbpf : libbpf; ringbuf_map_fd : Z;
  cgroups : option (list cgroup_entry); threads : Z -> option (list thread_entry);
  clock_samples : list sample; stat_answers : stat_libbpf;
  shm : option timpani_ttsched_shm;
  proc_table : node -> nat -> option (list proc_entry); monotonic_clock : node -> nat -> Z }.

(** What is left when [main] ends: by an exit code, or because an exception
    left the stream thread, which ends the process. *)
Inductive ending := Exit (code : Z) | Terminated.

(** The tracing part of the start-up: the writer and the monitor. *)
Definition start_tracing (m : machine) (o : RuntimeOptions) : option writer * stat_monitor :=
  if traced m && enable_plot o then
    let '(w, ok) := GpdataWriter.start (clock_samples m) (GpdataWriter (resolve_node_id o (hostname m))) in
    if negb ok then (None, SchedstatMonitor) else
    let '(sm, ok) := stat_start (traced m) true (stat_answers m) SchedstatMonitor in
    if negb ok then (None, sm) else (Some w, sm)
  else (None, SchedstatMonitor).

Section Main.
Context `{!StdSort} (m : machine).

Definition node_callbacks (tracing : bool) : callbacks node :=
  Callbacks (Some (fun t n => table_callback (proc_table m n) (monotonic_clock m n) tracing t n)) None
    (Some (fun _ n => Some n)) (Some recovery_callback).

(** The objects of [main] when the client connects, [l] being the loader. *)
Definition started_node (o : RuntimeOptions) (l : loader) (sm : stat_monitor) : node :=
  let endpoint := String.append (orchestrator_host o) (String.append ":" (pretty (orchestrator_port o))) in
  Node l (TimerMaster.start (TimerMaster (shm m)))
    (FaultMonitor.set_callback (FaultMonitor.set_ringbuf_fd (get_fault_ringbuf_fd (ringbuf_map_fd m) l)
       FaultMonitor.FaultMonitor))
    (connect (NodeClient endpoint (node_id_override o) (hostname m)))
    (default stat_init (sm_skel sm)) ∅ nothing_tracked [].

(** The stops at the end, in the order of the code. *)
Definition shut_down (n : node) : node :=
  on_client disconnect (set_master (TimerMaster.stop (timer_master n)) n).

(** [sessions] is what the stream delivers until the signal arrives. *)
Definition main (opts : list opt) (operands : list string) (sessions : list session) : ending * option node :=
  match parse_runtime_options opts operands default_options with
  | None => (Exit 2, None)
  | Some o =>
      if show_help o then (Exit 0, None)
      else if show_version o then (Exit 0, None)
      else
        match load_programs (cpuset_knob m) (cgroup_tree m) (loader_libbpf m) BpfLoader with
        | None | Some (_, false) => (Exit 1, None)
        | Some (l, true) =>
            match scan_cgroups ∅ (threads m) (cgroups m) l with
            | None => (Exit 1, None)
            | Some l =>
                let '(w, sm) := start_tracing m o in
                match reconnect_loop (node_callbacks (enable_plot o && is_active sm)) (hardware_concurrency m) (uts_release m)
                        sessions (started_node o l sm) with
                | None => (Terminated, None)
                | Some (n, _) => (Exit 0, Some (shut_down n))
                end
            end
        end
  end.
End Main.

(** ** Properties *)

(** *** Options *)

Lemma skip_digits_pretty t : all_digits t -> skip_digits t = [].
Proof. induction 1 as [|c t [d Hd] _ IH]; [done|]. cbn. by rewrite Hd. Qed.

Lemma parse_port_range t p : parse_port t = Some p -> 1 <= p <= 65535.
Proof.
  unfold parse_port. destruct t as [[|c t]|]; [done| |done]. destruct (strtol _) as [[v [|]]|]; [|done..].
  destruct (_ || _) eqn:E; [done|]. apply orb_false_iff in E as [E1 E2]. apply Z.ltb_ge in E1, E2. intros [= <-]. lia.
Qed.

(** A port in decimal is read back. *)
Lemma parse_port_decimal p : 1 <= p <= 65535 -> parse_port (Some (chars (pretty p))) = Some p.
Proof.
  intros Hp. unfold parse_port, strtol. replace (pretty p) with (pretty (Z.to_N p)) by (destruct p; [lia|done|lia]).
  destruct (pretty_N_text (Z.to_N p)) as (Hd & Hne & Hv). destruct (chars (pretty (Z.to_N p))) as [|c t]; [done|].
  pose proof Hd as [[d Hc] _]%Forall_cons. pose proof (digit_code _ _ Hc). cbn [skip_spaces]. unfold is_space.
  rewrite (proj2 (Z.eqb_neq (code c) 32)), (proj2 (Z.leb_gt (code c) 13)), andb_false_r by lia. cbn [orb sign_of].
  rewrite (proj2 (Z.eqb_neq (code c) 45)), (proj2 (Z.eqb_neq (code c) 43)), Hc, Hv, skip_digits_pretty by first [exact Hd | lia].
  rewrite Z.mul_1_l, Z.min_r, Z.max_r, Z2N.id by (pows; lia).
  rewrite (proj2 (Z.ltb_ge p 1)), (proj2 (Z.ltb_ge 65535 p)) by lia. done.
Qed.

(** *** The registry *)

(** No code calls [register_task]: the scan of [main] registers nothing. *)
Lemma scan_without_tasks threads_of base l : scan_cgroups ∅ threads_of base l = Some l.
Proof.
  assert (Ht : forall ts inode l, fold_opt (scan_thread ∅ inode) l ts = Some l).
  { intros ts inode. induction ts as [|t ts IH]; intros l0; [done|]. cbn [fold_opt]. unfold scan_thread at 1.
    destruct (comm_word t); [rewrite lookup_empty|]; apply IH. }
  assert (Hp : forall pids inode l, fold_opt (scan_process ∅ threads_of inode) l pids = Some l).
  { intros pids inode. induction pids as [|p pids IH]; intros l0; [done|]. cbn [fold_opt]. unfold scan_process at 1.
    destruct (threads_of p); [rewrite Ht|]; apply IH. }
  destruct base as [es|]; [|done]. cbn [scan_cgroups]. revert l. induction es as [|e es IH]; intros l; [done|].
  cbn [fold_opt]. unfold scan_cgroup at 1. destruct (ce_dir e); cbn [negb]; [|apply IH].
  destruct (ce_inode e), (ce_procs e); rewrite ?Hp; apply IH.
Qed.

(** *** The schedstat monitor *)

(** A start that fails leaves nothing loaded; one that succeeds is active. *)
Lemma stat_start_outcome traced has_callback k :
  let r := stat_start traced has_callback k SchedstatMonitor in
  (r.2 = true -> is_active r.1 = true /\ sm_skel r.1 = Some stat_init) /\
  (r.2 = false -> is_active r.1 = false /\ sm_skel r.1 = None /\ ring_buffer r.1 = false).
Proof. destruct traced, has_callback, k as [[] [] [] [] []]; cbn; split; intros H; discriminate H || auto. Qed.

(** *** The daemon *)

Lemma load_programs_loaded knob root k l :
  load_programs knob root k BpfLoader = Some (l, true) -> exists mask, l = Loader 0 (Some (bpf_load mask)).
Proof.
  unfold load_programs. destruct (detect_isolated_cpu_mask knob root) as [mask|]; [|done]. cbn [mbind option_bind].
  destruct (mask =? 0); [done|]. destruct (open_ok k), (load_ok k), (attach_ok k); try done. intros [= <-]. by exists mask.
Qed.

Lemma client_name addr o h :
  node_id_ (NodeClient addr o h) = if decide (o <> ""%string) then o else
    match h with Some h => if decide (h <> ""%string) then h else "unknown-node"%string | None => "unknown-node"%string end.
Proof. done. Qed.

(** C21. The daemon from its start to its end.  With accepted options and a
    machine on which the scheduler loads, the orchestrator first gets the
    ready event of the node, then for the table it sends the report whether
    every task of it could be set up; the BPF slot table is then exactly the
    table, and each running task has the record of its last item.  At the end
    the timer threads are gone and the exit code is 0. *)
Theorem daemon_serves_table `{!StdSort, !StdSortLaws} m opts operands o l t pid_of later1 later2 :
  parse_runtime_options opts operands default_options = Some o -> show_help o = false -> show_version o = false ->
  load_programs (cpuset_knob m) (cgroup_tree m) (loader_libbpf m) BpfLoader = Some (l, true) ->
  (forall n i w, w ∈ tasks_of (table_items t) -> find_pid_by_comm w (proc_table m n i) = Some (pid_of w)) ->
  (length (table_slots t) <= TT_TABLE_MAP_ENTRIES)%nat -> (length (table_entries t) <= CBS_MAP_ENTRIES)%nat ->
  exists n st id, main m opts operands [Session [full_table t] later1 later2] = (Exit 0, Some n) /\
    bpf_loader n = Loader 0 (Some st) /\
    (forall k b, tt_table_map st !! k = Some b <->
       exists i s, table_slots t !! i = Some s /\ k = slot_key i s /\ b = slot_bpf s) /\
    (forall pid, task_meta_map st !! pid =
       snd <$> last (filter (fun w => w.1 = pid) (meta_writes pid_of (table_items t)))) /\
    written (node_client n) =
      [Event id (ready (Ready (hardware_concurrency m) 4096 (uts_release m) false false));
       Event id (applied (table_id t) (bool_decide (omap (item_error pid_of) (table_items t) = []))
                   (join (omap (item_error pid_of) (table_items t))))] /\
    (node_id_override o <> ""%string -> id = node_id_override o) /\
    running (timer_master n) = false /\ cpu_threads (timer_master n) = [] /\ running_ (node_client n) = false.
Proof.
  intros Ho Hh Hv Hload Hproc Hslots Hentries. unfold main. rewrite Ho, Hh, Hv, Hload, scan_without_tasks.
  destruct (load_programs_loaded _ _ _ _ Hload) as [mask ->].
  destruct (start_tracing m o) as [w sm]. set (n0 := started_node m o _ sm).
  set (n1 := on_client (send_ready (hardware_concurrency m) (uts_release m)) (on_client open_stream n0)).
  set (tracing := enable_plot o && is_active sm).
  destruct (table_callback_result pid_of (proc_table m n1) (monotonic_clock m n1) tracing t n1 0 (bpf_load mask))
    as (n2 & ws & E & Hl & _ & _ & _ & Hnc & _).
  { split; [done| |intros i wt Hw; by apply Hproc].
    apply room_empty; try done; [by rewrite slots_of_table|by rewrite entries_of_table]. }
  set (n3 := on_client (set_connected false) n2).
  destruct (reconnect_one (node_callbacks m tracing) (hardware_concurrency m) (uts_release m)
    (Session [full_table t] later1 later2) n0 n3) as [pauses ->].
  { unfold run_session. cbn [commands fold_opt dispatch]. fold n1. unfold call. cbn [node_callbacks table_callback_].
    by rewrite E. }
  eexists _, _, (node_id_ (node_client n0)). split; [reflexivity|].
  cbn [shut_down on_client node_has_client set_client set_master bpf_loader timer_master node_client].
  unfold n3. cbn [on_client node_has_client set_client bpf_loader node_client timer_master].
  split; [exact Hl|]. cbn [bpf_after tt_table_map task_meta_map]. split_and!.
  - intros k b. rewrite tt_after_lookup, slots_of_table. cbn [cleared with_maps tt_table_map bpf_load].
    rewrite drop_keys_lookup. split; [|by left]. intros [Hk|[_ Hk]]; [done|]. by case_decide.
  - intros pid. rewrite writes_lookup. destruct (last _) as [x|]; [done|].
    cbn [cleared with_maps task_meta_map bpf_load]. rewrite drop_keys_lookup. by case_decide.
  - rewrite Hnc. done.
  - intros Hne. unfold n0, started_node. cbn [node_client connect set_running node_id_].
    change (node_id_ (NodeClient ?a ?b ?c)) with (node_id_ (NodeClient a b c)). rewrite client_name. by rewrite decide_True by done.
  - done.
  - done.
  - done.
Qed.

Definition example_machine : machine :=
  Machine true (Some "host"%string) 8 "6.8" (Some (line_file (chars "2-3"))) None (LibBpf true true true) 12
    (Some [CgroupEntry true (Some 5) (Some [41])]) (fun _ => Some [ThreadEntry (chars "41") (Some "cam"%string)])
    (replicate 20 (reading 100 150 200)) (StatLibbpf true true true true true) None
    (fun _ _ => Some example_proc) (fun _ _ => 4000).
Definition example_opts : list opt := [OptNode (Some "n1"%string); OptPort (Some "50070"%string); OptPlot].

Lemma daemon_serves_table_witness :
  exists n st, @main stable_sort example_machine example_opts ["orch"%string] [Session [full_table example_table] true false]
               = (Exit 0, Some n) /\ bpf_loader n = Loader 0 (Some st) /\
    tt_table_map st !! {| key_cpu := 2; key_slot_idx := 0 |} = Some (slot_bpf (example_slot "cam" 300 2 7)) /\
    written (node_client n) = [Event "n1" (ready (Ready 8 4096 "6.8" false false));
                               Event "n1" (applied "t1" false "TT task not found: ghost")].
Proof.
  destruct (@daemon_serves_table stable_sort stable_sort_laws example_machine example_opts ["orch"%string]
    (Options "orch" 50070 "n1" true false false) (Loader 0 (Some (bpf_load 12))) example_table example_pid true false)
    as (n & st & id & E & Hl & Htt & _ & Hw & Hid & _).
  - by vm_compute.
  - done.
  - done.
  - by vm_compute.
  - intros n i w Hw. exact (rf_processes _ _ _ _ _ _ _ example_ready i w Hw).
  - apply Nat.leb_le. by vm_compute.
  - apply Nat.leb_le. by vm_compute.
  - exists n, st. split; [exact E|]. split; [exact Hl|]. clear E Hl. split.
    + apply Htt. exists 0%nat. eexists. split; [reflexivity|]. split; reflexivity.
    + rewrite Hw, Hid by done. by vm_compute.
Defined.
