(* ===== verification/NodeSystem.v ===== *)
(** * The node as a system: kernel, daemon and timer threads together

    A state is the daemon's with the BPF program it loaded.  A step is a
    callback or map update of the kernel side (BpfSched), a command the
    stream delivers, an event of the ring buffer, or an action of a timer
    thread; the order is arbitrary.  Whatever the order, every value in the
    maps and the timer keeps the type its C structure gives it, and no map
    outgrows its capacity. *)
From stdpp Require Import prelude gmap strings list sorting.
From Stdlib Require Import ZArith Lia.
From Stdlib Require String Ascii.
From S2P Require Import Prelude Text BpfMaps BpfSched BpfLoader TtShm TimerMaster SchedStat Messages NodeClient Faults NodeMain NodeTable NodeRecovery.
Local Open Scope Z_scope.

(** ** Steps *)

(** An action of a timer thread, carried out on the loader or the segment. *)
Definition do_action (a : TimerMaster.action) (n : node) : node :=
  match a with
  | SleepUntil _ => n
  | UpdateCurrentSlot c idx => (bpf (update_current_slot c idx) n).1
  | UpdateNextTtStart c t => (bpf (update_next_tt_start c t) n).1
  | WakeTask h => let '(m, ws) := TimerMaster.wake_task h (timer_master n) in emit (Wakes ws) (set_master m n)
  end.

(** A callback of the loaded program. *)
Definition run_kernel `{ScxConsts} (e : kenv) (ev : BpfSched.event) (n : node) : node :=
  match skel_ (bpf_loader n) with
  | Some st => set_loader (Loader (active_map_idx_ (bpf_loader n)) (Some (kexec e ev st).1)) n
  | None => n
  end.

Inductive node_event :=
  | Kernel (e : kenv) (ev : BpfSched.event)
  | Command (c : ControlCommand) (proc : nat -> option (list proc_entry)) (now : nat -> Z) (tracing : bool)
  | Ring (f : FaultEvent)
  | Timer (a : TimerMaster.action).

Definition command_callbacks `{!StdSort} (proc : nat -> option (list proc_entry)) (now : nat -> Z) (tracing : bool)
  : callbacks node :=
  Callbacks (Some (table_callback proc now tracing)) None (Some (fun _ n => Some n)) (Some recovery_callback).

Definition node_step `{!ScxConsts, !StdSort} (ev : node_event) (n : node) : option node :=
  match ev with
  | Kernel e ev => Some (run_kernel e ev n)
  | Command c proc now tracing => NodeClient.dispatch (command_callbacks proc now tracing) n c
  | Ring f => Some (handle_ring_event f n)
  | Timer a => Some (do_action a n)
  end.

(** Reachability, by events that [ok] allows in the state they meet. *)
Inductive reaches `{!ScxConsts, !StdSort} (ok : node -> node_event -> Prop) : node -> node -> Prop :=
  | reaches_refl n : reaches ok n n
  | reaches_step n ev n1 n2 : ok n ev -> node_step ev n = Some n1 -> reaches ok n1 n2 -> reaches ok n n2.

(** Events one after the other. *)
Definition node_run `{!ScxConsts, !StdSort} (evs : list node_event) (n : node) : option node :=
  fold_opt (fun n ev => node_step ev n) n evs.

Lemma node_run_reaches `{!ScxConsts, !StdSort} (ok : node -> node_event -> Prop) evs n n' :
  (forall n ev, ev ∈ evs -> ok n ev) -> node_run evs n = Some n' -> reaches ok n n'.
Proof.
  revert n. induction evs as [|ev evs IH]; intros n Hok; cbn [node_run fold_opt]; [intros [= <-]; constructor|].
  destruct (node_step ev n) as [n1|] eqn:E; [|done]. intros Hr. econstructor; [apply Hok; by left|exact E|].
  apply IH; [|exact Hr]. intros n0 ev0 Hin. apply Hok. by right.
Qed.

(** ** Types *)

(** The structures of maps.h. *)
Definition slot_typed (b : TtSlotBpf) : Prop :=
  uword 64 (tts_workload_id_hash b) /\ uword 64 (tts_task_id_hash b) /\ uword 32 (tts_offset_us b) /\
  uword 32 (tts_duration_us b) /\ uword 32 (tts_deadline_us b) /\ uword 32 (tts_cpu b).
Definition key_typed (k : TtSlotKey) : Prop := uword 32 (key_cpu k) /\ uword 32 (key_slot_idx k).
Definition meta_typed (m : TaskMeta) : Prop :=
  uword 64 (BpfMaps.workload_id_hash m) /\ uword 64 (BpfMaps.task_id_hash m) /\ uword 32 (assigned_cpu m) /\
  uword 32 (slot_duration_us m) /\ uword 8 (scheduling_type m) /\ uword 8 (layer m) /\ uword 8 (tt_runnable m) /\
  uword 64 (activation_ns m) /\ uword 64 (cgroup_id m).

(** The maps of the program, with their capacities. *)
Record bpf_typed (st : bpf_state) : Prop := {
  bt_mask : uword 64 (isolated_cpu_mask st);
  bt_tt : map_Forall (fun k b => key_typed k /\ slot_typed b) (tt_table_map st);
  bt_tt_size : (size (tt_table_map st) <= TT_TABLE_MAP_ENTRIES)%nat;
  bt_cbs : servers_ok st;
  bt_cbs_size : (size (cbs_map st) <= CBS_MAP_ENTRIES)%nat;
  bt_meta : map_Forall (fun pid m => uword 32 pid /\ meta_typed m) (task_meta_map st);
  bt_meta_size : (size (task_meta_map st) <= TASK_META_MAP_ENTRIES)%nat;
  bt_current : Forall (uword 32) (current_slot_map st) /\ length (current_slot_map st) = MAX_CPUS;
  bt_until : Forall (uword 64) (tt_active_until_map st) /\ length (tt_active_until_map st) = MAX_CPUS;
  bt_next : Forall (uword 64) (next_tt_start_map st) /\ length (next_tt_start_map st) = MAX_CPUS;
  bt_counts : Forall (uword 32) (tt_runnable_count_map st) /\ length (tt_runnable_count_map st) = MAX_CPUS;
}.

Definition loader_typed (l : loader) : Prop := match skel_ l with Some st => bpf_typed st | None => True end.

Definition entry_typed (e : SlotEntry) : Prop :=
  uword 32 (cpu e) /\ uword 32 (slot_idx e) /\ uword 64 (offset_ns e) /\ uword 64 (duration_ns e) /\
  uword 64 (TimerMaster.task_id_hash e) /\ uword 64 (TimerMaster.workload_id_hash e).

Record node_typed (n : node) : Prop := {
  nt_loader : loader_typed (bpf_loader n);
  nt_slots : Forall entry_typed (slot_table (timer_master n));
}.

(** What comes from outside: protobuf fields, clocks, arguments of the kernel. *)
Definition slot_message_typed (s : TtSlot) : Prop :=
  uword 32 (m_offset s) /\ uword 32 (m_duration s) /\ uword 32 (m_deadline s) /\ uword 32 (m_cpu s) /\
  uword 64 (m_workload_hash s) /\ uword 64 (m_task_hash s).
Definition entry_message_typed (b : CbsConfig) : Prop :=
  uword 32 (b_budget b) /\ uword 32 (b_period b) /\ uword 32 (b_deadline b) /\
  uword 64 (b_workload_hash b) /\ uword 64 (b_task_hash b).
Definition partition_typed (p : PartitionConfig) : Prop :=
  Forall (uword 32) (default [] (cpus <$> cpuset p)) /\
  Forall (fun l => Forall slot_message_typed (l_tt_slots l) /\ Forall entry_message_typed (l_cbs_entries l)) (layers p).

Definition event_typed (ev : node_event) : Prop :=
  match ev with
  | Kernel e ev =>
      event_ok e ev /\
      match ev with UUpdateTaskMeta pid m => uword 32 pid /\ meta_typed m | _ => True end
  | Command (full_table t) _ now _ => Forall partition_typed (partitions t)
  | Command _ _ _ _ | Ring _ => True
  | Timer (UpdateCurrentSlot _ idx) => uword 32 idx
  | Timer (UpdateNextTtStart _ t) => uword 64 t
  | Timer _ => True
  end.

(** ** The maps *)

Lemma hash_update_typed {K V} `{Countable K} (P : K -> V -> Prop) cap (k : K) (v : V) m :
  map_Forall P m -> P k v -> (size m <= cap)%nat ->
  map_Forall P (hash_update cap k v m).1 /\ (size (hash_update cap k v m).1 <= cap)%nat.
Proof.
  intros Hm Hp Hs. split; [|by apply hash_update_size]. intros k' v'. rewrite hash_update_lookup.
  case_decide as Hd; [|by apply Hm]. destruct Hd as [_ ->]. by intros [= <-].
Qed.
Lemma hash_delete_typed {K V} `{Countable K} (P : K -> V -> Prop) cap (k : K) (m : gmap K V) :
  map_Forall P m -> (size m <= cap)%nat ->
  map_Forall P (hash_delete k m).1 /\ (size (hash_delete k m).1 <= cap)%nat.
Proof.
  intros Hm Hs. rewrite hash_delete_map. split; [by apply map_Forall_delete|].
  rewrite map_size_delete. destruct (m !! k); cbn; lia.
Qed.

Lemma array_store_typed (P : Z -> Prop) m k v n :
  Forall P m /\ length m = n -> P v -> Forall P (array_store m k v) /\ length (array_store m k v) = n.
Proof.
  intros [Hm Hl] Hv. split; [|by rewrite array_store_length]. unfold array_store. destruct (k <? 0); [done|].
  by apply Forall_insert.
Qed.

Create HintDb typed.
#[export] Hint Resolve hash_update_typed hash_delete_typed array_store_typed : typed.

(** *** Setters: the new map has the type, the others stay *)

Section Setters.
Context (st : bpf_state) (Hst : bpf_typed st).

Lemma with_tt_typed m :
  map_Forall (fun k b => key_typed k /\ slot_typed b) m /\ (size m <= TT_TABLE_MAP_ENTRIES)%nat ->
  bpf_typed (with_tt_table st m).
Proof using Hst. intros [? ?]. by destruct Hst; constructor. Qed.
Lemma with_cbs_typed m :
  map_Forall (fun _ c => cbs_ok c) m /\ (size m <= CBS_MAP_ENTRIES)%nat -> bpf_typed (with_cbs_map st m).
Proof using Hst. intros [? ?]. by destruct Hst; constructor. Qed.
Lemma with_meta_typed m :
  map_Forall (fun pid m => uword 32 pid /\ meta_typed m) m /\ (size m <= TASK_META_MAP_ENTRIES)%nat ->
  bpf_typed (with_task_meta st m).
Proof using Hst. intros [? ?]. by destruct Hst; constructor. Qed.
Lemma with_counts_typed m : Forall (uword 32) m /\ length m = MAX_CPUS -> bpf_typed (with_counts st m).
Proof using Hst. intros ?. by destruct Hst; constructor. Qed.
Lemma with_until_typed m : Forall (uword 64) m /\ length m = MAX_CPUS -> bpf_typed (with_active_until st m).
Proof using Hst. intros ?. by destruct Hst; constructor. Qed.
Lemma with_current_typed m : Forall (uword 32) m /\ length m = MAX_CPUS -> bpf_typed (with_current_slot st m).
Proof using Hst. intros ?. by destruct Hst; constructor. Qed.
Lemma with_next_typed m : Forall (uword 64) m /\ length m = MAX_CPUS -> bpf_typed (with_next_tt_start st m).
Proof using Hst. intros ?. by destruct Hst; constructor. Qed.

(** A store through a pointer into a hash map replaces an entry. *)
Lemma put_meta_typed pid m m' :
  task_meta_map st !! pid = Some m -> (meta_typed m -> meta_typed m') -> bpf_typed (put_meta st pid m').
Proof using Hst.
  intros Hm Hm'. apply with_meta_typed. destruct (bt_meta _ Hst pid m Hm) as [Hp Ht]. split.
  - apply map_Forall_insert_2; [auto|]. apply Hst.
  - rewrite map_size_insert_Some by done. apply Hst.
Qed.
Lemma put_cbs_typed key c c' : cbs_map st !! key = Some c -> cbs_ok c' -> bpf_typed (put_cbs st key c').
Proof using Hst.
  intros Hc Hc'. apply with_cbs_typed. split.
  - apply map_Forall_insert_2; [done|]. apply Hst.
  - rewrite map_size_insert_Some by done. apply Hst.
Qed.
End Setters.

#[export] Hint Resolve with_tt_typed with_cbs_typed with_meta_typed with_counts_typed with_until_typed with_current_typed
  with_next_typed : typed.

Lemma runnable_typed m v : uword 8 v -> meta_typed m -> meta_typed (set_tt_runnable m v).
Proof. unfold meta_typed. cbn. tauto. Qed.
Lemma activation_typed m v : uword 64 v -> meta_typed m -> meta_typed (set_activation m v).
Proof. unfold meta_typed. cbn. tauto. Qed.

(** ** The kernel's callbacks *)

Lemma mark_runnable_typed st pid m cpu :
  bpf_typed st -> task_meta_map st !! pid = Some m -> bpf_typed (mark_tt_runnable st pid m cpu).
Proof.
  intros Hst Hm. unfold mark_tt_runnable. 
  assert (H1 : bpf_typed (if tt_runnable m =? 0
    then put_meta match array_lookup (tt_runnable_count_map st) cpu with
                  | Some c => with_counts st (array_store (tt_runnable_count_map st) cpu (u32 (c + 1)))
                  | None => st end pid (set_tt_runnable m 1) else st)).
  { destruct (_ =? 0); [|done]. eapply put_meta_typed.
    - destruct (array_lookup _ _); [|done]. apply with_counts_typed; [done|].
      apply array_store_typed; [apply Hst|by apply wrap_range].
    - destruct (array_lookup _ _); exact Hm.
    - apply runnable_typed. unfold uword. lia. }
  apply with_until_typed; [done|]. apply array_store_typed; [apply H1|]. by unfold TT_ACTIVE_RUNNING, uword.
Qed.

Lemma mark_not_runnable_typed st pid m cpu :
  bpf_typed st -> task_meta_map st !! pid = Some m -> bpf_typed (mark_tt_not_runnable st pid m cpu).
Proof.
  intros Hst Hm. unfold mark_tt_not_runnable. destruct (_ =? 0); [done|]. cbv zeta.
  set (st1 := match array_lookup (tt_runnable_count_map st) cpu with Some c => _ | None => st end).
  assert (H1 : bpf_typed (put_meta st1 pid (set_tt_runnable m 0))).
  { assert (Hst1 : bpf_typed st1).
    { unfold st1. destruct (array_lookup _ _); [|done]. destruct (0 <? _); [|done]. apply with_counts_typed; [done|].
      apply array_store_typed; [apply Hst|by apply wrap_range]. }
    eapply put_meta_typed; [done| |].
    - unfold st1. destruct (array_lookup _ _); [destruct (0 <? _)|]; exact Hm.
    - apply runnable_typed. unfold uword. lia. }
  destruct (match array_lookup _ _ with Some c => c =? 0 | None => true end); [|done].
  apply with_until_typed; [done|]. apply array_store_typed; [apply H1|]. unfold uword. lia.
Qed.

Lemma lazy_replenish_Some st key now c :
  cbs_lazy_replenish (cbs_map st !! key) now = Some c -> exists c0, cbs_map st !! key = Some c0.
Proof. destruct (cbs_map st !! key); [eauto|done]. Qed.

Section Kernel.
Context `{ScxConsts}.

(** A server refilled in place. *)
Lemma replenished_typed st key now c :
  bpf_typed st -> cbs_lazy_replenish (cbs_map st !! key) now = Some c -> bpf_typed (put_cbs st key c).
Proof.
  intros Hst E. destruct (lazy_replenish_Some _ _ _ _ E) as [c0 Hc0]. eapply put_cbs_typed; [done|exact Hc0|].
  eapply replenish_lookup_ok; [apply Hst|exact E].
Qed.

Lemma promote_scan_typed st n now q : bpf_typed st -> bpf_typed (promote_scan st n now q).1.
Proof.
  revert st n. induction q as [|pid q IH]; intros st n Hst; cbn [promote_scan]; [done|].
  destruct (PROMOTE_BUDGET <=? n)%nat; [done|]. destruct (task_meta_map st !! pid) as [m|]; [|by apply IH].
  destruct (negb _); [by apply IH|]. destruct (cbs_lazy_replenish _ now) as [c|] eqn:E; [|by apply IH].
  specialize (IH (put_cbs st (cbs_key_from_meta m) c) (S n)). destruct (promote_scan _ _ _ _).
  apply IH. by eapply replenished_typed.
Qed.

Lemma stopping_cbs_typed e st pid m :
  bpf_typed st -> task_meta_map st !! pid = Some m -> bpf_typed (stopping_cbs e st pid m).1.
Proof.
  intros Hst Hm. unfold stopping_cbs. destruct (cbs_map st !! cbs_key_from_meta m) as [c|] eqn:E; [|done].
  assert (Hc : cbs_ok c) by (by apply (bt_cbs _ Hst (cbs_key_from_meta m))).
  destruct (negb _); [done|]. cbv zeta.
  set (c1 := set_server c (charge c (ktime e)) 0 (replenish_at_ns c)).
  assert (Hc1 : cbs_ok c1).
  { pose proof (charge_range c (ktime e) Hc). destruct Hc. constructor; cbn; auto; unfold uword; lia. }
  set (dm := if _ && _ then _ else _).
  assert (Hdm : bpf_typed dm.1 /\ cbs_map dm.1 = cbs_map st).
  { unfold dm. destruct (_ && _); [|done]. destruct (_ <? ktime e); [|done]. split; [|done].
    eapply put_meta_typed; [done|exact Hm|]. apply activation_typed. unfold uword. lia. }
  destruct dm as [st' calls]. cbn in Hdm. destruct Hdm as [Hst' Hcbs]. rewrite <- Hcbs in E.
  destruct (_ =? 0); cbn; (eapply put_cbs_typed; [done|exact E|]); [by apply rearm_ok|done].
Qed.

Lemma kexec_typed e ev st : bpf_typed st -> event_typed (Kernel e ev) -> bpf_typed (kexec e ev st).1.
Proof.
  intros Hst [[Ht Hev] Hm]. destruct ev as [pid prev|pid flags|cpu q|pid|pid r|pid m|pid|key c|key]; cbn [kexec fst].
  - unfold select_cpu. destruct (task_meta_map st !! pid) as [m|] eqn:E; [|done]. destruct (_ || _); [|done].
    assert (bpf_typed (put_meta st pid (set_activation m (ktime e)))).
    { eapply put_meta_typed; [done|exact E|]. by apply activation_typed. }
    by destruct (is_isolated _ _).
  - unfold enqueue. destruct (task_meta_map st !! pid) as [m|] eqn:E; [|done].
    destruct (_ =? SCHED_TYPE_TT); [destruct (is_isolated _ _); [by apply mark_runnable_typed|done]|].
    destruct (_ =? SCHED_TYPE_CBS); [|done]. destruct (cbs_lazy_replenish _ _) as [c|] eqn:Ec; [|done].
    destruct (_ =? 0); by eapply replenished_typed.
  - unfold BpfSched.dispatch, promote_throttled_if_replenished. destruct (tt_active_on_cpu _ _ _); [done|].
    pose proof (promote_scan_typed st 0 (ktime e) q Hst). by destruct (promote_scan _ _ _ _).
  - unfold BpfSched.running. destruct (task_meta_map st !! pid) as [m|]; [|done]. destruct (_ =? SCHED_TYPE_CBS); [|done].
    destruct (cbs_lazy_replenish _ _) as [c|] eqn:Ec; [|done]. destruct (lazy_replenish_Some _ _ _ _ Ec) as [c0 Hc0].
    cbn [fst]. eapply put_cbs_typed; [done|exact Hc0|].
    destruct (replenish_lookup_ok _ _ _ _ (bt_cbs _ Hst) Ec). by constructor.
  - unfold stopping. destruct (task_meta_map st !! pid) as [m|] eqn:E; [|done].
    destruct (_ =? SCHED_TYPE_CBS); [by apply stopping_cbs_typed|]. destruct (_ && _); [|done].
    unfold stopping_tt. cbv zeta. destruct (_ <? ktime e); by apply mark_not_runnable_typed.
  - apply with_meta_typed; [done|]. apply hash_update_typed; [apply Hst|done|apply Hst].
  - apply with_meta_typed; [done|]. apply hash_delete_typed; apply Hst.
  - apply with_cbs_typed; [done|]. apply hash_update_typed; [apply Hst|done|apply Hst].
  - apply with_cbs_typed; [done|]. apply hash_delete_typed; apply Hst.
Qed.
End Kernel.

(** ** The loader *)

Lemma on_skel_typed f l :
  loader_typed l -> (forall st, bpf_typed st -> bpf_typed (f st).1) -> loader_typed (on_skel f l).1.
Proof.
  unfold loader_typed, on_skel. intros Hl Hf. destruct (skel_ l) as [st|] eqn:E; cbn [fst]; [|by rewrite E].
  specialize (Hf st Hl). by destruct (f st).
Qed.

Lemma update_tt_slot_typed k b l : key_typed k -> slot_typed b -> loader_typed l -> loader_typed (update_tt_slot k b l).1.
Proof.
  intros Hk Hb Hl. apply on_skel_typed; [done|]. intros st Hst. apply with_tt_typed; [done|].
  apply hash_update_typed; [apply Hst|done|apply Hst].
Qed.
Lemma update_cbs_state_typed k c l : cbs_ok c -> loader_typed l -> loader_typed (update_cbs_state k c l).1.
Proof.
  intros Hc Hl. apply on_skel_typed; [done|]. intros st Hst. apply with_cbs_typed; [done|].
  apply hash_update_typed; [apply Hst|done|apply Hst].
Qed.
Lemma update_task_meta_typed p m l : uword 32 p -> meta_typed m -> loader_typed l -> loader_typed (update_task_meta p m l).1.
Proof.
  intros Hp Hm Hl. apply on_skel_typed; [done|]. intros st Hst. apply with_meta_typed; [done|].
  apply hash_update_typed; [apply Hst|done|apply Hst].
Qed.
Lemma delete_task_meta_typed p l : loader_typed l -> loader_typed (delete_task_meta p l).1.
Proof. intros Hl. apply on_skel_typed; [done|]. intros st Hst. apply with_meta_typed; [done|]. apply hash_delete_typed; apply Hst. Qed.
Lemma delete_tt_slot_typed k l : loader_typed l -> loader_typed (delete_tt_slot k l).1.
Proof. intros Hl. apply on_skel_typed; [done|]. intros st Hst. apply with_tt_typed; [done|]. apply hash_delete_typed; apply Hst. Qed.
Lemma delete_cbs_state_typed k l : loader_typed l -> loader_typed (delete_cbs_state k l).1.
Proof. intros Hl. apply on_skel_typed; [done|]. intros st Hst. apply with_cbs_typed; [done|]. apply hash_delete_typed; apply Hst. Qed.

Lemma array_update_typed (P : Z -> Prop) k v m n :
  Forall P m /\ length m = n -> P v -> Forall P (array_update k v m).1 /\ length (array_update k v m).1 = n.
Proof. intros Hm Hv. unfold array_update. destruct (_ && _); [by apply array_store_typed|done]. Qed.

Lemma update_current_slot_typed c i l : uword 32 i -> loader_typed l -> loader_typed (update_current_slot c i l).1.
Proof.
  intros Hi Hl. apply on_skel_typed; [done|]. intros st Hst. apply with_current_typed; [done|].
  apply array_update_typed; [apply Hst|done].
Qed.
Lemma update_next_tt_start_typed c t l : uword 64 t -> loader_typed l -> loader_typed (update_next_tt_start c t l).1.
Proof.
  intros Ht Hl. apply on_skel_typed; [done|]. intros st Hst. apply with_next_typed; [done|].
  apply array_update_typed; [apply Hst|done].
Qed.

(** ** The handlers *)

Lemma bpf_node_typed f n : (loader_typed (bpf_loader n) -> loader_typed (f (bpf_loader n)).1) -> node_typed n -> node_typed (bpf f n).1.
Proof.
  intros Hf [Hl Hs]. unfold bpf. specialize (Hf Hl). destruct (f (bpf_loader n)) as [l ok]. by split.
Qed.

Lemma evict_pids_typed pids n : node_typed n -> node_typed (evict_pids pids n).
Proof.
  intros Hn. unfold evict_pids. apply foldl_inv; [done|]. intros n' pid Hn'. unfold evict_pid.
  apply bpf_node_typed; [apply delete_task_meta_typed|]. by destruct Hn'.
Qed.
Lemma delete_slots_typed keys n : node_typed n -> node_typed (delete_slots keys n).
Proof.
  intros Hn. unfold delete_slots. apply foldl_inv; [done|]. intros n' key Hn'.
  apply bpf_node_typed; [apply delete_tt_slot_typed|done].
Qed.
Lemma delete_cbs_typed keys n : node_typed n -> node_typed (delete_cbs keys n).
Proof.
  intros Hn. unfold delete_cbs. apply foldl_inv; [done|]. intros n' key Hn'.
  apply bpf_node_typed; [apply delete_cbs_state_typed|done].
Qed.
Lemma stop_timer_typed h n : node_typed n -> node_typed (stop_timer h n).
Proof.
  intros [Hl Hs]. destruct h as [h|]; [|done]. split; [done|]. cbn [stop_timer set_master timer_master].
  unfold remove_workload. destruct (_ <? _)%nat; [|done].
  match goal with |- context [restart ?m0] => destruct (restart_fields m0) as (-> & _) end. cbn [slot_table].
  apply Forall_forall. intros e [_ He]%list_elem_of_filter. by apply (proj1 (Forall_forall _ _) Hs).
Qed.
Create HintDb node_types.
#[export] Hint Resolve evict_pids_typed delete_slots_typed delete_cbs_typed stop_timer_typed : node_types.

Lemma node_typed_ext n n' :
  node_typed n -> bpf_loader n' = bpf_loader n -> timer_master n' = timer_master n -> node_typed n'.
Proof. intros [Hl Hs] E1 E2. split; [by rewrite E1|by rewrite E2]. Qed.

Lemma evict_workload_typed w n : node_typed n -> node_typed (evict_workload w n).
Proof.
  intros Hn. unfold evict_workload. cbv zeta.
  eapply (node_typed_ext (delete_cbs _ (stop_timer _ (delete_slots _ (evict_pids _ n))))); [|reflexivity|reflexivity].
  auto with node_types.
Qed.

Lemma recovery_typed r n n' : node_typed n -> recovery_callback r n = Some n' -> node_typed n'.
Proof.
  intros Hn. unfold recovery_callback. destruct (decide _); [|by intros [= <-]].
  intros (wid & _ & [= <-])%bind_Some. by apply evict_workload_typed.
Qed.

Lemma ring_event_typed f n : node_typed n -> node_typed (handle_ring_event f n).
Proof.
  intros Hn. unfold handle_ring_event. destruct (FaultMonitor.ring_buf_callback _ _) as [m [[e c]|]];
    (eapply node_typed_ext; [exact Hn|reflexivity|reflexivity]).
Qed.

Lemma prepare_typed tracing t n : node_typed n -> node_typed (prepare_node tracing t n).
Proof.
  intros Hn. unfold prepare_node. eapply node_typed_ext with (n := forget_table (evict_absent (new_workloads t) n)).
  - unfold forget_table. eapply (node_typed_ext (foldl _ _ _)); [|reflexivity|reflexivity].
    apply foldl_inv; [|intros; by apply delete_cbs_typed]. apply foldl_inv; [|intros; by apply delete_slots_typed].
    unfold evict_absent. apply foldl_inv; [done|]. intros n' [w pids] Hn'. case_decide; [done|]. auto with node_types.
  - unfold remove_stale_pids. by destruct tracing.
  - unfold remove_stale_pids. by destruct tracing.
Qed.

(** *** Applying a table *)

Record apply_typed (a : apply) : Prop := {
  at_node : node_typed (ap_node a);
  at_idx : uword 32 (ap_slot_idx a);
  at_entries : Forall entry_typed (ap_slots a);
}.

Lemma on_bpf_typed f a :
  (loader_typed (bpf_loader (ap_node a)) -> loader_typed (f (bpf_loader (ap_node a))).1) -> apply_typed a ->
  apply_typed (on_bpf f a).1.
Proof.
  intros Hf [Hn Hi He]. pose proof (bpf_node_typed f (ap_node a) Hf Hn) as Hb. unfold on_bpf.
  destruct (bpf f (ap_node a)) as [n ok]. by split.
Qed.
Lemma on_node_typed f a : (node_typed (ap_node a) -> node_typed (f (ap_node a))) -> apply_typed a -> apply_typed (on_node f a).
Proof. intros Hf []. split; auto. Qed.
Lemma emit_typed e n : node_typed n -> node_typed (NodeMain.emit e n).
Proof. by intros []. Qed.
Lemma retrack_typed f n : node_typed n -> node_typed (retrack f n).
Proof. by intros []. Qed.
Lemma record_typed e a : apply_typed a -> apply_typed (record_apply_error e a).
Proof. by intros []. Qed.

Lemma slot_key_typed s i : slot_message_typed s -> uword 32 i -> key_typed {| key_cpu := m_cpu s; key_slot_idx := i |}.
Proof. by intros (_ & _ & _ & ? & _). Qed.
Lemma slot_bpf_typed s : slot_message_typed s -> slot_typed (slot_bpf s).
Proof. unfold slot_message_typed, slot_typed. cbn. tauto. Qed.
Lemma slot_meta_typed i s : slot_message_typed s -> meta_typed (slot_meta i s).
Proof.
  intros (? & ? & ? & ? & ? & ?). unfold meta_typed. cbn. split_and!;
    first [done | by apply wrap_range | unfold uword; lia].
Qed.
Lemma slot_entry_typed i s : uword 32 i -> slot_message_typed s -> entry_typed (slot_entry i s).
Proof. intros Hi (? & ? & ? & ? & ? & ?). unfold entry_typed. cbn. split_and!; try done; by apply wrap_range. Qed.
Lemma entry_meta_typed i c b : uword 32 c -> entry_message_typed b -> meta_typed (entry_meta i c b).
Proof.
  intros Hc (? & ? & ? & ? & ?). unfold meta_typed. cbn. split_and!;
    first [done | by apply wrap_range | unfold uword; lia].
Qed.
Lemma entry_state_typed now b : entry_message_typed b -> cbs_ok (entry_state now b).
Proof.
  intros (? & ? & ? & ? & ?). constructor; cbn; try done; [unfold uword in *; lia|].
  destruct (0 <? _); [by apply wrap_range|unfold uword; lia].
Qed.

Section Table.
Context (proc : nat -> option (list proc_entry)) (now : nat -> Z) (tracing : bool).

Lemma trace_pid_typed pid task a : apply_typed a -> apply_typed (on_node (trace_pid tracing pid task) a).
Proof. intros [Hn Hi He]. destruct (trace_pid_gpdata tracing pid task a) as (m & g & ->). split; [by destruct Hn|done|done]. Qed.

Lemma register_slot_typed i s pid a :
  slot_message_typed s -> apply_typed a -> apply_typed (register_slot tracing i s pid a).
Proof.
  intros Hs Ha. unfold register_slot. destruct (pid <? 0); [by apply record_typed|].
  pose proof (trace_pid_typed pid (m_task s) a Ha) as Ht.
  eapply on_bpf_typed in Ht; [|apply (update_task_meta_typed (u32 pid) (slot_meta i s)); [by apply wrap_range|by apply slot_meta_typed]].
  destruct (on_bpf _ _) as [a1 []]; cbn [fst] in Ht; [|by apply record_typed]. apply on_node_typed; [apply emit_typed|done].
Qed.

Lemma install_slot_typed s pid a : slot_message_typed s -> apply_typed a -> apply_typed (install_slot s pid a).
Proof.
  intros Hs Ha. unfold install_slot. cbv zeta.
  assert (H1 : apply_typed (push_slot_entry (slot_entry (ap_slot_idx a) s) a)).
  { destruct Ha as [Hn Hi He]. split; [done|done|]. apply Forall_app. split; [done|]. apply Forall_singleton.
    by apply slot_entry_typed. }
  eapply on_bpf_typed in H1; [|apply update_tt_slot_typed; [apply slot_key_typed; [exact Hs|exact (at_idx _ H1)]|by apply slot_bpf_typed]].
  destruct (on_bpf _ _) as [a1 ok]. cbn [fst] in H1.
  assert (H2 : apply_typed (record_unless ok (String.append "TT slot update failed: " (m_task s)) a1)).
  { unfold record_unless. destruct ok; [done|]. by apply record_typed. }
  set (a2 := if 0 <=? pid then _ else _).
  assert (H3 : apply_typed a2) by (unfold a2; destruct (0 <=? pid); [apply on_node_typed; [apply retrack_typed|done]|done]).
  destruct H3 as [Hn Hi He]. split; [done|by apply wrap_range|done].
Qed.

Lemma register_entry_typed i c b t pid a :
  entry_message_typed b -> uword 32 c -> apply_typed a -> apply_typed (register_entry tracing i c b t pid a).
Proof.
  intros Hb Hc Ha. unfold register_entry. destruct (pid <? 0); [by apply record_typed|].
  pose proof (trace_pid_typed pid (b_task b) a Ha) as Ht.
  eapply on_bpf_typed in Ht; [|apply (update_task_meta_typed (u32 pid) (entry_meta i c b)); [by apply wrap_range|by apply entry_meta_typed]].
  destruct (on_bpf _ _) as [a1 []]; cbn [fst negb] in *; [|by apply record_typed].
  assert (H1 : apply_typed (on_node (NodeMain.emit (SchedExt pid)) a1)) by (apply on_node_typed; [apply emit_typed|done]).
  eapply on_bpf_typed in H1; [|apply (update_cbs_state_typed (entry_key b) (entry_state t b)); by apply entry_state_typed].
  destruct (on_bpf _ _) as [a2 []]; cbn [fst negb] in *; [|by apply record_typed]. apply on_node_typed; [apply retrack_typed|done].
Qed.

Definition item_typed (it : item) : Prop :=
  match it with
  | TtItem _ s => slot_message_typed s
  | NoCpuset _ => True
  | CbsItem _ c b => uword 32 c /\ entry_message_typed b
  end.

Lemma apply_item_typed a it a' :
  item_typed it -> apply_typed a -> apply_item proc now tracing a it = Some a' -> apply_typed a'.
Proof.
  intros Hit Ha. destruct it as [i s|id|i c b]; cbn [apply_item].
  - intros (pid & _ & [= <-])%bind_Some. apply install_slot_typed, register_slot_typed; [done|done|]. by destruct Ha.
  - intros [= <-]. by apply record_typed.
  - intros (pid & _ & [= <-])%bind_Some. apply register_entry_typed; [apply Hit|apply Hit|]. by destruct Ha.
Qed.

Lemma apply_items_typed its a a' :
  Forall item_typed its -> apply_typed a -> fold_opt (apply_item proc now tracing) a its = Some a' -> apply_typed a'.
Proof.
  intros Hits. revert a. induction Hits as [|it its Hit Hits IH]; intros a Ha; cbn [fold_opt]; [by intros [= <-]|].
  destruct (apply_item proc now tracing a it) as [a1|] eqn:E; [|done]. intros E'. eapply IH; [|exact E'].
  by eapply apply_item_typed.
Qed.

Lemma table_items_typed t : Forall partition_typed (partitions t) -> Forall item_typed (table_items t).
Proof.
  intros Ht. unfold table_items. apply Forall_bind. eapply Forall_impl; [exact Ht|]. intros p [Hc Hl].
  apply Forall_bind. eapply Forall_impl; [exact Hl|]. intros l [Hs Hb]. unfold layer_items.
  apply Forall_app. split; [|apply Forall_app; split].
  - by apply Forall_fmap.
  - destruct (partition_cpu p), (l_cbs_entries l); by repeat constructor.
  - apply Forall_fmap. eapply Forall_impl; [exact Hb|]. intros b Hb1. split; [|done].
    unfold partition_cpu. destruct (cpuset p) as [cs|]; cbn in Hc |- *; [|unfold uword; lia].
    destruct (cpus cs) as [|c cs']; cbn; [unfold uword; lia|]. by apply Forall_cons in Hc as [? _].
Qed.

Lemma table_typed `{!StdSort, !StdSortLaws} t n n' :
  Forall partition_typed (partitions t) -> node_typed n -> table_callback proc now tracing t n = Some n' -> node_typed n'.
Proof.
  intros Ht Hn. unfold table_callback. rewrite apply_table_items.
  intros (a & Ha & E)%bind_Some. 
  assert (Hat : apply_typed a).
  { eapply apply_items_typed; [by apply table_items_typed| |exact Ha]. split; [by apply prepare_typed|unfold uword; cbn; lia|constructor]. }
  destruct (set_table_fields (ap_slots a) (hyperperiod_us t) (Messages.epoch_ns t) (timer_master (ap_node a))) as (Hs & _).
  destruct (set_schedule_table _ _ _ _) as [m ws]. injection E as <-. cbn [fst] in Hs.
  split; [apply Hat|]. cbn [on_client node_has_client set_client NodeMain.emit set_master timer_master]. rewrite Hs.
  rewrite std_sort_perm. apply Hat.
Qed.
End Table.

(** ** The system *)

Lemma do_action_typed a n : event_typed (Timer a) -> node_typed n -> node_typed (do_action a n).
Proof.
  intros Ha Hn. destruct a as [r|c i|c t|h]; cbn [do_action event_typed] in *; [done| | |].
  - apply bpf_node_typed; [by apply update_current_slot_typed|done].
  - apply bpf_node_typed; [by apply update_next_tt_start_typed|done].
  - destruct Hn as [Hl Hs]. unfold TimerMaster.wake_task.
    destruct (ttsched_shm _) as [shm|]; [destruct (_ !! h)|]; by split.
Qed.

Lemma node_step_typed `{!ScxConsts, !StdSort, !StdSortLaws} ev n n' :
  event_typed ev -> node_typed n -> node_step ev n = Some n' -> node_typed n'.
Proof.
  intros Hev Hn. destruct ev as [e ev|c proc now tracing|f|a]; cbn [node_step].
  - intros [= <-]. destruct Hn as [Hl Hs]. unfold run_kernel, loader_typed in *.
    destruct (skel_ (bpf_loader n)) as [st|] eqn:E; [|by split; [unfold loader_typed; rewrite E|]].
    split; [|done]. unfold loader_typed. cbn [set_loader bpf_loader skel_]. by apply kexec_typed.
  - destruct c as [t|u|g|r|]; cbn [NodeClient.dispatch]; unfold call; cbn [command_callbacks table_callback_ update_callback_
      shutdown_callback_ recovery_callback_]; try (by intros [= <-]).
    + by apply table_typed.
    + by apply recovery_typed.
  - intros [= <-]. by apply ring_event_typed.
  - intros [= <-]. by apply do_action_typed.
Qed.

Lemma bpf_load_typed mask : uword 64 mask -> bpf_typed (bpf_load mask).
Proof.
  intros Hm. constructor; cbn [bpf_load isolated_cpu_mask tt_table_map cbs_map task_meta_map current_slot_map
    tt_active_until_map next_tt_start_map tt_runnable_count_map]; try done; try (rewrite map_size_empty; lia);
    try (apply map_Forall_empty); (split; [apply Forall_replicate; unfold uword; lia|apply length_replicate]).
Qed.


(** *** Agreement of the timer with the program *)









(** *** A table *)


(** *** A stop signal *)

Lemma remove_workload_running h m : TimerMaster.running (remove_workload h m) = TimerMaster.running m.
Proof. unfold remove_workload. destruct (_ <? _)%nat; [|done]. by rewrite restart_running. Qed.



(** The daemon when it connects: a program just loaded with a 64-bit mask,
    timer threads started without a table. *)
Definition starts (n : node) : Prop :=
  exists l mask mem, bpf_loader n = Loader l (Some (bpf_load mask)) /\ uword 64 mask /\
    timer_master n = TimerMaster.start (TimerMaster mem) /\ tracking n = nothing_tracked.

(** ** Properties *)

(** C20. Types.  From its start, under any interleaving of kernel callbacks,
    commands, fault events and timer actions whose own arguments are of the
    types of their C and protobuf declarations - errors, tables that do not
    fit and tasks that come and go included - every value in the BPF maps and
    in the timer's table is in the range of its field, every CBS server holds
    at most its budget, the array maps keep their length and no hash map
    exceeds its capacity. *)
Theorem system_values_typed `{!ScxConsts, !StdSort, !StdSortLaws} n n' :
  starts n -> reaches (fun _ => event_typed) n n' -> node_typed n'.
Proof.
  intros (l & mask & mem & Hl & Hmask & Htm & _) Hr.
  assert (Hn : node_typed n).
  { split; [unfold loader_typed; rewrite Hl; by apply bpf_load_typed|]. rewrite Htm. by destruct mem. }
  clear Hl Htm. induction Hr as [|n ev n1 n2 Hev Hs Hr IH]; [done|]. apply IH. by eapply node_step_typed.
Qed.


Definition example_start : node :=
  Node (Loader 0 (Some (bpf_load 12))) (TimerMaster.start (TimerMaster None)) FaultMonitor.FaultMonitor
    (open_stream (NodeClient "o" "node" None)) (StatMaps ∅ ∅ ∅) ∅ nothing_tracked [].
Definition give_table : node_event :=
  Command (full_table example_table) (fun _ => Some example_proc) (fun _ => 4000) false.
Definition example_events : list node_event :=
  [give_table; Kernel (at_ns 5000 2) (EEnqueue 77 0); Kernel (at_ns 5000 2) (ERunning 77); Timer (UpdateCurrentSlot 2 1); Timer (WakeTask 8);
   Kernel (at_ns 5000 2) (EStopping 77 false); Command (recovery (Recovery "w" ACTION_STOP)) (fun _ => None) (fun _ => 0) false].

Lemma example_starts : starts example_start.
Proof. exists 0, 12, None. split_and!; [done|unfold uword; lia|done|done]. Qed.


Lemma system_values_typed_witness :
  exists n, @node_run scx_6_12 stable_sort example_events example_start = Some n /\ node_typed n.
Proof.
  destruct (@node_run scx_6_12 stable_sort example_events example_start) as [n|] eqn:E; [|by vm_compute in E].
  exists n. split; [done|].
  apply (@system_values_typed scx_6_12 stable_sort stable_sort_laws example_start n example_starts).
  apply (node_run_reaches _ example_events); [|exact E]. intros n0 ev Hin.
  repeat (apply elem_of_cons in Hin as [->|Hin]; [|]); try by apply not_elem_of_nil in Hin.
  - cbn. repeat constructor; cbn; unfold uword; lia.
  - split; [|done]. split; [cbn; unfold uword; lia|done].
  - split; [|done]. split; [cbn; unfold uword; lia|done].
  - cbn. unfold uword. lia.
  - done.
  - split; [|done]. split; [cbn; unfold uword; lia|done].
  - done.
Defined.




