(* ===== verification/Orchestrator.v ===== *)
(** * timpani-o: node connections, recovery and the replay of tables

    orchestrator_service.cpp keeps the streams of the connected nodes,
    recovery_service.cpp carries out the recovery policies of Pullpiri, and
    the loop of main.cpp brings the tables to the nodes.  Streams are numbers;
    whether a write succeeds is an argument.  Times are milliseconds of the
    steady clock. *)
From stdpp Require Import prelude gmap strings list sorting pretty.
From Stdlib Require Import ZArith Lia.
From Stdlib Require String Ascii.
From S2P Require Import Prelude Text NodeConfig Messages GlobalScheduler SchedInfoService Faults.
Local Open Scope Z_scope.
Local Open Scope c_scope.

(** ** OrchestratorServiceImpl *)

Record orchestrator := Orchestrator {
  node_of : gmap nat string;          (* current_node->node_id of each open stream *)
  connected_nodes : gmap string nat;  (* connected_nodes_ *)
}.
Definition OrchestratorServiceImpl : orchestrator := Orchestrator ∅ ∅.

(** [NodeStream]: a stream opens, delivers an event that names [id], closes. *)
Definition stream_open (stream : nat) (o : orchestrator) : orchestrator :=
  Orchestrator (<[stream := ""%string]> (node_of o)) (connected_nodes o).

Definition stream_event (stream : nat) (id : string) (o : orchestrator) : orchestrator :=
  match node_of o !! stream with
  | Some current =>
      if bool_decide (current = ""%string) && negb (bool_decide (id = ""%string))
      then Orchestrator (<[stream := id]> (node_of o)) (<[id := stream]> (connected_nodes o))
      else o
  | None => o
  end.

Definition stream_closed (stream : nat) (o : orchestrator) : orchestrator :=
  match node_of o !! stream with
  | Some current =>
      Orchestrator (delete stream (node_of o))
        (if bool_decide (current = ""%string) then connected_nodes o else delete current (connected_nodes o))
  | None => o
  end.

(** One event of a stream: [handle_fault_info] forwards a fault, the handlers
    of the other events only log. *)
Definition stream_message (rpc : nat -> FaultClient.answer) (stream : nat) (e : NodeEvent)
    (o : orchestrator) (c : FaultClient.fault_client) : orchestrator * FaultClient.fault_client :=
  let o := stream_event stream (ev_node e) o in
  (o, match event e with
      | fault f =>
          FaultClient.handle_fault_info rpc (default ""%string (node_of o !! stream)) (f_workload f) (f_task f)
            (f_workload_hash f) (f_task_hash f) (bool_decide (fault_type f = DMISS)) (f_dmiss_count f) c
      | _ => c
      end).

(** The stream a command is written to, if the node is connected, and the
    result of the write. *)
Definition push_command (write_ok : nat -> bool) (o : orchestrator) (node : string) (cmd : ControlCommand)
  : option (nat * ControlCommand) * bool :=
  match connected_nodes o !! node with
  | Some stream => (Some (stream, cmd), write_ok stream)
  | None => (None, false)
  end.
Definition push_full_table (write_ok : nat -> bool) (o : orchestrator) (node : string) (t : HierarchicalScheduleTable)
  : option (nat * ControlCommand) * bool := push_command write_ok o node (full_table t).
Definition push_update (write_ok : nat -> bool) (o : orchestrator) (node : string) (u : ScheduleTableUpdate)
  : option (nat * ControlCommand) * bool := push_command write_ok o node (table_update u).

Definition get_connected_node_ids (o : orchestrator) : gset string := dom (connected_nodes o).

(** The nodes that were sent the signal, and the result. *)
Definition broadcast_recovery_signal (write_ok : nat -> bool) (o : orchestrator) : list string * bool :=
  foldl (fun (r : list string * bool) (cn : string * nat) =>
           if write_ok cn.2 then (r.1 ++ [cn.1], r.2) else (r.1, false))
    ([], true) (ascending string_le (connected_nodes o)).

(** ** RecoveryServiceImpl *)

Inductive RecoveryPolicy := RECOVERY_UNKNOWN | RECOVERY_STOP | RECOVERY_RESTART | RECOVERY_TERMINATE.

(** The service, the workload and nodes of the broadcast, and the status of
    the reply; [Ret None] is an exception. *)
Definition EnforceRecoveryPolicy {sort : StdSort} (config : NodeConfigManager) (now : string -> Z)
    (write_ok : nat -> bool) (o : orchestrator) (policy : RecoveryPolicy) (workload : string) (s : service)
  : outcome (option (service * option (string * list string) * Z)) :=
  match policy with
  | RECOVERY_STOP =>
      r <-c RemoveWorkload config now workload false s;
      Ret (match r with
           | None => None
           | Some (s, resolved, _) =>
               let actual_wid := default workload resolved in
               let '(sent, ok) := broadcast_recovery_signal write_ok o in
               Some (s, Some (actual_wid, sent), if ok then 0 else -1)
           end)
  | _ => Ret (Some (s, None, 0))
  end.

(** ** The replay loop of main *)

Abbreviation tables := (gmap string HierarchicalScheduleTable).

Record replay_state := Loop {
  replay_pending : bool;
  warned_no_nodes_for_replay : bool;
  known_connected_nodes : gset string;
  synced_nodes : gset string;
  replay_failures : gmap string Z;
  next_retry_time : gmap string Z;
  last_pushed_tables : tables;
}.
Definition start_loop : replay_state := Loop false false ∅ ∅ ∅ ∅ ∅.

Definition kRetryBaseDelay : Z := 500.
Definition kRetryMaxDelay : Z := 8000.
Definition kRetryBackoffMaxShift : Z := 4.

Definition empty_table (node : string) (epoch : Z) : HierarchicalScheduleTable :=
  Table "table_v1"%string node 10000 epoch [].
Definition table_for (ts : tables) (epoch : Z) (node : string) : HierarchicalScheduleTable :=
  default (empty_table node epoch) (ts !! node).

(** Equality of the serialized tables without their epoch. *)
Definition without_epoch (t : HierarchicalScheduleTable) : HierarchicalScheduleTable :=
  Table (table_id t) (node_id t) (hyperperiod_us t) 0 (partitions t).
Definition same_message (a b : HierarchicalScheduleTable) : Prop := without_epoch a = without_epoch b.
#[export] Instance same_message_dec : RelDecision same_message.
Proof. intros a b. unfold same_message. apply _. Defined.

(** Forget what a node was sent; [keep] keeps the last table. *)
Definition forget (keep : bool) (l : replay_state) (node : string) : replay_state :=
  Loop (replay_pending l) (warned_no_nodes_for_replay l) (known_connected_nodes l) (synced_nodes l ∖ {[node]})
    (delete node (replay_failures l)) (delete node (next_retry_time l))
    (if keep then last_pushed_tables l else delete node (last_pushed_tables l)).

Definition set_pending (l : replay_state) (b : bool) : replay_state :=
  Loop b (warned_no_nodes_for_replay l) (known_connected_nodes l) (synced_nodes l) (replay_failures l)
    (next_retry_time l) (last_pushed_tables l).
Definition set_warned (l : replay_state) (b : bool) : replay_state :=
  Loop (replay_pending l) b (known_connected_nodes l) (synced_nodes l) (replay_failures l)
    (next_retry_time l) (last_pushed_tables l).
Definition set_known (l : replay_state) (ns : gset string) : replay_state :=
  Loop (replay_pending l) (warned_no_nodes_for_replay l) ns (synced_nodes l) (replay_failures l)
    (next_retry_time l) (last_pushed_tables l).

(** Connections that went and came. *)
Definition track_connections (connected : gset string) (l : replay_state) : replay_state :=
  let l := foldl (forget false) l (elements (known_connected_nodes l ∖ connected)) in
  let fresh := elements (connected ∖ known_connected_nodes l) in
  let l := foldl (forget false) l fresh in
  let l := match fresh with [] => l | _ => set_pending l true end in
  set_known l connected.

(** The table of [node] differs from the last one pushed. *)
Definition table_changed (ts : tables) (l : replay_state) (node : string) : bool :=
  match last_pushed_tables l !! node with
  | Some last => negb (bool_decide (same_message (table_for ts 0 node) last))
  | None => true
  end.

Definition queue_changes (ts : tables) (connected : gset string) (l : replay_state) : replay_state :=
  if decide (ts = ∅)
  then Loop true (warned_no_nodes_for_replay l) (known_connected_nodes l) ∅ ∅ ∅ ∅
  else
    let changed := filter (fun n => table_changed ts l n = true) (elements connected) in
    let l := foldl (forget true) l changed in
    match changed with [] => l | _ => set_pending l true end.

Definition retry_delay (fail_count : Z) : Z :=
  let backoff_shift := Z.min (fail_count - 1) kRetryBackoffMaxShift in
  let d := kRetryBaseDelay * Z.shiftl 1 backoff_shift in
  if kRetryMaxDelay <? d then kRetryMaxDelay else d.

(** The node is skipped: it has its table, or it is not time to retry. *)
Definition skipped (now : Z) (l : replay_state) (node : string) : bool :=
  bool_decide (node ∈ synced_nodes l) ||
  match next_retry_time l !! node with Some t => now <? t | None => false end.

(** One node; the flag tells that every push succeeded, [epoch] is the wall
    clock and [push] the result of [push_full_table]. *)
Definition replay_node (ts : tables) (now epoch : Z) (push : string -> bool)
    (st : replay_state * bool * list (string * HierarchicalScheduleTable)) (node : string)
  : replay_state * bool * list (string * HierarchicalScheduleTable) :=
  let '(l, all_push_ok, sent) := st in
  if skipped now l node then st
  else
    let table := table_for ts epoch node in
    let sent := sent ++ [(node, table)] in
    if push node
    then (Loop (replay_pending l) (warned_no_nodes_for_replay l) (known_connected_nodes l) ({[node]} ∪ synced_nodes l)
            (delete node (replay_failures l)) (delete node (next_retry_time l))
            (<[node := table]> (last_pushed_tables l)), all_push_ok, sent)
    else
      let fail_count := default 0 (replay_failures l !! node) + 1 in
      (Loop (replay_pending l) (warned_no_nodes_for_replay l) (known_connected_nodes l) (synced_nodes l ∖ {[node]})
         (<[node := fail_count]> (replay_failures l)) (<[node := now + retry_delay fail_count]> (next_retry_time l))
         (last_pushed_tables l), false, sent).

Definition replay (ts : tables) (connected : gset string) (now epoch : Z) (push : string -> bool) (l : replay_state)
  : replay_state * list (string * HierarchicalScheduleTable) :=
  if negb (replay_pending l) || bool_decide (ts = ∅) then (l, [])
  else if decide (connected = ∅) then (set_warned l true, [])
  else
    let '(l, all_push_ok, sent) :=
      foldl (replay_node ts now epoch push) (set_warned l false, true, []) (merge_sort string_le (elements connected)) in
    (if all_push_ok && bool_decide (connected ⊆ synced_nodes l) then set_pending l false else l, sent).

(** One turn of the loop: the tables with their changed flag, the connected
    nodes, the clocks; the tables pushed. *)
Definition iterate (ts : tables) (changed : bool) (connected : gset string) (now epoch : Z) (push : string -> bool)
    (l : replay_state) : replay_state * list (string * HierarchicalScheduleTable) :=
  let l := track_connections connected l in
  let l := if changed then queue_changes ts connected l else l in
  replay ts connected now epoch push l.

(** ** What the loop guarantees *)


(** Marked nodes are connected and were sent a table; while one is not marked
    a replay is pending; no retry waits for more than the maximal delay after
    [now].  Of every table that is remembered as sent, [P] holds. *)
Record ok_with (P : string -> HierarchicalScheduleTable -> Prop) (now : Z) (l : replay_state) : Prop := {
  ok_known : synced_nodes l ⊆ known_connected_nodes l;
  ok_sent : forall n, n ∈ synced_nodes l -> exists t, last_pushed_tables l !! n = Some t /\ P n t;
  ok_pending : known_connected_nodes l ⊆ synced_nodes l \/ replay_pending l = true;
  ok_retry : forall n t, next_retry_time l !! n = Some t -> t <= now + kRetryMaxDelay;
  ok_fails : forall n f, replay_failures l !! n = Some f -> 1 <= f;
}.

(** Marked nodes have their current table. *)
Notation current ts := (fun n t => same_message (table_for ts 0 n) t).
Notation ok ts := (ok_with (current ts)).

Lemma ok_impl (P Q : string -> HierarchicalScheduleTable -> Prop) now now' l :
  (forall n t, P n t -> Q n t) -> now <= now' -> ok_with P now l -> ok_with Q now' l.
Proof.
  intros HPQ Hn [Hk Hc Hp Hr Hf]. split; [done| |done| |done].
  - intros n (t & Ht & HP)%Hc. eauto.
  - intros n t ?%Hr. lia.
Qed.

Definition agree (ts ts' : tables) : Prop := forall n, same_message (table_for ts 0 n) (table_for ts' 0 n).

#[export] Instance same_message_equiv : Equivalence same_message.
Proof. unfold same_message. split; [by intros ?|by intros ??|intros ???; congruence]. Qed.

Lemma table_for_epoch ts e n : same_message (table_for ts 0 n) (table_for ts e n).
Proof. unfold table_for. by destruct (ts !! n). Qed.

Lemma retry_delay_bound f : 1 <= f -> kRetryBaseDelay <= retry_delay f <= kRetryMaxDelay.
Proof.
  intros Hf. unfold retry_delay, kRetryBackoffMaxShift, kRetryBaseDelay, kRetryMaxDelay.
  rewrite Z.shiftl_1_l. assert (1 <= 2 ^ Z.min (f - 1) 4).
  { rewrite <- (Z.pow_0_r 2) at 1. apply Z.pow_le_mono_r; lia. }
  destruct (Z.ltb_spec 8000 (500 * 2 ^ Z.min (f - 1) 4)); lia.
Qed.

(** Forgetting several nodes. *)
Lemma forget_all keep ns l :
  let l' := foldl (forget keep) l ns in
  replay_pending l' = replay_pending l /\ known_connected_nodes l' = known_connected_nodes l /\
  synced_nodes l' = synced_nodes l ∖ list_to_set ns /\
  (forall n t, next_retry_time l' !! n = Some t -> next_retry_time l !! n = Some t) /\
  (forall n, n ∉ ns -> last_pushed_tables l' !! n = last_pushed_tables l !! n) /\
  (forall n f, replay_failures l' !! n = Some f -> replay_failures l !! n = Some f).
Proof.
  revert l. induction ns as [|n ns IH]; intros l; cbn [foldl].
  { split_and!; [done|done|set_solver|done|done|done]. }
  destruct (IH (forget keep l n)) as (H1 & H2 & H3 & H4 & H5 & H6).
  cbn [forget replay_pending known_connected_nodes synced_nodes next_retry_time last_pushed_tables replay_failures] in *.
  split_and!; [done|done|rewrite H3; set_solver| | |].
  - intros n' t Hn'%H4. by apply lookup_delete_Some in Hn' as [_ ?].
  - intros n' [Hne Hn']%not_elem_of_cons. rewrite H5 by done. destruct keep; [done|]. by rewrite lookup_delete_ne.
  - intros n' f Hn'%H6. by apply lookup_delete_Some in Hn' as [_ ?].
Qed.

Lemma forget_all_last keep ns l n t :
  last_pushed_tables (foldl (forget keep) l ns) !! n = Some t -> last_pushed_tables l !! n = Some t.
Proof.
  revert l. induction ns as [|m ns IH]; intros l; [done|]. cbn [foldl]. intros H%IH.
  cbn [forget last_pushed_tables] in H. destruct keep; [done|]. by apply lookup_delete_Some in H as [_ H].
Qed.

Lemma forget_all_due keep ns l n : n ∈ ns -> next_retry_time (foldl (forget keep) l ns) !! n = None.
Proof.
  revert l. induction ns as [|m ns IH]; intros l Hn; [by apply not_elem_of_nil in Hn|]. cbn [foldl].
  destruct (decide (n ∈ ns)) as [Hin|Hin]; [by apply IH|]. apply elem_of_cons in Hn as [->|]; [|done].
  destruct (next_retry_time (foldl _ _ ns) !! m) as [t|] eqn:E; [|done].
  destruct (forget_all keep ns (forget keep l m)) as (_ & _ & _ & H & _). apply H in E. cbn in E.
  by rewrite lookup_delete_eq in E.
Qed.

Lemma track_connections_ok P now l connected :
  ok_with P now l -> ok_with P now (track_connections connected l) /\
  known_connected_nodes (track_connections connected l) = connected.
Proof.
  intros [Hk Hc Hp Hr Hf]. unfold track_connections. cbv zeta.
  set (l1 := foldl _ l _). destruct (forget_all false (elements (known_connected_nodes l ∖ connected)) l)
    as (P1 & K1 & S1 & R1 & T1 & F1). fold l1 in P1, K1, S1, R1, T1, F1.
  set (fresh := elements (connected ∖ known_connected_nodes l1)).
  destruct (forget_all false fresh l1) as (P2 & K2 & S2 & R2 & T2 & F2). set (l2 := foldl _ l1 fresh) in *.
  split; [|by destruct fresh].
  assert (Hsync : forall n, n ∈ synced_nodes l2 -> n ∈ synced_nodes l /\ n ∈ connected).
  { intros n. rewrite S2, S1, elem_of_difference, elem_of_difference, !elem_of_list_to_set.
    intros [[H1 H2] _]. split; [done|]. rewrite elem_of_elements, elem_of_difference in H2.
    destruct (decide (n ∈ connected)); [done|]. exfalso. apply H2. split; [by apply Hk|done]. }
  assert (Hcur : forall n, n ∈ synced_nodes l2 -> exists t, last_pushed_tables l2 !! n = Some t /\ P n t).
  { intros n Hn. destruct (Hc n) as (t & Ht & Hs); [by apply Hsync|]. exists t. split; [|done].
    rewrite S2, S1, !elem_of_difference, !elem_of_list_to_set in Hn. destruct Hn as [[_ Hn1] Hn2].
    by rewrite T2, T1 by done. }
  assert (Hret : forall n t, next_retry_time l2 !! n = Some t -> t <= now + kRetryMaxDelay) by (intros n t ?%R2%R1; eauto).
  assert (Hfl : forall n f, replay_failures l2 !! n = Some f -> 1 <= f) by (intros n f ?%F2%F1; eauto).
  destruct fresh as [|f fs] eqn:Ef.
  - split; [intros n Hn; by apply Hsync|exact Hcur| |exact Hret|exact Hfl].
    cbn [set_known known_connected_nodes synced_nodes replay_pending]. rewrite P2, P1.
    destruct Hp as [Hp|?]; [left|by right]. intros n Hn. rewrite S2, S1. cbn [list_to_set].
    assert (n ∈ known_connected_nodes l1).
    { destruct (decide (n ∈ known_connected_nodes l1)); [done|]. exfalso.
      assert (n ∈ fresh) as Hfr by (by apply elem_of_elements, elem_of_difference).
      rewrite Ef in Hfr. by apply not_elem_of_nil in Hfr. }
    rewrite K1 in *. apply elem_of_difference. split; [|set_solver]. apply elem_of_difference.
    split; [by apply Hp|]. rewrite elem_of_list_to_set, elem_of_elements. set_solver.
  - split; [intros n Hn; by apply Hsync|exact Hcur|by right|exact Hret|exact Hfl].
Qed.

Lemma queue_changes_ok P ts' now l :
  ok_with P now l ->
  ok_with (fun n t => P n t /\ current ts' n t) now (queue_changes ts' (known_connected_nodes l) l) /\
  known_connected_nodes (queue_changes ts' (known_connected_nodes l) l) = known_connected_nodes l.
Proof.
  intros [Hk Hc Hp Hr Hf]. unfold queue_changes. case_decide as E.
  { split; [|done]. split; cbn; [set_solver|set_solver|by right| |]; intros n t; by rewrite lookup_empty. }
  set (ch := filter _ _). destruct (forget_all true ch l) as (P1 & K1 & S1 & R1 & T1 & F1). set (l1 := foldl _ l ch) in *.
  split; [|by destruct ch].
  assert (Hcur : forall n, n ∈ synced_nodes l1 -> exists t, last_pushed_tables l1 !! n = Some t /\ P n t /\ current ts' n t).
  { intros n. rewrite S1, elem_of_difference, elem_of_list_to_set. intros [Hn Hch].
    destruct (Hc n Hn) as (t & Ht & HP). exists t. rewrite T1 by done. split_and!; [done|done|].
    destruct (decide (same_message (table_for ts' 0 n) t)) as [?|Hns]; [done|]. exfalso. apply Hch.
    apply list_elem_of_filter. split; [|apply elem_of_elements; by apply Hk].
    unfold table_changed. by rewrite Ht, bool_decide_eq_false_2. }
  assert (Hkn : synced_nodes l1 ⊆ known_connected_nodes l1) by (rewrite S1, K1; set_solver).
  assert (Hret : forall n t, next_retry_time l1 !! n = Some t -> t <= now + kRetryMaxDelay) by (intros n t ?%R1; eauto).
  assert (Hfl : forall n f, replay_failures l1 !! n = Some f -> 1 <= f) by (intros n f ?%F1; eauto).
  destruct ch as [|c cs].
  - split; [exact Hkn|exact Hcur| |exact Hret|exact Hfl]. rewrite P1, K1, S1. destruct Hp as [Hp|?]; [left; set_solver|by right].
  - split; [exact Hkn|exact Hcur|by right|exact Hret|exact Hfl].
Qed.

(** The pass over the connected nodes.  [l] is the state before it. *)
Record replaying (P : string -> HierarchicalScheduleTable -> Prop) (ts : tables) (now : Z) (l : replay_state) (push : string -> bool) (done_ : list string)
    (st : replay_state * bool * list (string * HierarchicalScheduleTable)) : Prop := {
  rp_known : known_connected_nodes st.1.1 = known_connected_nodes l;
  rp_pending : replay_pending st.1.1 = replay_pending l;
  rp_synced : forall n, n ∈ synced_nodes st.1.1 <->
    n ∈ synced_nodes l \/ (n ∈ done_ /\ skipped now l n = false /\ push n = true);
  rp_current : forall n, n ∈ synced_nodes st.1.1 -> exists t, last_pushed_tables st.1.1 !! n = Some t /\ P n t;
  rp_retry : forall n t, next_retry_time st.1.1 !! n = Some t -> t <= now + kRetryMaxDelay;
  rp_fails : forall n f, replay_failures st.1.1 !! n = Some f -> 1 <= f;
  rp_skipped : forall n, n ∉ done_ -> skipped now st.1.1 n = skipped now l n;
  rp_sent : st.2.*1 = filter (fun n => skipped now l n = false) done_;
  rp_tables : Forall (fun nt => P nt.1 nt.2) st.2;
}.

(** Which tables are remembered as sent: those of the nodes that were due and
    took it are new, the others stay. *)
Definition remembered (now : Z) (l : replay_state) (push : string -> bool) (done_ : list string)
    (st : replay_state * bool * list (string * HierarchicalScheduleTable)) : Prop :=
  forall n, if decide (n ∈ done_ /\ skipped now l n = false /\ push n = true)
            then exists t, last_pushed_tables st.1.1 !! n = Some t /\ (n, t) ∈ st.2
            else last_pushed_tables st.1.1 !! n = last_pushed_tables l !! n.

Lemma replay_node_step P ts now epoch push l done_ st node :
  (forall n, P n (table_for ts epoch n)) -> replaying P ts now l push done_ st -> node ∉ done_ ->
  replaying P ts now l push (done_ ++ [node]) (replay_node ts now epoch push st node).
Proof.
  destruct st as [[l1 flag] sent]. intros HP [Hk Hp Hs Hc Hr Hf Hsk Hsent Htab] Hnd. cbn [fst snd] in *.
  pose proof (Hsk node Hnd) as Eskip.
  assert (Hfilt : filter (fun n => skipped now l n = false) (done_ ++ [node])
                  = filter (fun n => skipped now l n = false) done_ ++ (if skipped now l node then [] else [node])).
  { rewrite filter_app, filter_cons, filter_nil. by destruct (skipped now l node). }
  unfold replay_node. rewrite Eskip. destruct (skipped now l node) eqn:E.
  { split; cbn [fst snd]; [done|done| |done|done|done| |by rewrite Hfilt, app_nil_r|done].
    - intros n. rewrite Hs, elem_of_app, list_elem_of_singleton. naive_solver congruence.
    - intros n [Hn _]%not_elem_of_app. by apply Hsk. }
  assert (Hns : node ∉ synced_nodes l1).
  { unfold skipped in Eskip. apply orb_false_iff in Eskip as [Hb _]. by apply bool_decide_eq_false in Hb. }
  assert (Hout : forall n, n ∉ done_ ++ [node] -> n ∉ done_ /\ n <> node).
  { intros n [Hn Hn']%not_elem_of_app. split; [done|]. intros ->. apply Hn'. by left. }
  destruct (push node) eqn:Ep; split; cbn [fst snd known_connected_nodes replay_pending synced_nodes last_pushed_tables
    next_retry_time replay_failures]; try done.
  - intros n. rewrite elem_of_union, elem_of_singleton, Hs, elem_of_app, list_elem_of_singleton. naive_solver.
  - intros n Hn. rewrite lookup_insert. case_decide as En.
    + subst n. eexists. split; [done|]. apply HP.
    + apply Hc. set_solver.
  - intros n t Hn. apply lookup_delete_Some in Hn as [_ Hn]. eauto.
  - intros n f Hn. apply lookup_delete_Some in Hn as [_ Hn]. eauto.
  - intros n [Hn Hne]%Hout. rewrite <- (Hsk n Hn). unfold skipped. cbn [synced_nodes next_retry_time].
    rewrite lookup_delete_ne by done. f_equal. apply bool_decide_ext. set_solver.
  - by rewrite fmap_app, Hsent, Hfilt.
  - apply Forall_app. split; [done|]. constructor; [apply HP|constructor].
  - intros n. rewrite elem_of_difference, elem_of_singleton, Hs, elem_of_app, list_elem_of_singleton.
    rewrite Hs in Hns. naive_solver congruence.
  - intros n [Hn _]%elem_of_difference. by apply Hc.
  - intros n t. rewrite lookup_insert. case_decide as En; [|by apply Hr]. intros [= <-].
    assert (1 <= default 0 (replay_failures l1 !! node) + 1).
    { destruct (replay_failures l1 !! node) as [f|] eqn:Ef; cbn; [apply Hf in Ef|]; lia. }
    pose proof (retry_delay_bound (default 0 (replay_failures l1 !! node) + 1)). lia.
  - intros n f. rewrite lookup_insert. case_decide as En; [|by apply Hf]. intros [= <-].
    destruct (replay_failures l1 !! node) as [f'|] eqn:Ef; cbn; [apply Hf in Ef|]; lia.
  - intros n [Hn Hne]%Hout. rewrite <- (Hsk n Hn). unfold skipped. cbn [synced_nodes next_retry_time].
    rewrite lookup_insert_ne by done. f_equal. apply bool_decide_ext. set_solver.
  - by rewrite fmap_app, Hsent, Hfilt.
  - apply Forall_app. split; [done|]. constructor; [apply HP|constructor].
Qed.

Lemma replay_node_remembered P ts now epoch push l done_ st node :
  replaying P ts now l push done_ st -> node ∉ done_ -> remembered now l push done_ st ->
  remembered now l push (done_ ++ [node]) (replay_node ts now epoch push st node).
Proof.
  destruct st as [[l1 flag] sent]. intros Hrp Hnd Hrem n. specialize (Hrem n).
  pose proof (rp_skipped _ _ _ _ _ _ _ Hrp node Hnd) as Eskip. cbn [fst snd] in *.
  assert (Happ : n ∈ done_ ++ [node] <-> n ∈ done_ \/ n = node) by (rewrite elem_of_app, list_elem_of_singleton; done).
  unfold replay_node. rewrite Eskip. destruct (skipped now l node) eqn:E.
  { cbn [fst snd]. destruct (decide (n = node)) as [->|]; do 2 case_decide; done || naive_solver congruence. }
  destruct (decide (n = node)) as [->|Hne].
  - rewrite decide_False in Hrem by tauto. destruct (push node) eqn:Ep; cbn [fst snd last_pushed_tables].
    + rewrite decide_True, lookup_insert_eq by tauto. eexists. split; [done|]. apply elem_of_app. right. by left.
    + by rewrite decide_False by naive_solver.
  - destruct (push node) eqn:Ep; cbn [fst snd last_pushed_tables]; rewrite ?lookup_insert_ne by done;
      (destruct (decide (n ∈ done_ /\ _)) as [Hd|Hd]; [rewrite decide_True by tauto|rewrite decide_False by tauto; done]);
      destruct Hrem as (t & Ht & Hin); exists t; (split; [done|]); by set_solver.
Qed.

Lemma replay_pass P ts now epoch push l ns st done_ :
  (forall n, P n (table_for ts epoch n)) -> replaying P ts now l push done_ st -> remembered now l push done_ st -> NoDup (done_ ++ ns) ->
  replaying P ts now l push (done_ ++ ns) (foldl (replay_node ts now epoch push) st ns) /\
  remembered now l push (done_ ++ ns) (foldl (replay_node ts now epoch push) st ns).
Proof.
  intros HP. revert st done_. induction ns as [|n ns IH]; intros st done_ H Hrem Hnd; [by rewrite app_nil_r|].
  assert (Hn : n ∉ done_) by (apply NoDup_app in Hnd as (_ & Hd & _); intros Hn; apply (Hd n Hn); by left).
  cbn [foldl]. rewrite (cons_middle n done_ ns), app_assoc. apply IH; [| |by rewrite <- app_assoc].
  - by apply replay_node_step.
  - by eapply replay_node_remembered.
Qed.

Lemma ok_weaken ts ts' now now' l : agree ts ts' -> now <= now' -> ok ts now l -> ok ts' now' l.
Proof. intros Ha. apply ok_impl. intros n t H. etrans; [|exact H]. symmetry. apply Ha. Qed.

(** The nodes in the order of the loop. *)
Definition in_order (connected : gset string) : list string := merge_sort string_le (elements connected).

(** What a replay does to a state [l] in which the tables are queued. *)
Lemma replay_ok P ts now epoch push l :
  (forall n, P n (table_for ts epoch n)) -> ok_with P now l ->
  let '(l', sent) := replay ts (known_connected_nodes l) now epoch push l in
  ok_with P now l' /\ known_connected_nodes l' = known_connected_nodes l /\
  (ts <> ∅ -> sent.*1 = filter (fun n => skipped now l n = false /\ replay_pending l = true)
                          (in_order (known_connected_nodes l))) /\
  Forall (fun nt => P nt.1 nt.2) sent /\
  (ts <> ∅ -> forall n, n ∈ known_connected_nodes l -> push n = true -> skipped now l n = false -> n ∈ synced_nodes l') /\
  (ts <> ∅ -> replay_pending l = true -> remembered now l push (in_order (known_connected_nodes l)) (l', true, sent)) /\
  synced_nodes l ⊆ synced_nodes l'.
Proof.
  intros HP Hok. unfold replay. destruct (replay_pending l) eqn:Epend; cbn [negb orb].
  2:{ split_and!; [done|done| |constructor| |done|done].
      - intros _. symmetry. induction (in_order _) as [|n ns IH]; [done|]. rewrite filter_cons, decide_False; [done|by intros [_ ?]].
      - intros _ n Hn _ Hs. destruct (ok_pending _ _ _ Hok) as [Hsub|?]; [by apply Hsub|congruence]. }
  destruct (bool_decide_reflect (ts = ∅)) as [Hts|Hts]; [by split_and!|].
  case_decide as Ec.
  { rewrite Ec. destruct Hok. by split_and!. }
  set (nodes := merge_sort string_le _).
  assert (Hnodes : forall n, n ∈ nodes <-> n ∈ known_connected_nodes l).
  { intros n. unfold nodes. by rewrite merge_sort_Permutation, elem_of_elements. }
  destruct (replay_pass P ts now epoch push l nodes (set_warned l false, true, []) []) as [Hpass Hrem]; [done| | | |].
  4: cbn [app] in Hpass, Hrem.
  { destruct Hok. split; cbn [fst snd]; try done. intros n. split; [by left|].
    intros [?|[Hn _]]; [done|by apply not_elem_of_nil in Hn]. }
  { intros n. rewrite decide_False; [done|]. by intros [Hn%not_elem_of_nil _]. }
  { cbn [app]; unfold nodes; rewrite merge_sort_Permutation; apply NoDup_elements. }
  destruct (foldl _ _ nodes) as [[l1 flag] sent]. destruct Hpass as [Hk Hp Hs Hc Hr Hf _ Hsent Htab]. cbn [fst snd] in *.
  set (l2 := if flag && _ then set_pending l1 false else l1).
  assert (El2 : known_connected_nodes l2 = known_connected_nodes l1 /\ synced_nodes l2 = synced_nodes l1 /\
     last_pushed_tables l2 = last_pushed_tables l1 /\ next_retry_time l2 = next_retry_time l1 /\
     replay_failures l2 = replay_failures l1) by (unfold l2; by destruct (flag && _)).
  destruct El2 as (E1 & E2 & E3 & E4 & E5). split_and!.
  - split.
    + rewrite E1, E2, Hk. intros n [Hn|[Hn _]]%Hs; [by apply (ok_known _ _ _ Hok)|by apply Hnodes].
    + intros n. rewrite E2, E3. apply Hc.
    + unfold l2. rewrite <- Hk. destruct flag; cbn [andb]; [|right; congruence].
      destruct (bool_decide_reflect (known_connected_nodes l1 ⊆ synced_nodes l1)); [by left|right; congruence].
    + intros n t. rewrite E4. apply Hr.
    + intros n f. rewrite E5. apply Hf.
  - by rewrite E1.
  - intros _. rewrite Hsent. unfold in_order. fold nodes. apply list_filter_iff. intros n. split; [done|by intros [? _]].
  - done.
  - intros _ n Hn Hpush Hskip. rewrite E2. apply Hs. right. split; [by apply Hnodes|done].
  - intros _ _ n. specialize (Hrem n). cbn [fst snd] in *. rewrite E3. exact Hrem.
  - rewrite E2. intros n Hn. apply Hs. by left.
Qed.

(** The states of the loop, with the tables and the clock of the last turn.
    Tables change only with the changed flag; time does not run backwards. *)
Inductive reachable : tables -> Z -> replay_state -> Prop :=
  | reach_start now : reachable ∅ now start_loop
  | reach_turn ts now l ts' changed connected now' epoch push :
      reachable ts now l -> now <= now' -> (changed = false -> agree ts ts') ->
      reachable ts' now' (iterate ts' changed connected now' epoch push l).1.

(** The state in which a turn starts its replay. *)
Definition queued (ts : tables) (changed : bool) (connected : gset string) (l : replay_state) : replay_state :=
  let l := track_connections connected l in if changed then queue_changes ts connected l else l.

Lemma queued_ok ts now l ts' changed connected now' :
  ok ts now l -> now <= now' -> (changed = false -> agree ts ts') ->
  ok ts' now' (queued ts' changed connected l) /\
  known_connected_nodes (queued ts' changed connected l) = connected.
Proof.
  intros Hok Hn Ha. unfold queued.
  destruct (track_connections_ok _ now l connected Hok) as [H1 H2]. destruct changed.
  - destruct (queue_changes_ok _ ts' now _ H1) as [H3 H4]. rewrite H2 in H3, H4. split; [|done].
    refine (ok_impl _ _ now now' _ _ Hn H3). by intros n t [_ H].
  - split; [|done]. apply (ok_weaken ts ts' now); [by apply Ha|done|done].
Qed.

Lemma iterate_ok ts now l ts' changed connected now' epoch push :
  ok ts now l -> now <= now' -> (changed = false -> agree ts ts') ->
  ok ts' now' (iterate ts' changed connected now' epoch push l).1.
Proof.
  intros Hok Hn Ha. destruct (queued_ok ts now l ts' changed connected now' Hok Hn Ha) as [H1 H2].
  unfold iterate. fold (queued ts' changed connected l). pose proof (replay_ok _ ts' now' epoch push _ (table_for_epoch ts' epoch) H1) as H.
  rewrite H2 in H. destruct (replay _ _ _ _ _ _) as [l' sent]. apply H.
Qed.

(** Tables may also change unannounced, as a [RECOVERY_STOP] and the rollback of
    a refused request change them. *)
Inductive turned : Z -> replay_state -> Prop :=
  | turned_start now : turned now start_loop
  | turned_turn now l ts' changed connected now' epoch push :
      turned now l -> now <= now' -> turned now' (iterate ts' changed connected now' epoch push l).1.

Lemma queued_ok_with P ts changed connected now now' l :
  ok_with P now l -> now <= now' ->
  ok_with P now' (queued ts changed connected l) /\ known_connected_nodes (queued ts changed connected l) = connected.
Proof.
  intros Hok Hn. destruct (track_connections_ok _ _ l connected Hok) as [H1 H2].
  unfold queued. destruct changed; [|split; [by eapply ok_impl; [| |exact H1]|done]].
  destruct (queue_changes_ok _ ts now _ H1) as [H3 H4]. rewrite H2 in H3, H4. split; [|done].
  refine (ok_impl _ _ now now' _ _ Hn H3). by intros n t [H _].
Qed.

(** Before the replay nothing is added to what is remembered as sent. *)
Lemma queued_last ts changed connected l n t :
  last_pushed_tables (queued ts changed connected l) !! n = Some t -> last_pushed_tables l !! n = Some t.
Proof.
  assert (Ht : last_pushed_tables (track_connections connected l) !! n = Some t -> last_pushed_tables l !! n = Some t).
  { unfold track_connections. cbn [set_known last_pushed_tables]. set (fresh := elements _).
    intros Hl. apply (forget_all_last false (elements (known_connected_nodes l ∖ connected))).
    apply (forget_all_last false fresh). by destruct fresh. }
  unfold queued. destruct changed; [|done]. unfold queue_changes. case_decide; [cbn; by rewrite lookup_empty|].
  set (ch := filter _ _). intros Hl. apply Ht, (forget_all_last true ch). by destruct ch.
Qed.

(** Whatever holds of the tables that are pushed holds of those remembered. *)
Lemma iterate_ok_with P ts changed connected now now' epoch push l :
  ok_with P now l -> now <= now' -> (forall n, P n (table_for ts epoch n)) ->
  let '(l', sent) := iterate ts changed connected now' epoch push l in
  ok_with P now' l' /\ Forall (fun nt => P nt.1 nt.2) sent.
Proof.
  intros Hok Hn HP. destruct (queued_ok_with P ts changed connected now now' l Hok Hn) as [H3 H4]. unfold iterate. fold (queued ts changed connected l).
  pose proof (replay_ok P ts now' epoch push _ HP H3) as H. rewrite H4 in H.
  destruct (replay _ _ _ _ _ _) as [l' sent]. by destruct H as (H & _ & _ & Htab & _).
Qed.

Lemma reachable_ok ts now l : reachable ts now l -> ok ts now l.
Proof.
  induction 1 as [now|ts now l ts' changed connected now' epoch push _ IH Hn Ha].
  - split; cbn; [done|set_solver|by left|intros n t; by rewrite lookup_empty|intros n f; by rewrite lookup_empty].
  - by eapply iterate_ok.
Qed.

(** A node whose table differs from the last one it was sent is due. *)
Lemma queue_changes_due ts connected l n :
  ts <> ∅ -> n ∈ connected -> table_changed ts l n = true ->
  let l' := queue_changes ts connected l in
  replay_pending l' = true /\ forall now, skipped now l' n = false.
Proof.
  intros Hts Hn Hch. unfold queue_changes. rewrite decide_False by done. set (ch := filter _ _).
  assert (Hin : n ∈ ch) by (apply list_elem_of_filter; split; [done|by apply elem_of_elements]).
  destruct (forget_all true ch l) as (_ & _ & Hs & _). pose proof (forget_all_due true ch l n Hin) as Hr.
  set (l1 := foldl _ l ch) in *.
  assert (Hskip : forall now, skipped now l1 n = false).
  { intros now. unfold skipped. rewrite Hr, bool_decide_eq_false_2; [done|]. rewrite Hs. set_solver. }
  destruct ch as [|c cs]; [by apply not_elem_of_nil in Hin|]. by split.
Qed.

(** The turn that sees an announcement: every connected node that takes the
    push has the current table, from this turn or from before. *)
Lemma announced_turn P ts now now' epoch push l connected n :
  ok_with P now l -> now <= now' -> ts <> ∅ -> n ∈ connected -> push n = true ->
  let '(l', sent) := iterate ts true connected now' epoch push l in
  exists t, last_pushed_tables l' !! n = Some t /\ current ts n t /\
    ((n, t) ∈ sent \/ last_pushed_tables l !! n = Some t).
Proof.
  intros Hok Hnow Hts Hn Hpush.
  destruct (track_connections_ok _ _ l connected Hok) as [Hok1 Hk1].
  pose proof (fun t => queued_last ts true connected l n t) as Hlast. unfold queued in Hlast.
  unfold iterate. set (l1 := track_connections connected l) in *.
  destruct (queue_changes_ok _ ts now _ Hok1) as [Hok2 Hk2]. rewrite Hk1 in Hok2, Hk2.
  assert (Hok3 : ok ts now' (queue_changes ts connected l1)) by (eapply ok_impl; [|exact Hnow|exact Hok2]; by intros m t [_ H]).
  assert (Hlast2 : last_pushed_tables (queue_changes ts connected l1) = last_pushed_tables l1).
  { unfold queue_changes. rewrite decide_False by done. set (ch := filter _ _).
    assert (E : forall l0, last_pushed_tables (foldl (forget true) l0 ch) = last_pushed_tables l0)
      by (induction ch as [|c cs IH]; intros l0; [done|]; cbn [foldl]; by rewrite IH). rewrite <- (E l1). by destruct ch. }
  pose proof (replay_ok _ ts now' epoch push _ (table_for_epoch ts epoch) Hok3) as H. rewrite Hk2 in H.
  pose proof (queue_changes_due ts connected l1 n Hts Hn) as Hdue. cbv zeta in Hdue.
  set (l2 := queue_changes ts connected l1) in *.
  assert (Hsame : table_changed ts l1 n = false -> exists t, last_pushed_tables l2 !! n = Some t /\ current ts n t).
  { unfold table_changed. rewrite Hlast2. destruct (last_pushed_tables l1 !! n) as [t|]; [|done].
    intros Hb%negb_false_iff%bool_decide_eq_true. by exists t. }
  destruct (replay_pending l2) eqn:Ep.
  2:{ destruct (table_changed ts l1 n); [by destruct Hdue|]. unfold replay. rewrite Ep. cbn [negb orb].
      destruct Hsame as (t & Ht & Hc); [done|]. exists t. split_and!; [done|done|]. right. by apply Hlast. }
  destruct (replay ts connected now' epoch push l2) as [l' sent].
  destruct H as (_ & _ & _ & Htab & _ & Hrem & _). specialize (Hrem Hts eq_refl n). cbn [fst snd] in Hrem.
  case_decide as Hd.
  - destruct Hrem as (t & Ht & Hin). exists t. split_and!; [done| |by left].
    exact (proj1 (Forall_forall _ _) Htab _ Hin).
  - rewrite Hrem. destruct Hsame as (t & Ht & Hc).
    { destruct (table_changed ts l1 n); [|done]. exfalso. apply Hd. destruct (Hdue eq_refl) as [_ Hs].
      split_and!; [|apply Hs|done]. unfold in_order. by rewrite merge_sort_Permutation, elem_of_elements. }
    exists t. split_and!; [done|done|]. right. by apply Hlast.
Qed.

(** What is pushed is the table of the node, dated by the wall clock. *)
Lemma iterate_sends ts changed connected now epoch push l :
  Forall (fun nt => nt.2 = table_for ts epoch nt.1) (iterate ts changed connected now epoch push l).2.
Proof.
  unfold iterate. fold (queued ts changed connected l). set (l1 := queued _ _ _ _). unfold replay.
  destruct (_ || _); [constructor|]. case_decide; [constructor|].
  match goal with |- context [foldl ?f ?a ?ns] =>
    assert (Hs : Forall (fun nt => nt.2 = table_for ts epoch nt.1) (foldl f a ns).2) end.
  { apply foldl_inv; [constructor|]. intros [[l2 flag] sent] n Hst. unfold replay_node.
    destruct (skipped now l2 n); [done|]. destruct (push n); cbn [snd]; (apply Forall_app; split; [done|by apply Forall_singleton]). }
  by destruct (foldl _ _ _) as [[l2 flag] sent].
Qed.


Lemma turned_ok now l : turned now l -> ok_with (fun _ _ => True) now l.
Proof.
  induction 1 as [now|now l ts' changed connected now' epoch push _ IH Hn].
  - split; cbn; [done|set_solver|by left|intros n t; by rewrite lookup_empty|intros n f; by rewrite lookup_empty].
  - pose proof (iterate_ok_with _ ts' changed connected now now' epoch push l IH Hn ltac:(done)) as H.
    by destruct (iterate _ _ _ _ _ _ _) as [l' sent], H as [H _].
Qed.

Lemma turn_outcome ts' changed connected now' epoch push l n :
  ok_with (fun _ _ => True) now' (queued ts' changed connected l) ->
  known_connected_nodes (queued ts' changed connected l) = connected ->
  ts' <> ∅ -> n ∈ connected -> push n = true ->
  next_retry_time (queued ts' changed connected l) !! n = None \/
    (exists t, next_retry_time (queued ts' changed connected l) !! n = Some t /\ t <= now') ->
  let '(l', sent) := iterate ts' changed connected now' epoch push l in
  n ∈ synced_nodes l' /\ exists t, last_pushed_tables l' !! n = Some t /\
    (t = table_for ts' epoch n /\ (n, t) ∈ sent \/
     n ∈ synced_nodes (queued ts' changed connected l) /\ last_pushed_tables (queued ts' changed connected l) !! n = Some t).
Proof.
  intros Hok Hk Hts Hn Hpush Hwait. pose proof (iterate_sends ts' changed connected now' epoch push l) as Hfor. unfold iterate in *.
  fold (queued ts' changed connected l) in *. set (lq := queued ts' changed connected l) in *.
  pose proof (replay_ok _ ts' now' epoch push lq (fun _ => I) Hok) as H. rewrite Hk in H.
  assert (Hsame : replay_pending lq = false -> replay ts' connected now' epoch push lq = (lq, [])) by (intros E; unfold replay; by rewrite E).
  destruct (replay ts' connected now' epoch push lq) as [l' sent]. destruct H as (_ & _ & _ & _ & Hpushed & Hrem & Hkeep).
  destruct (decide (n ∈ synced_nodes lq)) as [Hs|Hs].
  - split; [by apply Hkeep|]. destruct (ok_sent _ _ _ Hok _ Hs) as (t & Ht & _). exists t. split; [|by right].
    destruct (replay_pending lq) eqn:Ep; [|by injection (Hsame eq_refl) as -> _]. specialize (Hrem Hts eq_refl n). cbn [fst snd] in Hrem.
    rewrite decide_False in Hrem; [by rewrite Hrem|]. intros (_ & Hsk & _). unfold skipped in Hsk.
    by rewrite bool_decide_eq_true_2 in Hsk.
  - assert (Hsk : skipped now' lq n = false).
    { unfold skipped. rewrite bool_decide_eq_false_2 by done. cbn [orb].
      destruct Hwait as [->|(t & -> & Ht)]; [done|]. by apply Z.ltb_ge. }
    split; [by apply Hpushed|]. destruct (ok_pending _ _ _ Hok) as [Hsub|Ep]; [rewrite Hk in Hsub; by apply Hsub in Hn|].
    specialize (Hrem Hts Ep n). rewrite decide_True in Hrem.
    2:{ split_and!; [|done|done]. unfold in_order. by rewrite merge_sort_Permutation, elem_of_elements. }
    destruct Hrem as (t & Ht & Hin). exists t. split; [done|]. left. split; [|done]. exact (proj1 (Forall_forall _ _) Hfor _ Hin).
Qed.

(** C23. No node waits for ever, whatever the history of connections, failed
    pushes and table changes, announced or not.  A turn that finds tables and a
    connected node whose push succeeds, 8 seconds or more after the previous
    turn or when the node is not waiting for a retry, leaves the node marked.
    Then either the turn pushed the node's current table to it, or the node
    was marked before and the table is the one the loop last pushed to it.
    That one is current too when the turn sees an announcement, and when tables
    have changed only with announcements up to this turn; after an unannounced
    change (a stop, a rollback) it may be an older one, and after a reconnect
    between two turns the loop still counts what it sent before. *)
Theorem replay_reaches_node now l ts' changed connected now' epoch push n :
  turned now l -> now <= now' -> ts' <> ∅ -> n ∈ connected -> push n = true ->
  (now + kRetryMaxDelay <= now' \/ next_retry_time (queued ts' changed connected l) !! n = None) ->
  let '(l', sent) := iterate ts' changed connected now' epoch push l in
  n ∈ synced_nodes l' /\ exists t, last_pushed_tables l' !! n = Some t /\
    (t = table_for ts' epoch n /\ (n, t) ∈ sent \/
     n ∈ synced_nodes (queued ts' changed connected l) /\ last_pushed_tables l !! n = Some t) /\
    ((n, t) ∈ sent \/ changed = true \/ (exists ts, reachable ts now l /\ agree ts ts') -> current ts' n t).
Proof.
  intros Hr Hn Hts Hc Hpush Hwait. pose proof (turned_ok _ _ Hr) as Hok.
  destruct (queued_ok_with _ ts' changed connected now now' l Hok Hn) as [H1 Hk].
  destruct (queued_ok_with _ ts' changed connected now now l Hok ltac:(lia)) as [H0 _].
  pose proof (turn_outcome ts' changed connected now' epoch push l n H1 Hk Hts Hc Hpush) as H.
  destruct (iterate ts' changed connected now' epoch push l) as [l' sent] eqn:Ei. destruct H as [Hs (t & Ht & Hcase)].
  { destruct (next_retry_time (queued ts' changed connected l) !! n) as [t|] eqn:Et; [|by left]. right. exists t. split; [done|].
    destruct Hwait as [Hw|?]; [|done]. apply (ok_retry _ _ _ H0) in Et. lia. }
  split; [done|]. exists t. split; [done|]. split.
  { destruct Hcase as [?|[? Hl]]; [by left|right]. split; [done|by eapply queued_last]. }
  destruct Hcase as [[-> _]|[Hsq Hl]]; [intros _; apply table_for_epoch|].
  intros [Hin|Hann].
  - pose proof (iterate_sends ts' changed connected now' epoch push l) as Hf. rewrite Ei in Hf.
    pose proof (proj1 (Forall_forall _ _) Hf _ Hin) as E. cbn in E. subst t. apply table_for_epoch.
  - assert (Hoq : ok ts' now' (queued ts' changed connected l)).
    { destruct Hann as [->|(ts & Hre & Ha)]; [|by apply (queued_ok ts now l ts' changed connected now' (reachable_ok _ _ _ Hre))].
      unfold queued. destruct (track_connections_ok _ _ l connected Hok) as [Ho1 Hk1].
      destruct (queue_changes_ok _ ts' now _ Ho1) as [Ho2 _]. rewrite Hk1 in Ho2.
      refine (ok_impl _ _ now now' _ _ Hn Ho2). by intros m u [_ Hu]. }
    destruct (ok_sent _ _ _ Hoq _ Hsq) as (u & Hu & Hcu). rewrite Hl in Hu. by injection Hu as <-.
Qed.

(** ** Recovery *)

Lemma broadcast_spec write_ok o :
  broadcast_recovery_signal write_ok o =
  ((filter (fun cn : string * nat => write_ok cn.2 = true) (ascending string_le (connected_nodes o))).*1,
   forallb (fun cn => write_ok cn.2) (ascending string_le (connected_nodes o))).
Proof.
  unfold broadcast_recovery_signal. set (cns := ascending _ _).
  assert (H : forall l r b, foldl (fun (r : list string * bool) (cn : string * nat) =>
              if write_ok cn.2 then (r.1 ++ [cn.1], r.2) else (r.1, false)) (r, b) l
            = (r ++ (filter (fun cn : string * nat => write_ok cn.2 = true) l).*1, b && forallb (fun cn => write_ok cn.2) l)).
  { induction l as [|cn l IH]; intros r b; cbn [foldl forallb]; [by rewrite app_nil_r, andb_true_r|].
    rewrite filter_cons. destruct (write_ok cn.2) eqn:E; cbn [andb fst snd]; rewrite IH.
    - by rewrite decide_True by done; cbn [fmap list_fmap]; rewrite <- app_assoc.
    - by rewrite decide_False, andb_false_r by done. }
  by rewrite H.
Qed.

(** Recovery: a STOP takes the workload out of the schedule, unannounced,
    and sends the signal, with the name the identifier stands for, to every
    connected node whose stream takes it; the reply is 0 exactly when all
    took it.  Every other policy is acknowledged and does nothing. *)
Theorem EnforceRecoveryPolicy_outcome {sort : StdSort} config now write_ok o policy workload s s' bc status :
  EnforceRecoveryPolicy config now write_ok o policy workload s = Ret (Some (s', bc, status)) ->
  match policy with
  | RECOVERY_STOP =>
      exists w sent, bc = Some (w, sent) /\
        (forall n, n ∈ sent <-> exists stream, connected_nodes o !! n = Some stream /\ write_ok stream = true) /\
        (status = 0 <-> forall n stream, connected_nodes o !! n = Some stream -> write_ok stream = true) /\
        schedule_changed s' = schedule_changed s /\
        ((stands_for s workload w /\ workload_tasks s' = delete w (workload_tasks s)) \/ (w = workload /\ s' = s))
  | _ => s' = s /\ bc = None /\ status = 0
  end.
Proof.
  unfold EnforceRecoveryPolicy. destruct policy; try (by intros [= <- <- <-]).
  destruct (RemoveWorkload_spec config now workload false s) as (r & -> & Hr). cbn [obind].
  destruct r as [[[s1 resolved] b]|]; [|done]. rewrite broadcast_spec. intros [= <- <- <-].
  set (cns := ascending string_le (connected_nodes o)).
  assert (Hcn : forall n stream, (n, stream) ∈ cns <-> connected_nodes o !! n = Some stream)
    by (intros; apply elem_of_ascending).
  eexists _, _. split; [done|]. split_and!.
  - intros n. rewrite list_elem_of_fmap. setoid_rewrite list_elem_of_filter. split.
    + intros ([n' stream] & -> & Hw & Hin%Hcn). by exists stream.
    + intros (stream & Hin%Hcn & Hw). by exists (n, stream).
  - destruct (forallb _ cns) eqn:E.
    + rewrite forallb_forall in E. split; [|done]. intros _ n stream Hin%Hcn. by apply (E (n, stream)), list_elem_of_In.
    + split; [done|]. intros Hall. exfalso. apply not_true_iff_false in E. apply E. apply forallb_forall.
      intros [n stream] Hin%list_elem_of_In%Hcn. by apply (Hall n).
  - destruct resolved as [w|]; [|by destruct Hr as (-> & _)]. destruct Hr as (_ & _ & Hr). destruct b; by destruct Hr as [_ ->].
  - destruct resolved as [w|]; cbn [default]; [left|right; by destruct Hr as (-> & _)].
    by destruct Hr as (Hst & Hd & _).
Qed.

(** ** Runs *)

Definition two_tables : tables := {["a"%string := empty_table "a"%string 5]}.


(** A turn that fails, and 9 s later one that succeeds: the failed node is due. *)
Definition failed_turn : replay_state :=
  (iterate two_tables true {["a"%string]} 100 9 (fun _ => false) start_loop).1.
Lemma replay_reaches_node_witness :
  let '(l', sent) := iterate two_tables false {["a"%string]} 9100 19 (fun _ => true) failed_turn in
  "a"%string ∈ synced_nodes l' /\ exists t, last_pushed_tables l' !! "a"%string = Some t /\
    (t = table_for two_tables 19 "a"%string /\ ("a"%string, t) ∈ sent \/
     "a"%string ∈ synced_nodes (queued two_tables false {["a"%string]} failed_turn) /\
       last_pushed_tables failed_turn !! "a"%string = Some t) /\
    (("a"%string, t) ∈ sent \/ false = true \/ (exists ts, reachable ts 100 failed_turn /\ agree ts two_tables) ->
     current two_tables "a"%string t).
Proof.
  apply (replay_reaches_node 100 failed_turn two_tables false {["a"%string]} 9100 19 (fun _ => true) "a"%string);
    [|lia|done|by apply elem_of_singleton|done|left; unfold kRetryMaxDelay; lia].
  apply (turned_turn 0 start_loop two_tables true {["a"%string]} 100 9 (fun _ => false)); [constructor|lia].
Defined.

Definition stopped : service := (add version1 SchedInfoServiceImpl).1.
Definition one_node : orchestrator := stream_event 3 "n"%string (stream_open 3 OrchestratorServiceImpl).
Definition at_nine (node : string) : Z := 9.
Definition all_writes (stream : nat) : bool := true.
Definition stop_run : outcome (option (service * option (string * list string) * Z)) :=
  @EnforceRecoveryPolicy stable_sort new_manager at_nine all_writes one_node RECOVERY_STOP "w"%string stopped.
Definition after_stop : service := match stop_run with Ret (Some (s, _, _)) => s | _ => stopped end.
Lemma EnforceRecoveryPolicy_outcome_witness :
  stop_run = Ret (Some (after_stop, Some ("w"%string, ["n"%string]), 0)) /\
  (0 = 0 <-> forall n stream, connected_nodes one_node !! n = Some stream -> all_writes stream = true).
Proof.
  assert (E : stop_run = Ret (Some (after_stop, Some ("w"%string, ["n"%string]), 0))) by (vm_compute; reflexivity).
  split; [exact E|].
  destruct (@EnforceRecoveryPolicy_outcome stable_sort new_manager at_nine all_writes one_node
      RECOVERY_STOP "w"%string stopped after_stop
      (Some ("w"%string, ["n"%string])) 0 E) as (w & sent & _ & _ & H & _).
  exact H.
Defined.

(** A node that reconnects before its old stream has ended is lost when the
    old stream ends, although its new stream is open. *)
Lemma reconnected_node_lost :
  let o := stream_event 2 "n"%string (stream_open 2 (stream_event 1 "n"%string (stream_open 1 OrchestratorServiceImpl))) in
  connected_nodes o !! "n"%string = Some 2%nat /\
  get_connected_node_ids (stream_closed 1 o) = ∅ /\ node_of (stream_closed 1 o) !! 2%nat = Some "n"%string.
Proof. vm_compute. done. Qed.
