(* ===== verification/OrchestratorDaemon.v ===== *)
(** * timpani-o: start-up and the daemon as a whole

    The options and [main] of main.cpp, the server of schedinfo_service.cpp
    with its dump of the tables, and the daemon as a state machine: the RPCs
    of Pullpiri, the streams of the nodes and the turns of the loop.  An RPC,
    an event of a stream and a turn of the loop are one step each; a stream
    that closes during a turn is a write that fails. *)
From stdpp Require Import prelude gmap strings list sorting pretty.
From Stdlib Require Import ZArith Lia.
From Stdlib Require String Ascii.
From S2P Require Import Prelude Text Tlog NodeConfig Messages GlobalScheduler SchedInfoService Faults Orchestrator.
Local Open Scope Z_scope.
Local Open Scope c_scope.

(** ** Options *)

(** What [getopt_long] delivers, one after the other. *)
Inductive long_opt :=
  | SinfoPort (optarg : text) | FaultHost (optarg : string) | FaultPort (optarg : text)
  | NodeConfigFile (optarg : string) | Help | Unrecognised.

Record start_options := Settings { sinfo_port : Z; fault_addr : string; fault_port : Z; node_config_file : string }.
Definition default_start_options : start_options := Settings 50052 "localhost" 50053 "".

(** [None] when [stoi] throws, [Some None] is the result [false]. *)
Fixpoint GetOptions (opts : list long_opt) (s : start_options) : option (option start_options) :=
  match opts with
  | [] => Some (Some s)
  | SinfoPort optarg :: opts =>
      p ← stoi optarg; GetOptions opts (Settings p (fault_addr s) (fault_port s) (node_config_file s))
  | FaultHost optarg :: opts => GetOptions opts (Settings (sinfo_port s) optarg (fault_port s) (node_config_file s))
  | FaultPort optarg :: opts =>
      p ← stoi optarg; GetOptions opts (Settings (sinfo_port s) (fault_addr s) p (node_config_file s))
  | NodeConfigFile optarg :: opts => GetOptions opts (Settings (sinfo_port s) (fault_addr s) (fault_port s) optarg)
  | Help :: _ | Unrecognised :: _ => Some None
  end.

(** ** SchedInfoServer *)

Inductive grpc_service := SchedInfoGrpc | RecoveryGrpc.

(** [server_] tells whether the server listens, [server_thread_] whether a
    thread waits for its end. *)
Record server := Server {
  service_ : service; registered : list grpc_service; server_ : option bool; server_thread_ : bool }.
Definition SchedInfoServer : server := Server SchedInfoServiceImpl [] None false.

Definition any_address (port : Z) : string := String.append "0.0.0.0:" (pretty port).

(** [listens] is the answer of [BuildAndStart] for an address; a service may be
    a null pointer. *)
Definition Start (listens : string -> bool) (port : Z) (additional_services : list (option grpc_service)) (s : server)
  : server * bool :=
  let services := SchedInfoGrpc :: omap id additional_services in
  if listens (any_address port) then (Server (service_ s) services (Some true) true, true)
  else (Server (service_ s) services None (server_thread_ s), false).

Definition Stop (s : server) : server :=
  Server (service_ s) (registered s) (match server_ s with Some _ => Some false | None => None end) false.

(** *** DumpSchedInfo: the lines logged *)

Definition log_line (level : LogLevel) (args : list string) : LogLevel * string := (level, foldr String.append ""%string args).

Definition model_value (m : ExecutionModel) : Z :=
  match m with TIME_TRIGGERED => 0 | EVENT_DRIVEN => 1 | DATA_FLOW => 2 end.

Definition cpu_text (part : PartitionConfig) : string :=
  match cpuset part with
  | Some spec =>
      match cpus spec with [] => "none" | cs => foldr String.append "" ((fun c => String.append (pretty c) " ") <$> cs) end
  | None => "none"
  end%string.

Definition dump_slot (slot : TtSlot) : LogLevel * string :=
  log_line DEBUG ["      TT Slot: task_id="; m_task slot; ", offset="; pretty (m_offset slot); "us"; ", duration=";
    pretty (m_duration slot); "us"; ", deadline="; pretty (m_deadline slot); "us"; ", CPU="; pretty (m_cpu slot)]%string.
Definition dump_entry (cbs : CbsConfig) : LogLevel * string :=
  log_line DEBUG ["      CBS Entry: task_id="; b_task cbs; ", budget="; pretty (b_budget cbs); "us"; ", period=";
    pretty (b_period cbs); "us"; ", deadline="; pretty (b_deadline cbs); "us"]%string.
Definition dump_layer (l : nat) (layer : LayerConfig) : list (LogLevel * string) :=
  log_line DEBUG ["    Layer "; pretty (Z.of_nat l); ": model="; pretty (model_value (model layer))]%string ::
  log_line DEBUG ["    TT slots: "; pretty (Z.of_nat (length (l_tt_slots layer))); ", CBS entries: ";
    pretty (Z.of_nat (length (l_cbs_entries layer)))]%string ::
  (dump_slot <$> l_tt_slots layer) ++ (dump_entry <$> l_cbs_entries layer).
Definition dump_partition (part : PartitionConfig) : list (LogLevel * string) :=
  log_line DEBUG ["  Partition: "; partition_id part; " cpuset="; "[ "; cpu_text part; "]"]%string ::
  mjoin (imap dump_layer (layers part)).
Definition dump_table (nt : string * HierarchicalScheduleTable) : list (LogLevel * string) :=
  log_line INFO ["Node: "; nt.1; " partitions="; pretty (Z.of_nat (length (partitions nt.2))); " hyperperiod=";
    pretty (hyperperiod_us nt.2); "us"]%string ::
  (partitions nt.2 ≫= dump_partition).
Definition DumpSchedInfo (s : service) : list (LogLevel * string) :=
  if decide (schedule_tables s = ∅) then [log_line INFO ["No schedule tables available"%string]]
  else log_line INFO ["Dumping ScheduleTableMap:"%string] :: (ascending string_le (schedule_tables s) ≫= dump_table).

(** ** The daemon *)

Record daemon := Daemon {
  node_config_manager : NodeConfigManager;
  sinfo_server : server;
  fault_service_client : FaultClient.fault_client;
  g_orchestrator_service : orchestrator;
  loop : replay_state;
}.

Record host := Machine {
  config_file : string -> option text;  (* opening a file *)
  listens : string -> bool;             (* BuildAndStart *)
  channel_ok : string -> bool; stub_ok : string -> bool }.

Definition RunSchedInfoServer (m : host) (port : Z) : server * bool :=
  Start (listens m) port [Some RecoveryGrpc] SchedInfoServer.

Definition InitFaultClient (m : host) (addr : string) (port : Z) (c : FaultClient.fault_client)
  : FaultClient.fault_client * bool :=
  let piccolo_addr := String.append addr (String.append ":" (pretty port)) in
  FaultClient.Initialize piccolo_addr (channel_ok m piccolo_addr) (stub_ok m piccolo_addr) c.

Definition RunOrchestratorServer (m : host) (port : Z) : option orchestrator :=
  if listens m (any_address port) then Some OrchestratorServiceImpl else None.

Definition load_config (m : host) (file : string) : outcome (option NodeConfigManager) :=
  if decide (file = ""%string) then Ret (Some new_manager)
  else r <-c LoadFromFile (config_file m file) new_manager; Ret (fst <$> r).

(** How [main] gets to its loop, or ends: [Terminated] is an exception. *)
Inductive started := Running (d : daemon) | Exit (code : Z) | Terminated.

Definition main (m : host) (opts : list long_opt) : outcome started :=
  match GetOptions opts default_start_options with
  | None => Ret Terminated
  | Some None => Ret (Exit 1)
  | Some (Some o) =>
      config <-c load_config m (node_config_file o);
      match config with
      | None => Ret Terminated
      | Some config =>
          let '(srv, ok) := RunSchedInfoServer m (sinfo_port o) in
          if negb ok then Ret (Exit 1) else
          let '(c, ok) := InitFaultClient m (fault_addr o) (fault_port o) FaultClient.FaultServiceClient in
          if negb ok then Ret (Exit 1) else
          match RunOrchestratorServer m 50060 with
          | None => Ret (Exit 1)
          | Some orch => Ret (Running (Daemon config srv c orch start_loop))
          end
      end
  end.

(** ** Steps *)

Definition with_service (s : service) (d : daemon) : daemon :=
  Daemon (node_config_manager d)
    (Server s (registered (sinfo_server d)) (server_ (sinfo_server d)) (server_thread_ (sinfo_server d)))
    (fault_service_client d) (g_orchestrator_service d) (loop d).
Definition with_nodes (o : orchestrator) (d : daemon) : daemon :=
  Daemon (node_config_manager d) (sinfo_server d) (fault_service_client d) o (loop d).
Definition with_faults (c : FaultClient.fault_client) (d : daemon) : daemon :=
  Daemon (node_config_manager d) (sinfo_server d) c (g_orchestrator_service d) (loop d).
Definition with_loop (l : replay_state) (d : daemon) : daemon :=
  Daemon (node_config_manager d) (sinfo_server d) (fault_service_client d) (g_orchestrator_service d) l.
Definition the_service (d : daemon) : service := service_ (sinfo_server d).
Definition the_nodes (d : daemon) : gmap string nat := connected_nodes (g_orchestrator_service d).

Inductive daemon_event :=
  | AddSchedInfoRpc (now1 now2 : string -> Z) (request : SchedInfo)
  | RecoveryRpc (now : string -> Z) (write_ok : nat -> bool) (policy : RecoveryPolicy) (workload : string)
  | StreamOpen (stream : nat)
  | StreamMessage (rpc : nat -> FaultClient.answer) (stream : nat) (e : NodeEvent)
  | StreamClosed (stream : nat)
  | Turn (now epoch : Z) (write_ok : nat -> bool).

(** The commands the streams took, and the status of an RPC; [None] when the
    handler threw. *)
Record output := Output { written : list (nat * ControlCommand); reply : option Z }.
Definition silent : output := Output [] None.

Definition stop_signals (o : orchestrator) (broadcast : option (string * list string)) : list (nat * ControlCommand) :=
  match broadcast with
  | None => []
  | Some (w, ns) => omap (fun n => (fun stream => (stream, recovery (Recovery w ACTION_STOP))) <$> connected_nodes o !! n) ns
  end.

(** The commands of the pushes that succeed. *)
Definition pushed_commands (write_ok : nat -> bool) (o : orchestrator) (sent : list (string * HierarchicalScheduleTable))
  : list (nat * ControlCommand) :=
  omap (fun nt => match push_full_table write_ok o nt.1 nt.2 with (c, true) => c | (_, false) => None end) sent.

Definition push_works (write_ok : nat -> bool) (o : orchestrator) (n : string) : bool :=
  match connected_nodes o !! n with Some stream => write_ok stream | None => false end.

Section Steps.
Context {sort : StdSort}.

Definition daemon_step (d : daemon) (e : daemon_event) : outcome (daemon * output) :=
  let o := g_orchestrator_service d in
  match e with
  | AddSchedInfoRpc now1 now2 request =>
      r <-c AddSchedInfo (node_config_manager d) now1 now2 request (the_service d);
      let '(s, code) := r in Ret (with_service s d, Output [] (Some code))
  | RecoveryRpc now write_ok policy workload =>
      r <-c EnforceRecoveryPolicy (node_config_manager d) now write_ok o policy workload (the_service d);
      Ret (match r with
           | None => (d, silent)
           | Some (s, broadcast, code) => (with_service s d, Output (stop_signals o broadcast) (Some code))
           end)
  | StreamOpen stream => Ret (with_nodes (stream_open stream o) d, silent)
  | StreamMessage rpc stream e =>
      let '(o, c) := stream_message rpc stream e o (fault_service_client d) in
      Ret (with_faults c (with_nodes o d), silent)
  | StreamClosed stream => Ret (with_nodes (stream_closed stream o) d, silent)
  | Turn now epoch write_ok =>
      let '(s, (sched_tables, changed)) := GetScheduleTables (the_service d) in
      let '(l, sent) := iterate sched_tables changed (get_connected_node_ids o) now epoch (push_works write_ok o) (loop d) in
      Ret (with_loop l (with_service s d), Output (pushed_commands write_ok o sent) None)
  end.

Fixpoint daemon_run (d : daemon) (es : list daemon_event) : outcome (daemon * list output) :=
  match es with
  | [] => Ret (d, [])
  | e :: es =>
      r <-c daemon_step d e; let '(d, out) := r in
      r <-c daemon_run d es; let '(d, outs) := r in Ret (d, out :: outs)
  end.
End Steps.

(** ** Reachable daemons *)

(** [possible]: a stream that opens is new, and the steady clock of the loop
    does not run backwards. *)
Definition possible (now : Z) (d : daemon) (e : daemon_event) : Prop :=
  match e with
  | StreamOpen stream => node_of (g_orchestrator_service d) !! stream = None
  | Turn now' _ _ => now <= now'
  | _ => True
  end.
Definition clock_after (now : Z) (e : daemon_event) : Z := match e with Turn now' _ _ => now' | _ => now end.

(** The requests that were accepted. *)
Definition accepted_after (reqs : list SchedInfo) (e : daemon_event) (out : output) : list SchedInfo :=
  match e, reply out with
  | AddSchedInfoRpc _ _ request, Some 0 => reqs ++ [request]
  | _, _ => reqs
  end.

Inductive reach {sort : StdSort} (m : host) (opts : list long_opt) : list SchedInfo -> Z -> daemon -> Prop :=
  | reach_start now d : main m opts = Ret (Running d) -> reach m opts [] now d
  | reach_step reqs now d e d' out :
      reach m opts reqs now d -> possible now d e -> daemon_step d e = Ret (d', out) ->
      reach m opts (accepted_after reqs e out) (clock_after now e) d'.

(** ** What the nodes are sent *)

Section Daemon.
Context {sort : StdSort}.

(** A workload as an accepted request describes it; a table the generator
    made for such workloads; a table that may be sent. *)
Definition requested (config : NodeConfigManager) (reqs : list SchedInfo) (w : string) (e : WorkloadEntry) : Prop :=
  exists request, request ∈ reqs /\ r_workload_id request = w /\ valid_request request /\ e = request_entry config request.
Definition generated (config : NodeConfigManager) (reqs : list SchedInfo) (n : string) (t : HierarchicalScheduleTable) : Prop :=
  exists now workloads, (forall w e, workloads !! w = Some e -> requested config reqs w e) /\
    generate_schedule n (cpus_of config n) now (tasks_for workloads n) = Ret (inl t).
Definition sendable (config : NodeConfigManager) (reqs : list SchedInfo) (n : string) (t : HierarchicalScheduleTable) : Prop :=
  (exists epoch, t = empty_table n epoch) \/ generated config reqs n t.

Definition service_ok (config : NodeConfigManager) (reqs : list SchedInfo) (s : service) : Prop :=
  (forall w e, workload_tasks s !! w = Some e -> requested config reqs w e) /\
  (forall n t, schedule_tables s !! n = Some t -> generated config reqs n t).

(** Every connected node is the node of its stream, and has a name. *)
Definition nodes_ok (o : orchestrator) : Prop :=
  forall n stream, connected_nodes o !! n = Some stream -> node_of o !! stream = Some n /\ n <> ""%string.

Record daemon_ok (config : NodeConfigManager) (reqs : list SchedInfo) (now : Z) (d : daemon) : Prop := {
  dk_config : node_config_manager d = config;
  dk_service : service_ok config reqs (the_service d);
  dk_nodes : nodes_ok (g_orchestrator_service d);
  dk_loop : ok_with (sendable config reqs) now (loop d);
}.

Lemma service_ok_mono config reqs reqs' s : reqs ⊆ reqs' -> service_ok config reqs s -> service_ok config reqs' s.
Proof using.
  intros Hsub [Hw Ht].
  assert (Hreq : forall w e, requested config reqs w e -> requested config reqs' w e).
  { intros w e (request & Hin & H). exists request. by split; [apply Hsub|]. }
  split; [by eauto|]. intros n t (now & ws & Hws & H)%Ht. exists now, ws. eauto.
Qed.

Lemma sendable_mono config reqs reqs' n t : reqs ⊆ reqs' -> sendable config reqs n t -> sendable config reqs' n t.
Proof using.
  intros Hsub [?|(now & ws & Hws & H)]; [by left|right]. exists now, ws. split; [|done].
  intros w e (request & Hin & H')%Hws. exists request. by split; [apply Hsub|].
Qed.

(** Tables that agree with requested workloads are generated. *)
Lemma in_sync_ok config reqs s :
  in_sync config s -> (forall w e, workload_tasks s !! w = Some e -> requested config reqs w e) -> service_ok config reqs s.
Proof using.
  intros [Hs _] Hw. split; [done|]. intros n t (now & Hg)%Hs. exists now, (workload_tasks s). by split.
Qed.

Lemma shrunk_ok config reqs s s' : shrunk config s s' -> service_ok config reqs s -> service_ok config reqs s'.
Proof using.
  intros [Hw Ht] [Hr Hg].
  assert (Hr' : forall w e, workload_tasks s' !! w = Some e -> requested config reqs w e)
    by (intros w e H; apply Hr; by eapply lookup_weaken).
  destruct Ht as [Hs|Ht]; [by apply in_sync_ok|]. split; [done|]. by rewrite Ht.
Qed.

(** *** The RPCs *)

Lemma AddSchedInfo_ok config reqs now1 now2 request s s' code :
  service_ok config reqs s -> AddSchedInfo config now1 now2 request s = Ret (s', code) ->
  service_ok config (if code =? 0 then reqs ++ [request] else reqs) s'.
Proof using.
  intros Hok E. destruct (AddSchedInfo_outcome config now1 now2 request s) as (s1 & c & E' & H).
  rewrite E in E'. injection E' as <- <-. destruct H as [(-> & Hv & Hs & _ & Hw & _)|(-> & _ & H)]; cbn [Z.eqb].
  - apply in_sync_ok; [done|]. intros w e. rewrite Hw. cbn [with_workloads workload_tasks]. rewrite lookup_insert.
    case_decide as Ew; [intros [= <-]; subst w; exists request; split_and!; [set_solver|done|done|done]|].
    intros He. apply (service_ok_mono config reqs (reqs ++ [request])) in Hok as [Hr _]; [by apply Hr|set_solver].
  - destruct H as [[_ ->]|(_ & Hw & _ & Ht)]; [done|]. by eapply shrunk_ok, Hok; eapply shrunk_delete.
Qed.

Lemma EnforceRecoveryPolicy_total config now write_ok o policy workload s :
  exists r, EnforceRecoveryPolicy config now write_ok o policy workload s = Ret r /\
    match r with Some (s', _, _) => shrunk config s s' | None => True end.
Proof using.
  unfold EnforceRecoveryPolicy. assert (Hrefl : shrunk config s s) by (split; [done|by right]).
  destruct policy; try (eexists; split; [reflexivity|exact Hrefl]).
  destruct (RemoveWorkload_spec config now workload false s) as (r & -> & Hr). cbn [obind].
  destruct r as [[[s' resolved] done_]|]; [|by eexists]. destruct (broadcast_recovery_signal _ _) as [sent ok].
  eexists. split; [reflexivity|]. destruct resolved as [w|]; [|by destruct Hr as (-> & _)].
  destruct Hr as (_ & Hw & Hr). eapply shrunk_delete; [done|]. destruct done_; [left|right]; apply Hr.
Qed.

(** *** The streams *)

Lemma stream_open_ok stream o : node_of o !! stream = None -> nodes_ok o -> nodes_ok (stream_open stream o).
Proof using.
  intros Hf Hok n s [Hn Hne]%Hok. cbn [stream_open node_of]. by rewrite lookup_insert_ne by congruence.
Qed.

Lemma stream_event_ok stream id o : nodes_ok o -> nodes_ok (stream_event stream id o).
Proof using.
  intros Hok. unfold stream_event. destruct (node_of o !! stream) as [current|] eqn:E; [|done].
  destruct (bool_decide_reflect (current = ""%string)) as [->|]; cbn [andb]; [|done].
  destruct (bool_decide_reflect (id = ""%string)) as [|Hid]; cbn [negb]; [done|].
  intros n s. cbn [connected_nodes node_of]. rewrite lookup_insert. case_decide as En.
  - intros [= <-]. rewrite lookup_insert_eq. split; congruence.
  - intros [Hn Hne]%Hok. rewrite lookup_insert_ne; [done|]. intros <-. congruence.
Qed.

Lemma stream_closed_ok stream o : nodes_ok o -> nodes_ok (stream_closed stream o).
Proof using.
  intros Hok. unfold stream_closed. destruct (node_of o !! stream) as [current|] eqn:E; [|done].
  intros n s. cbn [connected_nodes node_of]. intros Hn.
  assert (Ho : connected_nodes o !! n = Some s /\ (current = ""%string \/ current <> n)).
  { destruct (bool_decide_reflect (current = ""%string)); [by auto|]. apply lookup_delete_Some in Hn. tauto. }
  destruct Ho as [[Ho Hne]%Hok Hc]. split; [|done]. rewrite lookup_delete_ne; [done|]. intros <-. destruct Hc; congruence.
Qed.

(** *** Every step *)

Lemma turn_tables config reqs s n epoch :
  service_ok config reqs s -> sendable config reqs n (table_for (schedule_tables s) epoch n).
Proof using.
  intros [_ Ht]. unfold table_for. destruct (schedule_tables s !! n) as [t|] eqn:E; cbn; [right; by apply Ht|left].
  by exists epoch.
Qed.

Lemma accepted_after_grows reqs e out : reqs ⊆ accepted_after reqs e out.
Proof using. unfold accepted_after. destruct e, (reply out) as [[]|]; set_solver. Qed.

(** Every step answers, and keeps the daemon in order; what a turn pushes may
    be sent. *)
Lemma daemon_step_ok config reqs now d e :
  daemon_ok config reqs now d -> possible now d e ->
  exists d' out, daemon_step d e = Ret (d', out) /\
    daemon_ok config (accepted_after reqs e out) (clock_after now e) d' /\
    forall stream t, (stream, full_table t) ∈ written out ->
      exists n, connected_nodes (g_orchestrator_service d) !! n = Some stream /\ sendable config reqs n t.
Proof using.
  intros [Hc Hs Hn Hl] Hp.
  destruct e as [now1 now2 request|rnow write_ok policy workload|stream|rpc stream ev|stream|now' epoch write_ok];
    cbn [daemon_step]; rewrite ?Hc.
  - destruct (AddSchedInfo_outcome config now1 now2 request (the_service d)) as (s' & code & E & _).
    rewrite E. cbn [obind]. do 2 eexists. split; [reflexivity|]. split; [|by intros ? ? ?%not_elem_of_nil].
    pose proof (AddSchedInfo_ok config reqs _ _ _ _ _ _ Hs E) as Hs'.
    assert (Ea : accepted_after reqs (AddSchedInfoRpc now1 now2 request) (Output [] (Some code)) =
                 if code =? 0 then reqs ++ [request] else reqs) by (by destruct code).
    rewrite Ea. split; [done|exact Hs'|done|]. eapply ok_impl; [|reflexivity|exact Hl].
    intros n t. apply sendable_mono. destruct (code =? 0); set_solver.
  - destruct (EnforceRecoveryPolicy_total config rnow write_ok (g_orchestrator_service d) policy workload (the_service d))
      as (r & -> & Hr). cbn [obind]. destruct r as [[[s' bc] code]|].
    2:{ do 2 eexists. split; [reflexivity|]. split; [by split|by intros ? ? ?%not_elem_of_nil]. }
    do 2 eexists. split; [reflexivity|]. split; [split; [done|by eapply shrunk_ok|done|done]|].
    intros s t. cbn [written]. unfold stop_signals. destruct bc as [[w ns]|]; [|by intros ?%not_elem_of_nil].
    intros (n & _ & Hin)%list_elem_of_omap. by apply fmap_Some in Hin as (? & _ & ?).
  - do 2 eexists. split; [reflexivity|]. split; [|by intros ? ? ?%not_elem_of_nil].
    split; [done|done|by apply stream_open_ok|done].
  - destruct (stream_message rpc stream ev _ _) as [o c] eqn:E. do 2 eexists. split; [reflexivity|].
    split; [|by intros ? ? ?%not_elem_of_nil]. injection E as <- _.
    split; [done|done|by apply stream_event_ok|done].
  - do 2 eexists. split; [reflexivity|]. split; [|by intros ? ? ?%not_elem_of_nil].
    split; [done|done|by apply stream_closed_ok|done].
  - cbn [GetScheduleTables]. set (o := g_orchestrator_service d) in *.
    pose proof (iterate_ok_with (sendable config reqs) (schedule_tables (the_service d)) (schedule_changed (the_service d))
      (get_connected_node_ids o) now now' epoch (push_works write_ok o) (loop d) Hl Hp
      (fun n => turn_tables config reqs _ n epoch Hs)) as Hi.
    destruct (iterate _ _ _ _ _ _ _) as [l sent]. destruct Hi as [Hl' Hsent].
    do 2 eexists. split; [reflexivity|]. split; [by split|].
    intros stream t. cbn [written]. unfold pushed_commands. intros ([n t'] & Hin & E)%list_elem_of_omap. exists n.
    cbn [fst snd] in E. unfold push_full_table, push_command in E. destruct (connected_nodes o !! n) as [s|]; [|done].
    destruct (write_ok s); [|done]. injection E as -> ->. split; [done|].
    exact (proj1 (Forall_forall _ _) Hsent _ Hin).
Qed.

Lemma main_ok m opts d now : main m opts = Ret (Running d) -> daemon_ok (node_config_manager d) [] now d.
Proof using.
  unfold main. destruct (GetOptions _ _) as [[o|]|]; [|done..].
  destruct (load_config _ _) as [[config|]|]; cbn [obind]; [|done..].
  unfold RunSchedInfoServer, Start. destruct (listens m _); cbn [negb]; [|done].
  destruct (InitFaultClient _ _ _ _) as [c [|]]; cbn [negb]; [|done].
  unfold RunOrchestratorServer. destruct (listens m _); [|done]. intros [= <-].
  split; [done| |by intros n s|].
  - split; intros ? ?; cbn; by rewrite lookup_empty.
  - split; cbn; [done|set_solver|by left| |]; intros ? ?; by rewrite lookup_empty.
Qed.

Lemma reach_ok m opts reqs now d : reach m opts reqs now d -> daemon_ok (node_config_manager d) reqs now d.
Proof using.
  induction 1 as [now d Hm|reqs now d e d' out _ IH Hp Hs]; [by eapply main_ok|].
  destruct (daemon_step_ok _ _ _ _ _ IH Hp) as (d1 & out1 & E & Hok & _). rewrite Hs in E. injection E as <- <-.
  by rewrite (dk_config _ _ _ _ Hok).
Qed.

(** C16. What the nodes are sent: in every reachable state of the daemon every
    possible step answers, and a table it writes to a stream goes to the node
    of that stream and is the empty table, or one the generator made for this
    node from workloads each of which is that of an accepted request. *)
Theorem nodes_get_generated_tables m opts reqs now d e :
  reach m opts reqs now d -> possible now d e ->
  exists d' out, daemon_step d e = Ret (d', out) /\
    reach m opts (accepted_after reqs e out) (clock_after now e) d' /\
    forall stream t, (stream, full_table t) ∈ written out ->
      exists n, connected_nodes (g_orchestrator_service d) !! n = Some stream /\
        node_of (g_orchestrator_service d) !! stream = Some n /\
        ((exists epoch, t = empty_table n epoch) \/ generated (node_config_manager d) reqs n t).
Proof using.
  intros Hr Hp. pose proof (reach_ok _ _ _ _ _ Hr) as Hok.
  destruct (daemon_step_ok _ _ _ _ _ Hok Hp) as (d' & out & E & _ & Hw). exists d', out. split; [done|].
  split; [by eapply reach_step|]. intros stream t (n & Hn & Ht)%Hw. exists n. split; [done|].
  by destruct (dk_nodes _ _ _ _ Hok n stream Hn).
Qed.

(** The turn after an announcement. *)
Lemma turn_delivers config reqs now d now' epoch write_ok :
  daemon_ok config reqs now d -> now <= now' ->
  schedule_changed (the_service d) = true -> schedule_tables (the_service d) <> ∅ ->
  exists d' out, daemon_step d (Turn now' epoch write_ok) = Ret (d', out) /\
    forall n stream, the_nodes d !! n = Some stream -> write_ok stream = true ->
      exists t, same_message (table_for (schedule_tables (the_service d)) 0 n) t /\
        last_pushed_tables (loop d') !! n = Some t /\
        ((stream, full_table t) ∈ written out \/ last_pushed_tables (loop d) !! n = Some t).
Proof using.
  intros Hok Hnow Hch Hne. cbn [daemon_step GetScheduleTables]. rewrite Hch.
  set (o := g_orchestrator_service d). set (ts := schedule_tables (the_service d)) in *.
  pose proof (fun n => announced_turn _ ts now now' epoch (push_works write_ok o) (loop d) (get_connected_node_ids o) n
                (dk_loop _ _ _ _ Hok) Hnow Hne) as Ht.
  destruct (iterate _ _ _ _ _ _ _) as [l sent]. do 2 eexists. split; [reflexivity|].
  intros n stream Hn Hw. unfold the_nodes in Hn. fold o in Hn.
  destruct (Ht n) as (t & Hlast & Hcur & Hin).
  - apply elem_of_dom. by exists stream.
  - unfold push_works. by rewrite Hn.
  - exists t. split; [exact Hcur|]. split; [exact Hlast|]. destruct Hin as [Hin|?]; [left|by right].
    apply list_elem_of_omap. exists (n, t). split; [done|]. cbn [fst snd]. unfold push_full_table, push_command.
    by rewrite Hn, Hw.
Qed.

(** A request of Pullpiri and the next turn of the loop, in every reachable
    state.  The request is answered.  A reply of -1 announces nothing: the
    request is invalid and changes nothing, or the generator refuses it for
    some node and its workload is gone.  A reply of 0 means that the workload
    is stored and every table is the generator's answer for the present
    workloads; in the next turn each connected node whose stream takes the
    push is sent its table, unless it was sent the same table before. *)
Lemma accepted_workload_reaches_nodes m opts reqs now d now1 now2 request now' epoch write_ok :
  reach m opts reqs now d -> now <= now' ->
  let config := node_config_manager d in
  let s := the_service d in
  let w := r_workload_id request in
  let added := <[w := request_entry config request]> (workload_tasks s) in
  exists d1 code, daemon_step d (AddSchedInfoRpc now1 now2 request) = Ret (d1, Output [] (Some code)) /\
    ((code = -1 /\ schedule_changed (the_service d1) = schedule_changed s /\
       ((~ valid_request request /\ the_service d1 = s) \/
        (valid_request request /\ workload_tasks (the_service d1) = delete w (workload_tasks s) /\
         exists node err, generate_schedule node (cpus_of config node) (now1 node) (tasks_for added node) = Ret (inr err)))) \/
     (code = 0 /\ valid_request request /\ in_sync config (the_service d1) /\ workload_tasks (the_service d1) = added /\
       exists d2 out, daemon_step d1 (Turn now' epoch write_ok) = Ret (d2, out) /\
         forall n stream, the_nodes d !! n = Some stream -> write_ok stream = true ->
           exists t, same_message (table_for (schedule_tables (the_service d1)) 0 n) t /\
             last_pushed_tables (loop d2) !! n = Some t /\
             ((stream, full_table t) ∈ written out \/ last_pushed_tables (loop d) !! n = Some t))).
Proof using.
  intros Hr Hnow. cbv zeta. pose proof (reach_ok _ _ _ _ _ Hr) as Hok.
  destruct (AddSchedInfo_outcome (node_config_manager d) now1 now2 request (the_service d)) as (s1 & code & E & H).
  exists (with_service s1 d), code. cbn [daemon_step]. rewrite E. cbn [obind]. split; [reflexivity|].
  cbn [with_workloads workload_tasks] in H.
  destruct H as [(-> & Hv & Hs & Hch & Hw & Hd)|(-> & Hch & H)]; [right|left].
  2:{ split_and!; [done|done|]. destruct H as [?|(Hv & Hw & (n & err & _ & Hg) & _)]; [by left|right]. eauto. }
  do 3 (split; [done|]). split; [exact Hw|].
  destruct (daemon_step_ok _ _ _ _ (AddSchedInfoRpc now1 now2 request) Hok I) as (d1 & out & E1 & Hok1 & _).
  cbn [daemon_step] in E1. rewrite E in E1. cbn [obind] in E1. injection E1 as <- _.
  apply (turn_delivers _ _ _ _ _ _ _ Hok1 Hnow); [done|].
  intros He. change (the_service (with_service s1 d)) with s1 in He. rewrite He, dom_empty_L in Hd.
  apply (request_nodes_nonempty (node_config_manager d) request). apply set_eq. intros n. split; [|set_solver].
  intros Hn. rewrite Hd. apply elem_of_node_set. left. exists (r_workload_id request), (request_entry (node_config_manager d) request).
  split; [apply lookup_insert_eq|exact Hn].
Qed.
(** The signals of a broadcast, by stream. *)
Lemma elem_of_stop_signals o w sent stream c :
  (stream, c) ∈ stop_signals o (Some (w, sent)) <->
  c = recovery (Recovery w ACTION_STOP) /\ exists n, n ∈ sent /\ connected_nodes o !! n = Some stream.
Proof using.
  unfold stop_signals. rewrite list_elem_of_omap. split.
  - intros (n & Hin & E). apply fmap_Some in E as (st & Hst & E). injection E as -> ->. eauto.
  - intros (-> & n & Hin & Hn). exists n. split; [done|]. by rewrite Hn.
Qed.

(** C24. A stop command of Pullpiri, in any state.  It throws only for an
    unknown name that is a hexadecimal number beyond 64 bits, and then does
    nothing.  Otherwise the workload the identifier stands for, if there is
    one, is taken out of the schedule, whose tables agree with what is left
    unless the generator refuses that; nothing is announced; the stop signal,
    with the name of the workload, goes to exactly the streams of connected
    nodes that take it; and the reply is 0 when all of them took it. *)
Theorem stop_reaches_nodes d now write_ok workload :
  exists d' out, daemon_step d (RecoveryRpc now write_ok RECOVERY_STOP workload) = Ret (d', out) /\
    let s := the_service d in
    let s' := the_service d' in
    schedule_changed s' = schedule_changed s /\
    match reply out with
    | None => d' = d /\ written out = [] /\ workload_tasks s !! workload = None /\
        starts_with (chars "0x"%string) (chars workload) = true /\ stoull_hex (chars workload) = None
    | Some code => exists w,
        ((stands_for s workload w /\ workload_tasks s' = delete w (workload_tasks s) /\
            (in_sync (node_config_manager d) s' \/ schedule_tables s' = schedule_tables s)) \/
         (w = workload /\ s' = s /\ workload_tasks s !! workload = None /\
            forall v e, workload_tasks s !! v = Some e -> hash_matches workload v = Some false)) /\
        (forall stream c, (stream, c) ∈ written out <-> c = recovery (Recovery w ACTION_STOP) /\
           write_ok stream = true /\ exists n, the_nodes d !! n = Some stream) /\
        (code = 0 <-> forall n stream, the_nodes d !! n = Some stream -> write_ok stream = true)
    end.
Proof using.
  cbn [daemon_step]. unfold the_nodes. set (o := g_orchestrator_service d). set (s := the_service d).
  destruct (EnforceRecoveryPolicy (node_config_manager d) now write_ok o RECOVERY_STOP workload s) as [r|] eqn:E;
    [|by destruct (EnforceRecoveryPolicy_total (node_config_manager d) now write_ok o RECOVERY_STOP workload s) as (r & E' & _);
      rewrite E in E'].
  cbn [obind]. destruct r as [[[s' bc] code]|]; (do 2 eexists; split; [reflexivity|]); cbn [reply].
  - pose proof (EnforceRecoveryPolicy_outcome _ _ _ _ _ _ _ _ _ _ E) as (w & sent & -> & Hsent & Hcode & Hch & _).
    split; [exact Hch|]. exists w. split.
    + cbn [EnforceRecoveryPolicy] in E.
      destruct (RemoveWorkload_spec (node_config_manager d) now workload false s) as (r & Er & Hr).
      rewrite Er in E. cbn [obind] in E. destruct r as [[[s1 resolved] ok]|]; [|discriminate E].
      destruct (broadcast_recovery_signal _ _) as [sent' ok']. injection E as -> <- _ _.
      destruct resolved as [v|]; cbn [default]; [left|right].
      * destruct Hr as (Hst & Hw & Hr). split_and!; [done|done|]. destruct ok; [left|right]; apply Hr.
      * by destruct Hr as (-> & _ & Hr).
    + split; [|exact Hcode]. intros stream c. cbn [written]. rewrite elem_of_stop_signals. setoid_rewrite Hsent.
      split; [intros (-> & n & (st & Hst & Hw) & Hn)|intros (-> & Hw & n & Hn)].
      * assert (st = stream) as -> by congruence. eauto.
      * split; [done|]. exists n. eauto.
  - split; [done|]. cbn [EnforceRecoveryPolicy] in E.
    destruct (RemoveWorkload_spec (node_config_manager d) now workload false s) as (r & Er & Hr).
    rewrite Er in E. cbn [obind] in E. destruct r as [[[s1 resolved] ok]|]; [|by split].
    by destruct (broadcast_recovery_signal _ _).
Qed.
End Daemon.

(** ** Start-up *)

(** The daemon reaches its loop exactly when the options are accepted, the
    configuration file can be read without a fault, and all three services
    come up.  A file that cannot be opened does not keep it from running. *)
Lemma main_runs m opts :
  (exists d, main m opts = Ret (Running d)) <->
  exists o config, GetOptions opts default_start_options = Some (Some o) /\ load_config m (node_config_file o) = Ret (Some config) /\
    let piccolo := String.append (fault_addr o) (String.append ":" (pretty (fault_port o))) in
    listens m (any_address (sinfo_port o)) = true /\ channel_ok m piccolo = true /\ stub_ok m piccolo = true /\
    listens m (any_address 50060) = true.
Proof.
  unfold main. destruct (GetOptions opts default_start_options) as [[o|]|].
  2,3: split; [intros [d ?]; discriminate|intros (? & ? & ? & _); discriminate].
  assert (Hne : forall a b : string, String.append a (String.append ":" b) <> ""%string) by (intros a b; by destruct a).
  unfold InitFaultClient, FaultClient.Initialize, FaultClient.CreateChannel.
  cbn [FaultClient.FaultServiceClient FaultClient.initialized]. rewrite decide_False by apply Hne.
  destruct (load_config m (node_config_file o)) as [[config|]|] eqn:Ec; cbn [obind].
  2,3: split; [intros [d ?]; discriminate|intros (o' & ? & [= <-] & ? & _); congruence].
  unfold RunSchedInfoServer, Start, RunOrchestratorServer. cbv zeta. split.
  - intros [d Hd]. exists o, config. split; [done|]. split; [done|].
    destruct (listens m (any_address (sinfo_port o))); cbn [negb] in Hd; [|discriminate].
    destruct (channel_ok m _), (stub_ok m _); cbn [andb negb] in Hd; try discriminate.
    by destruct (listens m (any_address 50060)).
  - intros (o' & config' & [= <-] & _ & -> & -> & -> & ->). cbn [andb negb]. by eexists.
Qed.

Lemma missing_config_runs (m : host) file : config_file m file = None -> exists config, load_config m file = Ret (Some config).
Proof. intros E. unfold load_config. case_decide; [by eexists|]. rewrite E. cbn [obind LoadFromFile]. by eexists. Qed.

(** The ports of the options are read with an unguarded [stoi]: a port that is
    not a number ends the daemon with an exception. *)
Lemma bad_port_terminates m rest t : stoi t = None -> main m (SinfoPort t :: rest) = Ret Terminated.
Proof. intros E. unfold main. cbn [GetOptions]. by rewrite E. Qed.

Lemma port_argument rest p s : INT_MIN <= p <= INT_MAX ->
  GetOptions (SinfoPort (chars (pretty p)) :: rest) s = GetOptions rest (Settings p (fault_addr s) (fault_port s) (node_config_file s)).
Proof. intros Hp. cbn [GetOptions]. by rewrite stoi_pretty. Qed.

(** ** The dump *)

(** Every slot and entry of every table is in the dump. *)
Lemma DumpSchedInfo_complete s n t :
  schedule_tables s !! n = Some t ->
  (forall slot, slot ∈ table_slots t -> dump_slot slot ∈ DumpSchedInfo s) /\
  (forall entry, entry ∈ table_entries t -> dump_entry entry ∈ DumpSchedInfo s).
Proof.
  intros Ht. unfold DumpSchedInfo. rewrite decide_False by (intros E; by rewrite E, lookup_empty in Ht).
  assert (Hlayer : forall layer x, layer ∈ table_layers t -> (forall i, x ∈ dump_layer i layer) ->
            x ∈ log_line INFO ["Dumping ScheduleTableMap:"%string] :: (ascending string_le (schedule_tables s) ≫= dump_table)).
  { intros layer x (part & Hl & Hp)%list_elem_of_bind Hx. right. apply list_elem_of_bind. exists (n, t).
    split; [|by apply elem_of_ascending]. right. apply list_elem_of_bind. exists part. split; [|done]. right.
    apply list_elem_of_lookup in Hl as [i Hi]. apply list_elem_of_join. exists (dump_layer i layer). split; [apply Hx|].
    apply elem_of_lookup_imap. by exists i, layer. }
  split.
  - intros slot (layer & Hs & Hl)%list_elem_of_bind. apply (Hlayer layer); [done|]. intros i. do 2 right.
    apply elem_of_app. left. by apply list_elem_of_fmap_2.
  - intros entry (layer & Hs & Hl)%list_elem_of_bind. apply (Hlayer layer); [done|]. intros i. do 2 right.
    apply elem_of_app. right. by apply list_elem_of_fmap_2.
Qed.

(** ** Runs *)

Definition demo_host : host := Machine (fun _ => None) (fun _ => true) (fun _ => true) (fun _ => true).
Definition demo_daemon : daemon :=
  Daemon new_manager (Server SchedInfoServiceImpl [SchedInfoGrpc; RecoveryGrpc] (Some true) true)
    (FaultClient.Client true [] 0 []) OrchestratorServiceImpl start_loop.
Definition hello (node : string) : NodeEvent := Event node (ready (Ready 4 4096 "6.12" true true)).
Definition no_rpc (n : nat) : FaultClient.answer := FaultClient.Answer true 0.
Definition demo_connected : daemon := with_nodes one_node demo_daemon.
Abbreviation demo_add := (AddSchedInfoRpc at_nine at_nine version1).
Definition demo_added : daemon :=
  match @daemon_step stable_sort demo_connected demo_add with Ret (d, _) => d | UB => demo_connected end.

Lemma demo_connected_reached : @reach stable_sort demo_host [] [] 0 demo_connected.
Proof.
  assert (H0 : @reach stable_sort demo_host [] [] 0 demo_daemon) by (apply reach_start; by vm_compute).
  apply (reach_step _ _ [] 0 (with_nodes (stream_open 3 OrchestratorServiceImpl) demo_daemon)
           (StreamMessage no_rpc 3 (hello "n")) demo_connected silent); [|exact I|reflexivity].
  apply (reach_step _ _ [] 0 demo_daemon (StreamOpen 3) _ silent); [exact H0|reflexivity|reflexivity].
Qed.

Lemma demo_added_reached : @reach stable_sort demo_host [] [version1] 0 demo_added.
Proof.
  apply (reach_step _ _ [] 0 demo_connected demo_add demo_added (Output [] (Some 0)));
    [exact demo_connected_reached|exact I|vm_compute; reflexivity].
Qed.

(** The tables an output sends, by stream and tasks. *)
Definition sent_tasks (out : output) : list (nat * list string) :=
  omap (fun sc => match sc.2 with full_table t => Some (sc.1, m_task <$> table_slots t) | _ => None end) (written out).

Lemma sent_tasks_spec out stream names :
  sent_tasks out = [(stream, names)] -> exists t, (stream, full_table t) ∈ written out /\ m_task <$> table_slots t = names.
Proof.
  intros E. assert (Hin : (stream, names) ∈ sent_tasks out) by (rewrite E; by left).
  apply list_elem_of_omap in Hin as ([s c] & Hin & Hc). cbn [fst snd] in Hc. destruct c as [t| | | |]; try discriminate.
  injection Hc as -> <-. eauto.
Qed.

Definition outcome_tasks (r : outcome (daemon * output)) : option (list (nat * list string)) :=
  match r with Ret (_, out) => Some (sent_tasks out) | UB => None end.
Definition outcome_reply (r : outcome (daemon * output)) : option Z :=
  match r with Ret (_, out) => reply out | UB => None end.

Lemma nodes_get_generated_tables_witness :
  exists d' out t, @daemon_step stable_sort demo_added (Turn 0 9 all_writes) = Ret (d', out) /\
    (3%nat, full_table t) ∈ written out /\ m_task <$> table_slots t = ["a"%string] /\
    @generated stable_sort (node_config_manager demo_added) [version1] "n"%string t.
Proof.
  destruct (@nodes_get_generated_tables stable_sort demo_host [] [version1] 0 demo_added (Turn 0 9 all_writes)
    demo_added_reached ltac:(cbn [possible]; lia)) as (d' & out & E & _ & Hw).
  assert (Hs : sent_tasks out = [(3%nat, ["a"%string])]).
  { assert (H : outcome_tasks (@daemon_step stable_sort demo_added (Turn 0 9 all_writes)) = Some [(3%nat, ["a"%string])])
      by (vm_compute; reflexivity). rewrite E in H. by injection H. }
  destruct (sent_tasks_spec out _ _ Hs) as (t & Hin & Ht). exists d', out, t. split; [exact E|]. split; [exact Hin|].
  split; [exact Ht|]. clear E. destruct (Hw 3%nat t Hin) as (n & _ & Hn & [[epoch ->]|Hg]); [discriminate Ht|].
  assert (Hn' : node_of (g_orchestrator_service demo_added) !! 3%nat = Some "n"%string) by (vm_compute; reflexivity).
  assert (n = "n"%string) as -> by congruence. exact Hg.
Defined.

Lemma accepted_workload_example :
  exists d1 d2 out t, @daemon_step stable_sort demo_connected demo_add = Ret (d1, Output [] (Some 0)) /\
    @daemon_step stable_sort d1 (Turn 500 9 all_writes) = Ret (d2, out) /\ (3%nat, full_table t) ∈ written out /\
    same_message (table_for (schedule_tables (the_service d1)) 0 "n"%string) t.
Proof.
  destruct (@accepted_workload_reaches_nodes stable_sort demo_host [] [] 0 demo_connected at_nine at_nine version1
    500 9 all_writes demo_connected_reached ltac:(lia)) as (d1 & code & E & H).
  assert (Hc : outcome_reply (@daemon_step stable_sort demo_connected demo_add) = Some 0) by (vm_compute; reflexivity).
  rewrite E in Hc. injection Hc as ->. destruct H as [[Hbad _]|(_ & _ & _ & _ & d2 & out & E2 & Hn)]; [discriminate Hbad|].
  destruct (Hn "n"%string 3%nat) as (t & Hsame & _ & [Hin|Hlast]); [vm_compute; reflexivity|reflexivity| |].
  - exists d1, d2, out, t. by split_and!.
  - exfalso. clear E E2. assert (Hnone : last_pushed_tables (loop demo_connected) !! "n"%string = None) by (vm_compute; reflexivity).
    rewrite Hnone in Hlast. discriminate Hlast.
Defined.

(** A node whose old stream ends and whose new stream is there before the next
    turn is not noticed: it counts as synchronised, and is sent nothing. *)
Definition reconnect_run : outcome (daemon * list output) :=
  @daemon_run stable_sort demo_added
    [Turn 0 9 all_writes; StreamClosed 3; StreamOpen 4; StreamMessage no_rpc 4 (hello "n"); Turn 500 9 all_writes;
     Turn 60000 9 all_writes].
Lemma quick_reconnect_unnoticed :
  match reconnect_run with
  | Ret (d, outs) => sent_tasks <$> outs = [[(3%nat, ["a"%string])]; []; []; []; []; []] /\
      the_nodes d = {["n"%string := 4%nat]} /\ synced_nodes (loop d) = {["n"%string]}
  | UB => False
  end.
Proof. vm_compute. done. Qed.
