(* ===== verification/StartUp.v ===== *)
(** * timpani-o: requests that arrive during start-up

    [main] of main.cpp starts the server for Pullpiri first, then the fault
    client, and only then makes the service for the nodes; requests are served
    in between.  While [g_orchestrator_service] is null a stop command removes
    the workload and answers -1 (recovery_service.cpp).  A daemon that got
    requests early is one that got them right after its start. *)
From stdpp Require Import prelude gmap strings list sorting.
From Stdlib Require Import ZArith Lia.
From S2P Require Import Prelude Text NodeConfig Messages GlobalScheduler SchedInfoService Faults Orchestrator OrchestratorDaemon.
Local Open Scope Z_scope.
Local Open Scope c_scope.

Inductive early_rpc :=
  | EarlyAdd (now1 now2 : string -> Z) (request : SchedInfo)
  | EarlyRecovery (now : string -> Z) (policy : RecoveryPolicy) (workload : string).

Section StartUp.
Context {sort : StdSort}.

(** [EnforceRecoveryPolicy] while [g_orchestrator_service] is null: the
    broadcast counts as failed. *)
Definition early_recovery (config : NodeConfigManager) (now : string -> Z) (policy : RecoveryPolicy)
    (workload : string) (s : service) : outcome (option (service * Z)) :=
  match policy with
  | RECOVERY_STOP =>
      r <-c RemoveWorkload config now workload false s;
      Ret ((fun r => (r.1.1, -1)) <$> r)
  | _ => Ret (Some (s, 0))
  end.

(** The service and the status of the reply; [None] when the handler throws. *)
Definition early_step (config : NodeConfigManager) (s : service) (e : early_rpc) : outcome (service * option Z) :=
  match e with
  | EarlyAdd now1 now2 request =>
      r <-c AddSchedInfo config now1 now2 request s; let '(s, code) := r in Ret (s, Some code)
  | EarlyRecovery now policy workload =>
      r <-c early_recovery config now policy workload s;
      Ret (match r with None => (s, None) | Some (s, code) => (s, Some code) end)
  end.

Fixpoint early_run (config : NodeConfigManager) (s : service) (es : list early_rpc) : outcome (service * list (option Z)) :=
  match es with
  | [] => Ret (s, [])
  | e :: es =>
      r <-c early_step config s e; let '(s, reply) := r in
      r <-c early_run config s es; let '(s, replies) := r in Ret (s, reply :: replies)
  end.

Definition serve (s : service) (srv : server) : server := Server s (registered srv) (server_ srv) (server_thread_ srv).

(** [main] with the requests [es1] before the fault client is there, and [es2]
    before the service for the nodes is; with the replies. *)
Definition main_with (m : host) (opts : list long_opt) (es1 es2 : list early_rpc) : outcome (started * list (option Z)) :=
  match GetOptions opts default_start_options with
  | None => Ret (Terminated, [])
  | Some None => Ret (Exit 1, [])
  | Some (Some o) =>
      config <-c load_config m (node_config_file o);
      match config with
      | None => Ret (Terminated, [])
      | Some config =>
          let '(srv, ok) := RunSchedInfoServer m (sinfo_port o) in
          if negb ok then Ret (Exit 1, []) else
          r <-c early_run config (service_ srv) es1; let '(s1, replies1) := r in
          let '(c, ok) := InitFaultClient m (fault_addr o) (fault_port o) FaultClient.FaultServiceClient in
          if negb ok then Ret (Exit 1, replies1) else
          r <-c early_run config s1 es2; let '(s2, replies2) := r in
          match RunOrchestratorServer m 50060 with
          | None => Ret (Exit 1, replies1 ++ replies2)
          | Some orch => Ret (Running (Daemon config (serve s2 srv) c orch start_loop), replies1 ++ replies2)
          end
      end
  end.

(** The same request to the running daemon. *)
Definition late (e : early_rpc) : daemon_event :=
  match e with
  | EarlyAdd now1 now2 request => AddSchedInfoRpc now1 now2 request
  | EarlyRecovery now policy workload => RecoveryRpc now (fun _ => true) policy workload
  end.

(** The replies agree, but that an early stop command is told of a failure. *)
Definition reply_agrees (e : early_rpc) (early late : option Z) : Prop :=
  match e with
  | EarlyAdd _ _ _ => early = late
  | EarlyRecovery _ RECOVERY_STOP _ => early = None /\ late = None \/ early = Some (-1) /\ late = Some 0
  | EarlyRecovery _ _ _ => early = Some 0 /\ late = Some 0
  end.

Definition replies_agree (es : list early_rpc) (replies : list (option Z)) (outs : list output) : Prop :=
  Forall2 (fun er out => reply_agrees er.1 er.2 (OrchestratorDaemon.reply out) /\ written out = []) (zip es replies) outs /\
  length replies = length es.

(** The requests accepted on the way, by their replies. *)
Definition accepted_early (reqs : list SchedInfo) (er : early_rpc * option Z) : list SchedInfo :=
  match er with
  | (EarlyAdd _ _ request, Some 0) => reqs ++ [request]
  | _ => reqs
  end.
End StartUp.

Section Early.
Context {sort : StdSort}.

(** Nobody is connected to a daemon that has just started. *)
Definition unconnected (d : daemon) : Prop := the_nodes d = ∅.

Lemma early_step_late d e :
  unconnected d ->
  exists s reply, early_step (node_config_manager d) (the_service d) e = Ret (s, reply) /\
    exists out, daemon_step d (late e) = Ret (with_service s d, out) /\ reply_agrees e reply (OrchestratorDaemon.reply out) /\
      written out = [].
Proof.
  intros Hu. destruct e as [now1 now2 request|now policy workload]; cbn [early_step late daemon_step].
  - destruct (AddSchedInfo_outcome (node_config_manager d) now1 now2 request (the_service d)) as (s & code & -> & _).
    cbn [obind]. do 2 eexists. split; [reflexivity|]. eexists. split; [reflexivity|done].
  - assert (Hd : with_service (the_service d) d = d) by by destruct d as [? [] ? ? ?].
    unfold early_recovery, EnforceRecoveryPolicy.
    destruct policy; cbn [obind]; try (do 2 eexists; split; [reflexivity|]; eexists; split; [reflexivity|by split_and!]).
    destruct (RemoveWorkload_spec (node_config_manager d) now workload false (the_service d)) as (r & -> & _). cbn [obind].
    destruct r as [[[s resolved] done_]|]; cbn [fmap option_fmap option_map fst].
    + unfold broadcast_recovery_signal. fold (the_nodes d). rewrite Hu.
      replace (ascending string_le (∅ : gmap string nat)) with (@nil (string * nat)) by (vm_compute; reflexivity).
      cbn [foldl].
      do 2 eexists. split; [reflexivity|]. eexists. split; [reflexivity|]. split; [by right|done].
    + do 2 eexists. split; [reflexivity|]. eexists. split; [by rewrite Hd|]. split; [by left|done].
Qed.

Lemma with_service_twice s s' d : with_service s (with_service s' d) = with_service s d.
Proof. done. Qed.

Lemma with_own_service d : with_service (the_service d) d = d.
Proof. by destruct d as [? [] ? ? ?]. Qed.

Lemma early_run_late es d :
  unconnected d ->
  exists s replies outs, early_run (node_config_manager d) (the_service d) es = Ret (s, replies) /\
    daemon_run d (late <$> es) = Ret (with_service s d, outs) /\ replies_agree es replies outs.
Proof.
  revert d. induction es as [|e es IH]; intros d Hu.
  { exists (the_service d), [], []. rewrite with_own_service. by split_and!; [..|split; [constructor|]]. }
  destruct (early_step_late d e Hu) as (s & rep & E & out & Ed & Ha & Hw).
  cbn [early_run fmap list_fmap daemon_run]. rewrite E, Ed. cbn [obind].
  destruct (IH (with_service s d) Hu) as (s' & reps & outs & E' & Ed' & Hf & Hl).
  change (node_config_manager (with_service s d)) with (node_config_manager d) in E'.
  change (the_service (with_service s d)) with s in E'. rewrite E', Ed'. cbn [obind].
  exists s', (rep :: reps), (out :: outs). split_and!; [done|done|]. split; [by constructor|cbn; by rewrite Hl].
Qed.

Lemma early_run_app config s es1 es2 :
  early_run config s (es1 ++ es2) =
  (r <-c early_run config s es1; let '(s1, r1) := r in
   r <-c early_run config s1 es2; let '(s2, r2) := r in Ret (s2, r1 ++ r2)).
Proof.
  revert s. induction es1 as [|e es1 IH]; intros s; cbn [app early_run obind].
  - by destruct (early_run config s es2) as [[]|].
  - destruct (early_step config s e) as [[s' r]|]; cbn [obind]; [|done]. rewrite IH.
    destruct (early_run config s' es1) as [[s1 r1]|]; cbn [obind]; [|done].
    by destruct (early_run config s1 es2) as [[s2 r2]|].
Qed.

(** Requests on the way to the loop are requests right after its start, except
    that a stop command answers -1; and they keep [main] from nothing. *)
Lemma main_with_late m opts es1 es2 d :
  main m opts = Ret (Running d) ->
  exists d' replies outs, main_with m opts es1 es2 = Ret (Running d', replies) /\
    daemon_run d (late <$> es1 ++ es2) = Ret (d', outs) /\ replies_agree (es1 ++ es2) replies outs.
Proof.
  unfold main, main_with. destruct (GetOptions _ _) as [[o|]|]; [|done..].
  destruct (load_config _ _) as [[config|]|]; cbn [obind]; [|done..].
  destruct (RunSchedInfoServer m _) as [srv [|]]; cbn [negb]; [|done].
  destruct (InitFaultClient _ _ _ _) as [c [|]]; cbn [negb]; [|done].
  unfold RunOrchestratorServer. destruct (listens m _); [|done]. intros [= <-].
  set (d := Daemon _ _ _ _ _).
  destruct (early_run_late (es1 ++ es2) d eq_refl) as (s & replies & outs & E & Ed & Ha).
  change (node_config_manager d) with config in E. change (the_service d) with (service_ srv) in E.
  rewrite early_run_app in E.
  destruct (early_run config (service_ srv) es1) as [[s1 r1]|]; cbn [obind] in E |- *; [|done].
  destruct (early_run config s1 es2) as [[s2 r2]|]; cbn [obind] in E |- *; [|done].
  injection E as <- <-. do 3 eexists. split; [reflexivity|]. by split.
Qed.

Lemma run_reach m opts reqs now d es replies outs d' :
  reach m opts reqs now d -> daemon_run d (late <$> es) = Ret (d', outs) -> replies_agree es replies outs ->
  reach m opts (foldl accepted_early reqs (zip es replies)) now d'.
Proof.
  revert reqs d replies outs. induction es as [|e es IH]; intros reqs d replies outs Hr E [Hf Hl].
  { injection E as <- <-. destruct replies; [done|discriminate]. }
  destruct replies as [|rep replies]; [discriminate|]. cbn [zip zip_with] in Hf.
  cbn [fmap list_fmap daemon_run] in E.
  destruct (daemon_step d (late e)) as [[d1 out]|] eqn:Es; cbn [obind] in E; [|done].
  destruct (daemon_run d1 (late <$> es)) as [[d2 outs2]|] eqn:Er; cbn [obind] in E; [|done].
  injection E as <- <-. apply Forall2_cons_1 in Hf as [[Ha _] Hf].
  cbn [zip zip_with foldl]. refine (IH _ _ replies outs2 _ Er (conj Hf _)); [|by injection Hl].
  assert (Hp : possible now d (late e)) by by destruct e.
  pose proof (reach_step m opts reqs now d (late e) d1 out Hr Hp Es) as Hn.
  destruct e as [now1 now2 request|now' policy workload]; cbn [late clock_after] in Hn; [|exact Hn].
  cbn [fst snd reply_agrees] in Ha. subst rep. cbn [accepted_after] in Hn.
  cbn [accepted_early]. by destruct (reply out) as [[]|].
Qed.

(** So every theorem on the reachable states of the daemon holds when
    requests come early. *)
Theorem early_requests_reach m opts es1 es2 d replies now :
  main_with m opts es1 es2 = Ret (Running d, replies) ->
  reach m opts (foldl accepted_early [] (zip (es1 ++ es2) replies)) now d.
Proof.
  intros Hw.
  assert (Hm : exists d0, main m opts = Ret (Running d0)).
  { unfold main, main_with in *. destruct (GetOptions _ _) as [[o|]|]; [|done..].
    destruct (load_config _ _) as [[config|]|]; cbn [obind] in *; [|done..].
    destruct (RunSchedInfoServer m _) as [srv [|]]; cbn [negb] in *; [|done].
    destruct (early_run config _ es1) as [[s1 r1]|]; cbn [obind] in Hw; [|done].
    destruct (InitFaultClient _ _ _ _) as [c [|]]; cbn [negb] in *; [|done].
    destruct (early_run config _ es2) as [[s2 r2]|]; cbn [obind] in Hw; [|done].
    destruct (RunOrchestratorServer m 50060); [by eexists|done]. }
  destruct Hm as [d0 Hm]. destruct (main_with_late m opts es1 es2 d0 Hm) as (d' & replies' & outs & E & Er & Ha).
  rewrite E in Hw. injection Hw as -> ->. eapply run_reach; [by apply reach_start|exact Er|exact Ha].
Qed.
End Early.

(** A stop command before the service for the nodes is there: its workload is
    gone, and the reply is -1. *)
Lemma early_stop_answers_failure :
  match @early_run stable_sort new_manager SchedInfoServiceImpl
          [EarlyAdd at_nine at_nine version1; EarlyRecovery at_nine RECOVERY_STOP (r_workload_id version1)] with
  | Ret (s, replies) => workload_tasks s = ∅ /\ replies = [Some 0; Some (-1)]
  | UB => False
  end.
Proof. vm_compute. done. Qed.
