(* ===== verification/EndToEnd.v ===== *)
(** * From the generator to the timer threads

    The table of GlobalScheduler, carried by Messages, installed by NodeTable
    and fired by TimerMaster: what the placement promises on the orchestrator
    holds for the wake-ups on the node. *)
From stdpp Require Import prelude gmap strings list sorting.
From Stdlib Require Import ZArith Lia.
From Stdlib Require String Ascii.
From S2P Require Import Prelude Text BpfMaps BpfSched BpfLoader TtShm TimerMaster SchedStat Messages NodeClient GlobalScheduler Faults NodeMain NodeTable.
Local Open Scope Z_scope.

(** ** Slots of a table *)

(** The reservation of a slot lies within the hyperperiod; two of one CPU do
    not overlap. *)
Definition slot_within (hp : Z) (s : TtSlot) : Prop :=
  0 <= m_offset s /\ 0 < m_duration s /\ m_offset s + m_duration s <= hp.
Definition slots_apart (a b : TtSlot) : Prop :=
  m_cpu a = m_cpu b -> m_offset a + m_duration a <= m_offset b \/ m_offset b + m_duration b <= m_offset a.

Lemma table_slots_build node now scheds hp :
  table_slots (build_table node now scheds hp) = scheds ≫= (fun cs => tt_message <$> tt_slots cs.2).
Proof.
  unfold table_slots, table_layers. cbn [build_table partitions].
  induction scheds as [|[c s] scheds IH]; [done|]. cbn [omap list_omap mbind list_bind]. rewrite <- IH.
  assert (E : default [] ((fun p => layers p ≫= l_tt_slots) <$> build_partition (c, s)) = tt_message <$> tt_slots s).
  { unfold build_partition. destruct (tt_slots s), (cbs_allocations s); cbn; by rewrite ?app_nil_r. }
  cbn [snd]. rewrite <- E. destruct (build_partition (c, s)) as [p|]; [|done].
  cbn [fmap option_fmap option_map default from_option id mbind list_bind]. by rewrite bind_app.
Qed.

(** The slots of one CPU, for tasks whose periods divide [hp]. *)
Lemma cpu_slots_within tts cpu slots hp :
  cpu_feasible tts cpu slots -> 0 < hp ->
  Forall (fun t => 0 < wcet_us t /\ (0 < period_us t -> (period_us t | hp))) tts ->
  Forall (fun s => s_cpu s = cpu /\ slot_within hp (tt_message s)) slots /\ StronglySorted disjoint_slots slots.
Proof.
  intros [[_ ->]|(_ & Hin & _ & Hs & placed & Hj & Hp & Hok)] Hhp Ht; [split; constructor|].
  set (h := calculate_hyperperiod _) in *.
  split; [|eapply StronglySorted_impl; [|exact Hs]; by intros a b [_ ?]].
  assert (Hh : h <= hp).
  { apply list_elem_of_filter in Hin as [Hpos Hin]. apply list_elem_of_fmap in Hin as (t & -> & [_ Hin]%list_elem_of_filter).
    apply Z.divide_pos_le; [done|]. rewrite Forall_forall in Ht. by apply Ht. }
  rewrite <- Hp. apply Forall_fmap, Forall_forall. intros p Hpin. cbn.
  rewrite Forall_forall in Hok. destruct (Hok p Hpin) as (E & Hr & Hl).
  assert (Hw : 0 < wcet_us p.1.1).
  { rewrite Forall_forall in Ht. apply Ht. assert (Hpj : p.1 ∈ on_cpu cpu tts ≫= jobs_of h)
      by (rewrite <- Hj; apply list_elem_of_fmap; by exists p).
    apply elem_of_jobs in Hpj. by apply list_elem_of_filter in Hpj as [_ ?]. }
  assert (Ed : duration_us p.2 = wcet_us p.1.1) by (by rewrite E). assert (Ec : s_cpu p.2 = cpu) by (by rewrite E).
  unfold slot_within, slot_end, latest in *. cbn [tt_message m_offset m_duration]. split; [done|]. lia.
Qed.

Lemma StronglySorted_fmap_bind {A B} (R : B -> B -> Prop) (key : A -> Z) (f : A -> list B) l :
  StronglySorted (fun x y => key x < key y) l -> Forall (fun x => StronglySorted R (f x)) l ->
  (forall x y a b, x ∈ l -> y ∈ l -> key x < key y -> a ∈ f x -> b ∈ f y -> R a b) -> StronglySorted R (l ≫= f).
Proof.
  induction 1 as [|x l Hs IH Hx]; intros Hf HR; [constructor|]. apply Forall_cons in Hf as [Hfx Hf].
  cbn [mbind list_bind]. apply StronglySorted_app_2; [|done|].
  - intros a b Ha (y & Hb & Hy)%list_elem_of_bind. apply (HR x y); [by left|by right| |done|done].
    by apply (proj1 (Forall_forall _ _) Hx).
  - apply IH; [done|]. intros y z a b Hy Hz. apply HR; by right.
Qed.

Section Generated.
Context `{!StdSort, !StdSortLaws}.

(** What the theorems ask of the tasks: times below 2^31 us, no empty
    reservation, and periods of TT tasks that divide the hyperperiod of the table - which
    an overflow of the least common multiple would break. *)
Record tasks_fit (tasks : list ClassifiedTask) (available : list Z) (hp : Z) : Prop := {
  tf_some : tasks <> [];
  tf_ok : Forall task_ok tasks;
  tf_bound : Forall (fun t => period_us t < 2 ^ 31) tasks;
  tf_divides : Forall (fun t => mechanism t = TT -> 0 < wcet_us t /\ (0 < period_us t -> (period_us t | hp))) tasks;
  tf_cpus : Forall (uword 32) (usable_cpus available);
  tf_hp : 0 < hp < 2 ^ 32;
}.

Lemma generated_slots node available now tasks t :
  tasks_fit tasks available (hyperperiod_us t) -> generate_schedule node available now tasks = Ret (inl t) ->
  Forall (slot_within (hyperperiod_us t)) (table_slots t) /\ StronglySorted slots_apart (table_slots t).
Proof using All.
  intros [Hne Hok Hb Hd Hu Hhp] Hg. set (hp := hyperperiod_us t) in *.
  destruct (generate_steps _ _ _ _ _ Hne Hg) as (f & cbss & scheds & _ & _ & Hs & Hk & Hfin & Et).
  apply finished_feasible in Hfin; [|done..]. rewrite Et, table_slots_build.
  assert (Hd' : Forall (fun t => 0 < wcet_us t /\ (0 < period_us t -> (period_us t | hp))) (on_workload_cpu f tasks))
    by (apply Forall_fmap, Forall_forall; intros x [Hm Hx]%list_elem_of_filter;
        rewrite Forall_forall in Hd; by destruct (Hd x Hx Hm)).
  assert (Hcs : forall cs, cs ∈ scheds -> uword 32 cs.1 /\
    Forall (fun s => s_cpu s = cs.1 /\ slot_within hp (tt_message s)) (tt_slots cs.2) /\ StronglySorted disjoint_slots (tt_slots cs.2)).
  { intros cs Hin. rewrite Forall_forall in Hu. rewrite Forall_forall in Hfin. split; [apply Hu, Hk, list_elem_of_fmap; by exists cs|].
    apply (cpu_slots_within (on_workload_cpu f tasks)); [by apply Hfin|lia|done]. }
  split.
  - apply Forall_bind, Forall_forall. intros cs Hin. destruct (Hcs cs Hin) as (_ & Hw & _). apply Forall_fmap.
    eapply Forall_impl; [exact Hw|]. intros s [_ Hsw]. exact Hsw.
  - apply (StronglySorted_fmap_bind _ fst).
    + clear -Hs. induction scheds as [|cs scheds IH]; [constructor|]. rewrite fmap_cons in Hs. apply StronglySorted_cons in Hs as [Hx Hs].
      constructor; [by apply IH|]. rewrite Forall_fmap in Hx. exact Hx.
    + apply Forall_forall. intros cs Hin. destruct (Hcs cs Hin) as (_ & _ & Hdis).
      induction Hdis as [|s l Hl IH Hx]; [constructor|]. cbn [fmap list_fmap]. constructor; [done|]. apply Forall_fmap.
      eapply Forall_impl; [exact Hx|]. intros s' Hss _. exact Hss.
    + intros cs cs' a b Hin Hin' Hlt (s & -> & Hsin)%list_elem_of_fmap (s' & -> & Hsin')%list_elem_of_fmap.
      destruct (Hcs cs Hin) as (Hu1 & Hw1 & _), (Hcs cs' Hin') as (Hu2 & Hw2 & _). rewrite Forall_forall in Hw1. rewrite Forall_forall in Hw2.
      destruct (Hw1 s Hsin) as [Ec1 _], (Hw2 s' Hsin') as [Ec2 _]. intros E. cbn [tt_message m_cpu] in E.
      rewrite Ec1, Ec2, !wrap_small in E by done. lia.
Qed.

(** Tasks whose periods divide a common horizon below 2^31 us, none of them
    empty: then nothing overflows, and the table is as above or has no slots. *)
Definition within_horizon (hz : Z) (t : ClassifiedTask) : Prop :=
  0 < period_us t /\ (period_us t | hz) /\ 0 < wcet_us t < 2 ^ 31 /\ 0 <= deadline_us t < 2 ^ 31.

Lemma horizon_hyperperiod hz ps : 0 < hz < 2 ^ 31 -> ps <> [] -> Forall (fun p => 0 < p /\ (p | hz)) ps ->
  Forall (fun p => (p | calculate_hyperperiod ps)) ps /\ 0 < calculate_hyperperiod ps < 2 ^ 31.
Proof using.
  intros Hhz Hne Hps. assert (Hb : Forall (fun p => 0 < p < 2 ^ 64) ps).
  { eapply Forall_impl; [exact Hps|]. intros p [Hp Hd]. apply Z.divide_pos_le in Hd; lia. }
  destruct ps as [|p ps]; [done|]. assert (Hl : (lcm_list (p :: ps) | hz) /\ 0 < lcm_list (p :: ps)).
  { apply Forall_cons in Hps as [[Hp Hd] Hps]. cbn [lcm_list]. split.
    - apply foldl_lcm_least; [done|]. eapply Forall_impl; [exact Hps|]. by intros q [_ ?].
    - apply foldl_lcm_pos; [done|]. eapply Forall_impl; [exact Hps|]. by intros q [? _]. }
  destruct Hl as [Hl Hpos]. assert (Hle : lcm_list (p :: ps) <= hz) by (apply Z.divide_pos_le; [lia|done]).
  rewrite hyperperiod_lcm by first [done | lia]. split; [|lia]. cbn [lcm_list]. destruct (foldl_lcm_divide p ps). by constructor.
Qed.

Lemma horizon_slots hz node available now tasks t :
  0 < hz < 2 ^ 31 -> Forall (uword 32) (usable_cpus available) -> Forall (within_horizon hz) tasks ->
  generate_schedule node available now tasks = Ret (inl t) ->
  table_slots t = [] \/
  (0 < hyperperiod_us t < 2 ^ 31 /\ Forall (slot_within (hyperperiod_us t)) (table_slots t) /\
   StronglySorted slots_apart (table_slots t)).
Proof using All.
  intros Hhz Hu Ht Hg. destruct (decide (length tasks = 0%nat)) as [->%length_zero_iff_nil|Hne].
  { left. by injection Hg as <-. }
  assert (Hne' : tasks <> []) by (by intros ->). clear Hne.
  assert (Hok : Forall task_ok tasks) by (eapply Forall_impl; [exact Ht|]; intros x (? & ? & ? & ?); unfold task_ok; lia).
  assert (Hb : Forall (fun t => period_us t < 2 ^ 31) tasks).
  { eapply Forall_impl; [exact Ht|]. intros x (? & Hd & ?). apply Z.divide_pos_le in Hd; lia. }
  destruct (generate_steps _ _ _ _ _ Hne' Hg) as (f & cbss & scheds & _ & _ & _ & _ & Hfin & Et).
  set (tts := on_workload_cpu f tasks) in *.
  assert (Htts : Forall (within_horizon hz) tts) by (by apply on_workload_cpu_Forall).
  destruct (decide (length tts = 0%nat)) as [Enil%length_zero_iff_nil|Hsome].
  - left. rewrite Et, table_slots_build. apply finished_feasible in Hfin; [|done..]. fold tts in Hfin. rewrite Enil in Hfin.
    clear -Hfin. induction Hfin as [|cs scheds Hcs _ IH]; [done|]. cbn [mbind list_bind].
    assert (E : tt_slots cs.2 = []). { destruct Hcs as [[_ ?]|(_ & Hin & _)]; [done|]. by apply not_elem_of_nil in Hin. }
    by rewrite E.
  - right. assert (Hp : periods_of tts = period_us <$> tts).
    { unfold periods_of. clear -Htts. induction Htts as [|x l (Hx & _) _ IH]; [done|]. cbn [fmap list_fmap].
      rewrite filter_cons_True by done. by f_equal. }
    destruct (horizon_hyperperiod hz (period_us <$> tts)) as [Hdiv Hhp]; [done|by destruct tts| |].
    { apply Forall_fmap. eapply Forall_impl; [exact Htts|]. by intros x (? & ? & _). }
    assert (Ehp : hyperperiod_us t = calculate_hyperperiod (period_us <$> tts)).
    { rewrite Et, Hp. cbn [build_table hyperperiod_us]. apply wrap_small. unfold uword. lia. }
    rewrite <- Ehp in Hdiv, Hhp. split; [exact Hhp|].
    eapply (generated_slots node available now tasks); [|exact Hg]. split; [done|done|done| |done|lia].
    apply Forall_forall. intros x Hx Hm. rewrite Forall_forall in Ht. destruct (Ht x Hx) as (_ & _ & ? & _). split; [lia|].
    intros _. rewrite Forall_forall in Hdiv. apply Hdiv. apply list_elem_of_fmap. exists (assign_cpu (f (workload_id x)) x).
    split; [done|]. apply list_elem_of_fmap. exists x. split; [done|]. by apply list_elem_of_filter.
Qed.
End Generated.

(** ** Entries of the timer *)

Definition entry_within (hp : Z) (e : SlotEntry) : Prop :=
  0 <= offset_ns e /\ 0 < duration_ns e /\ offset_ns e + duration_ns e <= hp.
Definition entries_apart (a b : SlotEntry) : Prop :=
  TimerMaster.cpu a = TimerMaster.cpu b ->
  offset_ns a + duration_ns a <= offset_ns b \/ offset_ns b + duration_ns b <= offset_ns a.

#[export] Instance entries_apart_sym : Symmetric entries_apart.
Proof. intros a b. unfold entries_apart. intros H E. destruct H; [done|by right|by left]. Qed.

(** Nanoseconds of slots that lie within a 32-bit hyperperiod do not wrap. *)
Lemma slot_entry_ns hp i s : slot_within hp s -> hp < 2 ^ 32 ->
  offset_ns (slot_entry i s) = m_offset s * 1000 /\ duration_ns (slot_entry i s) = m_duration s * 1000.
Proof.
  intros (H1 & H2 & H3) Hhp. cbn [slot_entry offset_ns duration_ns].
  rewrite !wrap_small; [done|unfold uword; pows; lia..].
Qed.

Lemma StronglySorted_imap {A B} (R : A -> A -> Prop) (R' : B -> B -> Prop) (P : A -> Prop) (f : nat -> A -> B) l :
  (forall i j a b, P a -> P b -> R a b -> R' (f i a) (f j b)) -> Forall P l -> StronglySorted R l ->
  StronglySorted R' (imap f l).
Proof.
  intros HR HP Hs. revert f HR. induction Hs as [|a l Hs IH Ha]; intros f HR; [constructor|].
  apply Forall_cons in HP as [Hpa HP]. rewrite imap_cons. constructor.
  - apply IH; [done|]. intros i j x y. apply HR.
  - apply Forall_forall. intros e (i & b & -> & Hb)%elem_of_lookup_imap. apply list_elem_of_lookup_2 in Hb.
    apply HR; [done|by apply (proj1 (Forall_forall _ _) HP)|by apply (proj1 (Forall_forall _ _) Ha)].
Qed.

Lemma table_entries_apart (idx : nat -> Z) hp ss : hp < 2 ^ 32 ->
  Forall (slot_within hp) ss -> StronglySorted slots_apart ss ->
  let es := imap (fun i s => slot_entry (idx i) s) ss in
  Forall (entry_within (hp * 1000)) es /\ StronglySorted entries_apart es.
Proof.
  intros Hhp Hw Hs. split.
  - apply Forall_forall. intros e (i & s & -> & Hi)%elem_of_lookup_imap. apply list_elem_of_lookup_2 in Hi.
    rewrite Forall_forall in Hw. destruct (slot_entry_ns hp (idx i) s (Hw s Hi) Hhp) as [Eo Ed].
    unfold entry_within. rewrite Eo, Ed. destruct (Hw s Hi) as (? & ? & ?). lia.
  - eapply (StronglySorted_imap _ _ _ _ _); [|exact Hw|exact Hs]. intros i j a b Ha Hb Hab Ec.
    destruct (slot_entry_ns hp (idx i) a Ha Hhp) as [-> ->], (slot_entry_ns hp (idx j) b Hb Hhp) as [-> ->].
    destruct (Hab Ec); [left|right]; lia.
Qed.

(** Entries of one CPU in order of offset: each is over before the next. *)
Lemma thread_order hp c es ss :
  Forall (entry_within hp) es -> StronglySorted entries_apart es ->
  ss ≡ₚ filter (fun e => TimerMaster.cpu e = c) es -> StronglySorted (fun a b => offset_ns a <= offset_ns b) ss ->
  Forall (entry_within hp) ss /\ StronglySorted (fun a b => offset_ns a + duration_ns a <= offset_ns b) ss.
Proof.
  intros Hw Ha Hp Hs.
  assert (Hmine : Forall (fun e => TimerMaster.cpu e = c /\ entry_within hp e) ss).
  { rewrite Hp. apply Forall_forall. intros e [Hc He]%list_elem_of_filter. split; [done|].
    by apply (proj1 (Forall_forall _ _) Hw). }
  assert (Hap : StronglySorted entries_apart ss).
  { apply (StronglySorted_perm _ (filter (fun e => TimerMaster.cpu e = c) es)); [done|]. clear -Ha.
    induction Ha as [|e es _ IH He]; [constructor|]. rewrite filter_cons. case_decide; [|done]. constructor; [done|].
    apply Forall_forall. intros e' [_ Hin]%list_elem_of_filter. by apply (proj1 (Forall_forall _ _) He). }
  pose proof (StronglySorted_and _ _ _ Hs Hap) as Hsa. clear Hs Hap Hp Hw Ha.
  split; [eapply Forall_impl; [exact Hmine|]; by intros e [_ ?]|].
  induction Hsa as [|e ss Hs IH He]; [constructor|]. apply Forall_cons in Hmine as [[Ec Hwe] Hmine].
  constructor; [by apply IH|]. apply Forall_forall. intros e' Hin.
  destruct (proj1 (Forall_forall _ _) Hmine e' Hin) as [Ec' (_ & Hd & _)].
  destruct (proj1 (Forall_forall _ _) He e' Hin) as [Ho Hap]. destruct Hap as [?|Hbad]; [congruence|done|].
  destruct Hwe as (_ & Hd' & _). lia.
Qed.

(** A reservation is over at the next target of its thread. *)
Lemma reservation_over ss start hp n :
  ss <> [] -> 0 < hp -> 0 <= start -> Forall (entry_within hp) ss ->
  StronglySorted (fun a b => offset_ns a + duration_ns a <= offset_ns b) ss -> 0 <= n ->
  exists e, ss !! Z.to_nat (n mod zlen ss) = Some e /\
    target ss start hp n + duration_ns e <= target ss start hp (n + 1).
Proof.
  intros Hne Hhp Hst Hw Hs Hn.
  assert (Hoff : Forall (fun e => 0 <= offset_ns e < hp) ss) by (eapply Forall_impl; [exact Hw|]; intros e (? & ? & ?); lia).
  destruct (slot_at ss hp Hne Hoff n Hn) as (e & He & _).
  destruct (slot_at ss hp Hne Hoff (n + 1) ltac:(lia)) as (e' & He' & Ho'). exists e. split; [done|].
  rewrite (target_at ss start hp n e He), (target_at ss start hp (n + 1) e' He').
  destruct (Forall_lookup_1 _ _ _ _ Hw He) as (H1 & H2 & H3).
  pose proof (slots_pos ss hp Hne Hoff) as Hpos. pose proof (Z.mod_pos_bound n (zlen ss) ltac:(done)).
  destruct (next_div_mod ss hp Hne Hoff n Hn) as [(N1 & N2 & N3)|(N1 & N2 & N3)]; rewrite N2; [|lia].
  enough (offset_ns e + duration_ns e <= offset_ns e') by lia.
  refine (StronglySorted_lookup _ ss _ _ e e' Hs He He' _). rewrite N3. lia.
Qed.

(** ** The table on the node *)

(** C7. From the generator to the wake-ups.  Asked of the tasks: TT periods that
    divide the hyperperiod of the table made for them (an overflow of the
    least common multiple breaks this, [global_hyperperiod_truncated]), times
    below 2^31 us and TT execution times above 0; of the node: the program loaded, room in its maps, processes that stay while the table is
    applied, a running timer.  The node installs the table.  Every slot is fired by a
    timer thread of its CPU, every thread fires only slots of the table for
    its CPU, and whenever a thread starts its first hyperperiod, the
    reservation of each wake-up is over when the next wake-up of this CPU is
    due: in this and in all later hyperperiods no two reservations overlap. *)
Theorem reservations_never_overlap `{!StdSort, !StdSortLaws} node_name available gen_now tasks t pid_of proc now tracing n l st :
  tasks_fit tasks available (hyperperiod_us t) ->
  generate_schedule node_name available gen_now tasks = Ret (inl t) ->
  ready_for pid_of proc now t n l st -> running (timer_master n) = true ->
  exists n', table_callback proc now tracing t n = Some n' /\
    hyperperiod_ns (timer_master n') = hyperperiod_us t * 1000 /\
    (forall i s, table_slots t !! i = Some s -> exists ss hp ep,
       CpuThread (m_cpu s) ss hp ep ∈ cpu_threads (timer_master n') /\ slot_entry (Z.of_nat i) s ∈ ss) /\
    forall c ss hp ep, CpuThread c ss hp ep ∈ cpu_threads (timer_master n') ->
      hp = hyperperiod_us t * 1000 /\ forall start k, 0 <= start -> 0 <= k ->
        let fired := std_sort offset_ns ss in
        exists i s, table_slots t !! i = Some s /\ m_cpu s = c /\
          fired !! Z.to_nat (k mod zlen fired) = Some (slot_entry (Z.of_nat i) s) /\
          target fired start hp k + m_duration s * 1000 <= target fired start hp (k + 1).
Proof.
  intros Hfit Hg Hr Hrun. destruct (generated_slots _ _ _ _ _ Hfit Hg) as [Hw Hs].
  destruct (table_callback_result pid_of proc now tracing t n l st Hr) as (n' & ws & E & _ & Htm & _).
  exists n'. split; [exact E|]. rewrite <- slots_of_table in Hw, Hs |- *.
  destruct (set_table_fields (slot_entries (table_items t)) (hyperperiod_us t) (Messages.epoch_ns t) (cleared_timer t n))
    as (_ & Hhp & _ & Hth). rewrite <- Htm in Hhp, Hth. cbn [fst] in Hhp, Hth.
  destruct (tf_hp _ _ _ Hfit) as [Hpos Hlt].
  assert (Hns : u64 (hyperperiod_us t * 1000) = hyperperiod_us t * 1000) by (apply wrap_small; unfold uword; pows; lia).
  rewrite Hns in Hhp, Hth. destruct Hth as (m0 & Et & Em & Eh & Ee); [by unfold cleared_timer; rewrite stop_all_running|].
  split; [exact Hhp|]. rewrite Et. clear E Htm Hhp Et.
  destruct (table_entries_apart Z.of_nat _ _ Hlt Hw Hs) as [Hwe Hse]. fold (slot_entries (table_items t)) in Hwe, Hse.
  set (slots := slots_of (table_items t)) in *. set (es := slot_entries (table_items t)) in *.
  assert (Hes : forall e, e ∈ es <-> exists i s, slots !! i = Some s /\ e = slot_entry (Z.of_nat i) s).
  { intros e. unfold es, slot_entries. rewrite elem_of_lookup_imap. naive_solver. }
  split.
  - intros i s Hi. eexists _, _, _. rewrite spawn_thread, Em.
    assert (Hin : slot_entry (Z.of_nat i) s ∈ filter (fun e => TimerMaster.cpu e = m_cpu s) (std_sort offset_ns es)).
    { apply list_elem_of_filter. split; [done|]. rewrite std_sort_perm. apply Hes. eauto. }
    split; [split_and!; [|reflexivity..]|exact Hin]. intros Hnil. rewrite Hnil in Hin. by apply not_elem_of_nil in Hin.
  - intros c ss hp ep (Hne & -> & -> & _)%spawn_thread. split; [exact Eh|]. rewrite Em in *. intros start k Hst Hk fired.
    assert (Hperm : fired ≡ₚ filter (fun e => TimerMaster.cpu e = c) es) by (unfold fired; by rewrite !std_sort_perm).
    destruct (thread_order _ c es fired Hwe Hse Hperm (std_sort_sorted offset_ns _)) as [Hwf Hsf].
    destruct (reservation_over fired start (hyperperiod_us t * 1000) k) as (e & He & Hover); [|lia|done..|].
    { intros Hnil. apply Hne, Permutation_nil_r. rewrite <- Hnil. symmetry. apply std_sort_perm. }
    pose proof He as Hin%list_elem_of_lookup_2. rewrite Hperm in Hin. apply list_elem_of_filter in Hin as [Hc Hin].
    apply Hes in Hin as (i & s & Hi & ->). exists i, s. rewrite Eh. split_and!; [done|exact Hc|exact He|].
    assert (Hsw : slot_within (hyperperiod_us t) s) by (rewrite Forall_forall in Hw; apply Hw; by eapply list_elem_of_lookup_2).
    by destruct (slot_entry_ns _ (Z.of_nat i) s Hsw Hlt) as [_ <-].
Qed.

(** *** An example: the table of GlobalScheduler on the node of NodeTable *)

Definition demo_proc : list proc_entry := [ProcEntry (chars "41") true (comm "fast"); ProcEntry (chars "77") true (comm "slow")].
Definition demo_pid (w : string) : Z :=
  if decide (w = "fast"%string) then 41 else if decide (w = "slow"%string) then 77 else -1.

Lemma demo_ready :
  ready_for demo_pid (fun _ => Some demo_proc) (fun _ => 4000) mixed_table example_node 0 example_state.
Proof.
  split; [done| |].
  - unfold room. split_and!; apply Nat.leb_le; vm_compute; reflexivity.
  - intros i w Hw. vm_compute in Hw.
    repeat (apply elem_of_cons in Hw as [->|Hw]; [by vm_compute|]). by apply not_elem_of_nil in Hw.
Qed.

Lemma demo_fit : tasks_fit mixed_tasks [] (hyperperiod_us mixed_table).
Proof.
  assert (E : hyperperiod_us mixed_table = 40) by (vm_compute; reflexivity). rewrite E. split; [done| | | | |lia].
  - repeat (apply Forall_cons; split; [unfold task_ok; cbn; lia|]). constructor.
  - repeat (apply Forall_cons; split; [cbn; lia|]). constructor.
  - apply Forall_cons; split; [intros _; cbn; split; [lia|intros _; by exists 1]|].
    apply Forall_cons; split; [intros H; discriminate H|].
    apply Forall_cons; split; [intros _; cbn; split; [lia|intros _; by exists 2]|constructor].
  - repeat (apply Forall_cons; split; [unfold uword; pows; lia|]). constructor.
Qed.

Lemma reservations_never_overlap_witness :
  exists n' ss hp ep, @table_callback (fun _ => Some demo_proc) (fun _ => 4000) false stable_sort mixed_table example_node = Some n' /\
    hyperperiod_ns (timer_master n') = 40000 /\ CpuThread 2 ss hp ep ∈ cpu_threads (timer_master n') /\
    forall k, 0 <= k -> exists s, m_cpu s = 2 /\
      target (@std_sort stable_sort _ offset_ns ss) 5000 hp k + m_duration s * 1000
        <= target (@std_sort stable_sort _ offset_ns ss) 5000 hp (k + 1).
Proof.
  destruct (@reservations_never_overlap stable_sort stable_sort_laws "node"%string [] 7 mixed_tasks mixed_table demo_pid
    (fun _ => Some demo_proc) (fun _ => 4000) false example_node 0 example_state demo_fit
    ltac:(vm_compute; reflexivity) demo_ready ltac:(vm_compute; reflexivity))
    as (n' & E & Hhp & Hall & Hthr).
  assert (Hslot : exists s, table_slots mixed_table !! 0%nat = Some s /\ m_cpu s = 2) by (vm_compute; eauto).
  destruct Hslot as (s & Hs & Hc). destruct (Hall 0%nat s Hs) as (ss & hp & ep & Hin & _). rewrite Hc in Hin.
  exists n', ss, hp, ep. split; [exact E|]. clear E. split; [rewrite Hhp; vm_compute; reflexivity|]. split; [exact Hin|].
  intros k Hk. destruct (Hthr 2 ss hp ep Hin) as [_ Hov]. destruct (Hov 5000 k ltac:(lia) Hk) as (i & s' & _ & Hc' & _ & Hle).
  exists s'. by split.
Defined.
