(* ===== verification/NodeLink.v ===== *)
(** * What a node takes from its stream and puts on it

    For any table, fitting or not: what the callback of NodeMain leaves in the
    timer, and the events the node writes.  The cluster's invariants rest on
    this, since nothing promises there that a table fits its node. *)
From stdpp Require Import prelude gmap strings list sorting.
From Stdlib Require Import ZArith Lia.
From Stdlib Require String Ascii.
From S2P Require Import Prelude Text BpfMaps BpfSched BpfLoader TtShm TimerMaster SchedStat Messages NodeClient Faults NodeMain NodeTable NodeRecovery NodeSystem.
Local Open Scope Z_scope.

(** ** Events written *)

(** The client went on from [c] to [c']: it wrote events in its own name, and
    none while it was not connected. *)
Definition talks (c c' : client) : Prop :=
  node_id_ c' = node_id_ c /\ connected_ c' = connected_ c /\ stream_ c' = stream_ c /\
  exists es, written c' = written c ++ es /\ Forall (fun e => ev_node e = node_id_ c) es /\ (connected_ c = false -> es = []).

#[export] Instance talks_preorder : PreOrder talks.
Proof.
  split.
  - intros c. split_and!; [done..|]. exists []. by rewrite app_nil_r.
  - intros c1 c2 c3 (I1 & C1 & S1 & es1 & W1 & F1 & N1) (I2 & C2 & S2 & es2 & W2 & F2 & N2). split_and!; [congruence..|].
    exists (es1 ++ es2). rewrite W2, W1, <- app_assoc. rewrite I1 in F2. split_and!; [done|by apply Forall_app|].
    intros Hc. by rewrite N1, N2 by congruence.
Qed.

Lemma send_talks e c : talks c (send e c).
Proof.
  unfold send. destruct (connected_ c) eqn:Hc; cbn [negb]; [|done]. destruct (stream_ c); [|done].
  split_and!; [done..|]. exists [Event (node_id_ c) e]. split_and!; [done|by apply Forall_singleton|congruence].
Qed.

(** ** Tables *)

(** The entries a table gives the timer; slots are counted in 32 bits. *)
Definition timer_entries (t : HierarchicalScheduleTable) : list SlotEntry :=
  imap (fun i s => slot_entry (u32 (Z.of_nat i)) s) (table_slots t).

(** Neither the timer nor the client changes. *)
Definition untouched (n n' : node) : Prop := timer_master n' = timer_master n /\ node_client n' = node_client n.
#[export] Instance untouched_preorder : PreOrder untouched.
Proof. split; [by intros n|]. intros n1 n2 n3 [T1 C1] [T2 C2]. split; congruence. Qed.

Lemma bpf_untouched f n : untouched n (bpf f n).1.
Proof. unfold bpf. by destruct (f (bpf_loader n)). Qed.

Lemma foldl_untouched {A} (f : node -> A -> node) l n : (forall n a, untouched n (f n a)) -> untouched n (foldl f n l).
Proof. intros Hf. revert n. induction l as [|a l IH]; intros n; [done|]. cbn [foldl]. by rewrite (Hf n a) at 1. Qed.

Lemma evict_pids_untouched pids n : untouched n (evict_pids pids n).
Proof. apply foldl_untouched. intros n0 pid. exact (bpf_untouched _ (NodeMain.emit (SetAffinity pid) n0)). Qed.
Lemma delete_slots_untouched keys n : untouched n (delete_slots keys n).
Proof. apply foldl_untouched. intros n0 key. apply bpf_untouched. Qed.
Lemma delete_cbs_untouched keys n : untouched n (delete_cbs keys n).
Proof. apply foldl_untouched. intros n0 key. apply bpf_untouched. Qed.

(** *** The pass over the items *)

Definition same_pass (a a' : apply) : Prop :=
  ap_slots a' = ap_slots a /\ ap_slot_idx a' = ap_slot_idx a /\ untouched (ap_node a) (ap_node a').
#[export] Instance same_pass_preorder : PreOrder same_pass.
Proof.
  split; [by intros a|]. intros a1 a2 a3 (S1 & I1 & U1) (S2 & I2 & U2). split_and!; [congruence|congruence|by rewrite U1].
Qed.

Lemma on_bpf_pass f a : same_pass a (on_bpf f a).1.
Proof. unfold on_bpf. pose proof (bpf_untouched f (ap_node a)) as H. by destruct (bpf f (ap_node a)). Qed.
Lemma record_unless_pass ok e a : same_pass a (record_unless ok e a).
Proof. by destruct ok. Qed.
Lemma trace_pass tracing pid task a : same_pass a (on_node (trace_pid tracing pid task) a).
Proof. destruct (trace_pid_gpdata tracing pid task a) as (m & g & ->). done. Qed.

Lemma register_slot_pass tracing i s pid a : same_pass a (register_slot tracing i s pid a).
Proof.
  unfold register_slot. destruct (pid <? 0); [done|]. etrans; [apply (trace_pass tracing pid (m_task s))|].
  pose proof (on_bpf_pass (update_task_meta (u32 pid) (slot_meta i s)) (on_node (trace_pid tracing pid (m_task s)) a)) as H.
  destruct (on_bpf _ _) as [a1 []]; exact H.
Qed.

Lemma register_entry_pass tracing i c b t pid a : same_pass a (register_entry tracing i c b t pid a).
Proof.
  unfold register_entry. destruct (pid <? 0); [done|]. etrans; [apply (trace_pass tracing pid (b_task b))|].
  pose proof (on_bpf_pass (update_task_meta (u32 pid) (entry_meta i c b)) (on_node (trace_pid tracing pid (b_task b)) a)) as H1.
  destruct (on_bpf _ _) as [a1 []]; cbn [fst negb] in *; [|exact H1]. etrans; [exact H1|].
  pose proof (on_bpf_pass (update_cbs_state (entry_key b) (entry_state t b)) (on_node (NodeMain.emit (SchedExt pid)) a1)) as H2.
  destruct (on_bpf _ _) as [a2 []]; cbn [fst negb] in *; exact H2.
Qed.

(** A slot adds its entry under the next index. *)
Lemma install_slot_pass s pid a :
  let a' := install_slot s pid a in
  ap_slots a' = ap_slots a ++ [slot_entry (ap_slot_idx a) s] /\ ap_slot_idx a' = u32 (ap_slot_idx a + 1) /\
  untouched (ap_node a) (ap_node a').
Proof.
  cbv zeta. unfold install_slot. set (a0 := push_slot_entry _ a).
  pose proof (on_bpf_pass (update_tt_slot {| key_cpu := m_cpu s; key_slot_idx := ap_slot_idx a |} (slot_bpf s)) a0) as H.
  destruct (on_bpf _ a0) as [a1 ok]. cbn [fst] in H. set (a2 := record_unless ok _ a1).
  pose proof (record_unless_pass ok (String.append "TT slot update failed: " (m_task s)) a1) as H2. fold a2 in H2.
  set (a3 := if 0 <=? pid then _ else a2). assert (H3 : same_pass a2 a3) by (unfold a3; by destruct (0 <=? pid)).
  rewrite H2 in H. rewrite H3 in H. destruct H as (Hs & Hi & Hu). cbn [next_slot ap_slots ap_slot_idx ap_node].
  by rewrite Hs, Hi.
Qed.

Section Pass.
Context (proc : nat -> option (list proc_entry)) (now : nat -> Z) (tracing : bool).

(** After the items [its], from node [n]. *)
Definition passed (n : node) (its : list item) (a : apply) : Prop :=
  ap_slots a = imap (fun i s => slot_entry (u32 (Z.of_nat i)) s) (NodeTable.slots_of its) /\
  ap_slot_idx a = u32 (Z.of_nat (length (NodeTable.slots_of its))) /\ untouched n (ap_node a).

Lemma passed_same n its a a' : passed n its a -> same_pass a a' -> passed n its a'.
Proof. intros (Hs & Hi & Hu) (Hs' & Hi' & Hu'). split_and!; [congruence|congruence|by rewrite Hu]. Qed.

Lemma passed_item n its it a a' : passed n its a -> apply_item proc now tracing a it = Some a' -> passed n (its ++ [it]) a'.
Proof.
  intros Hp. unfold passed. rewrite slots_of_snoc. destruct it as [i s|id|i c b]; cbn [apply_item item_slot]; rewrite ?app_nil_r.
  - intros (pid & _ & [= <-])%bind_Some.
    assert (Hp' : passed n its (register_slot tracing i s pid (found a))).
    { eapply passed_same; [exact Hp|]. etrans; [|apply register_slot_pass]. done. }
    destruct (install_slot_pass s pid (register_slot tracing i s pid (found a))) as (Hs & Hi & Hu).
    destruct Hp' as (Ps & Pi & Pu). rewrite Hs, Hi, Ps, Pi. split_and!; [| |by rewrite Pu].
    + rewrite imap_app. cbn. by rewrite Nat.add_0_r.
    + rewrite length_app, Nat2Z.inj_add. cbn [length]. unfold wrap. by rewrite Z.add_mod_idemp_l by done.
  - intros [= <-]. by eapply passed_same.
  - intros (pid & _ & [= <-])%bind_Some. eapply passed_same; [exact Hp|]. etrans; [|apply register_entry_pass]. done.
Qed.

Lemma passed_items n its a : fold_opt (apply_item proc now tracing) (Apply n 0 [] true ""%string 0) its = Some a -> passed n its a.
Proof.
  revert a. induction its as [|it its IH] using rev_ind; intros a; [by intros [= <-]|].
  rewrite fold_opt_app. destruct (fold_opt _ _ its) as [a1|]; [|done]. cbn [mbind option_bind fold_opt].
  destruct (apply_item _ _ _ a1 it) as [a2|] eqn:E; [|done]. intros [= <-]. eapply passed_item; [by apply IH|exact E].
Qed.
End Pass.

(** *** Forgetting the previous table *)

(** The timer loses workloads, the client stays. *)
Definition loses (n n' : node) : Prop :=
  (exists hs, timer_master n' = stop_all hs (timer_master n)) /\ node_client n' = node_client n.
#[export] Instance loses_preorder : PreOrder loses.
Proof.
  split; [intros n; split; [by exists []|done]|]. intros n1 n2 n3 [[h1 T1] C1] [[h2 T2] C2]. split; [|congruence].
  exists (h1 ++ h2). unfold stop_all in *. by rewrite foldl_app, <- T1.
Qed.

Lemma untouched_loses n n' : untouched n n' -> loses n n'.
Proof. intros [T C]. split; [by exists []|done]. Qed.
Lemma stop_timer_loses h n : loses n (stop_timer h n).
Proof. destruct h as [h|]; [|done]. split; [by exists [h]|done]. Qed.

Lemma foldl_loses {A} (f : node -> A -> node) l n : (forall n a, loses n (f n a)) -> loses n (foldl f n l).
Proof. intros Hf. revert n. induction l as [|a l IH]; intros n; [done|]. cbn [foldl]. etrans; [apply (Hf n a)|apply IH]. Qed.

Lemma prepare_loses tracing t n : loses n (prepare_node tracing t n).
Proof.
  assert (He : loses n (evict_absent (new_workloads t) n)).
  { unfold evict_absent. apply foldl_loses. intros n0 [w pids]. cbn beta. case_decide; [done|].
    etrans; [apply untouched_loses, (evict_pids_untouched pids)|apply stop_timer_loses]. }
  assert (Hf : loses n (forget_table (evict_absent (new_workloads t) n))).
  { etrans; [exact He|]. apply untouched_loses. unfold forget_table. cbv zeta.
    match goal with |- untouched ?a (set_tracking _ ?b) => enough (untouched a b) as [H1 H2] by by split end.
    etrans; [|apply foldl_untouched; intros; apply delete_cbs_untouched].
    apply foldl_untouched. intros. apply delete_slots_untouched. }
  unfold prepare_node.
  etrans; [exact Hf|]. apply untouched_loses. unfold remove_stale_pids. by destruct tracing.
Qed.

(** The timer and the client after a table that the callback takes. *)
Lemma table_callback_timer `{!StdSort} proc now tracing t n n' :
  table_callback proc now tracing t n = Some n' -> exists hs success error,
    timer_master n' = (set_schedule_table (timer_entries t) (hyperperiod_us t) (Messages.epoch_ns t)
                         (stop_all hs (timer_master n))).1 /\
    node_client n' = send_table_applied (table_id t) success error (node_client n).
Proof.
  unfold table_callback. rewrite apply_table_items. destruct (fold_opt _ _ _) as [a|] eqn:E; [|done].
  apply passed_items in E as (Hs & _ & [Ht Hc]). destruct (prepare_loses tracing t n) as [[hs Hl] Hl'].
  cbn [mbind option_bind]. rewrite Hs, Ht, Hl, slots_of_table. fold (timer_entries t).
  destruct (set_schedule_table _ _ _ _) as [m ws] eqn:Em. intros [= <-]. exists hs, (apply_success a), (apply_error a).
  rewrite Em. split; [done|]. cbn. by rewrite Hc, Hl'.
Qed.

(** ** Steps of the node *)

(** A command writes nothing, or the answer to a table. *)
Lemma command_client `{!ScxConsts, !StdSort} c proc now tracing n n' :
  node_step (Command c proc now tracing) n = Some n' ->
  node_client n' = node_client n \/
  exists id success error, node_client n' = send_table_applied id success error (node_client n).
Proof.
  cbn [node_step]. destruct c as [t|u|g|r|]; cbn [NodeClient.dispatch]; unfold call; cbn [command_callbacks table_callback_
    update_callback_ shutdown_callback_ recovery_callback_]; try (intros [= <-]; by left).
  - intros (hs & ok & err & _ & ->)%table_callback_timer. right. by exists (table_id t), ok, err.
  - unfold recovery_callback. destruct (decide _); [|intros [= <-]; by left]. intros (wid & _ & [= <-])%bind_Some. left.
    unfold evict_workload. cbv zeta. cbn [set_tracking node_client]. rewrite (proj2 (delete_cbs_untouched _ _)).
    match goal with |- node_client (stop_timer ?k ?b) = _ => rewrite (proj2 (stop_timer_loses k b)) end.
    by rewrite (proj2 (delete_slots_untouched _ _)), (proj2 (evict_pids_untouched _ _)).
Qed.

(** The kernel and the timer threads write nothing. *)
Lemma quiet_client `{!ScxConsts, !StdSort} ev n n' :
  match ev with Kernel _ _ | Timer _ => True | _ => False end -> node_step ev n = Some n' -> node_client n' = node_client n.
Proof.
  destruct ev as [e ev|c proc now tracing|f|a]; cbn [node_step]; [|done..|]; intros _ [= <-].
  - unfold run_kernel. by destruct (skel_ _).
  - destruct a as [r|c i|c t|h]; cbn [do_action]; [done|..].
    + apply (bpf_untouched _ n).
    + apply (bpf_untouched _ n).
    + by destruct (wake_task h (timer_master n)).
Qed.

Lemma node_step_talks `{!ScxConsts, !StdSort} ev n n' : node_step ev n = Some n' -> talks (node_client n) (node_client n').
Proof.
  destruct ev as [e ev|c proc now tracing|f|a].
  - intros E. by rewrite (quiet_client (Kernel e ev) _ _ I E).
  - intros [-> |(id & ok & err & ->)]%command_client; [done|apply send_talks].
  - intros [= <-]. unfold handle_ring_event. destruct (FaultMonitor.ring_buf_callback _ _) as [m [[e c]|]]; [|done].
    apply send_talks.
  - intros E. by rewrite (quiet_client (Timer a) _ _ I E).
Qed.

Lemma set_table_running `{!StdSort} slots hp ep m :
  TimerMaster.running (set_schedule_table slots hp ep m).1 = TimerMaster.running m.
Proof.
  unfold set_schedule_table. destruct (ttsched_shm m); [destruct (publish_table _ _ _)|]; cbn [fst]; by rewrite restart_running.
Qed.

(** A timer that fires one table, or what stop signals left of it: [P] holds
    of the table. *)
Record fires (P : HierarchicalScheduleTable -> Prop) (m : master) : Prop := {
  fi_table : slot_table m = [] \/ exists t, P t /\ slot_table m ⊆+ timer_entries t /\
    hyperperiod_ns m = u64 (hyperperiod_us t * 1000);
  fi_threads : threads_ok m;
  fi_running : TimerMaster.running m = true;
}.

Lemma fires_mono (P Q : HierarchicalScheduleTable -> Prop) m : (forall t, P t -> Q t) -> fires P m -> fires Q m.
Proof. intros HPQ [[?|(t & ? & ?)] ? ?]; split; [by left|done|done| |done|done]. right. exists t. split; [by apply HPQ|done]. Qed.

Lemma fires_same P m m' : same_threads m m' -> fires P m -> fires P m'.
Proof.
  intros Hs [Ht Hth Hr]. pose proof (same_threads_ok _ _ Hs Hth) as Hth'. injection Hs as Es Eh _ Er _.
  split; [by rewrite Es, Eh|done|by rewrite Er].
Qed.

Lemma remove_fires P h m : fires P m -> fires P (remove_workload h m).
Proof.
  intros [Ht Hth Hr]. split; [|by apply remove_threads|by rewrite remove_workload_running]. rewrite remove_workload_table.
  assert (Hhp : hyperperiod_ns (remove_workload h m) = hyperperiod_ns m).
  { unfold remove_workload. destruct (_ <? _)%nat; [|done].
    match goal with |- context [restart ?m0] => by destruct (restart_fields m0) as (_ & -> & _) end. }
  destruct Ht as [->|(t & HP & Hsub & Hh)]; [by left|right]. exists t. split_and!; [done| |congruence].
  etrans; [|exact Hsub]. apply sublist_submseteq, sublist_filter.
Qed.

Lemma node_step_fires `{!ScxConsts, !StdSort, !StdSortLaws} P ev n n' :
  match ev with Command (full_table t) _ _ _ => P t | _ => True end ->
  fires P (timer_master n) -> node_step ev n = Some n' -> fires P (timer_master n').
Proof.
  intros Hev Hn. destruct ev as [e ev|c proc now tracing|f|a]; cbn [node_step].
  - intros [= <-]. unfold run_kernel. by destruct (skel_ _).
  - destruct c as [t|u|g|r|]; cbn [NodeClient.dispatch]; unfold call; cbn [command_callbacks table_callback_ update_callback_
      shutdown_callback_ recovery_callback_]; try (by intros [= <-]).
    + intros (hs & ok & err & -> & _)%table_callback_timer. set (m := stop_all hs _).
      destruct (set_table_fields (timer_entries t) (hyperperiod_us t) (Messages.epoch_ns t) m) as (Hs & Hh & _).
      split; [|apply set_table_threads, stop_all_threads, Hn|].
      2:{ unfold m. rewrite set_table_running, stop_all_running. apply Hn. }
      right. exists t. rewrite Hs, Hh.
      split_and!; [done| |done]. by rewrite std_sort_perm.
    + unfold recovery_callback. destruct (decide _); [|by intros [= <-]]. intros (wid & _ & [= <-])%bind_Some.
      unfold evict_workload. cbv zeta. cbn [set_tracking timer_master].
      rewrite (proj1 (delete_cbs_untouched _ _)).
      match goal with |- fires P (timer_master (stop_timer ?oh ?b)) =>
        assert (Hb : timer_master b = timer_master n)
          by (by rewrite (proj1 (delete_slots_untouched _ _)), (proj1 (evict_pids_untouched _ _)));
        destruct oh as [h|]; cbn [stop_timer set_master timer_master]; rewrite Hb; [by apply remove_fires|done] end.
  - intros [= <-]. unfold handle_ring_event. by destruct (FaultMonitor.ring_buf_callback _ _) as [m [[e c]|]].
  - intros [= <-]. destruct a as [r|c i|c t|h]; cbn [do_action]; [done|..].
    + by rewrite (proj1 (bpf_untouched _ n)).
    + by rewrite (proj1 (bpf_untouched _ n)).
    + eapply fires_same; [|exact Hn]. unfold wake_task.
      by destruct (ttsched_shm _) as [shm|]; [destruct (_ !! h)|].
Qed.

(** ** Commands that are carried out *)

(** The process table can be searched; a stop signal names its workload by
    something that is not a hexadecimal number beyond 64 bits.  Otherwise the
    callback throws, and the daemon ends. *)
Definition readable (proc : nat -> option (list proc_entry)) : Prop := forall i w, is_Some (find_pid_by_comm w (proc i)).
Definition sound (c : ControlCommand) : Prop :=
  match c with recovery r => forall h, is_Some (names_hash (r_workload r) h) | _ => True end.

Lemma resolve_total w ids : (forall h, is_Some (names_hash w h)) -> is_Some (resolve w ids).
Proof.
  intros Hw. induction ids as [|[h name] ids IH]; cbn [resolve]; [by eexists|].
  destruct (Hw h) as [b ->]. destruct b; [by eexists|done].
Qed.

Lemma command_taken `{!ScxConsts, !StdSort} c proc now tracing n :
  readable proc -> sound c -> is_Some (node_step (Command c proc now tracing) n).
Proof.
  intros Hp Hc. cbn [node_step]. destruct c as [t|u|g|r|]; cbn [NodeClient.dispatch]; unfold call;
    cbn [command_callbacks table_callback_ update_callback_ shutdown_callback_ recovery_callback_]; try by eexists.
  - unfold table_callback. rewrite apply_table_items.
    destruct (fold_total (apply_item proc now tracing) (table_items t)) with (a := Apply (prepare_node tracing t n) 0 [] true ""%string 0)
      as [a ->].
    { intros a it. destruct it as [i s|id|i p b]; cbn [apply_item]; [|by eexists|].
      - unfold apply_slot. destruct (Hp (finds a) (m_task s)) as [pid ->]. by eexists.
      - unfold apply_entry. destruct (Hp (finds a) (b_task b)) as [pid ->]. by eexists. }
    cbn [mbind option_bind]. destruct (set_schedule_table _ _ _ _). by eexists.
  - unfold recovery_callback. destruct (decide _); [|by eexists].
    destruct (workload_to_pids (tracking n) !! r_workload r); cbn [mbind option_bind]; [by eexists|].
    destruct (resolve_total (r_workload r) (ascending Z.le (workload_hash_to_id (tracking n))) Hc) as [wid ->]. by eexists.
Qed.

(** A table that was taken is the timer's, and each of its slots has a thread. *)
Definition installed_table `{!StdSort} (t : HierarchicalScheduleTable) (m : master) : Prop :=
  slot_table m = std_sort offset_ns (timer_entries t) /\ hyperperiod_ns m = u64 (hyperperiod_us t * 1000) /\
  forall j s, table_slots t !! j = Some s -> exists ss hp ep, CpuThread (m_cpu s) ss hp ep ∈ cpu_threads m /\
    slot_entry (u32 (Z.of_nat j)) s ∈ ss.

Lemma taken_installed `{!ScxConsts, !StdSort, !StdSortLaws} t proc now tracing n n' :
  TimerMaster.running (timer_master n) = true -> node_step (Command (full_table t) proc now tracing) n = Some n' ->
  installed_table t (timer_master n').
Proof.
  intros Hr E. cbn [node_step NodeClient.dispatch] in E. unfold call in E. cbn [command_callbacks table_callback_] in E.
  apply table_callback_timer in E as (hs & ok & err & -> & _). set (m := stop_all hs _).
  destruct (set_table_fields (timer_entries t) (hyperperiod_us t) (Messages.epoch_ns t) m) as (Hs & Hh & _ & Hth).
  split; [exact Hs|]. split; [exact Hh|]. intros j s Hj. destruct Hth as (m0 & -> & Hm0 & _).
  { unfold m. by rewrite stop_all_running. }
  do 3 eexists. rewrite spawn_thread, Hm0.
  assert (Hin : slot_entry (u32 (Z.of_nat j)) s ∈ filter (fun e => TimerMaster.cpu e = m_cpu s) (std_sort offset_ns (timer_entries t))).
  { apply list_elem_of_filter. split; [done|]. rewrite std_sort_perm. apply elem_of_lookup_imap. eauto. }
  split; [split_and!; [|reflexivity..]|exact Hin]. intros Hnil. rewrite Hnil in Hin. by apply not_elem_of_nil in Hin.
Qed.
