(* ===== verification/Cluster.v ===== *)
(** * The orchestrator and its nodes

    timpani-o (OrchestratorDaemon) and any number of timpani-n daemons
    (NodeSystem), joined by gRPC streams.  A stream is a queue in each
    direction; what is written arrives in order or not at all.  Nodes start,
    restart and lose their streams at any moment, and the two ends of a stream
    notice its end independently.  Node [k] is a place where a daemon runs:
    two nodes may have the same name. *)
From stdpp Require Import prelude gmap strings list sorting.
From Stdlib Require Import ZArith Lia.
From Stdlib Require String Ascii.
From S2P Require Import Prelude Text BpfMaps BpfSched BpfLoader TtShm TimerMaster SchedStat NodeConfig Messages GlobalScheduler SchedInfoService Faults Orchestrator OrchestratorDaemon NodeDaemon NodeClient NodeMain NodeTable NodeRecovery NodeSystem EndToEnd NodeLink.
Local Open Scope Z_scope.

(** ** States *)

(** A stream: the node that opened it, whether [NodeStream] of the
    orchestrator was called for it, and what is under way. *)
Record connection := Connection { peer : string; served : bool; uplink : list NodeEvent; downlink : list ControlCommand }.

(** A daemon and the stream it reads, while it is in a session. *)
Record member := Member { body : node; link : option nat }.

Record cluster := Cluster {
  center : daemon;
  clock : Z;                    (* the steady clock of the loop *)
  accepted : list SchedInfo;    (* requests answered with 0 *)
  wires : gmap nat connection;
  members : gmap nat member;
}.

Definition push_up (es : list NodeEvent) (w : connection) : connection :=
  Connection (peer w) (served w) (uplink w ++ es) (downlink w).
Definition push_down (c : ControlCommand) (w : connection) : connection :=
  Connection (peer w) (served w) (uplink w) (downlink w ++ [c]).

Definition with_wires (ws : gmap nat connection) (c : cluster) : cluster :=
  Cluster (center c) (clock c) (accepted c) ws (members c).
Definition with_members (ms : gmap nat member) (c : cluster) : cluster :=
  Cluster (center c) (clock c) (accepted c) (wires c) ms.
Definition with_center (d : daemon) (c : cluster) : cluster :=
  Cluster d (clock c) (accepted c) (wires c) (members c).

(** ** Steps *)

Inductive cluster_event :=
  | Boot (k : nat) (m : machine) (o : RuntimeOptions) (l : loader) (sm : stat_monitor)
  | Dial (k stream : nat) (cpu_count : Z) (release : string)
  | Work (k : nat) (ev : node_event)
  | Receive (k : nat) (proc : nat -> option (list proc_entry)) (now : nat -> Z) (tracing : bool)
  | HangUp (k : nat)
  | Accept (stream : nat)
  | Arrive (stream : nat) (rpc : nat -> FaultClient.answer)
  | Finish (stream : nat)
  | Center (e : daemon_event).

(** Node [k] goes on to [n]; what it writes goes onto its stream. *)
Definition node_moves (k : nat) (m : member) (n : node) (c : cluster) : cluster :=
  let sent := drop (length (NodeClient.written (node_client (body m)))) (NodeClient.written (node_client n)) in
  Cluster (center c) (clock c) (accepted c)
    (match link m with Some s => alter (push_up sent) s (wires c) | None => wires c end)
    (<[k := Member n (link m)]> (members c)).

(** The commands of the orchestrator go onto their streams. *)
Definition deliver (out : list (nat * ControlCommand)) (ws : gmap nat connection) : gmap nat connection :=
  foldl (fun ws sc => alter (push_down sc.2) sc.1 ws) ws out.

Definition center_moves (e : daemon_event) (d : daemon) (out : output) (c : cluster) : cluster :=
  Cluster d (clock_after (clock c) e) (accepted_after (accepted c) e out) (deliver (OrchestratorDaemon.written out) (wires c)) (members c).

Section Steps.
Context `{!ScxConsts, !StdSort}.

Definition run_center (e : daemon_event) (c : cluster) : option cluster :=
  match daemon_step (center c) e with Ret (d, out) => Some (center_moves e d out c) | UB => None end.

(** [None]: the step is not possible, or the daemon ends with an exception. *)
Definition cluster_step (ev : cluster_event) (c : cluster) : option cluster :=
  match ev with
  | Boot k m o l sm => Some (with_members (<[k := Member (started_node m o l sm) None]> (members c)) c)
  | Dial k s cpu_count release =>
      m ← members c !! k;
      match link m, wires c !! s with
      | None, None =>
          let n := on_client (send_ready cpu_count release) (on_client open_stream (body m)) in
          let opened := Connection (node_id_ (node_client n)) false [] [] in
          Some (node_moves k (Member (body m) (Some s)) n (with_wires (<[s := opened]> (wires c)) c))
      | _, _ => None
      end
  | Work k ev => m ← members c !! k; n ← node_step ev (body m); Some (node_moves k m n c)
  | Receive k proc now tracing =>
      m ← members c !! k; s ← link m; w ← wires c !! s;
      match downlink w with
      | [] => None
      | cmd :: rest =>
          n ← node_step (Command cmd proc now tracing) (body m);
          Some (node_moves k m n (with_wires (<[s := Connection (peer w) (served w) (uplink w) rest]> (wires c)) c))
      end
  | HangUp k =>
      m ← members c !! k; _ ← link m;
      Some (with_members (<[k := Member (on_client (set_connected false) (body m)) None]> (members c)) c)
  | Accept s =>
      w ← wires c !! s;
      if served w then None else
      run_center (StreamOpen s) (with_wires (<[s := Connection (peer w) true (uplink w) (downlink w)]> (wires c)) c)
  | Arrive s rpc =>
      w ← wires c !! s;
      match node_of (g_orchestrator_service (center c)) !! s, uplink w with
      | Some _, e :: rest =>
          run_center (StreamMessage rpc s e) (with_wires (<[s := Connection (peer w) (served w) rest (downlink w)]> (wires c)) c)
      | _, _ => None
      end
  | Finish s =>
      match node_of (g_orchestrator_service (center c)) !! s with
      | Some _ => run_center (StreamClosed s) c
      | None => None
      end
  | Center e => run_center e c
  end.

(** The daemon of [Boot] loaded its program; [Work] is what does not come from
    the stream, [Center] what does not concern one. *)
Definition allowed (c : cluster) (ev : cluster_event) : Prop :=
  match ev with
  | Boot k m o l sm => load_programs (cpuset_knob m) (cgroup_tree m) (loader_libbpf m) BpfLoader = Some (l, true)
  | Work _ (Command _ _ _ _) => False
  | Center e =>
      match e with
      | AddSchedInfoRpc _ _ _ | RecoveryRpc _ _ _ _ => True
      | Turn now _ _ => clock c <= now
      | _ => False
      end
  | _ => True
  end.

(** The clusters that an orchestrator started with [opts] gets into. *)
Inductive formed (h : host) (opts : list long_opt) : cluster -> Prop :=
  | formed_start now d : OrchestratorDaemon.main h opts = Ret (Running d) -> formed h opts (Cluster d now [] ∅ ∅)
  | formed_step c ev c' : formed h opts c -> allowed c ev -> cluster_step ev c = Some c' -> formed h opts c'.
End Steps.

(** Events one after the other. *)
Definition cluster_run `{!ScxConsts, !StdSort} (evs : list cluster_event) (c : cluster) : option cluster :=
  fold_opt (fun c ev => cluster_step ev c) c evs.

Fixpoint all_allowed `{!ScxConsts, !StdSort} (evs : list cluster_event) (c : cluster) : Prop :=
  match evs with
  | [] => True
  | ev :: evs => allowed c ev /\ match cluster_step ev c with Some c => all_allowed evs c | None => True end
  end.

Lemma formed_run `{!ScxConsts, !StdSort} h opts evs c c' :
  formed h opts c -> all_allowed evs c -> cluster_run evs c = Some c' -> formed h opts c'.
Proof.
  revert c. induction evs as [|ev evs IH]; intros c Hf; cbn [all_allowed cluster_run fold_opt]; [by intros _ [= <-]|].
  intros [Hev Hevs]. destruct (cluster_step ev c) as [c1|] eqn:E; [|done]. apply IH; [|exact Hevs].
  by eapply formed_step.
Qed.

(** ** The invariant *)

Section Invariant.
Context `{!ScxConsts, !StdSort, !StdSortLaws}.

(** What is under way on a stream: events in the name of the node that opened
    it, tables that may be sent to this node. *)
Definition wire_ok (config : NodeConfigManager) (reqs : list SchedInfo) (w : connection) : Prop :=
  Forall (fun e => ev_node e = peer w) (uplink w) /\
  forall t, full_table t ∈ downlink w -> sendable config reqs (peer w) t.

(** The orchestrator's view of a stream: not called yet or over, called and
    still anonymous, or the node that opened it. *)
Definition view_ok (o : orchestrator) (s : nat) (w : connection) : Prop :=
  (served w = false -> node_of o !! s = None) /\
  forall n, node_of o !! s = Some n -> n = ""%string \/ n = peer w.

Definition member_ok (config : NodeConfigManager) (reqs : list SchedInfo) (ws : gmap nat connection) (m : member) : Prop :=
  fires (sendable config reqs (node_id_ (node_client (body m)))) (timer_master (body m)) /\
  match link m with
  | None => connected_ (node_client (body m)) = false
  | Some s => exists w, ws !! s = Some w /\ peer w = node_id_ (node_client (body m))
  end.

Record cluster_ok (config : NodeConfigManager) (c : cluster) : Prop := {
  ck_center : daemon_ok config (accepted c) (clock c) (center c);
  ck_wires : map_Forall (fun s w => wire_ok config (accepted c) w /\ view_ok (g_orchestrator_service (center c)) s w) (wires c);
  ck_known : forall s, is_Some (node_of (g_orchestrator_service (center c)) !! s) -> is_Some (wires c !! s);
  ck_members : map_Forall (fun _ => member_ok config (accepted c) (wires c)) (members c);
}.

(** The same streams, as far as the nodes see them. *)
Definition same_peers (ws ws' : gmap nat connection) : Prop :=
  forall s w, ws !! s = Some w -> exists w', ws' !! s = Some w' /\ peer w' = peer w.

Lemma member_ok_wires config reqs ws ws' m : same_peers ws ws' -> member_ok config reqs ws m -> member_ok config reqs ws' m.
Proof using.
  intros Hs [Hf Hl]. split; [done|]. destruct (link m) as [s|]; [|done]. destruct Hl as (w & Hw & <-).
  destruct (Hs s w Hw) as (w' & ? & ?). eauto.
Qed.
Lemma member_ok_mono config reqs reqs' ws m : reqs ⊆ reqs' -> member_ok config reqs ws m -> member_ok config reqs' ws m.
Proof using.
  intros Hr [Hf Hl]. split; [|done]. eapply fires_mono; [|exact Hf]. intros t. by apply sendable_mono.
Qed.
Lemma wire_ok_mono config reqs reqs' w : reqs ⊆ reqs' -> wire_ok config reqs w -> wire_ok config reqs' w.
Proof using. intros Hr [Hu Hd]. split; [done|]. intros t Ht%Hd. by eapply sendable_mono. Qed.

(** *** A step of a node *)

Lemma same_peers_alter f s ws : (forall w, peer (f w) = peer w) -> same_peers ws (alter f s ws).
Proof using.
  intros Hf s' w Hw. destruct (decide (s = s')) as [<-|Hne].
  - exists (f w). by rewrite lookup_alter_eq, Hw.
  - exists w. by rewrite lookup_alter_ne.
Qed.

(** Node [k] of a good cluster goes on, in its own name and with a timer that
    fires what may be sent to it. *)
Lemma node_moves_ok config k m n c :
  cluster_ok config c -> members c !! k = Some m -> talks (node_client (body m)) (node_client n) ->
  fires (sendable config (accepted c) (node_id_ (node_client (body m)))) (timer_master n) ->
  cluster_ok config (node_moves k m n c).
Proof using.
  intros [Hc Hw Hk Hm] Hmk (Hid & Hcon & _ & es & Hes & Hown & Hquiet) Hf. destruct (Hm k m Hmk) as [_ Hl].
  unfold node_moves. rewrite Hes, drop_app_length. set (ws := match link m with Some s => _ | None => _ end).
  assert (Hsame : same_peers (wires c) ws).
  { unfold ws. destruct (link m) as [s|]; [by apply same_peers_alter|]. intros s w ?. by exists w. }
  split; cbn [center clock accepted wires members].
  - done.
  - unfold ws. destruct (link m) as [s|]; [|done]. destruct Hl as (w & Hws & Hp).
    intros s' w' Hs'. destruct (decide (s = s')) as [<-|Hne].
    + rewrite lookup_alter_eq, Hws in Hs'. injection Hs' as <-. destruct (Hw s w Hws) as [[Hu Hd] Hv].
      split; [|exact Hv]. split; [|exact Hd]. cbn [push_up uplink peer]. apply Forall_app. split; [done|]. by rewrite Hp.
    + rewrite lookup_alter_ne in Hs' by done. by apply Hw.
  - intros s [w Hs]%Hk. destruct (Hsame s w Hs) as (w' & -> & _). by eexists.
  - intros k' m' Hm'. eapply member_ok_wires; [exact Hsame|].
    destruct (decide (k = k')) as [<-|Hne].
    + rewrite lookup_insert_eq in Hm'. injection Hm' as <-. split; cbn [body link]; [by rewrite Hid|].
      destruct (link m) as [s|]; [by rewrite Hid|congruence].
    + rewrite lookup_insert_ne in Hm' by done. by apply (Hm k').
Qed.

(** A member is replaced. *)
Lemma replace_ok config k m c :
  cluster_ok config c -> member_ok config (accepted c) (wires c) m -> cluster_ok config (with_members (<[k := m]> (members c)) c).
Proof using.
  intros [Hc Hw Hk Hm] Hok. split; cbn [with_members center clock accepted wires members]; [done..|].
  apply map_Forall_insert_2; done.
Qed.

(** A stream is replaced by one of the same node. *)
Lemma rewire_ok config s w w' c :
  cluster_ok config c -> wires c !! s = Some w -> peer w' = peer w ->
  wire_ok config (accepted c) w' -> view_ok (g_orchestrator_service (center c)) s w' ->
  cluster_ok config (with_wires (<[s := w']> (wires c)) c).
Proof using.
  intros [Hc Hw Hk Hm] Hs Hp Hok Hv. split; cbn [with_wires center clock accepted wires members].
  - done.
  - by apply map_Forall_insert_2.
  - intros s' Hs'%Hk. destruct (decide (s = s')) as [<-|?]; [by rewrite lookup_insert_eq|by rewrite lookup_insert_ne].
  - eapply map_Forall_impl; [exact Hm|]. intros k m. apply member_ok_wires. intros s' w1 Hw1.
    destruct (decide (s = s')) as [<-|?].
    + exists w'. rewrite lookup_insert_eq. split; [done|]. congruence.
    + exists w1. by rewrite lookup_insert_ne.
Qed.

(** *** A step of the orchestrator *)

Lemma deliver_lookup out ws s w' :
  deliver out ws !! s = Some w' ->
  exists w, ws !! s = Some w /\ peer w' = peer w /\ served w' = served w /\ uplink w' = uplink w /\
    downlink w' = downlink w ++ (snd <$> filter (fun sc => sc.1 = s) out).
Proof using.
  revert ws. induction out as [|[s0 cmd] out IH]; intros ws; cbn [deliver foldl].
  { intros Hw. exists w'. by rewrite app_nil_r. }
  intros (w & Hw & Hp & Hsv & Hu & Hd)%IH. cbn [fst snd] in Hw. rewrite filter_cons. cbn [fst].
  destruct (decide (s0 = s)) as [->|Hne].
  - rewrite lookup_alter_eq in Hw. apply fmap_Some in Hw as (w0 & Hw0 & ->). exists w0.
    cbn [push_down peer served uplink downlink] in *. split_and!; try done. rewrite Hd, <- app_assoc. done.
  - rewrite lookup_alter_ne in Hw by done. exists w. done.
Qed.

Lemma deliver_same_peers out ws : same_peers ws (deliver out ws).
Proof using.
  revert ws. induction out as [|[s cmd] out IH]; intros ws s' w Hw; cbn [deliver foldl]; [by exists w|].
  destruct (same_peers_alter (push_down cmd) s ws ltac:(done) s' w Hw) as (w1 & Hw1 & <-). by apply IH.
Qed.

(** A step of the orchestrator that looks at the streams as [d] does. *)
Lemma center_ok config e d out c :
  cluster_ok config c -> possible (clock c) (center c) e -> daemon_step (center c) e = Ret (d, out) ->
  map_Forall (fun s w => view_ok (g_orchestrator_service d) s w) (wires c) ->
  (forall s, is_Some (node_of (g_orchestrator_service d) !! s) -> is_Some (wires c !! s)) ->
  cluster_ok config (center_moves e d out c).
Proof using.
  intros [Hc Hw Hk Hm] Hp E Hview Hknown.
  destruct (daemon_step_ok _ _ _ _ _ Hc Hp) as (d' & out' & E' & Hok & Hsent). rewrite E in E'. injection E' as <- <-.
  pose proof (accepted_after_grows (accepted c) e out) as Hgrow.
  split; cbn [center_moves center clock accepted wires members].
  - done.
  - intros s w' (w & Hs & Hpeer & Hsv & Hu & Hd)%deliver_lookup. destruct (Hw s w Hs) as [[Hup Hdown] Hv]. split.
    + split; [by rewrite Hpeer, Hu|]. rewrite Hd, Hpeer. intros t [Ht|Ht]%elem_of_app.
      * eapply sendable_mono; [exact Hgrow|]. by apply Hdown.
      * apply list_elem_of_fmap in Ht as ([s' cmd] & E2 & [Es Hin]%list_elem_of_filter). cbn [fst snd] in *. subst s' cmd.
        destruct (Hsent s t Hin) as (n & Hn & Hsend). destruct (dk_nodes _ _ _ _ Hc n s Hn) as [Hnode Hne].
        destruct (proj2 Hv n Hnode) as [->| ->]; [done|]. by eapply sendable_mono.
    + destruct (Hview s w Hs) as [V1 V2]. split; [by rewrite Hsv|by rewrite Hpeer].
  - intros s [w Hs]%Hknown. destruct (deliver_same_peers (OrchestratorDaemon.written out) _ s w Hs) as (w' & -> & _).
    by eexists.
  - eapply map_Forall_impl; [exact Hm|]. intros k m Hmk. eapply member_ok_wires; [apply deliver_same_peers|].
    by eapply member_ok_mono.
Qed.

(** RPCs and turns do not look at the streams. *)
Lemma center_keeps_nodes c e d out : allowed c (Center e) -> daemon_step (center c) e = Ret (d, out) ->
  g_orchestrator_service d = g_orchestrator_service (center c).
Proof using.
  destruct e as [now1 now2 request|now write_ok policy workload|s|rpc s ev|s|now epoch write_ok]; cbn [allowed daemon_step];
    try done.
  - intros _. destruct (AddSchedInfo _ _ _ _ _) as [[s code]|]; cbn [obind]; [|done]. by intros [= <- _].
  - intros _. destruct (EnforceRecoveryPolicy _ _ _ _ _ _ _) as [[[[s b] code]|]|]; cbn [obind]; [by intros [= <- _]..|done].
  - intros _. destruct (GetScheduleTables _) as [s [ts ch]]. destruct (iterate _ _ _ _ _ _ _). by intros [= <- _].
Qed.

(** *** Every step *)

Lemma accept_view o s s' w :
  view_ok o s' w -> s' <> s -> view_ok (stream_open s o) s' w.
Proof using. intros [V1 V2] Hne. unfold view_ok, stream_open. cbn [node_of]. by rewrite lookup_insert_ne. Qed.

Lemma arrive_view o s id s' w :
  view_ok o s' w -> (s' = s -> id = peer w) -> view_ok (stream_event s id o) s' w.
Proof using.
  intros [V1 V2] Hid. unfold view_ok, stream_event. destruct (node_of o !! s) as [current|] eqn:E; [|done].
  destruct (bool_decide_reflect (current = ""%string)) as [->|]; cbn [andb]; [|done].
  destruct (bool_decide_reflect (id = ""%string)) as [|Hne]; cbn [negb]; [done|]. cbn [node_of].
  destruct (decide (s = s')) as [<-|?]; [|by rewrite lookup_insert_ne]. rewrite lookup_insert_eq. split.
  - intros Hsv. rewrite V1 in E by done. discriminate.
  - intros n [= <-]. right. by apply Hid.
Qed.

Lemma finish_view o s s' w : view_ok o s' w -> view_ok (stream_closed s o) s' w.
Proof using.
  intros [V1 V2]. unfold view_ok, stream_closed. destruct (node_of o !! s) as [current|] eqn:E; [|done]. cbn [node_of].
  destruct (decide (s = s')) as [<-|?]; [rewrite lookup_delete_eq|by rewrite lookup_delete_ne]. done.
Qed.

Lemma run_center_ok config e c c' :
  cluster_ok config c -> possible (clock c) (center c) e -> run_center e c = Some c' ->
  (forall d out, daemon_step (center c) e = Ret (d, out) ->
     map_Forall (fun s w => view_ok (g_orchestrator_service d) s w) (wires c) /\
     forall s, is_Some (node_of (g_orchestrator_service d) !! s) -> is_Some (wires c !! s)) ->
  cluster_ok config c'.
Proof using.
  intros Hok Hp E Hview. unfold run_center in E. destruct (daemon_step (center c) e) as [[d out]|] eqn:Ed; [|done].
  injection E as <-. destruct (Hview d out eq_refl) as [V1 V2]. by eapply center_ok.
Qed.

Lemma views config c : cluster_ok config c -> map_Forall (fun s w => view_ok (g_orchestrator_service (center c)) s w) (wires c).
Proof using. intros Hok s w Hs. by apply (ck_wires _ _ Hok). Qed.

Lemma started_fires P m o l sm : fires P (timer_master (started_node m o l sm)).
Proof using.
  cbn [started_node timer_master]. unfold TimerMaster, TimerMaster.start. split; cbn; [by left| |done]. split; cbn; [|done].
  intros c ss hp ep Hin. by apply list_elem_of_singleton in Hin.
Qed.

Lemma dial_ok config k s cpu_count release m c :
  cluster_ok config c -> members c !! k = Some m -> link m = None -> wires c !! s = None ->
  let n := on_client (send_ready cpu_count release) (on_client open_stream (body m)) in
  cluster_ok config (node_moves k (Member (body m) (Some s)) n
    (with_wires (<[s := Connection (node_id_ (node_client n)) false [] []]> (wires c)) c)).
Proof using.
  intros [Hc Hw Hk Hm] Hmk Hl Hs. cbv zeta. destruct (Hm k m Hmk) as [Hf _].
  set (opened := on_client open_stream (body m)). set (n := on_client (send_ready cpu_count release) opened).
  assert (Ht : talks (node_client opened) (node_client n)) by apply send_talks.
  assert (Hid : node_id_ (node_client n) = node_id_ (node_client (body m))) by (destruct Ht as [-> _]; done).
  assert (Hfresh : node_of (g_orchestrator_service (center c)) !! s = None).
  { destruct (node_of _ !! s) eqn:E; [|done]. destruct (Hk s) as [w Hw']; [by eexists|congruence]. }
  set (c1 := with_members (<[k := Member opened (Some s)]> (members c))
    (with_wires (<[s := Connection (node_id_ (node_client n)) false [] []]> (wires c)) c)).
  assert (Hok : cluster_ok config c1).
  { split; cbn [c1 with_members with_wires center clock accepted wires members].
    - done.
    - apply map_Forall_insert_2; [|done]. split; [split; [constructor|by intros t ?%not_elem_of_nil]|].
      split; [done|]. intros n0. by rewrite Hfresh.
    - intros s' [w Hs']%Hk. rewrite lookup_insert_ne by congruence. by eexists.
    - apply map_Forall_insert_2.
      + split; [exact Hf|]. cbn [link]. eexists. rewrite lookup_insert_eq. split; [done|]. exact Hid.
      + eapply map_Forall_impl; [exact Hm|]. intros k' m'. apply member_ok_wires. intros s' w Hs'. exists w.
        rewrite lookup_insert_ne by congruence. done. }
  pose proof (node_moves_ok config k (Member opened (Some s)) n c1 Hok) as Hn.
  unfold node_moves in *. cbn [c1 with_members with_wires center clock accepted wires members body link] in *.
  rewrite insert_insert_eq in Hn. apply Hn; [by rewrite lookup_insert_eq|exact Ht|exact Hf].
Qed.

Lemma booted_ok config m o l sm reqs ws : member_ok config reqs ws (Member (started_node m o l sm) None).
Proof using. split; [apply started_fires|done]. Qed.

(** A node reads a command. *)
Lemma receive_ok config k proc now tracing c c' :
  cluster_ok config c -> cluster_step (Receive k proc now tracing) c = Some c' -> cluster_ok config c'.
Proof using All.
  intros Hok. cbn [cluster_step].
  intros (m & Hmk & (s & El & (w & Hs & E)%bind_Some)%bind_Some)%bind_Some.
  destruct (downlink w) as [|cmd rest] eqn:Ed; [done|]. apply bind_Some in E as (n & En & [= <-]).
  destruct (ck_members _ _ Hok k m Hmk) as [Hf Hl]. rewrite El in Hl. destruct Hl as (w0 & Hs0 & Hp).
  assert (w0 = w) as -> by congruence. destruct (ck_wires _ _ Hok s w Hs) as [[Hu Hd] Hv]. rewrite Ed in Hd.
  apply node_moves_ok; cbn [with_wires members accepted].
  - eapply rewire_ok; [done|exact Hs|done| |exact Hv]. split; [exact Hu|]. intros t Ht. apply Hd. by right.
  - done.
  - by eapply node_step_talks.
  - eapply node_step_fires; [|exact Hf|exact En]. destruct cmd as [t| | | |]; try done. rewrite <- Hp. apply Hd. by left.
Qed.

(** The orchestrator takes a new stream. *)
Lemma accept_ok config s c c' :
  cluster_ok config c -> cluster_step (Accept s) c = Some c' -> cluster_ok config c'.
Proof using All.
  intros Hok. cbn [cluster_step].
  intros (w & Hs & E)%bind_Some. destruct (served w) eqn:Esv; [done|]. pose proof (views _ _ Hok) as Hvs.
  destruct (ck_wires _ _ Hok s w Hs) as [Hwo [V1 V2]].
  eapply run_center_ok; [| |exact E|].
  - eapply rewire_ok; [done|exact Hs|done|exact Hwo|]. split; [done|exact V2].
  - cbn [possible]. by apply V1.
  - intros d out [= <- <-]. cbn [with_wires wires center with_nodes g_orchestrator_service]. split.
    + intros s' w' Hs'. destruct (decide (s = s')) as [<-|Hne].
      *  rewrite lookup_insert_eq in Hs'. injection Hs' as <-. split; [done|]. cbn [stream_open node_of].
         rewrite lookup_insert_eq. intros n [= <-]. by left.
      *  rewrite lookup_insert_ne in Hs' by done. apply accept_view; [by apply Hvs|done].
    + intros s' Hs'. destruct (decide (s = s')) as [<-|Hne]; [by rewrite lookup_insert_eq|].
      rewrite lookup_insert_ne by done. apply (ck_known _ _ Hok). cbn [stream_open node_of] in Hs'.
      by rewrite lookup_insert_ne in Hs'.
Qed.

(** The orchestrator reads an event of a node. *)
Lemma arrive_ok config s rpc c c' :
  cluster_ok config c -> cluster_step (Arrive s rpc) c = Some c' -> cluster_ok config c'.
Proof using All.
  intros Hok. cbn [cluster_step].
  intros (w & Hs & E)%bind_Some. destruct (node_of _ !! s) as [cur|] eqn:Eo; [|done].
  destruct (uplink w) as [|e rest] eqn:Eu; [done|]. pose proof (views _ _ Hok) as Hvs.
  destruct (ck_wires _ _ Hok s w Hs) as [[Hu Hd] Hv]. rewrite Eu in Hu. apply Forall_cons in Hu as [He Hu].
  eapply run_center_ok; [| |exact E|].
  - eapply rewire_ok; [done|exact Hs|done|split; [exact Hu|exact Hd]|exact Hv].
  - exact I.
  - intros d out Ed. cbn [with_wires wires center daemon_step] in *. unfold stream_message in Ed. injection Ed as <- _.
    cbn [with_faults with_nodes g_orchestrator_service]. split.
    + intros s' w' Hs'. destruct (decide (s = s')) as [<-|Hne].
      *  rewrite lookup_insert_eq in Hs'. injection Hs' as <-. apply arrive_view; [exact Hv|]. done.
      *  rewrite lookup_insert_ne in Hs' by done. apply arrive_view; [by apply Hvs|]. congruence.
    + intros s' Hs'. destruct (decide (s = s')) as [<-|Hne]; [by rewrite lookup_insert_eq|].
      rewrite lookup_insert_ne by done. apply (ck_known _ _ Hok). unfold stream_event in Hs'. rewrite Eo in Hs'.
      destruct (_ && _); [|done]. cbn [node_of] in Hs'. by rewrite lookup_insert_ne in Hs'.
Qed.

Lemma cluster_step_ok config ev c c' :
  cluster_ok config c -> allowed c ev -> cluster_step ev c = Some c' -> cluster_ok config c'.
Proof using All.
  intros Hok Hal. destruct ev as [k m o l sm|k s n r|k ev|k proc now tracing|k|s|s rpc|s|e];
    [| | |by apply receive_ok| |by apply accept_ok|by apply arrive_ok| |]; cbn [cluster_step].
  - intros [= <-]. apply replace_ok; [done|]. apply booted_ok.
  - intros (m & Hmk & E)%bind_Some. destruct (link m) eqn:El; [done|]. destruct (wires c !! s) eqn:Es; [done|].
    injection E as <-. by apply dial_ok.
  - intros (m & Hmk & (n & En & [= <-])%bind_Some)%bind_Some. destruct (ck_members _ _ Hok k m Hmk) as [Hf _].
    apply node_moves_ok; [done|done|by eapply node_step_talks|].
    eapply node_step_fires; [|exact Hf|exact En]. by destruct ev.
  - intros (m & Hmk & (s & El & [= <-])%bind_Some)%bind_Some. apply replace_ok; [done|].
    destruct (ck_members _ _ Hok k m Hmk) as [Hf _]. by split.
  - destruct (node_of _ !! s) as [cur|] eqn:Eo; [|done]. intros E. eapply run_center_ok; [done| |exact E|]; [exact I|].
    intros d out [= <- <-]. cbn [with_nodes g_orchestrator_service]. split.
    + intros s' w' Hs'. apply finish_view. by apply (views _ _ Hok).
    + intros s' Hs'. apply (ck_known _ _ Hok). unfold stream_closed in Hs'. rewrite Eo in Hs'. cbn [node_of] in Hs'.
      destruct Hs' as [x Hx]. apply lookup_delete_Some in Hx as [_ Hx]. by eexists.
  - intros E. eapply run_center_ok; [done| |exact E|].
    + by destruct e.
    + intros d out Ed. rewrite (center_keeps_nodes c e d out Hal Ed). split; [by apply (views _ _ Hok)|apply (ck_known _ _ Hok)].
Qed.

Lemma main_nodes h opts d : OrchestratorDaemon.main h opts = Ret (Running d) -> g_orchestrator_service d = OrchestratorServiceImpl.
Proof using.
  unfold OrchestratorDaemon.main. destruct (GetOptions _ _) as [[o|]|]; [|done..].
  destruct (load_config _ _) as [[config|]|]; cbn [obind]; [|done..].
  unfold RunSchedInfoServer, Start. destruct (listens h _); cbn [negb]; [|done].
  destruct (InitFaultClient _ _ _ _) as [c [|]]; cbn [negb]; [|done].
  unfold RunOrchestratorServer. destruct (listens h _); [|done]. by intros [= <-].
Qed.

Lemma formed_ok h opts c : formed h opts c -> cluster_ok (node_config_manager (center c)) c.
Proof using All.
  induction 1 as [now d Hm|c ev c' _ IH Hal Hs].
  - split; cbn [center clock accepted wires members]; [by eapply main_ok|apply map_Forall_empty| |apply map_Forall_empty].
    rewrite (main_nodes _ _ _ Hm). intros s [x Hx]. cbn [OrchestratorServiceImpl node_of] in Hx. by rewrite lookup_empty in Hx.
  - pose proof (cluster_step_ok _ _ _ _ IH Hal Hs) as Hok. by rewrite (dk_config _ _ _ _ (ck_center _ _ Hok)).
Qed.
End Invariant.

(** ** Requests that share a horizon *)

(** The times of a request, as they are stored: periods that divide the
    horizon, no empty reservation, deadlines below 2^31 us. *)
Definition request_fits (hz : Z) (request : SchedInfo) : Prop :=
  Forall (fun g => 0 < u32 (t_period g) /\ (u32 (t_period g) | hz) /\ 0 < u32 (t_runtime g) < 2 ^ 31 /\
    u32 (t_deadline g) < 2 ^ 31) (r_tasks request).

Lemma converted_fits hz w mech g :
  0 < hz < 2 ^ 31 -> 0 < u32 (t_period g) -> (u32 (t_period g) | hz) -> 0 < u32 (t_runtime g) < 2 ^ 31 ->
  u32 (t_deadline g) < 2 ^ 31 -> within_horizon hz (ConvertToClassifiedTask w mech g).
Proof.
  intros Hz Hp Hd Hr Hdl. unfold within_horizon, ConvertToClassifiedTask. cbn [period_us wcet_us deadline_us].
  split_and!; try done; destruct (wrap_range 32 (t_deadline g)); try lia; destruct (_ && _); try done; try lia.
  apply Z.divide_pos_le in Hd; lia.
Qed.

Lemma requested_tasks_fit hz config reqs workloads n :
  0 < hz < 2 ^ 31 -> (forall request, request ∈ reqs -> request_fits hz request) ->
  (forall w e, workloads !! w = Some e -> requested config reqs w e) ->
  Forall (within_horizon hz) (tasks_for workloads n).
Proof.
  intros Hz Hreqs Hw. apply Forall_bind, Forall_forall. intros [w e] Hin%elem_of_ascending. unfold compose. cbn [snd]. case_decide; [|constructor].
  destruct (Hw w e Hin) as (request & Hr & _ & _ & ->). cbn [request_entry entry_tasks ConvertToClassifiedTasks].
  apply Forall_fmap. eapply Forall_impl; [exact (Hreqs request Hr)|]. intros g (? & ? & ? & ?). by apply converted_fits.
Qed.

(** ** Safety *)

Lemma apart_submseteq es es' : es ⊆+ es' -> StronglySorted entries_apart es' -> StronglySorted entries_apart es.
Proof.
  intros [k Hp]%submseteq_Permutation Hs. apply (StronglySorted_perm _ _ _ Hp), StronglySorted_app_1_l in Hs. exact Hs.
Qed.
Lemma Forall_submseteq {A} (P : A -> Prop) l l' : l ⊆+ l' -> Forall P l' -> Forall P l.
Proof. intros [k ->]%submseteq_Permutation. by intros [? _]%Forall_app. Qed.

Section Safety.
Context `{!ScxConsts, !StdSort, !StdSortLaws}.

(** A thread of a timer that fires what is left of a table: each wake-up is
    that of a slot of the table, and its reservation is over at the next. *)
Lemma thread_slots hp t m cpu ss p ep :
  0 < hp < 2 ^ 31 -> hyperperiod_us t = hp -> Forall (slot_within hp) (table_slots t) ->
  StronglySorted slots_apart (table_slots t) -> slot_table m ⊆+ timer_entries t -> hyperperiod_ns m = u64 (hyperperiod_us t * 1000) ->
  threads_ok m -> CpuThread cpu ss p ep ∈ cpu_threads m ->
  p = hp * 1000 /\ forall start i, 0 <= start -> 0 <= i ->
    let fired := std_sort offset_ns ss in
    exists j s, table_slots t !! j = Some s /\ m_cpu s = cpu /\
      fired !! Z.to_nat (i mod zlen fired) = Some (slot_entry (u32 (Z.of_nat j)) s) /\
      target fired start p i + m_duration s * 1000 <= target fired start p (i + 1).
Proof using All.
  intros Hhp Eh Hw Hs Hsub Hns [Hth _] Hin. destruct (Hth _ _ _ _ Hin) as (Hne & -> & -> & _).
  assert (Ep : hyperperiod_ns m = hp * 1000) by (rewrite Hns, Eh; apply wrap_small; unfold uword; pows; lia).
  rewrite Ep. split; [done|]. intros start i Hst Hi fired.
  destruct (table_entries_apart (fun i => u32 (Z.of_nat i)) hp (table_slots t) ltac:(lia) Hw Hs) as [Hwe Hse].
  fold (timer_entries t) in Hwe, Hse.
  apply (apart_submseteq _ _ Hsub) in Hse. apply (Forall_submseteq _ _ _ Hsub) in Hwe.
  assert (Hperm : fired ≡ₚ filter (fun e => TimerMaster.cpu e = cpu) (slot_table m)) by (unfold fired; by rewrite std_sort_perm).
  destruct (thread_order _ cpu _ fired Hwe Hse Hperm (std_sort_sorted offset_ns _)) as [Hwf Hsf].
  destruct (reservation_over fired start (hp * 1000) i) as (e & He & Hover); [|lia|done..|].
  { intros Hnil. apply Hne, Permutation_nil_r. rewrite <- Hnil. symmetry. apply std_sort_perm. }
  pose proof He as Hel%list_elem_of_lookup_2. rewrite Hperm in Hel. apply list_elem_of_filter in Hel as [Hc Hel].
  eapply elem_of_submseteq in Hel; [|exact Hsub]. apply elem_of_lookup_imap in Hel as (j & s & -> & Hj).
  exists j, s. split_and!; [done|exact Hc|exact He|].
  assert (Hsw : slot_within hp s) by (rewrite Forall_forall in Hw; apply Hw; by eapply list_elem_of_lookup_2).
  by destruct (slot_entry_ns hp (u32 (Z.of_nat j)) s Hsw ltac:(lia)) as [_ <-].
Qed.

(** C4. No node ever overlaps reservations.  In every state a cluster gets
    into - requests of Pullpiri refused and accepted, nodes that start, fail,
    restart and share a name, streams that break on either side with commands
    and events under way, stop signals, faults, tables that do not fit -, as
    long as the accepted requests have periods that divide a common horizon
    below 2^31 us, runtimes above 0 and times below 2^31 us, and configured
    CPUs are 32-bit numbers (when the least common multiple of a table's
    periods is cut to 32 bits reservations do overlap:
    [global_hyperperiod_truncated]):
    a timer thread of a node fires slots of one table the generator made for
    this node's name from accepted requests, slots of the thread's CPU, and at
    any instant it may start at, the reservation of every wake-up is over when
    the thread's next wake-up is due. *)
Theorem cluster_never_overlaps h opts c hz k m cpu ss hp ep :
  formed h opts c -> 0 < hz < 2 ^ 31 -> (forall request, request ∈ accepted c -> request_fits hz request) ->
  (forall n, Forall (uword 32) (usable_cpus (cpus_of (node_config_manager (center c)) n))) ->
  members c !! k = Some m -> CpuThread cpu ss hp ep ∈ cpu_threads (timer_master (body m)) ->
  exists t, generated (node_config_manager (center c)) (accepted c) (node_id_ (node_client (body m))) t /\
    hp = hyperperiod_us t * 1000 /\
    forall start i, 0 <= start -> 0 <= i ->
      let fired := std_sort offset_ns ss in
      exists j s, table_slots t !! j = Some s /\ m_cpu s = cpu /\
        fired !! Z.to_nat (i mod zlen fired) = Some (slot_entry (u32 (Z.of_nat j)) s) /\
        target fired start hp i + m_duration s * 1000 <= target fired start hp (i + 1).
Proof using All.
  intros Hf Hhz Hreqs Hcpus Hm Hin. pose proof (formed_ok _ _ _ Hf) as Hok.
  destruct (ck_members _ _ Hok k m Hm) as [[Htab Hth _] _]. set (name := node_id_ _) in *.
  destruct (proj1 Hth _ _ _ _ Hin) as (Hne & Ess & _).
  destruct Htab as [E|(t & Ht & Hsub & Hns)]; [by rewrite E in Ess|].
  assert (Hslots : table_slots t <> []).
  { intros E. apply Hne. rewrite Ess. unfold timer_entries in Hsub. rewrite E in Hsub. apply submseteq_nil_r in Hsub.
    by rewrite Hsub. }
  destruct Ht as [[epoch ->]|Hg]; [done|]. exists t. split; [exact Hg|]. destruct Hg as (now & ws & Hws & Hg).
  destruct (horizon_slots hz _ _ _ _ _ Hhz (Hcpus name) (requested_tasks_fit hz _ _ _ name Hhz Hreqs Hws) Hg)
    as [?|(Hhp & Hw & Hs)]; [done|].
  by eapply (thread_slots (hyperperiod_us t) t).
Qed.
End Safety.

(** ** Delivery *)

Section Delivery.
Context `{!ScxConsts, !StdSort, !StdSortLaws}.
Context (proc : nat -> option (list proc_entry)) (mono : nat -> Z) (tracing : bool).
Hypothesis Hproc : readable proc.

Definition receive (k : nat) : cluster_event := Receive k proc mono tracing.
Definition take_command (n : node) (cmd : ControlCommand) : option node := node_step (Command cmd proc mono tracing) n.

Lemma receive_step k m s w cmd rest n c :
  members c !! k = Some m -> link m = Some s -> wires c !! s = Some w -> downlink w = cmd :: rest ->
  take_command (body m) cmd = Some n ->
  exists c' w', cluster_step (receive k) c = Some c' /\ members c' !! k = Some (Member n (Some s)) /\
    wires c' !! s = Some w' /\ downlink w' = rest /\ center c' = center c.
Proof using.
  intros Hm Hl Hs Hd Hn. cbn [receive cluster_step]. rewrite Hm. cbn [mbind option_bind]. rewrite Hl. cbn [mbind option_bind].
  rewrite Hs. cbn [mbind option_bind]. rewrite Hd. unfold take_command in Hn. rewrite Hn. cbn [mbind option_bind].
  do 2 eexists. split; [reflexivity|]. unfold node_moves. cbn [members wires center with_wires]. rewrite Hl.
  split; [by rewrite lookup_insert_eq|]. rewrite lookup_alter_eq, lookup_insert_eq. split; [reflexivity|]. by split.
Qed.

(** A node that is not interrupted takes all that is under way to it. *)
Lemma receive_all k m s w c :
  members c !! k = Some m -> link m = Some s -> wires c !! s = Some w -> Forall sound (downlink w) ->
  exists c' n, cluster_run (replicate (length (downlink w)) (receive k)) c = Some c' /\
    members c' !! k = Some (Member n (Some s)) /\ fold_opt take_command (body m) (downlink w) = Some n /\ center c' = center c.
Proof using Hproc.
  intros Hm Hl Hs Hsound. remember (downlink w) as cmds eqn:Ed. revert m w c Hm Hl Hs Ed.
  induction Hsound as [|cmd rest Hcmd _ IH]; intros m w c Hm Hl Hs Ed.
  { exists c, (body m). split; [done|]. rewrite Hm. destruct m as [n l]. cbn in Hl |- *. by rewrite Hl. }
  destruct (command_taken cmd proc mono tracing (body m) Hproc Hcmd) as [n Hn].
  destruct (receive_step k m s w cmd rest n c Hm Hl Hs (eq_sym Ed) Hn) as (c1 & w1 & E1 & Hm1 & Hs1 & Hd1 & Hc1).
  destruct (IH _ _ _ Hm1 eq_refl Hs1 (eq_sym Hd1)) as (c2 & n2 & E2 & Hm2 & Hf2 & Hc2). exists c2, n2.
  cbn [length replicate cluster_run fold_opt]. rewrite E1. split; [exact E2|]. split; [done|].
  unfold take_command at 1. rewrite Hn. split; [exact Hf2|congruence].
Qed.

(** The last table of the queue is the one in force at its end. *)
Lemma last_table_installed n cmds t n' :
  fires (fun _ => True) (timer_master n) -> fold_opt take_command n (cmds ++ [full_table t]) = Some n' ->
  installed_table t (timer_master n').
Proof using All.
  intros Hf E. rewrite fold_opt_app in E. apply bind_Some in E as (n1 & E1 & E2). cbn [fold_opt] in E2.
  destruct (take_command n1 (full_table t)) as [n2|] eqn:E3; [|done]. injection E2 as <-.
  eapply taken_installed; [|exact E3]. clear E3. revert n Hf E1. induction cmds as [|cmd cmds IH]; intros n Hf; cbn [fold_opt].
  { intros [= <-]. apply Hf. }
  destruct (take_command n cmd) as [n0|] eqn:E; [|done]. apply IH. eapply node_step_fires; [|exact Hf|exact E].
  by destruct cmd.
Qed.

(** *** The orchestrator's side *)

(** What a turn pushes onto the stream of a node is that node's table. *)
Lemma turn_pushes config c now epoch write_ok d out s name cmd :
  cluster_ok config c -> the_nodes (center c) !! name = Some s -> daemon_step (center c) (Turn now epoch write_ok) = Ret (d, out) ->
  (s, cmd) ∈ OrchestratorDaemon.written out -> cmd = full_table (table_for (schedule_tables (the_service (center c))) epoch name).
Proof using.
  intros Hok Hn E Hin. cbn [daemon_step GetScheduleTables] in E. set (ts := schedule_tables _) in *.
  set (o := g_orchestrator_service (center c)) in *.
  pose proof (iterate_sends ts (schedule_changed (the_service (center c))) (get_connected_node_ids o) now epoch
    (push_works write_ok o) (loop (center c))) as Hs.
  destruct (iterate _ _ _ _ _ _ _) as [l sent]. injection E as _ <-. cbn [OrchestratorDaemon.written] in Hin.
  apply list_elem_of_omap in Hin as ([n t] & Hin & Hp). cbn [fst snd] in Hp. unfold push_full_table, push_command in Hp.
  destruct (connected_nodes o !! n) as [s'|] eqn:Es; [|done]. destruct (write_ok s'); [|done]. injection Hp as -> <-.
  pose proof (dk_nodes _ _ _ _ (ck_center _ _ Hok)) as Hnodes. destruct (Hnodes n s Es) as [E1 _], (Hnodes name s Hn) as [E2 _].
  assert (n = name) as -> by congruence. f_equal. exact (proj1 (Forall_forall _ _) Hs _ Hin).
Qed.

Lemma turn_queues config c now epoch write_ok s w name :
  cluster_ok config c -> clock c <= now -> the_nodes (center c) !! name = Some s -> wires c !! s = Some w -> write_ok s = true ->
  schedule_changed (the_service (center c)) = true -> schedule_tables (the_service (center c)) <> ∅ ->
  let t := table_for (schedule_tables (the_service (center c))) epoch name in
  exists c2, cluster_step (Center (Turn now epoch write_ok)) c = Some c2 /\ members c2 = members c /\
    ((exists last, last_pushed_tables (loop (center c)) !! name = Some last /\ same_message t last) \/
     exists w2 cmds, wires c2 !! s = Some w2 /\ downlink w2 = cmds ++ [full_table t] /\
       forall cmd, cmd ∈ downlink w2 -> cmd ∈ downlink w \/ cmd = full_table t).
Proof using All.
  intros Hok Hnow Hn Hs Hw Hch Hne t. set (ts := schedule_tables (the_service (center c))) in *.
  destruct (turn_delivers config _ _ _ now epoch write_ok (ck_center _ _ Hok) Hnow Hch Hne) as (d & out & E & Hd).
  exists (center_moves (Turn now epoch write_ok) d out c). cbn [cluster_step]. unfold run_center. rewrite E.
  split; [reflexivity|]. split; [reflexivity|]. destruct (Hd name s Hn Hw) as (t' & Hsame & _ & [Hin|Hlast]); [right|left].
  2:{ exists t'. split; [exact Hlast|]. etrans; [|exact Hsame]. symmetry. apply table_for_epoch. }
  cbn [center_moves wires]. destruct (deliver_same_peers (OrchestratorDaemon.written out) (wires c) s w Hs) as (w2 & Hw2 & _).
  destruct (deliver_lookup _ _ _ _ Hw2) as (w0 & Hw0 & _ & _ & _ & Hdown). assert (w0 = w) as -> by congruence.
  set (new := snd <$> filter (fun sc => sc.1 = s) (OrchestratorDaemon.written out)) in *.
  assert (Hnew : forall cmd, cmd ∈ new <-> (s, cmd) ∈ OrchestratorDaemon.written out).
  { intros cmd. unfold new. rewrite list_elem_of_fmap. setoid_rewrite list_elem_of_filter. split.
    - intros ([s' x] & E1 & E2 & Hx). cbn [fst snd] in E1, E2. by subst s' x.
    - intros Hx. by exists (s, cmd). }
  assert (Hall : forall cmd, cmd ∈ new -> cmd = full_table t) by (intros cmd Hx%Hnew; by eapply turn_pushes).
  apply Hnew in Hin. exists w2. destruct new as [|x new'] eqn:En using rev_ind; [by apply not_elem_of_nil in Hin|].
  clear IHnew'. exists (downlink w ++ new'). split; [exact Hw2|]. split.
  - rewrite Hdown, app_assoc, (Hall x); [done|]. apply elem_of_app. right. by left.
  - intros cmd. rewrite Hdown, elem_of_app. intros [?|Hx%Hall]; [by left|by right].
Qed.

(** C6. From a request to the timers.  Any cluster, whatever happened to it
    before; a node in a session on a stream the orchestrator knows as this
    node's, with processes that can be listed.  A request of Pullpiri is
    answered.  If it is accepted, its workload is stored, every table is the
    generator's answer for the present workloads, and the next turn of the loop
    on a clock that does not run backwards is possible; then either the node
    was last pushed this very table before, or, if the stream takes the push,
    the node that reads what is under way to it ends with a timer that has
    exactly the entries of its new table, and a thread for every slot. *)
Theorem accepted_workload_is_installed h opts c k m s w now1 now2 request now epoch write_ok :
  formed h opts c -> members c !! k = Some m -> link m = Some s -> wires c !! s = Some w ->
  let name := node_id_ (node_client (body m)) in
  the_nodes (center c) !! name = Some s -> Forall sound (downlink w) -> clock c <= now -> write_ok s = true ->
  let config := node_config_manager (center c) in
  exists c1, cluster_step (Center (AddSchedInfoRpc now1 now2 request)) c = Some c1 /\
    (accepted c1 = accepted c \/
     (accepted c1 = accepted c ++ [request] /\ in_sync config (the_service (center c1)) /\
      workload_tasks (the_service (center c1)) !! r_workload_id request = Some (request_entry config request) /\
      let t := table_for (schedule_tables (the_service (center c1))) epoch name in
      exists c2, cluster_step (Center (Turn now epoch write_ok)) c1 = Some c2 /\
        ((exists last, last_pushed_tables (loop (center c)) !! name = Some last /\ same_message t last) \/
         exists j c3 n, cluster_run (replicate j (receive k)) c2 = Some c3 /\
           members c3 !! k = Some (Member n (Some s)) /\ installed_table t (timer_master n)))).
Proof using All.
  intros Hf Hm Hl Hs name Hn Hsound Hnow Hw config. pose proof (formed_ok _ _ _ Hf) as Hok.
  destruct (AddSchedInfo_outcome config now1 now2 request (the_service (center c))) as (s1 & code & E & Hcase).
  set (e := AddSchedInfoRpc now1 now2 request). set (out := Output [] (Some code)).
  set (c1 := center_moves e (with_service s1 (center c)) out c).
  assert (Estep : cluster_step (Center e) c = Some c1).
  { cbn [cluster_step]. unfold run_center. cbn [e daemon_step]. fold config. rewrite E. reflexivity. }
  exists c1. split; [exact Estep|]. pose proof (cluster_step_ok _ (Center e) _ _ Hok I Estep) as Hok1.
  cbn [with_workloads workload_tasks] in Hcase.
  destruct Hcase as [(-> & _ & Hsync & Hch & Hwt & Hd)|(-> & _)]; [right|by left].
  split; [reflexivity|]. split; [exact Hsync|]. split.
  { change (the_service (center c1)) with s1. rewrite Hwt. apply lookup_insert_eq. }
  intros t. destruct (turn_queues config c1 now epoch write_ok s w name) as (c2 & E2 & Hm2 & Hcase); try done.
  { change (the_service (center c1)) with s1. intros He. rewrite He, dom_empty_L in Hd. apply (request_nodes_nonempty config request). apply set_eq. intros n. split; [|set_solver].
    intros Hin. rewrite Hd. apply elem_of_node_set. left. exists (r_workload_id request), (request_entry config request).
    split; [apply lookup_insert_eq|exact Hin]. }
  exists c2. split; [exact E2|]. fold t in Hcase. destruct Hcase as [Hlast|(w2 & cmds & Hw2 & Hdown & Hcmds)]; [by left|right].
  destruct (receive_all k m s w2 c2) as (c3 & n & E3 & Hm3 & Hfold & _); [by rewrite Hm2|done|done| |].
  { apply Forall_forall. intros cmd [Hin| ->]%Hcmds; [|done]. exact (proj1 (Forall_forall _ _) Hsound cmd Hin). }
  exists (length (downlink w2)), c3, n. split; [exact E3|]. split; [exact Hm3|]. rewrite Hdown in Hfold.
  eapply last_table_installed; [|exact Hfold]. destruct (ck_members _ _ Hok k m Hm) as [Hfires _].
  by eapply fires_mono; [|exact Hfires].
Qed.
End Delivery.

(** ** A run: a node starts, connects, and gets the table of a request *)

Definition demo_options : RuntimeOptions := Options "orch" 50060 "n" false false false.
Definition no_processes : nat -> option (list proc_entry) := fun _ => Some [].
Definition join_events : list cluster_event :=
  [Boot 0 example_machine demo_options (Loader 0 (Some (bpf_load 12))) SchedstatMonitor;
   Dial 0 7 4 "6.12"; Accept 7; Arrive 7 no_rpc].
Definition feed_events : list cluster_event :=
  [Center demo_add; Center (Turn 500 9 all_writes); Receive 0 no_processes (fun _ => 0) false].
Definition demo_start : cluster := Cluster demo_daemon 0 [] ∅ ∅.

Definition joined : cluster := default demo_start (@cluster_run scx_6_12 stable_sort join_events demo_start).
Definition fed : cluster := default joined (@cluster_run scx_6_12 stable_sort feed_events joined).

Lemma joined_formed : @formed scx_6_12 stable_sort demo_host [] joined.
Proof.
  apply (@formed_run scx_6_12 stable_sort demo_host [] join_events demo_start joined).
  - apply formed_start. by vm_compute.
  - vm_compute. repeat split; discriminate.
  - vm_compute. reflexivity.
Qed.

Lemma fed_formed : @formed scx_6_12 stable_sort demo_host [] fed.
Proof.
  apply (@formed_run scx_6_12 stable_sort demo_host [] feed_events joined fed joined_formed).
  - vm_compute. repeat split; discriminate.
  - vm_compute. reflexivity.
Qed.

Lemma joined_state : exists m w, members joined !! 0%nat = Some m /\ link m = Some 7%nat /\ wires joined !! 7%nat = Some w /\
  node_id_ (node_client (body m)) = "n"%string /\ the_nodes (center joined) !! "n"%string = Some 7%nat /\ downlink w = [] /\
  clock joined = 0.
Proof. vm_compute. do 2 eexists. repeat split. Qed.
Lemma joined_quiet : last_pushed_tables (loop (center joined)) !! "n"%string = None.
Proof. vm_compute. reflexivity. Qed.
Lemma joined_answers :
  match @cluster_step scx_6_12 stable_sort (Center demo_add) joined with Some c => length (accepted c) = 1%nat | None => False end.
Proof. vm_compute. reflexivity. Qed.
Lemma joined_accepted : accepted joined = [].
Proof. vm_compute. reflexivity. Qed.
Lemma nothing_readable : readable no_processes.
Proof. intros i w. by eexists. Qed.

Lemma accepted_workload_is_installed_witness :
  exists c1 c2 c3 j n t, @cluster_step scx_6_12 stable_sort (Center demo_add) joined = Some c1 /\
    @cluster_step scx_6_12 stable_sort (Center (Turn 500 9 all_writes)) c1 = Some c2 /\
    @cluster_run scx_6_12 stable_sort (replicate j (receive no_processes (fun _ => 0) false 0)) c2 = Some c3 /\
    members c3 !! 0%nat = Some (Member n (Some 7%nat)) /\ @installed_table stable_sort t (timer_master n).
Proof.
  destruct joined_state as (m & w & Hm & Hl & Hw & Hid & Hn & Hd & Hc).
  destruct (@accepted_workload_is_installed scx_6_12 stable_sort stable_sort_laws no_processes (fun _ => 0) false nothing_readable
    demo_host [] joined 0 m 7 w at_nine at_nine version1 500 9 all_writes joined_formed Hm Hl Hw) as (c1 & E1 & Hcase).
  - rewrite Hid. exact Hn.
  - rewrite Hd. constructor.
  - rewrite Hc. lia.
  - reflexivity.
  - pose proof joined_answers as Ha. rewrite E1 in Ha. destruct Hcase as [Hr|(_ & _ & _ & c2 & E2 & Hcase)].
    + rewrite Hr, joined_accepted in Ha. discriminate Ha.
    + rewrite Hid in Hcase. destruct Hcase as [(last & Hlast & _)|(j & c3 & n & E3 & Hm3 & Hi)].
      * rewrite joined_quiet in Hlast. discriminate Hlast.
      * do 6 eexists. split; [exact E1|]. split; [exact E2|]. split; [exact E3|]. split; [exact Hm3|exact Hi].
Defined.

(** The thread of the node's table. *)
Lemma fed_thread : exists m ss, members fed !! 0%nat = Some m /\
  CpuThread 2 ss 100000 9 ∈ cpu_threads (timer_master (body m)) /\ node_id_ (node_client (body m)) = "n"%string.
Proof. vm_compute. do 2 eexists. split; [reflexivity|]. split; [by left|reflexivity]. Qed.
Lemma fed_accepts : accepted fed = [version1].
Proof. vm_compute. reflexivity. Qed.
Lemma fed_config : node_config_manager (center fed) = new_manager.
Proof. vm_compute. reflexivity. Qed.

Lemma demo_fits : request_fits 100 version1.
Proof. apply Forall_singleton. split_and!; [|exists 1| | |]; vm_compute; reflexivity. Qed.

Lemma cluster_never_overlaps_witness :
  exists m ss t s, members fed !! 0%nat = Some m /\ CpuThread 2 ss 100000 9 ∈ cpu_threads (timer_master (body m)) /\
    @generated stable_sort new_manager [version1] "n"%string t /\ s ∈ table_slots t /\ m_cpu s = 2 /\
    let fired := @std_sort stable_sort _ offset_ns ss in
    target fired 5000 100000 3 + m_duration s * 1000 <= target fired 5000 100000 4.
Proof.
  destruct fed_thread as (m & ss & Hm & Hin & Hid).
  destruct (@cluster_never_overlaps scx_6_12 stable_sort stable_sort_laws demo_host [] fed 100 0 m 2 ss 100000 9 fed_formed)
    as (t & Hg & _ & Hover); [lia| | |exact Hm|exact Hin|].
  - rewrite fed_accepts. intros request ->%list_elem_of_singleton. exact demo_fits.
  - intros n. rewrite fed_config. repeat (apply Forall_cons; split; [unfold uword; pows; lia|]). constructor.
  - destruct (Hover 5000 3 ltac:(lia) ltac:(lia)) as (j & s & Hj & Hc & _ & Hle). exists m, ss, t, s.
    rewrite fed_config, fed_accepts, Hid in Hg. split; [exact Hm|]. split; [exact Hin|]. split; [exact Hg|].
    split; [by eapply list_elem_of_lookup_2|]. split; [exact Hc|exact Hle].
Defined.
