(* ===== verification/FaultPath.v ===== *)
(** * Faults on their way from a CPU to Pullpiri

    In a cluster, the faults the BPF programs report pass the monitor of their
    node, its stream, the orchestrator and its fault client.  What becomes of
    them is told by an account: reported = accepted by Pullpiri + waiting in
    the retry queue + under way + dropped from a full queue. *)
From stdpp Require Import prelude gmap strings list sorting pretty.
From Stdlib Require Import ZArith Lia.
From Stdlib Require String Ascii.
From S2P Require Import Prelude Text BpfMaps BpfSched BpfLoader TtShm TimerMaster SchedStat NodeConfig Messages GlobalScheduler SchedInfoService Faults Orchestrator OrchestratorDaemon NodeDaemon NodeClient NodeMain NodeTable NodeRecovery NodeSystem EndToEnd NodeLink Cluster.
Local Open Scope Z_scope.

Abbreviation report := FaultClient.FaultInfo.
Abbreviation faults_of := fault_service_client.
Abbreviation waiting := FaultClient.retry_queue.
Abbreviation acked := FaultClient.acked.

(** ** What Pullpiri is told *)

(** A fault event of node [node], the way [handle_fault_info] words it. *)
Definition notice (node : string) (f : FaultInfo) : report :=
  FaultClient.Fault (if decide (f_workload f = ""%string) then pretty (f_workload_hash f) else f_workload f) node
    (if decide (f_task f = ""%string) then pretty (f_task_hash f) else f_task f)
    (if bool_decide (fault_type f = DMISS) then FaultClient.DMISS else FaultClient.UNKNOWN) (f_dmiss_count f).

Definition notice_of (node : string) (e : NodeEvent) : option report :=
  match event e with fault f => Some (notice node f) | _ => None end.
Definition notices (node : string) (es : list NodeEvent) : list report := omap (notice_of node) es.

(** The faults on a stream, and on all streams. *)
Definition aboard (w : connection) : list report := notices (peer w) (uplink w).
Definition under_way (ws : gmap nat connection) : list report := map_to_list ws ≫= fun sw => aboard sw.2.

(** The fault that node [n] reports when its ring buffer hands over [e]. *)
Definition told_by (e : FaultEvent) (n : node) : option report :=
  '(e, misses) ← (FaultMonitor.ring_buf_callback (fault_monitor n) e).2;
  let name := default ""%string (workload_hash_to_id (tracking n) !! fault_workload_id_hash e) in
  Some (FaultClient.Fault (if decide (name = ""%string) then pretty (fault_workload_id_hash e) else name)
    (node_id_ (node_client n)) (pretty (fault_task_id_hash e))
    (if BpfMaps.fault_type e =? FAULT_DMISS then FaultClient.DMISS else FaultClient.UNKNOWN) misses).

(** The report that a step of the cluster brings up: an event of the ring
    buffer of a node that is in a session. *)
Definition brought_up (ev : cluster_event) (c : cluster) : list report :=
  match ev with
  | Work k (Ring e) =>
      match members c !! k with
      | Some m =>
          if connected_ (node_client (body m)) && stream_ (node_client (body m)) then option_list (told_by e (body m)) else []
      | None => []
      end
  | _ => []
  end.

(** A cluster an orchestrator started with [opts] gets into, with all that was
    reported in it. *)
Inductive formed_with `{!ScxConsts, !StdSort} (h : host) (opts : list long_opt) : cluster -> list report -> Prop :=
  | with_start now d : OrchestratorDaemon.main h opts = Ret (Running d) -> formed_with h opts (Cluster d now [] ∅ ∅) []
  | with_step c rs ev c' :
      formed_with h opts c rs -> allowed c ev -> cluster_step ev c = Some c' -> formed_with h opts c' (rs ++ brought_up ev c).

Fixpoint brought_up_by `{!ScxConsts, !StdSort} (evs : list cluster_event) (c : cluster) : list report :=
  match evs with
  | [] => []
  | ev :: evs => brought_up ev c ++ match cluster_step ev c with Some c => brought_up_by evs c | None => [] end
  end.

Lemma formed_with_run `{!ScxConsts, !StdSort} h opts evs c rs c' :
  formed_with h opts c rs -> all_allowed evs c -> cluster_run evs c = Some c' -> formed_with h opts c' (rs ++ brought_up_by evs c).
Proof.
  revert c rs. induction evs as [|ev evs IH]; intros c rs Hf; cbn [all_allowed cluster_run fold_opt brought_up_by].
  { intros _ [= <-]. by rewrite app_nil_r. }
  intros [Hev Hevs]. destruct (cluster_step ev c) as [c1|] eqn:E; [|done]. intros Hr. rewrite app_assoc.
  apply IH; [|exact Hevs|exact Hr]. by apply with_step with (1 := Hf).
Qed.

Lemma formed_with_formed `{!ScxConsts, !StdSort} h opts c rs : formed_with h opts c rs -> formed h opts c.
Proof. induction 1; [by apply formed_start|by eapply formed_step]. Qed.

(** ** Streams *)

Lemma notices_app node es es' : notices node (es ++ es') = notices node es ++ notices node es'.
Proof. apply omap_app. Qed.

Lemma under_way_insert ws s w : ws !! s = None -> under_way (<[s := w]> ws) ≡ₚ aboard w ++ under_way ws.
Proof. intros Hs. unfold under_way. by rewrite map_to_list_insert. Qed.

Lemma under_way_at ws s w : ws !! s = Some w -> under_way ws ≡ₚ aboard w ++ under_way (delete s ws).
Proof. intros Hs. rewrite <- (insert_delete_id ws s w Hs) at 1. apply under_way_insert, lookup_delete_eq. Qed.

Lemma under_way_set ws s w : under_way (<[s := w]> ws) ≡ₚ aboard w ++ under_way (delete s ws).
Proof. rewrite <- insert_delete_eq. apply under_way_insert, lookup_delete_eq. Qed.

(** A stream that changes without losing or getting faults. *)
Lemma under_way_same ws s w w' : ws !! s = Some w -> aboard w' = aboard w -> under_way (<[s := w']> ws) ≡ₚ under_way ws.
Proof. intros Hs E. by rewrite under_way_set, (under_way_at ws s w Hs), E. Qed.

Lemma alter_at (f : connection -> connection) (ws : gmap nat connection) s w : ws !! s = Some w -> alter f s ws = <[s := f w]> ws.
Proof. intros Hs. rewrite <- (insert_id ws s w Hs) at 1. apply alter_insert_eq. Qed.

(** More events on a stream. *)
Lemma under_way_push ws s w es :
  ws !! s = Some w -> under_way (alter (push_up es) s ws) ≡ₚ under_way ws ++ notices (peer w) es.
Proof.
  intros Hs. rewrite (alter_at _ _ _ w Hs), under_way_set, (under_way_at ws s w Hs). unfold aboard at 1.
  cbn [push_up peer uplink]. rewrite notices_app. fold (aboard w). rewrite <- !app_assoc. f_equiv. apply Permutation_app_comm.
Qed.

(** Commands carry no faults. *)
Lemma under_way_deliver out ws : under_way (deliver out ws) ≡ₚ under_way ws.
Proof.
  revert ws. induction out as [|[s cmd] out IH]; intros ws; cbn [deliver foldl]; [done|]. etrans; [apply IH|]. cbn [fst snd].
  destruct (ws !! s) as [w|] eqn:Hs; [|by rewrite alter_id'].
  rewrite (alter_at _ _ _ w Hs). by eapply under_way_same.
Qed.

(** ** Nodes *)

(** The faults a node writes: none, unless the step is an event of the ring
    buffer that is reported. *)
Definition writes (n n' : client) (rs : list report) : Prop :=
  exists es, written n' = written n ++ es /\ notices (node_id_ n) es = rs.

Lemma send_writes e c : (forall f, e <> fault f) -> writes c (send e c) [].
Proof.
  intros He. unfold send. destruct (connected_ c); cbn [negb]; [destruct (stream_ c)|].
  - exists [Event (node_id_ c) e]. split; [done|]. unfold notices, notice_of. cbn. destruct e; try done. by destruct (He f).
  - exists []. by rewrite app_nil_r.
  - exists []. by rewrite app_nil_r.
Qed.

Lemma same_writes c : writes c c [].
Proof. exists []. by rewrite app_nil_r. Qed.

Lemma ring_writes e n :
  writes (node_client n) (node_client (handle_ring_event e n))
    (if connected_ (node_client n) && stream_ (node_client n) then option_list (told_by e n) else []).
Proof.
  unfold handle_ring_event, told_by. destruct (FaultMonitor.ring_buf_callback _ _) as [m [[e' cnt]|]]; cbn [snd mbind option_bind].
  2:{ cbn [option_list]. destruct (_ && _); apply same_writes. }
  unfold fault_callback. cbv zeta.
  match goal with |- context [node_client (on_client ?f ?s)] => change (node_client (on_client f s)) with (f (node_client n)) end.
  cbn [set_monitor tracking option_list]. set (name := default _ _).
  unfold send_fault, send. destruct (connected_ (node_client n)) eqn:Ec; cbn [negb andb]; [destruct (stream_ (node_client n)) eqn:Es|].
  - eexists [_]. split; [reflexivity|]. unfold notices, notice_of, notice. cbn. unfold to_proto_fault_type.
    destruct (BpfMaps.fault_type e' =? FAULT_DMISS); [done|]. by destruct (_ =? FAULT_BUDGET_EXCEED).
  - apply same_writes.
  - apply same_writes.
Qed.

Section Conservation.
Context `{!ScxConsts, !StdSort, !StdSortLaws}.

(** What node [k] writes is then on its stream. *)
Lemma node_moves_under_way config k m n c rs :
  cluster_ok config c -> members c !! k = Some m -> writes (node_client (body m)) (node_client n) rs ->
  (connected_ (node_client (body m)) = false -> rs = []) ->
  under_way (wires (node_moves k m n c)) ≡ₚ under_way (wires c) ++ rs.
Proof using.
  intros Hok Hm (es & Ew & Er) Hc. unfold node_moves. cbn [wires]. rewrite Ew, drop_app_length.
  destruct (ck_members _ _ Hok k m Hm) as [_ Hl]. destruct (link m) as [s|].
  - destruct Hl as (w & Hs & Hp). rewrite (under_way_push _ _ w) by done. by rewrite Hp, Er.
  - rewrite Hc by done. by rewrite app_nil_r.
Qed.

(** ** The orchestrator *)

(** What the fault client makes of a report. *)
Definition taken (rpc : nat -> FaultClient.answer) (o : option report) (c : FaultClient.fault_client) : FaultClient.fault_client :=
  match o with Some r => (FaultClient.NotifyFault rpc c r).1 | None => c end.

(** The orchestrator attributes an event to the node that opened the stream. *)
Lemma stream_message_faults config c rpc s w e rest cur cl :
  cluster_ok config c -> wires c !! s = Some w -> uplink w = e :: rest -> node_of (g_orchestrator_service (center c)) !! s = Some cur ->
  (stream_message rpc s e (g_orchestrator_service (center c)) cl).2 = taken rpc (notice_of (peer w) e) cl.
Proof using.
  intros Hok Hs Hu Hcur. destruct (ck_wires _ _ Hok s w Hs) as [[Hup _] [_ Hv]]. rewrite Hu in Hup.
  apply Forall_cons in Hup as [He _]. unfold stream_message, notice_of. cbn [snd]. destruct (event e) as [| |f| |]; try done.
  assert (Hname : default ""%string (node_of (stream_event s (ev_node e) (g_orchestrator_service (center c))) !! s) = peer w).
  { unfold stream_event. rewrite Hcur, He. specialize (Hv cur Hcur).
    destruct (bool_decide_reflect (cur = ""%string)) as [->|Hne]; cbn [andb].
    - destruct (bool_decide_reflect (peer w = ""%string)) as [->|]; cbn [negb]; [by rewrite Hcur|].
      cbn [node_of]. by rewrite lookup_insert_eq.
    - rewrite Hcur. cbn. by destruct Hv. }
  rewrite Hname. done.
Qed.

(** A report is accepted, waits, or pushes the oldest out of a full queue. *)
Definition ready_client (c : FaultClient.fault_client) : Prop :=
  FaultClient.initialized c = true /\ (length (waiting c) <= FaultClient.kMaxRetryQueue)%nat.

Lemma taken_account rpc o c :
  ready_client c -> ready_client (taken rpc o c) /\ exists dropped,
    acked (taken rpc o c) ++ waiting (taken rpc o c) ++ dropped ≡ₚ acked c ++ waiting c ++ option_list o /\
    (dropped = [] \/ length (waiting c) = FaultClient.kMaxRetryQueue /\ o <> None).
Proof using.
  intros [Hi Hl]. destruct o as [r|]; cbn [taken option_list].
  2:{ split; [done|]. exists []. rewrite !app_nil_r. split; [done|by left]. }
  destruct (FaultClient.NotifyFault_keeps rpc c r Hi Hl) as (sent & rest & Hq & Hcase & Hi' & Hl' & _).
  split; [done|]. destruct (FaultClient.NotifyFault rpc c r) as [c' []]; cbn [fst] in *; destruct Hcase as [-> Ew]; rewrite Ew, Hq.
  - exists []. split; [|by left]. rewrite app_nil_r, <- !app_assoc. do 2 f_equiv. apply Permutation_app_comm.
  - assert (Hlen : length (waiting c) = (length sent + length rest)%nat) by (by rewrite Hq, length_app).
    case_decide as Ed.
    + destruct rest as [|x rest]; [discriminate Ed|]. exists [x]. split; [|right; split; [rewrite length_app; lia|done]]. cbn [tail].
      rewrite <- !app_assoc. do 2 f_equiv. by rewrite app_assoc, Permutation_app_comm.
    + exists []. split; [|by left]. by rewrite app_nil_r, <- !app_assoc.
Qed.

(** Only messages of streams reach the fault client. *)
Lemma daemon_step_faults d e d' out :
  daemon_step d e = Ret (d', out) -> match e with StreamMessage _ _ _ => True | _ => faults_of d' = faults_of d end.
Proof using.
  destruct e as [now1 now2 request|now write_ok policy workload|s|rpc s ev|s|now epoch write_ok]; cbn [daemon_step]; try done.
  - destruct (AddSchedInfo _ _ _ _ _) as [[s code]|]; cbn [obind]; [|done]. by intros [= <- _].
  - destruct (EnforceRecoveryPolicy _ _ _ _ _ _ _) as [[[[s b] code]|]|]; cbn [obind]; [by intros [= <- _]..|done].
  - by intros [= <- _].
  - by intros [= <- _].
  - destruct (GetScheduleTables _) as [s [ts ch]]. destruct (iterate _ _ _ _ _ _ _). by intros [= <- _].
Qed.

(** ** The account *)

Record accounted (rs : list report) (c : cluster) : Prop := {
  ac_client : ready_client (faults_of (center c));
  ac_sum : exists dropped,
    acked (faults_of (center c)) ++ waiting (faults_of (center c)) ++ under_way (wires c) ++ dropped ≡ₚ rs /\
    (dropped = [] \/ (FaultClient.kMaxRetryQueue < length rs)%nat);
}.

(** New reports on the streams, and nothing at the orchestrator. *)
Lemma accounted_more rs new c c' :
  accounted rs c -> faults_of (center c') = faults_of (center c) -> under_way (wires c') ≡ₚ under_way (wires c) ++ new ->
  accounted (rs ++ new) c'.
Proof using.
  intros [Hc (dropped & Hs & Hd)] Ef Eu. split; [by rewrite Ef|]. exists dropped. split.
  - rewrite Ef, Eu, <- Hs, <- !app_assoc. do 3 f_equiv. apply Permutation_app_comm.
  - destruct Hd as [?|?]; [by left|right]. rewrite length_app. lia.
Qed.

Lemma run_center_accounted rs e c c' :
  accounted rs c -> match e with StreamMessage _ _ _ => False | _ => True end -> run_center e c = Some c' -> accounted (rs ++ []) c'.
Proof using.
  intros Ha He E. unfold run_center in E. destruct (daemon_step (center c) e) as [[d out]|] eqn:Ed; [|done]. injection E as <-.
  apply (accounted_more rs [] c); [done| |].
  - pose proof (daemon_step_faults _ _ _ _ Ed) as Hf. cbn [center_moves center]. by destruct e.
  - cbn [center_moves wires]. by rewrite under_way_deliver, app_nil_r.
Qed.

(** An event arrives. *)
Lemma arrive_accounted config rs rpc s c c' :
  cluster_ok config c -> accounted rs c -> cluster_step (Arrive s rpc) c = Some c' -> accounted rs c'.
Proof using.
  intros Hok [Hc (dropped & Hsum & Hd)] E. cbn [cluster_step] in E. apply bind_Some in E as (w & Hs & E).
  destruct (node_of _ !! s) as [cur|] eqn:Ecur; [|done]. destruct (uplink w) as [|e rest] eqn:Eu; [done|].
  unfold run_center in E. cbn [with_wires center daemon_step] in E.
  pose proof (stream_message_faults config c rpc s w e rest cur (faults_of (center c)) Hok Hs Eu Ecur) as Hm.
  destruct (stream_message _ _ _ _ _) as [o cl]. cbn [snd] in Hm. subst cl. injection E as <-.
  destruct (taken_account rpc (notice_of (peer w) e) _ Hc) as (Hr & more & Hmore & Hfull).
  split; cbn [center_moves center with_wires with_faults with_nodes faults_of wires OrchestratorDaemon.written silent deliver foldl]; [done|].
  set (w' := Connection (peer w) (served w) rest (downlink w)).
  assert (Ew : aboard w = option_list (notice_of (peer w) e) ++ aboard w').
  { unfold aboard. rewrite Eu. unfold notices. cbn [w' peer uplink omap list_omap]. by destruct (notice_of _ _). }
  exists (more ++ dropped). split.
  - rewrite <- Hsum, under_way_set, (under_way_at _ _ w Hs), Ew.
    transitivity ((acked (taken rpc (notice_of (peer w) e) (faults_of (center c))) ++
      waiting (taken rpc (notice_of (peer w) e) (faults_of (center c))) ++ more) ++
      (aboard w' ++ under_way (delete s (wires c))) ++ dropped).
    + rewrite <- !app_assoc. do 2 f_equiv. rewrite !app_assoc. f_equiv. rewrite <- !app_assoc.
      by rewrite (app_assoc (aboard w')), Permutation_app_comm, <- ?app_assoc.
    + rewrite Hmore, <- !app_assoc. done.
  - destruct Hfull as [->|[Hfull Ho]]; [by rewrite app_nil_l|right]. apply Permutation_length in Hsum.
    rewrite <- Hsum, (under_way_at _ _ w Hs), Ew, !length_app, Hfull.
    destruct (notice_of (peer w) e) as [r|]; [change (length (option_list (Some r))) with 1%nat; lia|done].
Qed.

(** Node [k] goes on. *)
Lemma node_moves_accounted config k m n c rs new :
  cluster_ok config c -> members c !! k = Some m -> writes (node_client (body m)) (node_client n) new ->
  (connected_ (node_client (body m)) = false -> new = []) -> accounted rs c -> accounted (rs ++ new) (node_moves k m n c).
Proof using. intros Hok Hm Hw Hc Ha. eapply accounted_more; [exact Ha|done|]. by eapply node_moves_under_way. Qed.

Lemma command_writes c proc now tracing n n' :
  node_step (Command c proc now tracing) n = Some n' -> writes (node_client n) (node_client n') [].
Proof using.
  intros [-> |(id & ok & err & ->)]%command_client; [apply same_writes|]. unfold send_table_applied. by apply send_writes.
Qed.

Lemma rewire_accounted rs s w w' c :
  accounted rs c -> wires c !! s = Some w -> aboard w' = aboard w -> accounted rs (with_wires (<[s := w']> (wires c)) c).
Proof using.
  intros Ha Hs E. rewrite <- (app_nil_r rs). eapply accounted_more; [exact Ha|done|]. cbn [with_wires wires].
  by rewrite app_nil_r, (under_way_same _ _ _ _ Hs E).
Qed.

(** What a node that dials writes. *)
Lemma dial_accounted rs k s cpu_count release m c :
  accounted rs c -> wires c !! s = None ->
  let n := on_client (send_ready cpu_count release) (on_client open_stream (body m)) in
  accounted rs (node_moves k (Member (body m) (Some s)) n
    (with_wires (<[s := Connection (node_id_ (node_client n)) false [] []]> (wires c)) c)).
Proof using.
  intros Ha Hs. cbv zeta. set (n := on_client _ _). rewrite <- (app_nil_r rs). eapply accounted_more; [exact Ha|done|].
  unfold node_moves. cbn [wires with_wires link body].
  assert (Hw : writes (node_client (on_client open_stream (body m))) (node_client n) []) by (by apply send_writes).
  destruct Hw as (es & Ew & En). change (NodeClient.written (node_client n)) with (written (node_client n)) in Ew.
  change (NodeClient.written (node_client (on_client open_stream (body m)))) with (NodeClient.written (node_client (body m))) in Ew.
  rewrite Ew, drop_app_length, (under_way_push _ _ _ _ (lookup_insert_eq _ _ _)), under_way_insert by done.
  cbn [peer aboard uplink]. assert (Ei : node_id_ (node_client n) = node_id_ (node_client (on_client open_stream (body m)))).
  { apply (send_talks (ready (Ready cpu_count 4096 release false false)) (node_client (on_client open_stream (body m)))). }
  by rewrite Ei, En, app_nil_r, app_nil_r.
Qed.

Lemma cluster_step_accounted config rs ev c c' :
  cluster_ok config c -> allowed c ev -> accounted rs c -> cluster_step ev c = Some c' -> accounted (rs ++ brought_up ev c) c'.
Proof using.
  intros Hok Hal Ha. destruct ev as [k m o l sm|k s n r|k ev|k proc now tracing|k|s|s rpc|s|e]; [..|cbn [brought_up]].
  - intros [= <-]. cbn [brought_up]. by apply (accounted_more rs [] c); [..|rewrite app_nil_r].
  - cbn [cluster_step brought_up]. intros (m & Hmk & E)%bind_Some. destruct (link m) eqn:El; [done|].
    destruct (wires c !! s) eqn:Es; [done|]. injection E as <-. rewrite app_nil_r. by apply dial_accounted.
  - cbn [cluster_step]. intros (m & Hmk & (n & En & [= <-])%bind_Some)%bind_Some. cbn [brought_up]. rewrite Hmk.
    apply (node_moves_accounted config); [done|done| | |done].
    + destruct ev as [e ev|cmd proc now tracing|f|a].
      * rewrite (quiet_client (Kernel e ev) _ _ I En). apply same_writes.
      * destruct Hal.
      * injection En as <-. apply ring_writes.
      * rewrite (quiet_client (Timer a) _ _ I En). apply same_writes.
    + intros Hcon. destruct ev as [e ev|cmd proc now tracing|f|a]; [done|done| |done]. by rewrite Hcon.
  - cbn [cluster_step brought_up]. intros (m & Hmk & (s & El & (w & Hs & E)%bind_Some)%bind_Some)%bind_Some.
    destruct (downlink w) as [|cmd rest] eqn:Ed; [done|]. apply bind_Some in E as (n & En & [= <-]).
    destruct (ck_members _ _ Hok k m Hmk) as [Hf Hl]. rewrite El in Hl. destruct Hl as (w0 & Hs0 & Hp).
    assert (w0 = w) as -> by congruence. destruct (ck_wires _ _ Hok s w Hs) as [[Hu Hd] Hv]. rewrite Ed in Hd.
    apply (node_moves_accounted config); [|done|by eapply command_writes|done|by eapply rewire_accounted].
    eapply rewire_ok; [done|exact Hs|done| |exact Hv]. split; [exact Hu|]. intros t Ht. apply Hd. by right.
  - cbn [cluster_step brought_up]. intros (m & Hmk & (s & El & [= <-])%bind_Some)%bind_Some.
    apply (accounted_more rs [] c); [done..|]. by rewrite app_nil_r.
  - cbn [cluster_step brought_up]. intros (w & Hs & E)%bind_Some. destruct (served w); [done|].
    eapply (run_center_accounted rs (StreamOpen s)); [|exact I|exact E]. by eapply rewire_accounted.
  - intros E. cbn [brought_up]. rewrite app_nil_r. by eapply arrive_accounted.
  - cbn [cluster_step brought_up]. destruct (node_of _ !! s); [|done]. by apply (run_center_accounted rs (StreamClosed s)).
  - cbn [cluster_step]. apply run_center_accounted; [done|]. by destruct e.
Qed.

Lemma main_client h opts d : OrchestratorDaemon.main h opts = Ret (Running d) -> exists c,
  faults_of d = c /\ FaultClient.initialized c = true /\ waiting c = [] /\ acked c = [].
Proof using.
  unfold OrchestratorDaemon.main. destruct (GetOptions _ _) as [[o|]|]; [|done..].
  destruct (load_config _ _) as [[config|]|]; cbn [obind]; [|done..].
  unfold RunSchedInfoServer, Start. destruct (listens h _); cbn [negb]; [|done].
  unfold InitFaultClient, FaultClient.Initialize. cbn [FaultClient.initialized FaultClient.FaultServiceClient].
  destruct (decide _); [done|]. destruct (FaultClient.CreateChannel _ _); cbn [negb]; [|done].
  unfold RunOrchestratorServer. destruct (listens h _); [|done]. intros [= <-]. by eexists.
Qed.

Lemma formed_accounted h opts c rs : formed_with h opts c rs -> accounted rs c.
Proof using All.
  induction 1 as [now d Hm|c rs ev c' Hf IH Hal Hs].
  - destruct (main_client _ _ _ Hm) as (cl & E & Hi & Hw & Hk). split; cbn [center]; rewrite E; [split; [done|rewrite Hw; cbn; lia]|].
    exists []. rewrite Hw, Hk. split; [done|by left].
  - eapply cluster_step_accounted; [|done|done|done]. by eapply formed_ok, formed_with_formed.
Qed.
End Conservation.

(** ** Delivery *)

Section Delivery.
Context `{!ScxConsts, !StdSort, !StdSortLaws}.

(** A node in a session writes. *)
Definition linked (m : member) : Prop :=
  is_Some (link m) -> connected_ (node_client (body m)) = true /\ stream_ (node_client (body m)) = true.

Lemma linked_moves m n : linked m -> talks (node_client (body m)) (node_client n) -> linked (Member n (link m)).
Proof using. intros Hm (_ & Hc & Hs & _) Hl. cbn [body]. rewrite Hc, Hs. by apply Hm. Qed.

Lemma cluster_step_linked ev c c' :
  map_Forall (fun _ => linked) (members c) -> cluster_step ev c = Some c' -> map_Forall (fun _ => linked) (members c').
Proof using.
  intros Hall. assert (Hcenter : forall e c1 c2, members c1 = members c -> run_center e c1 = Some c2 -> members c2 = members c).
  { intros e c1 c2 E. unfold run_center. destruct (daemon_step _ _) as [[d out]|]; [|done]. by intros [= <-]. }
  destruct ev as [k m o l sm|k s n r|k ev|k proc now tracing|k|s|s rpc|s|e]; cbn [cluster_step].
  - intros [= <-]. apply map_Forall_insert_2; [|done]. intros Hl. by apply is_Some_None in Hl.
  - intros (m & Hmk & E)%bind_Some. destruct (link m); [done|]. destruct (wires c !! s); [done|]. injection E as <-.
    apply map_Forall_insert_2; [|done]. intros _. cbn [body].
    destruct (send_talks (ready (Ready n 4096 r false false)) (node_client (on_client open_stream (body m)))) as (_ & Hc & Hs & _).
    split; [exact Hc|exact Hs].
  - intros (m & Hmk & (n & En & [= <-])%bind_Some)%bind_Some. apply map_Forall_insert_2; [|done].
    eapply linked_moves; [by apply (Hall k)|by eapply node_step_talks].
  - intros (m & Hmk & (s & El & (w & Hs & E)%bind_Some)%bind_Some)%bind_Some.
    destruct (downlink w); [done|]. apply bind_Some in E as (n & En & [= <-]). apply map_Forall_insert_2; [|done].
    eapply linked_moves; [by apply (Hall k)|by eapply node_step_talks].
  - intros (m & Hmk & (s & El & [= <-])%bind_Some)%bind_Some. apply map_Forall_insert_2; [|done].
    intros Hl. by apply is_Some_None in Hl.
  - intros (w & Hs & E)%bind_Some. destruct (served w); [done|]. by rewrite (Hcenter _ (with_wires _ c) _ eq_refl E).
  - intros (w & Hs & E)%bind_Some. destruct (node_of _ !! s); [|done]. destruct (uplink w); [done|].
    by rewrite (Hcenter _ (with_wires _ c) _ eq_refl E).
  - destruct (node_of _ !! s); [|done]. intros E. by rewrite (Hcenter _ c _ eq_refl E).
  - intros E. by rewrite (Hcenter _ c _ eq_refl E).
Qed.

Lemma formed_linked h opts c : formed h opts c -> map_Forall (fun _ => linked) (members c).
Proof using. induction 1; [apply map_Forall_empty|by eapply cluster_step_linked]. Qed.

Lemma formed_has_reports h opts c : formed h opts c -> exists rs, formed_with h opts c rs.
Proof using.
  induction 1 as [now d Hm|c ev c' _ [rs IH] Hal Hs]; [exists []; by apply with_start|].
  eexists. by apply with_step with (1 := IH) (2 := Hal).
Qed.

Context (rpc : nat -> FaultClient.answer).
Hypothesis Hrpc : forall i, FaultClient.accepted rpc i = true.

(** A client whose calls all succeed sends what waits, then the report. *)
Lemma taken_all o c :
  ready_client c -> acked (taken rpc o c) ++ waiting (taken rpc o c) = acked c ++ waiting c ++ option_list o /\
    (o <> None -> waiting (taken rpc o c) = []).
Proof using Hrpc.
  intros [Hi Hl]. destruct o as [r|]; cbn [taken].
  2:{ split; [|done]. by rewrite app_nil_r. }
  destruct (FaultClient.NotifyFault_keeps rpc c r Hi Hl) as (sent & rest & Hq & Hcase & _ & _ & Hall).
  destruct Hall as [Ht Hw]; [intros; apply Hrpc|]. destruct (FaultClient.NotifyFault rpc c r) as [c' b]. cbn [fst snd] in *. subst b.
  destruct Hcase as [-> Er]. rewrite Hw, app_nil_r. rewrite Hw in Er. subst rest. rewrite app_nil_r in Hq. by rewrite Hq.
Qed.

(** One event arrives. *)
Lemma arrive_step config c s w e rest :
  cluster_ok config c -> wires c !! s = Some w -> uplink w = e :: rest ->
  is_Some (node_of (g_orchestrator_service (center c)) !! s) ->
  exists c' w', cluster_step (Arrive s rpc) c = Some c' /\ wires c' !! s = Some w' /\ peer w' = peer w /\ uplink w' = rest /\
    is_Some (node_of (g_orchestrator_service (center c')) !! s) /\
    faults_of (center c') = taken rpc (notice_of (peer w) e) (faults_of (center c)).
Proof using.
  intros Hok Hs Hu [cur Hcur]. cbn [cluster_step]. rewrite Hs. cbn [mbind option_bind]. rewrite Hcur, Hu.
  unfold run_center. cbn [with_wires center daemon_step].
  pose proof (stream_message_faults config c rpc s w e rest cur (faults_of (center c)) Hok Hs Hu Hcur) as Hm.
  destruct (stream_message _ _ _ _ _) as [o cl] eqn:Eo. cbn [snd] in Hm. do 2 eexists. split; [reflexivity|].
  cbn [center_moves center with_wires with_faults with_nodes faults_of wires OrchestratorDaemon.written silent deliver foldl
    g_orchestrator_service].
  split; [apply lookup_insert_eq|]. split_and!; [done|done| |done].
  injection Eo as <- _. unfold stream_event. rewrite Hcur. destruct (_ && _); [|by eexists]. cbn [node_of].
  rewrite lookup_insert_eq. by eexists.
Qed.

(** All that is under way on a stream arrives. *)
Lemma drain config c s w :
  cluster_ok config c -> ready_client (faults_of (center c)) -> wires c !! s = Some w ->
  is_Some (node_of (g_orchestrator_service (center c)) !! s) ->
  exists c', cluster_run (replicate (length (uplink w)) (Arrive s rpc)) c = Some c' /\
    acked (faults_of (center c')) ++ waiting (faults_of (center c')) =
      acked (faults_of (center c)) ++ waiting (faults_of (center c)) ++ aboard w /\
    (waiting (faults_of (center c)) = [] \/ aboard w <> [] -> waiting (faults_of (center c')) = []).
Proof using All.
  unfold aboard. remember (uplink w) as es eqn:Eu. revert c w Eu. induction es as [|e es IH]; intros c w Eu Hok Hc Hs Hn.
  { exists c. cbn. rewrite app_nil_r. split_and!; [done..|]. by intros [?|?]. }
  destruct (arrive_step config c s w e es Hok Hs (eq_sym Eu) Hn) as (c1 & w1 & E1 & Hs1 & Hp1 & Hu1 & Hn1 & Hf1).
  pose proof (cluster_step_ok config (Arrive s rpc) _ _ Hok I E1) as Hok1.
  destruct (taken_account rpc (notice_of (peer w) e) _ Hc) as [Hc1 _].
  destruct (taken_all (notice_of (peer w) e) _ Hc) as [Ha Hw]. rewrite <- Hf1 in Hc1, Ha, Hw.
  destruct (IH c1 w1 (eq_sym Hu1) Hok1 Hc1 Hs1 Hn1) as (c2 & E2 & Ha2 & Hw2). exists c2.
  cbn [length replicate cluster_run fold_opt]. rewrite E1. split; [exact E2|]. rewrite Hp1 in Ha2, Hw2.
  assert (Ee : notices (peer w) (e :: es) = option_list (notice_of (peer w) e) ++ notices (peer w) es)
    by (unfold notices; cbn [omap list_omap]; by destruct (notice_of _ _)).
  split; [rewrite Ha2, app_assoc, Ha, Ee, <- !app_assoc; done|].
  intros Hcase. apply Hw2. rewrite Ee in Hcase. destruct (notice_of (peer w) e) as [r|]; [left; by apply Hw|].
  destruct Hcase as [Hz|?]; [left|by right]. rewrite Hf1. exact Hz.
Qed.
End Delivery.

(** ** Properties *)

Section Properties.
Context `{!ScxConsts, !StdSort, !StdSortLaws}.

(** C13. No fault is invented, duplicated or lost by the programs.  Whatever
    happens in a cluster - nodes that fail, streams that break, a Pullpiri
    that does not answer -, the reports that nodes in a session made are, each
    exactly once, in the words of its node: accepted by Pullpiri, waiting in
    the retry queue, on a stream, or dropped from the queue; and none is
    dropped before more than 1024 reports were made. *)
Theorem reports_accounted_for h opts c rs :
  formed_with h opts c rs ->
  exists dropped,
    acked (faults_of (center c)) ++ waiting (faults_of (center c)) ++ under_way (wires c) ++ dropped ≡ₚ rs /\
    (length (waiting (faults_of (center c))) <= FaultClient.kMaxRetryQueue)%nat /\
    ((length rs <= FaultClient.kMaxRetryQueue)%nat -> dropped = []).
Proof using All.
  intros Hf. destruct (formed_accounted _ _ _ _ Hf) as [[_ Hl] (dropped & Hs & Hd)].
  exists dropped. split; [exact Hs|]. split; [exact Hl|]. intros Hle. destruct Hd as [?|?]; [done|lia].
Qed.

(** C12. From the ring buffer to Pullpiri.  In any cluster, whatever happened
    before, when the monitor of a node in a session reports an event and the
    orchestrator serves the node's stream and reads what is on it, while
    Pullpiri accepts what it is sent, then Pullpiri has accepted, in this
    order: what waited in the retry queue, the faults that were already on the
    stream, and the new report; and nothing waits any more. *)
Theorem report_reaches_pullpiri (rpc : nat -> FaultClient.answer) h opts c k m s w e r :
  (forall i, FaultClient.accepted rpc i = true) ->
  formed h opts c -> members c !! k = Some m -> link m = Some s -> wires c !! s = Some w ->
  is_Some (node_of (g_orchestrator_service (center c)) !! s) -> told_by e (body m) = Some r ->
  exists c1 j c2, cluster_step (Work k (Ring e)) c = Some c1 /\
    cluster_run (replicate j (Arrive s rpc)) c1 = Some c2 /\
    acked (faults_of (center c2)) =
      acked (faults_of (center c)) ++ waiting (faults_of (center c)) ++ aboard w ++ [r] /\
    waiting (faults_of (center c2)) = [].
Proof using All.
  intros Hrpc Hf Hm Hl Hs Hn Hr. pose proof (formed_ok _ _ _ Hf) as Hok. destruct (formed_has_reports _ _ _ Hf) as [rs Hrs].
  destruct (formed_accounted _ _ _ _ Hrs) as [Hc _]. destruct (formed_linked _ _ _ Hf k m Hm) as [Hcon Hstr]; [by rewrite Hl|].
  destruct (ring_writes e (body m)) as (es & Ew & En). rewrite Hcon, Hstr, Hr in En. cbn [andb] in En.
  set (c1 := node_moves k m (handle_ring_event e (body m)) c). set (w1 := push_up es w).
  assert (E1 : cluster_step (Work k (Ring e)) c = Some c1) by (cbn [cluster_step]; rewrite Hm; done).
  assert (Hs1 : wires c1 !! s = Some w1).
  { unfold c1, node_moves. cbn [wires]. rewrite Hl, Ew, drop_app_length, (alter_at _ _ _ w Hs). apply lookup_insert_eq. }
  destruct (ck_members _ _ Hok k m Hm) as [_ Hlm]. rewrite Hl in Hlm. destruct Hlm as (w0 & Hw0 & Hp).
  assert (w0 = w) as -> by congruence.
  assert (Ha : aboard w1 = aboard w ++ [r]) by (unfold aboard, w1; cbn [push_up peer uplink]; by rewrite notices_app, Hp, En).
  pose proof (cluster_step_ok _ (Work k (Ring e)) _ _ Hok I E1) as Hok1.
  destruct (drain rpc Hrpc _ c1 s w1 Hok1 Hc Hs1 Hn) as (c2 & E2 & Hacked & Hw2).
  assert (Hw : waiting (faults_of (center c2)) = []) by (apply Hw2; right; rewrite Ha; by destruct (aboard w)).
  exists c1, (length (uplink w1)), c2. split; [exact E1|]. split; [exact E2|]. split; [|exact Hw].
  rewrite Hw, app_nil_r, Ha in Hacked. exact Hacked.
Qed.
End Properties.

(** *** A task that misses two deadlines of which one is allowed *)

Definition strict_request : SchedInfo :=
  SchedInfo_ "w"%string [TaskInfo_ "a"%string 0 0 0 100 0 10 0 "n"%string 1] TEMPORAL_PERIODIC.
Definition one_process (i : nat) : option (list proc_entry) := Some [ProcEntry (chars "41") true (Some (chars "a"))].
Definition a_miss : FaultEvent := Build_FaultEvent (fnv1a_hash "w") (fnv1a_hash "a") 2 0 None FAULT_DMISS.
Definition strict_events : list cluster_event :=
  [Center (AddSchedInfoRpc at_nine at_nine strict_request); Center (Turn 500 9 all_writes);
   Receive 0 one_process (fun _ => 0) false; Work 0 (Ring a_miss)].
Definition strict : cluster := default joined (@cluster_run scx_6_12 stable_sort strict_events joined).
Definition accepts (n : nat) : FaultClient.answer := FaultClient.Answer true 0.
Definition refuses (n : nat) : FaultClient.answer := FaultClient.Answer false 0.
(** The second miss is reported; Pullpiri refuses the report. *)
Definition late_events : list cluster_event := [Work 0 (Ring a_miss); Arrive 7 refuses; Arrive 7 refuses].
Definition late : cluster := default strict (@cluster_run scx_6_12 stable_sort late_events strict).
Definition a_report : report := FaultClient.Fault "w" "n" "12638187200555641996" FaultClient.DMISS 2.

Lemma joined_formed_with : @formed_with scx_6_12 stable_sort demo_host [] joined [].
Proof.
  apply (@formed_with_run scx_6_12 stable_sort demo_host [] join_events demo_start [] joined).
  - apply with_start. by vm_compute.
  - vm_compute. repeat split; discriminate.
  - vm_compute. reflexivity.
Qed.
Lemma strict_formed_with : @formed_with scx_6_12 stable_sort demo_host [] strict [].
Proof.
  apply (@formed_with_run scx_6_12 stable_sort demo_host [] strict_events joined [] strict joined_formed_with).
  - vm_compute. repeat split; discriminate.
  - vm_compute. reflexivity.
Qed.
Lemma late_formed_with : @formed_with scx_6_12 stable_sort demo_host [] late [a_report].
Proof.
  apply (@formed_with_run scx_6_12 stable_sort demo_host [] late_events strict [] late strict_formed_with).
  - vm_compute. repeat split; discriminate.
  - vm_compute. reflexivity.
Qed.
Lemma strict_member : exists m, members strict !! 0%nat = Some m /\ link m = Some 7%nat /\ told_by a_miss (body m) = Some a_report.
Proof.
  apply (evaluated (members strict !! 0%nat) (fun m => link m = Some 7%nat /\ told_by a_miss (body m) = Some a_report)).
  vm_compute. split; reflexivity.
Qed.
Lemma strict_wire : exists w, wires strict !! 7%nat = Some w /\ aboard w = [].
Proof. apply (evaluated (wires strict !! 7%nat) (fun w => aboard w = [])). vm_compute. reflexivity. Qed.
Lemma strict_center : is_Some (node_of (g_orchestrator_service (center strict)) !! 7%nat) /\
  acked (faults_of (center strict)) = [] /\ waiting (faults_of (center strict)) = [].
Proof. vm_compute. split; [by eexists|split; reflexivity]. Qed.
Lemma late_state : acked (faults_of (center late)) = [] /\ waiting (faults_of (center late)) = [a_report].
Proof. vm_compute. split; reflexivity. Qed.

Lemma reports_accounted_for_witness : exists dropped,
  [a_report] ++ under_way (wires late) ++ dropped ≡ₚ [a_report] /\ dropped = [].
Proof.
  destruct late_state as [Ha Hw].
  destruct (@reports_accounted_for scx_6_12 stable_sort stable_sort_laws demo_host [] late [a_report] late_formed_with)
    as (dropped & Hs & _ & Hd).
  rewrite Ha, Hw in Hs. exists dropped. split; [exact Hs|]. apply Hd. apply Nat.leb_le. reflexivity.
Defined.

Lemma report_reaches_pullpiri_witness : exists c1 j c2,
  @cluster_step scx_6_12 stable_sort (Work 0 (Ring a_miss)) strict = Some c1 /\
  @cluster_run scx_6_12 stable_sort (replicate j (Arrive 7 accepts)) c1 = Some c2 /\
  acked (faults_of (center c2)) = [a_report].
Proof.
  destruct strict_member as (m & Hm & Hl & Hr). destruct strict_wire as (w & Hs & Hab).
  destruct strict_center as (Hn & Ha & Hw).
  destruct (@report_reaches_pullpiri scx_6_12 stable_sort stable_sort_laws accepts demo_host [] strict 0 m 7 w a_miss a_report)
    as (c1 & j & c2 & E1 & E2 & Hacked & _).
  - intros i. reflexivity.
  - eapply formed_with_formed. exact strict_formed_with.
  - exact Hm.
  - exact Hl.
  - exact Hs.
  - exact Hn.
  - exact Hr.
  - exists c1, j, c2. split; [exact E1|]. split; [exact E2|]. rewrite Hacked, Ha, Hw, Hab. reflexivity.
Defined.
